(* ===== verification/_CoqProject ===== *)
-Q . S2P
Prelude.v
GoStrings.v
Keys.v
Data.v
Store.v
Backoff.v
Publish.v
Workflow.v
Broker.v
Control.v
Auth.v
Timers.v
Fsm.v
Demo.v
Snapshot.v
Typing.v
FsmProps.v
Recovery.v
Reason.v
Structure.v
Accounting.v
AccountingOps.v
AccountingLog.v
History.v
BrokerProps.v
SettleProps.v
Conservation.v
RaftStore.v
Fairness.v
Float.v
GoNumbers.v
Flags.v
Policy.v
Scheduler.v
SchedulerProps.v
Hash.v
Meter.v
Commands.v
Node.v
NodeControl.v
NodeOps.v
NodeStats.v
NodeWorkflow.v
NodeAuth.v
Observatory.v
Transport.v
Work.v
Http.v
Metrics.v
KeysProps.v
NodeProps.v
NodeDemo.v
Start.v
Pages.v
NodeAuthProps.v
TransportProps.v
Advance.v
NodeLease.v
WorkProps.v
DemoCmd.v
HttpProps.v
Paths.v
Static.v
Backup.v
BackupProps.v
Quiet.v
Client.v
Doctor.v
DoctorProps.v
Load.v
Cli.v
CliProps.v
LoadRuns.v
Render.v
Viz.v
Serve.v
ServeProps.v
HistoryProps.v
Singleton.v
Counterexamples.v
