(* ===== verification/Prelude.v ===== *)
(** * Rota: a verification development (root file)

    Rota is a replicated message broker with fair scheduling and a durable
    workflow engine, written in Go under [src/].  This library models its logic
    as Rocq functions, one file per component, and proves what makes it correct.
    It is a shallow embedding: a Go function is a Rocq function of the same name
    on the same data, and every definition evaluates on concrete inputs.

    ** The program and its parts

    A client request enters a NODE ([internal/node]).  The node checks the
    token, reads the committed store, asks the SCHEDULER
    ([internal/scheduler], with a POLICY of [internal/policy]) which group to
    serve, and proposes a command to Raft.  Every replica's STATE MACHINE
    ([internal/fsm]) applies the committed commands in log order; one command
    becomes one atomic batch on the STORE ([internal/storage], over Pebble).
    Raft's own log lives in the same database ([internal/raftpebble]).  The
    leader also sweeps the timer table and proposes a fire command for each due
    timer, and keeps leader-local tables (scheduler virtual times, rate meters,
    lane limits, the served-order projection) that are not replicated.

    In front of the node stand the gRPC services, the Work stream and the
    dashboard's HTTP gateway ([internal/transport], [internal/httpapi]), each
    behind a token check and a leader guard.  The command line ([cmd/rota]) starts
    a server, and is a client of one: operator commands, a health report, load
    generators; its offline backups work on a stopped node's directory.  The demo
    and the visualiser ([cmd/rotaviz]) run a node in their own process.

    The library follows this path from the bottom up:

    - [Prelude] - byte strings, fixed-width integers, the program-independent
      lemmas and tactics the components share.
    - [Keys] - [storage/keys.go], [range.go]: the key of each table's rows, the
      references timers carry, the scan bounds.  [KeysProps] has its theorems.
    - [Data] - the stored rows, commands and results ([fsm/command.go], the JSON
      records of [apply_phase4.go], the protobuf messages the FSM stores).
    - [Store] - [storage/store.go]: iterators over a finite map, batches, and the
      monad [M] of an [Apply] handler.
    - [Backoff], [Publish], [Broker], [Timers], [Control], [Workflow], [Auth] -
      the handlers of [internal/fsm] ([backoff.go], [fsm.go],
      [apply_phase4.go], [apply_workflow.go], [apply_auth.go]).
    - [Fsm] - [Apply] and its dispatch; [Snapshot] - [Snapshot], [Persist] and
      [Restore] on raw bytes.
    - [RaftStore] - [raftpebble/store.go].
    - [Float], [Policy], [Scheduler], [Fairness], [Meter], [Hash] - binary64
      arithmetic; [internal/policy]; [internal/scheduler]; the served-order
      projection, the lane meters; SHA-256, hex, base64 and trimming as the
      node's token code uses them.
    - [Commands], [Node], [NodeControl], [NodeOps], [NodeStats], [NodeWorkflow],
      [NodeAuth], [Observatory] - [internal/node], one file per Go file
      ([node.go] is split into [Node], the state, proposals and admission, and
      [NodeOps], leasing, settling, policies and the timer sweep).
    - [Start] - opening a node: its transport, the cluster's first configuration,
      waiting for leadership ([node.go]).
    - [GoStrings], [GoNumbers], [Flags], [Paths] - what the front ends use of Go's
      [strings], [strconv], [fmt], [time], [flag], [path/filepath] and [os]; a file
      system is a map.
    - [Transport] - [transport/auth.go], [leader.go] and the unary services
      ([broker.go], [control.go], [workflow.go]): one constructor of [Request] per
      method, what it asks of the caller's token and of the node ([unaryCall]),
      and its handler.
    - [Work] - the Work stream of [broker.go]: a state, and a step per event of
      the handler's [select], so that any interleaving with other calls is a trace.
    - [Http] - [internal/httpapi]: routes, authorization, handlers, and the
      server-sent events of the fairness stream; [Static] - which file of the
      console answers a path.
    - [Serve] - [cmdServe] of [cmd/rota/main.go] with [security.go]; [Metrics] -
      [internal/observe], [cmd/rota/metrics.go] and the mux of the side port.
    - [Cli] - [main] and the flags of every command: a command line becomes an
      [Operation], [perform] runs it; [Render] - the text every writer prints.
    - [Client], [Doctor] - [cmd/rota/client.go], [ops.go], [auth.go], [doctor.go]:
      commands as sequences of calls on the node at the other end.
    - [Load], [LoadRuns] - [bench.go], [soak.go]: the steps, and whole runs, the
      soak's goroutines as a schedule of turns; [Backup] - [backup.go].
    - [DemoCmd] - [cmdDemo]; [Viz] - [cmd/rotaviz/main.go]: the turns of its
      goroutines, and every frame it draws.

    The other files are proofs.  [Reason] (inversion of a handler's run, lookups
    after a batch, properties of every write), [Structure] (totality and frames)
    and [Typing] (row types) are the automation and the interface between
    the handlers and the theorems.  [Accounting], [AccountingOps] and
    [AccountingLog] carry the broker's invariant; [History] carries the workflow
    invariant; [NodeProps] carries the stable-leader scenario; [Advance] orders
    node states by what time may do to them; [Quiet] is the frame of the commands
    that leave a table alone.  [Demo] and [NodeDemo] are concrete instances for the
    witnesses.

    ** How a Go object is represented

    - A Pebble database is a [gmap] from keys to rows.  Keys are exact bytes.
      Rows are typed ([value]); protobuf and JSON encodings of rows are the
      identity.  Reading a row at another type is reading it as absent, which
      [applyLog_typed] shows never happens.  Snapshots and Raft's log use raw
      bytes on both sides.  I/O errors are not modelled.
    - A handler is in the monad [M]: it reads the committed store and only
      appends to its batch, so a read never sees a write of the same batch, as
      in the code.  An [Apply] that panics is [None].
    - [uint64] and [uint32] are [N], [int] and [int64] are [Z], with the
      wrap-around written out; [float64] is [SpecFloat]'s binary64, rounded after
      every operation (no fused multiply-add, as on amd64).
    - A node operation is in the monad [NM]: an error keeps the state changes
      made so far, a panic is [None].  Raft, the clock, randomness, cron parsing,
      rate limiters and codecs are the class [World]; a proposal may find other
      entries applied before its own, and may be refused.  Mutexes are not
      modelled: between two proposals an operation runs alone.
    - Third-party code is always a parameter: the payload codec
      ([PayloadCodec], with [PayloadCodecLaws] for the theorems that need a
      round trip), Raft's log codec, the CEL and WASM engines, regular
      expressions, Unicode lower-casing, JSON documents and the table of printable
      characters ([TextEnv]), dialing ([ClientEnv]), files, certificates and
      listening ([ServeEnv]), Raft's own disk and bootstrap ([RaftBoot]).  [Demo],
      [NodeDemo] and the witnesses instantiate them, laws included.
    - Go's iteration order over a map is unspecified: where the code ranges over
      a map and the order matters the order is a parameter or the theorem holds
      for any order.
    - Prometheus counters are one map of counts in the node; the text of an error
      is abbreviated, its presence and place are not.

    ** What the theorems show

    - Replication ([FsmProps], [Recovery]): a restart that replays the log reaches
      the state of a node that never stopped, and so does a follower that installs
      a leader's snapshot; a command's batch is all or nothing; every row a log
      writes has its table's type.
    - Broker accounting ([Accounting*], [BrokerProps], [SettleProps]): a group's
      counters are the numbers of its messages per state and leases and leased
      messages match, after every log; and the exact result of publishing,
      leasing, acking, nacking, extending, expiring and purging on every branch.
    - Conservation ([Conservation]): but for an ack, a successful completion, a
      purge or cancel and a group teardown, a command keeps every stored message
      with its contents, or leaves a dead letter with them.
    - Workflows ([HistoryProps]): histories are gap-free and append-only, a
      fenced append is accepted only at the version it was computed from, an
      activity ends once.
    - Storage ([KeysProps], [Snapshot], [RaftStore], [Pages]): keys are
      injective and ordered, scans visit exactly their rows, snapshots round-trip,
      Raft's log contract, pagination enumerates a table.
    - Scheduling ([SchedulerProps], [Fairness]): work conservation, the
      weighted-fair choice, equal service at the default weight, quarantine of a faulty
      policy, the projection against its reference window.
    - The node ([NodeProps], [NodeLease], [NodeAuthProps]): on a stable leader
      the timer sweep drains the due timers, an open lane with a leasable group
      yields a message unless its policy is a WASM module that can succeed
      without a value, and a fresh token authorizes exactly its principal's
      grants until the principal is disabled.
    - The front ends ([TransportProps], [WorkProps], [HttpProps], [ServeProps]):
      a denied call has no effect and a follower's state does not change; a stream
      hands out only what an admitted frame authorizes (an empty name standing
      for the names it left out), stays within its credit and uses it; the
      gateway answers as the gRPC method it stands for, or panics on one path; a
      server given a bootstrap
      token is never open, through restarts and snapshots.
    - Starting ([Start], [Metrics]): a node bootstraps its cluster at most once;
      metric names are distinct, and the probe always answers.
    - Singletons ([Singleton]): fences grow and a superseded holder is locked out.
    - The command line ([Flags], [CliProps], [DoctorProps], [Load],
      [LoadRuns], [BackupProps]): printed numbers and flags parse back, every
      operator command has a command line that runs exactly it, listings end and
      are complete, the health report is the one read directly off the store, load
      generators cover, settle and count what they say whatever the interleaving, a
      restore stays in its directory and gives a created backup back.  [Paths] shows
      that cleaning a path does not change where it leads, [Static] that a request
      never leaves the console's directory.
    - The demo and the visualiser ([DemoCmd], [Viz]): a run of the demo
      alternates between its groups; the visualiser's counts add up in every
      interleaving and drawing never panics.
    - [Counterexamples] computes runs of the model in which the code does
      something its comments or names deny.

    ** Bounds and fuel

    - [Restore] and the stream parsers take fuel [S (length stream)]: each step
      consumes at least one byte.  [historyUpto] takes the number of rows of the
      store: [history_length] shows it is enough.  The pagination client takes
      one call more than the store has rows, at least one row per page
      ([listAll_exact]); the benchmark's publishing loop one turn more than it has
      batches ([bench_covers]).  A stream's delivery loop takes the difference of
      credit and leases in flight, the turns it can make.
    - The accounting invariant carries a bound on ids.  It holds for logs that
      publish fewer than 2^64 messages, on lane, group and key names shorter than
      65536 bytes (the length prefix of a key is 16 bits), without a NUL byte in
      the lanes of a batch publish (its map key is "lane NUL group"), and without
      a group teardown, which by design keeps the leases of the group it drops.
    - The workflow invariant holds for run ids below 2^64 and logs of fewer than
      2^64 runs and events.
    - Liveness theorems are about the scenario [StableRaft]: this node stays the
      leader and what it proposes commits.  The pagination theorem is about a
      store that does not change between two pages, and so are the operator's
      commands: the node is at rest while one runs.
    - A proposal crosses Raft as a JSON document, which keeps a string only when it
      is UTF-8 ([ValidString]).  The theorems that propose names ask it of those
      names, and of the codec that it carries such commands ([StableRaft]'s
      [portable], [json_names]); byte slices and numbers always survive.
    - A WASM module that succeeds without a value makes the code panic:
      [silent_policy] is the case [Pick_work_conserving] singles out and
      [policy_answers] the one [LeaseOneFiltered_delivers] excludes.
    - The command line holds durations in nanoseconds, the service reads
      milliseconds; [milliseconds] stands where the code calls it or the server does.
    - [serve_sealed] follows a node through calls, streams, sweeps, committed
      entries, gateway requests, snapshots of a later state and restarts.
    - The demo's client takes one turn more than it publishes messages, one lease a
      turn; its example is a run of thirty and three messages instead of five
      hundred and twenty.
    - [http_matches_grpc], the operator theorems and the backup theorems have named
      hypotheses on their parameters (request bodies, what the token may read, the
      archive codec); each has a witness with concrete ones.

    ** Not modelled

    Generated gRPC and protobuf code ([gen/]), the wire formats, gRPC and HTTP
    themselves, JSON rendering and the serving of files; Raft itself; stopping a
    node ([Close]) and the calls handed to Raft unchanged ([AddVoter], [Barrier],
    [ForceSnapshot]); the timers that pace the loops, whose turns are modelled, and
    what the clock measures; the Prometheus library, signals and the gRPC health
    service; usage texts and the progress lines of commands that print no report;
    modes, links and I/O errors of files; the client SDKs, the web console and the
    examples.  They keep no state of the broker and decide nothing about it. *)

From Stdlib Require Export NArith ZArith Lia.
From Stdlib Require Export Ascii.
From Stdlib Require String.
From stdpp Require Export base option strings sorting gmap list.

#[export] Set Default Goal Selector "!".
#[export] Set Default Proof Using "Type".
#[export] Set Warnings "-clear-no-such-hyp".

Declare Scope rota_scope.
Delimit Scope rota_scope with rota.

(** ** Byte strings

    Go's [string] and [[]byte] are both sequences of bytes; both are [bytes]. *)
Abbreviation byte := ascii.
Abbreviation bytes := (list ascii).

Definition bs (s : String.string) : bytes := String.list_ascii_of_string s.
Arguments bs s%_string_scope.

(** ** Fixed-width unsigned integers

    A [uint64], [uint32] or [uint16] is an [N]; the wrap-around of its
    arithmetic is written out. *)
Open Scope N_scope.

Definition two16 : N := 65536.
Definition two32 : N := 4294967296.
Definition two64 : N := 18446744073709551616.

(** [s != EMPTY] *)
Definition nonempty (s : list ascii) : bool := match s with [] => false | _ => true end.

Definition wrap16 (n : N) : N := n mod two16.
Definition wrap32 (n : N) : N := n mod two32.
Definition wrap64 (n : N) : N := n mod two64.

(** [x + y] and [x++] on [uint64] / [uint32]. *)
Definition add64 (x y : N) : N := wrap64 (x + y).
Definition add32 (x y : N) : N := wrap32 (x + y).
Definition incr64 (x : N) : N := add64 x 1.
Definition incr32 (x : N) : N := add32 x 1.
(** [x - y] on [uint64], with its borrow. *)
Definition sub64 (x y : N) : N := wrap64 (two64 + x - y).

Lemma wrap64_small n : n < two64 → wrap64 n = n.
Proof. apply N.mod_small. Qed.
Lemma wrap32_small n : n < two32 → wrap32 n = n.
Proof. apply N.mod_small. Qed.
Lemma wrap16_small n : n < two16 → wrap16 n = n.
Proof. apply N.mod_small. Qed.
Lemma wrap64_lt n : wrap64 n < two64.
Proof. apply N.mod_lt. done. Qed.
Lemma wrap32_lt n : wrap32 n < two32.
Proof. apply N.mod_lt. done. Qed.
Lemma wrap16_lt n : wrap16 n < two16.
Proof. apply N.mod_lt. done. Qed.

Lemma incr64_small n : n + 1 < two64 → incr64 n = n + 1.
Proof. apply wrap64_small. Qed.
Lemma incr32_small n : n + 1 < two32 → incr32 n = n + 1.
Proof. apply wrap32_small. Qed.
Lemma add64_small a b : a + b < two64 → add64 a b = a + b.
Proof. apply wrap64_small. Qed.
Lemma incr32_ne n : n < two32 → incr32 n ≠ n.
Proof.
  unfold incr32, add32, wrap32. intros Hn.
  destruct (decide (n + 1 = two32)) as [E|E].
  - rewrite E, N.Div0.mod_same. intros <-. by apply (f_equal (fun x => x mod two32)) in E.
  - rewrite N.mod_small; [lia|]. unfold two32 in *; lia.
Qed.

(** ** Big-endian encodings ([encoding/binary]'s [BigEndian]) *)
Fixpoint be_bytes (n : nat) (v : N) : bytes :=
  match n with
  | O => []
  | S n' => ascii_of_N ((v / 256 ^ N.of_nat n') mod 256) :: be_bytes n' v
  end.

Fixpoint be_val (l : bytes) : N :=
  match l with
  | [] => 0
  | b :: l' => N_of_ascii b * 256 ^ N.of_nat (length l') + be_val l'
  end.

#[global] Arguments N_of_ascii : simpl never.
#[global] Arguments ascii_of_N : simpl never.

Lemma N_of_ascii_lt b : N_of_ascii b < 256.
Proof. apply N_ascii_bounded. Qed.

Lemma length_be_bytes n v : length (be_bytes n v) = n.
Proof. induction n as [|n IH]; simpl; congruence. Qed.

Lemma be_val_lt l : be_val l < 256 ^ N.of_nat (length l).
Proof.
  induction l as [|b l IH]; simpl length; [simpl; lia|].
  cbn [be_val]. rewrite Nat2N.inj_succ, N.pow_succ_r'.
  pose proof (N_of_ascii_lt b). nia.
Qed.

Lemma be_val_bytes n v : be_val (be_bytes n v) = v mod 256 ^ N.of_nat n.
Proof.
  induction n as [|n IH].
  - simpl. rewrite N.mod_1_r. done.
  - cbn [be_bytes be_val].
    rewrite length_be_bytes, IH, N_ascii_embedding by (apply N.mod_lt; lia).
    rewrite Nat2N.inj_succ, N.pow_succ_r', (N.mul_comm 256).
    rewrite N.Div0.mod_mul_r. lia.
Qed.

Lemma be_val_bytes_small n v : v < 256 ^ N.of_nat n → be_val (be_bytes n v) = v.
Proof. intros H. rewrite be_val_bytes. by apply N.mod_small. Qed.

Lemma be_bytes_inj n v w :
  v < 256 ^ N.of_nat n → w < 256 ^ N.of_nat n →
  be_bytes n v = be_bytes n w → v = w.
Proof.
  intros Hv Hw E. apply (f_equal be_val) in E.
  by rewrite !be_val_bytes_small in E.
Qed.

Lemma be_bytes_val l : be_bytes (length l) (be_val l) = l.
Proof.
  assert (Hmod : ∀ n v w, v mod 256 ^ N.of_nat n = w mod 256 ^ N.of_nat n →
                           be_bytes n v = be_bytes n w).
  { induction n as [|n IH]; intros v w E; [done|].
    rewrite Nat2N.inj_succ, N.pow_succ_r', (N.mul_comm 256), !N.Div0.mod_mul_r in E.
    assert (Hp : 256 ^ N.of_nat n ≠ 0) by (apply N.pow_nonzero; lia).
    rewrite !(N.add_comm (_ mod 256 ^ _)) in E.
    apply (N.div_mod_unique (256 ^ N.of_nat n)) in E as [Eq Er]; try by apply N.mod_lt.
    cbn [be_bytes]. f_equal; [by rewrite Eq|by apply IH]. }
  induction l as [|b l IH]; [done|].
  cbn [length be_bytes be_val]. pose proof (be_val_lt l) as Hlt.
  assert (256 ^ N.of_nat (length l) ≠ 0) by (apply N.pow_nonzero; lia).
  f_equal.
  - rewrite N.div_add_l by done. rewrite N.div_small by done.
    rewrite N.add_0_r, N.mod_small by apply N_of_ascii_lt. apply ascii_N_embedding.
  - etransitivity; [|exact IH]. apply Hmod.
    rewrite N.add_comm, N.Div0.mod_add. done.
Qed.

(** ** The byte order of the store ([bytes.Compare], Pebble's default comparer) *)
Fixpoint bytes_ltb (x y : bytes) : bool :=
  match x, y with
  | _, [] => false
  | [], _ :: _ => true
  | a :: x', b :: y' =>
      if N_of_ascii a =? N_of_ascii b then bytes_ltb x' y'
      else N_of_ascii a <? N_of_ascii b
  end.

Definition bytes_lt (x y : bytes) : Prop := bytes_ltb x y = true.
Definition bytes_le (x y : bytes) : Prop := bytes_ltb y x = false.

#[export] Instance bytes_lt_dec : RelDecision bytes_lt.
Proof. intros x y. unfold bytes_lt. apply _. Defined.
#[export] Instance bytes_le_dec : RelDecision bytes_le.
Proof. intros x y. unfold bytes_le. apply _. Defined.

Lemma N_of_ascii_inj a b : N_of_ascii a = N_of_ascii b → a = b.
Proof. intros E. by rewrite <-(ascii_N_embedding a), E, ascii_N_embedding. Qed.

Lemma bytes_ltb_irrefl x : bytes_ltb x x = false.
Proof. induction x as [|a x IH]; simpl; [done|]. by rewrite N.eqb_refl. Qed.

Lemma bytes_lt_trans x y z : bytes_lt x y → bytes_lt y z → bytes_lt x z.
Proof.
  unfold bytes_lt. revert y z.
  induction x as [|a x IH]; intros [|b y] [|c z]; simpl; try done.
  destruct (N.eqb_spec (N_of_ascii a) (N_of_ascii b)) as [E1|E1],
           (N.eqb_spec (N_of_ascii b) (N_of_ascii c)) as [E2|E2],
           (N.eqb_spec (N_of_ascii a) (N_of_ascii c)) as [E3|E3];
    rewrite ?N.ltb_lt; try lia; eauto.
Qed.

Lemma bytes_lt_total x y : bytes_lt x y ∨ x = y ∨ bytes_lt y x.
Proof.
  unfold bytes_lt. revert y. induction x as [|a x IH]; intros [|b y]; simpl; eauto.
  destruct (N.eqb_spec (N_of_ascii a) (N_of_ascii b)) as [E|E].
  - rewrite E, N.eqb_refl. apply N_of_ascii_inj in E as ->.
    destruct (IH y) as [?|[->|?]]; eauto.
  - destruct (N.eqb_spec (N_of_ascii b) (N_of_ascii a)) as [?|_]; [lia|].
    rewrite !N.ltb_lt. lia.
Qed.

Lemma bytes_le_lteq x y : bytes_le x y ↔ bytes_lt x y ∨ x = y.
Proof.
  unfold bytes_le, bytes_lt. split.
  - intros H. destruct (bytes_lt_total x y) as [?|[?|H']]; eauto.
    unfold bytes_lt in H'. congruence.
  - intros [H| ->]; [|apply bytes_ltb_irrefl].
    destruct (bytes_ltb y x) eqn:E; [|done].
    pose proof (bytes_lt_trans _ _ _ H E) as F. unfold bytes_lt in F.
    by rewrite bytes_ltb_irrefl in F.
Qed.

#[export] Instance bytes_le_preorder : PreOrder bytes_le.
Proof.
  split.
  - intros x. apply bytes_ltb_irrefl.
  - intros x y z. rewrite !bytes_le_lteq.
    intros [?| ->] [?| ->]; eauto using bytes_lt_trans.
Qed.
#[export] Instance bytes_le_antisymm : AntiSymm (=) bytes_le.
Proof.
  intros x y. rewrite bytes_le_lteq. unfold bytes_le, bytes_lt.
  intros [H| ->]; [congruence|done].
Qed.
#[export] Instance bytes_le_total : Total bytes_le.
Proof.
  intros x y. rewrite !bytes_le_lteq. destruct (bytes_lt_total x y) as [?|[?|?]]; eauto.
Qed.

Lemma bytes_lt_le_trans x y z : bytes_lt x y → bytes_le y z → bytes_lt x z.
Proof. rewrite bytes_le_lteq. intros ? [?| ->]; eauto using bytes_lt_trans. Qed.
Lemma bytes_le_lt_trans x y z : bytes_le x y → bytes_lt y z → bytes_lt x z.
Proof. rewrite bytes_le_lteq. intros [?| ->] ?; eauto using bytes_lt_trans. Qed.
Lemma bytes_nle_lt x y : ¬ bytes_le x y ↔ bytes_lt y x.
Proof. unfold bytes_le, bytes_lt. destruct (bytes_ltb y x); naive_solver. Qed.

Lemma bytes_lt_app p x y : bytes_lt (p ++ x) (p ++ y) ↔ bytes_lt x y.
Proof.
  unfold bytes_lt. induction p as [|a p IH]; simpl; [done|]. by rewrite N.eqb_refl.
Qed.
Lemma bytes_le_app p x y : bytes_le (p ++ x) (p ++ y) ↔ bytes_le x y.
Proof.
  unfold bytes_le. induction p as [|a p IH]; simpl; [done|]. by rewrite N.eqb_refl.
Qed.
Lemma bytes_le_prefix p x : bytes_le p (p ++ x).
Proof.
  rewrite <-(app_nil_r p) at 1. apply bytes_le_app. unfold bytes_le. by destruct x.
Qed.

(** Big-endian fixed-width encodings are order-preserving, whatever follows. *)
Lemma be_bytes_lt_app n v w x y :
  v < w → w < 256 ^ N.of_nat n → bytes_lt (be_bytes n v ++ x) (be_bytes n w ++ y).
Proof.
  revert v w. induction n as [|n IH]; intros v w Hlt Hw; [simpl in Hw; lia|].
  cbn [be_bytes app]. unfold bytes_lt. cbn [bytes_ltb].
  rewrite Nat2N.inj_succ, N.pow_succ_r' in Hw.
  set (p := 256 ^ N.of_nat n) in *.
  assert (Hp : p ≠ 0) by (apply N.pow_nonzero; lia).
  assert (Hv : v / p < 256) by (apply N.Div0.div_lt_upper_bound; lia).
  assert (Hw' : w / p < 256) by (apply N.Div0.div_lt_upper_bound; lia).
  rewrite !(N.mod_small _ 256), !N_ascii_embedding by done.
  pose proof (N.Div0.div_le_mono v w p ltac:(lia)) as Hle.
  destruct (N.eqb_spec (v / p) (w / p)) as [E|E]; [|apply N.ltb_lt; lia].
  assert (Hmodb : ∀ u, be_bytes n u = be_bytes n (u mod p)).
  { intros u. rewrite <-(be_bytes_val (be_bytes n u)) at 1.
    rewrite be_val_bytes, length_be_bytes. done. }
  rewrite (Hmodb v), (Hmodb w). apply IH; [|by apply N.mod_lt].
  pose proof (N.Div0.div_mod v p). pose proof (N.Div0.div_mod w p). nia.
Qed.

Lemma be_bytes_le_app n v w x :
  v ≤ w → w < 256 ^ N.of_nat n → bytes_le (be_bytes n v) (be_bytes n w ++ x).
Proof.
  intros Hle Hw. destruct (decide (v = w)) as [->|Hne]; [apply bytes_le_prefix|].
  apply bytes_le_lteq. left. rewrite <-(app_nil_r (be_bytes n v)).
  apply be_bytes_lt_app; lia.
Qed.

(** ** Prefixes *)
Fixpoint has_prefix (p x : bytes) : bool :=
  match p, x with
  | [], _ => true
  | _ :: _, [] => false
  | a :: p', b :: x' => bool_decide (a = b) && has_prefix p' x'
  end.

Lemma has_prefix_spec p x : has_prefix p x = true ↔ ∃ r, x = p ++ r.
Proof.
  revert x. induction p as [|a p IH]; intros x; simpl.
  - split; [eauto|done].
  - destruct x as [|b x]; [split; [done|by intros [? ?]]|].
    rewrite andb_true_iff, bool_decide_eq_true, IH. split.
    + intros [-> [r ->]]. eauto.
    + intros [r [= -> ->]]. eauto.
Qed.
Lemma has_prefix_app p r : has_prefix p (p ++ r) = true.
Proof. apply has_prefix_spec. eauto. Qed.

(** ** Results of fallible code *)
Inductive result (A : Type) : Type :=
  | Ok (a : A)
  | Err (e : bytes).
Arguments Ok {A} a.
Arguments Err {A} e.
