(* ===== verification/GoStrings.v ===== *)
(** * Strings of the Go standard library ([strings], [strconv])

    The functions the HTTP gateway and the command line use, on byte strings. *)

From S2P Require Import Prelude.

Definition CutSuffix (x suf : bytes) : option bytes :=
  if (length suf <=? length x)%nat && bool_decide (drop (length x - length suf) x = suf)
  then Some (take (length x - length suf) x) else None.
Definition HasSuffix (x suf : bytes) : bool := bool_decide (is_Some (CutSuffix x suf)).
Definition TrimPrefix (x p : bytes) : bytes := if has_prefix p x then drop (length p) x else x.
(** [strings.LastIndex] of a non-empty string *)
Fixpoint strLastIndex (x sub : bytes) : option nat :=
  match x with
  | [] => None
  | _ :: x' =>
      match strLastIndex x' sub with
      | Some i => Some (S i)
      | None => if has_prefix sub x then Some O else None
      end
  end.
Definition slash : ascii := "/"%char.
Fixpoint trimLeft (x : bytes) : bytes :=
  match x with c :: x' => if bool_decide (c = slash) then trimLeft x' else x | [] => [] end.
(** [strings.Trim(x, SLASH)] *)
Definition trimSlashes (x : bytes) : bytes := reverse (trimLeft (reverse (trimLeft x))).
(** [strings.Split] and [strings.SplitN] with a separator of one byte *)
Fixpoint splitOn (sep : ascii) (x : bytes) : list bytes :=
  match x with
  | [] => [[]]
  | c :: x' =>
      if bool_decide (c = sep) then [] :: splitOn sep x'
      else match splitOn sep x' with p :: ps => (c :: p) :: ps | [] => [[c]] end
  end.
Fixpoint splitN (n : nat) (sep : ascii) (x : bytes) : list bytes :=
  match n with
  | O => []
  | S O => [x]
  | S n' =>
      match splitOn sep x with
      | [] | [_] => [x]
      | p :: _ => p :: splitN n' sep (drop (S (length p)) x)
      end
  end.
(** [strings.Join] *)
Fixpoint joinOn (sep : ascii) (ps : list bytes) : bytes :=
  match ps with
  | [] => []
  | [p] => p
  | p :: ps' => p ++ sep :: joinOn sep ps'
  end.
(** [strconv.ParseUint(x, 10, bits)] *)
Fixpoint parseDigits (acc : N) (x : bytes) : option N :=
  match x with
  | [] => Some acc
  | c :: x' =>
      let d := N_of_ascii c in
      if (48 <=? d) && (d <=? 57) then parseDigits (10 * acc + (d - 48)) x' else None
  end.
Definition ParseUint (limit : N) (x : bytes) : option N :=
  if nonempty x then v ← parseDigits 0 x; if v <? limit then Some v else None else None.
(** [strconv.Atoi]: an optional sign, decimal digits, 64 bits. *)
Definition Atoi (x : bytes) : option Z :=
  match x with
  | "-"%char :: x' => n ← ParseUint (2 ^ 63 + 1) x'; Some (- Z.of_N n)%Z
  | "+"%char :: x' => Z.of_N <$> ParseUint (2 ^ 63) x'
  | _ => Z.of_N <$> ParseUint (2 ^ 63) x
  end.

(** ** UTF-8 *)
Definition continuation (lo hi : N) (c : ascii) : bool := (lo <=? N_of_ascii c) && (N_of_ascii c <=? hi).
(** [utf8.DecodeRuneInString]: the character and its width; [None]: an invalid byte. *)
Definition decodeRune (x : bytes) : option (N * nat) :=
  let low (c : ascii) := N.land (N_of_ascii c) 63 in
  match x with
  | [] => None
  | a :: x' =>
      let b := N_of_ascii a in
      if b <? 128 then Some (b, 1%nat)
      else if (194 <=? b) && (b <=? 223) then
        match x' with
        | c :: _ => if continuation 128 191 c then Some (64 * N.land b 31 + low c, 2%nat) else None
        | _ => None
        end
      else if (224 <=? b) && (b <=? 239) then
        match x' with
        | c :: d :: _ =>
            if continuation (if b =? 224 then 160 else 128) (if b =? 237 then 159 else 191) c && continuation 128 191 d
            then Some (4096 * N.land b 15 + 64 * low c + low d, 3%nat) else None
        | _ => None
        end
      else if (240 <=? b) && (b <=? 244) then
        match x' with
        | c :: d :: e :: _ =>
            if continuation (if b =? 240 then 144 else 128) (if b =? 244 then 143 else 191) c &&
               continuation 128 191 d && continuation 128 191 e
            then Some (262144 * N.land b 7 + 4096 * low c + 64 * low d + low e, 4%nat) else None
        | _ => None
        end
      else None
  end.
(** [utf8.ValidString]; a character has at least one byte, so the length is
    fuel enough.  [encoding/json] writes exactly the valid strings unchanged
    (an invalid byte becomes U+FFFD), and protobuf admits no others. *)
Fixpoint validFrom (fuel : nat) (x : bytes) : bool :=
  match x, fuel with
  | [], _ => true
  | _, O => false
  | _, S fuel' =>
      match decodeRune x with
      | Some (_, w) => validFrom fuel' (drop w x)
      | None => false
      end
  end.
Definition ValidString (x : bytes) : bool := validFrom (length x) x.

(** ** Lemmas *)
Lemma splitOn_nonnil sep x : splitOn sep x ≠ [].
Proof. destruct x as [|c x]; [done|]. cbn. case_bool_decide; [done|]. by destruct (splitOn sep x). Qed.
Lemma splitOn_one sep t : sep ∉ t → splitOn sep t = [t].
Proof.
  induction t as [|c t IH]; intros Hs; [done|]. apply not_elem_of_cons in Hs as [Hc Hs]. cbn [splitOn].
  by rewrite bool_decide_eq_false_2, IH.
Qed.
Lemma splitOn_app sep t x : sep ∉ t → splitOn sep (t ++ sep :: x) = t :: splitOn sep x.
Proof.
  intros Ht. induction t as [|c t IH]; cbn [app splitOn]; [by rewrite bool_decide_eq_true_2|].
  apply not_elem_of_cons in Ht as [Hc Ht]. by rewrite bool_decide_eq_false_2, IH by done.
Qed.
Lemma splitOn_parts sep x p : p ∈ splitOn sep x → sep ∉ p.
Proof.
  revert p. induction x as [|c x IH]; intros p; cbn [splitOn].
  { intros ->%list_elem_of_singleton. by apply not_elem_of_nil. }
  case_bool_decide as Hc.
  { intros [-> | Hp]%elem_of_cons; [by apply not_elem_of_nil|by apply IH]. }
  pose proof (splitOn_nonnil sep x) as Hn. destruct (splitOn sep x) as [|q qs] eqn:E; [done|].
  intros [-> | Hp]%elem_of_cons; [|apply IH; by right].
  apply not_elem_of_cons. split; [congruence|]. apply IH. by left.
Qed.
Lemma splitOn_join sep ps : ps ≠ [] → Forall (λ p, sep ∉ p) ps → splitOn sep (joinOn sep ps) = ps.
Proof.
  intros Hn Hps. induction Hps as [|p ps Hp Hps IH]; [done|]. destruct ps as [|q ps].
  - by apply splitOn_one.
  - change (joinOn sep (p :: q :: ps)) with (p ++ sep :: joinOn sep (q :: ps)).
    rewrite splitOn_app by done. by rewrite IH.
Qed.
Lemma joinOn_split sep x : joinOn sep (splitOn sep x) = x.
Proof.
  induction x as [|c x IH]; [done|]. cbn [splitOn]. pose proof (splitOn_nonnil sep x) as Hn.
  case_bool_decide as Hc.
  - subst. destruct (splitOn sep x) as [|q qs] eqn:E; [done|]. cbn [joinOn app] in *. by rewrite IH.
  - destruct (splitOn sep x) as [|q qs] eqn:E; [done|]. destruct qs; cbn [joinOn app] in *; by rewrite IH.
Qed.
Lemma ValidString_ascii x : forallb (λ c, N_of_ascii c <? 128)%N x = true → ValidString x = true.
Proof.
  unfold ValidString. induction x as [|c x IH]; [done|]. cbn [forallb length validFrom].
  intros [Hc Hx]%andb_true_iff. unfold decodeRune. rewrite Hc. by apply IH.
Qed.
