(* ===== verification/Keys.v ===== *)
(** * The Pebble keyspace ([internal/storage/keys.go])

    Order-preserving key builders, the references carried by timers and their
    parsers, and the bounds used by scans.  The first byte of every key is a
    table tag.  The abstract keyspace is the type [row] at the end of the file:
    [row_key] implements it and is injective on rows that fit the encoding. *)

From S2P Require Import Prelude.

Definition tagMeta : byte := "000".
Definition tagMessage : byte := "001".
Definition tagGroupMeta : byte := "002".
Definition tagLease : byte := "003".
Definition tagTimeIndex : byte := "004".
Definition tagDLQ : byte := "005".
Definition tagPolicy : byte := "006".
Definition tagCron : byte := "007".
Definition tagSingleton : byte := "008".
Definition tagToken : byte := "009".
Definition tagLaneConfig : byte := "010".
Definition tagDedup : byte := "011".
Definition tagWFRun : byte := "012".
Definition tagWFHistory : byte := "013".
Definition tagWFActivityDn : byte := "014".
Definition tagAuthPrincipal : byte := "015".
Definition tagRaftLog : byte := "254".
Definition tagRaftKV : byte := "255".

(** Timer kinds carried in the time index. *)
Definition TimerReadyAt : byte := "001".
Definition TimerLeaseDeadline : byte := "002".
Definition TimerCronDue : byte := "003".
Definition TimerDedupExpiry : byte := "004".
Definition TimerLeaseMaxLife : byte := "005".
Definition TimerWFFired : byte := "006".
Definition TimerMsgExpiry : byte := "007".

Definition u64be (v : N) : bytes := be_bytes 8 v.

(** [lp]: a length-prefixed string.  The length is truncated to 16 bits. *)
Definition lp (s : bytes) : bytes :=
  be_bytes 2 (wrap16 (N.of_nat (length s))) ++ s.

Definition takeLP (b : bytes) : option (bytes * bytes) :=
  if (length b <? 2)%nat then None
  else
    let n := N.to_nat (be_val (take 2 b)) in
    if (length b <? 2 + n)%nat then None
    else Some (take n (drop 2 b), drop (2 + n) b).

Definition MetaKey (name : bytes) : bytes := tagMeta :: name.
Definition MessageKey (lane group : bytes) (msgID : N) : bytes :=
  tagMessage :: lp lane ++ lp group ++ u64be msgID.
Definition MessagePrefix (lane group : bytes) : bytes :=
  tagMessage :: lp lane ++ lp group.
Definition MessageBounds : bytes * bytes := ([tagMessage], [tagGroupMeta]).
Definition GroupMetaKey (lane group : bytes) : bytes :=
  tagGroupMeta :: lp lane ++ lp group.
Definition GroupMetaLanePrefix (lane : bytes) : bytes := tagGroupMeta :: lp lane.
Definition GroupMetaBounds : bytes * bytes := ([tagGroupMeta], [tagLease]).
Definition LeaseKey (leaseID : N) : bytes := tagLease :: u64be leaseID.
Definition LeaseBounds : bytes * bytes := ([tagLease], [tagTimeIndex]).
Definition TimeIndexKey (dueTs : N) (kind : byte) (ref : bytes) : bytes :=
  tagTimeIndex :: u64be dueTs ++ kind :: ref.
Definition TimeIndexPrefix : bytes := [tagTimeIndex].
Definition TimeIndexBounds : bytes * bytes := ([tagTimeIndex], [tagDLQ]).
Definition TimeIndexUpTo (ts : N) : bytes := tagTimeIndex :: u64be (incr64 ts).

Definition ParseTimeIndexKey (k : bytes) : option (N * byte * bytes) :=
  if (length k <? 10)%nat || negb (bool_decide (head k = Some tagTimeIndex)) then None
  else
    match drop 9 k with
    | kind :: ref => Some (be_val (take 8 (drop 1 k)), kind, ref)
    | [] => None
    end.

Definition ReadyAtRef (lane group : bytes) (msgID : N) : bytes :=
  lp lane ++ lp group ++ u64be msgID.
Definition ParseReadyAtRef (ref : bytes) : option (bytes * bytes * N) :=
  match takeLP ref with
  | None => None
  | Some (lane, ref) =>
      match takeLP ref with
      | None => None
      | Some (group, ref) =>
          if (length ref <? 8)%nat then None
          else Some (lane, group, be_val (take 8 ref))
      end
  end.

Definition LeaseDeadlineRef (leaseID : N) : bytes := u64be leaseID.
Definition ParseLeaseDeadlineRef (ref : bytes) : option N :=
  if (length ref <? 8)%nat then None else Some (be_val (take 8 ref)).

Definition DLQKey (lane group : bytes) (deadTs msgID : N) : bytes :=
  tagDLQ :: lp lane ++ lp group ++ u64be deadTs ++ u64be msgID.
Definition DLQLanePrefix (lane : bytes) : bytes := tagDLQ :: lp lane.
Definition DLQBounds : bytes * bytes := ([tagDLQ], [tagPolicy]).
Definition DLQGroupPrefix (lane group : bytes) : bytes :=
  tagDLQ :: lp lane ++ lp group.
Definition PolicyKey (lane : bytes) : bytes := tagPolicy :: lp lane.
Definition CronKey (cronID : bytes) : bytes := tagCron :: cronID.
Definition CronPrefix : bytes := [tagCron].
Definition SingletonKey (name : bytes) : bytes := tagSingleton :: name.
Definition TokenKey (hash : bytes) : bytes := tagToken :: hash.
Definition LaneConfigKey (lane : bytes) : bytes := tagLaneConfig :: lane.
Definition DedupKey (lane key : bytes) : bytes := tagDedup :: lp lane ++ key.

Definition DedupRef (lane key : bytes) : bytes := lp lane ++ key.
Definition ParseDedupRef (ref : bytes) : option (bytes * bytes) := takeLP ref.

Definition WFRunKey (runID : N) : bytes := tagWFRun :: u64be runID.
Definition WFRunBounds : bytes * bytes := ([tagWFRun], [tagWFHistory]).
Definition WFHistoryKey (runID eventID : N) : bytes :=
  tagWFHistory :: u64be runID ++ u64be eventID.
Definition WFHistoryPrefix (runID : N) : bytes := tagWFHistory :: u64be runID.

Definition WFTimerRef (runID startedEventID : N) : bytes :=
  u64be runID ++ u64be startedEventID.
Definition ParseWFTimerRef (ref : bytes) : option (N * N) :=
  if (length ref <? 16)%nat then None
  else Some (be_val (take 8 ref), be_val (take 8 (drop 8 ref))).

Definition WFActivityDoneKey (runID schedEventID : N) : bytes :=
  tagWFActivityDn :: u64be runID ++ u64be schedEventID.
Definition AuthPrincipalKey (name : bytes) : bytes := tagAuthPrincipal :: lp name.
Definition AuthPrincipalBounds : bytes * bytes := ([tagAuthPrincipal], ["016"%char]).
Definition AppKeyspaceBounds : bytes * bytes := ([tagMeta], ["016"%char]).

Definition CronDueRef (cronID : bytes) : bytes := cronID.
Definition ParseCronDueRef (ref : bytes) : bytes := ref.
Definition RaftLogKey (index : N) : bytes := tagRaftLog :: u64be index.
Definition RaftLogPrefix : bytes := [tagRaftLog].
Definition RaftKVKey (key : bytes) : bytes := tagRaftKV :: key.

(** [PrefixEnd]'s loop runs from the last byte down: the model recurses on the
    reversed prefix.  [None] is Go's [nil], "no upper bound". *)
Fixpoint prefixEnd_rev (r : bytes) : option bytes :=
  match r with
  | [] => None
  | b :: r' =>
      let b' := ascii_of_N ((N_of_ascii b + 1) mod 256) in
      if bool_decide (b' = "000"%char) then prefixEnd_rev r'
      else Some (reverse (b' :: r'))
  end.
Definition PrefixEnd (prefix : bytes) : option bytes := prefixEnd_rev (reverse prefix).

(** ** Injectivity of the pieces *)

(** A string whose length fits the 16-bit prefix; an id that is a [uint64]. *)
Definition short (s : bytes) : Prop := N.of_nat (length s) < two16.
Definition u64 (n : N) : Prop := n < two64.
#[export] Instance short_dec s : Decision (short s).
Proof. unfold short. apply _. Defined.
#[export] Instance u64_dec n : Decision (u64 n).
Proof. unfold u64. apply _. Defined.

Lemma two64_pow : two64 = 256 ^ N.of_nat 8.
Proof. reflexivity. Qed.

Lemma length_u64be v : length (u64be v) = 8%nat.
Proof. apply length_be_bytes. Qed.
Lemma be_val_u64be v : u64 v → be_val (u64be v) = v.
Proof. intros H. apply be_val_bytes_small. by rewrite <-two64_pow. Qed.
Lemma u64be_inj v w : u64 v → u64 w → u64be v = u64be w → v = w.
Proof. apply (be_bytes_inj 8). Qed.
Lemma u64be_app_inj v w x y :
  u64 v → u64 w → u64be v ++ x = u64be w ++ y → v = w ∧ x = y.
Proof.
  intros Hv Hw E. apply app_inj_1 in E as [E ->]; [|by rewrite !length_u64be].
  split; [by apply u64be_inj|done].
Qed.

Lemma takeLP_lp s x : short s → takeLP (lp s ++ x) = Some (s, x).
Proof.
  intros Hs. unfold takeLP, lp.
  rewrite wrap16_small by done. rewrite <-!app_assoc.
  set (n := be_bytes 2 (N.of_nat (length s))).
  assert (Hn : length n = 2%nat) by apply length_be_bytes.
  assert (Hv : N.to_nat (be_val (take 2 (n ++ s ++ x))) = length s).
  { rewrite take_app_length' by done. unfold n. rewrite be_val_bytes_small by done. lia. }
  rewrite Hv, !length_app, Hn.
  destruct (Nat.ltb_spec (2 + (length s + length x)) 2); [lia|].
  destruct (Nat.ltb_spec (2 + (length s + length x)) (2 + length s)); [lia|].
  rewrite <-!drop_drop, drop_app_length' by done.
  by rewrite take_app_length, drop_app_length.
Qed.

Lemma lp_app_inj s t x y :
  short s → short t → lp s ++ x = lp t ++ y → s = t ∧ x = y.
Proof.
  intros Hs Ht E. apply (f_equal takeLP) in E.
  rewrite !takeLP_lp in E by done. by simplify_eq.
Qed.
Lemma lp_inj s t : short s → short t → lp s = lp t → s = t.
Proof.
  intros Hs Ht E. apply (lp_app_inj s t [] []); [done..|by rewrite !app_nil_r].
Qed.

(** ** Injectivity of the keys of each table *)
Lemma key_tail (a b : byte) (x y : bytes) : a :: x = b :: y → x = y.
Proof. by intros [= _ ->]. Qed.

Lemma MessageKey_inj l g i l' g' i' :
  short l → short g → u64 i → short l' → short g' → u64 i' →
  MessageKey l g i = MessageKey l' g' i' → l = l' ∧ g = g' ∧ i = i'.
Proof.
  intros ?????? E; apply key_tail in E. apply lp_app_inj in E as [-> E]; [|done..].
  apply lp_app_inj in E as [-> E]; [|done..]. auto using u64be_inj.
Qed.
Lemma GroupMetaKey_inj l g l' g' :
  short l → short g → short l' → short g' →
  GroupMetaKey l g = GroupMetaKey l' g' → l = l' ∧ g = g'.
Proof.
  intros ???? E; apply key_tail in E. apply lp_app_inj in E as [-> E]; [|done..]. auto using lp_inj.
Qed.
Lemma LeaseKey_inj i j : u64 i → u64 j → LeaseKey i = LeaseKey j → i = j.
Proof. intros ?? E; apply key_tail in E. by apply u64be_inj. Qed.
Lemma TimeIndexKey_inj ts k r ts' k' r' :
  u64 ts → u64 ts' → TimeIndexKey ts k r = TimeIndexKey ts' k' r' →
  ts = ts' ∧ k = k' ∧ r = r'.
Proof. intros ?? E; apply key_tail in E. apply u64be_app_inj in E as [-> E]; [|done..]. by injection E as -> ->. Qed.
Lemma WFRunKey_inj i j : u64 i → u64 j → WFRunKey i = WFRunKey j → i = j.
Proof. intros ?? E; apply key_tail in E. by apply u64be_inj. Qed.
Lemma WFHistoryKey_inj r e r' e' :
  u64 r → u64 e → u64 r' → u64 e' →
  WFHistoryKey r e = WFHistoryKey r' e' → r = r' ∧ e = e'.
Proof. intros ???? E; apply key_tail in E. apply u64be_app_inj in E as [-> E]; auto using u64be_inj. Qed.
Lemma WFActivityDoneKey_inj r e r' e' :
  u64 r → u64 e → u64 r' → u64 e' →
  WFActivityDoneKey r e = WFActivityDoneKey r' e' → r = r' ∧ e = e'.
Proof. intros ???? E; apply key_tail in E. apply u64be_app_inj in E as [-> E]; auto using u64be_inj. Qed.
Lemma DLQKey_inj l g ts i l' g' ts' i' :
  short l → short g → u64 ts → u64 i → short l' → short g' → u64 ts' → u64 i' →
  DLQKey l g ts i = DLQKey l' g' ts' i' → l = l' ∧ g = g' ∧ ts = ts' ∧ i = i'.
Proof.
  intros ???????? E; apply key_tail in E. apply lp_app_inj in E as [-> E]; [|done..].
  apply lp_app_inj in E as [-> E]; [|done..].
  apply u64be_app_inj in E as [-> E]; auto using u64be_inj.
Qed.
Lemma DedupKey_inj l k l' k' :
  short l → short l' → DedupKey l k = DedupKey l' k' → l = l' ∧ k = k'.
Proof. intros ?? E; apply key_tail in E. by apply lp_app_inj in E. Qed.

(** ** The abstract keyspace *)
Inductive row : Type :=
  | RowMeta (name : bytes)
  | RowMessage (lane group : bytes) (msgID : N)
  | RowGroupMeta (lane group : bytes)
  | RowLease (leaseID : N)
  | RowTimer (dueTs : N) (kind : byte) (ref : bytes)
  | RowDLQ (lane group : bytes) (deadTs msgID : N)
  | RowPolicy (lane : bytes)
  | RowCron (cronID : bytes)
  | RowSingleton (name : bytes)
  | RowToken (hash : bytes)
  | RowLaneConfig (lane : bytes)
  | RowDedup (lane key : bytes)
  | RowWFRun (runID : N)
  | RowWFHistory (runID eventID : N)
  | RowWFActivityDone (runID schedEventID : N)
  | RowAuthPrincipal (name : bytes)
  | RowRaftLog (index : N)
  | RowRaftKV (key : bytes).

Definition row_key (r : row) : bytes :=
  match r with
  | RowMeta name => MetaKey name
  | RowMessage l g i => MessageKey l g i
  | RowGroupMeta l g => GroupMetaKey l g
  | RowLease i => LeaseKey i
  | RowTimer ts k ref => TimeIndexKey ts k ref
  | RowDLQ l g ts i => DLQKey l g ts i
  | RowPolicy l => PolicyKey l
  | RowCron i => CronKey i
  | RowSingleton n => SingletonKey n
  | RowToken h => TokenKey h
  | RowLaneConfig l => LaneConfigKey l
  | RowDedup l k => DedupKey l k
  | RowWFRun i => WFRunKey i
  | RowWFHistory i e => WFHistoryKey i e
  | RowWFActivityDone i e => WFActivityDoneKey i e
  | RowAuthPrincipal n => AuthPrincipalKey n
  | RowRaftLog i => RaftLogKey i
  | RowRaftKV k => RaftKVKey k
  end.

(** The rows the encoding can represent: strings under a length prefix are
    [short], integers are [uint64]s. *)
Definition row_ok (r : row) : Prop :=
  match r with
  | RowMessage l g i => short l ∧ short g ∧ u64 i
  | RowGroupMeta l g => short l ∧ short g
  | RowLease i | RowWFRun i | RowRaftLog i => u64 i
  | RowTimer ts _ _ => u64 ts
  | RowDLQ l g ts i => short l ∧ short g ∧ u64 ts ∧ u64 i
  | RowPolicy l => short l
  | RowDedup l _ => short l
  | RowWFHistory i e | RowWFActivityDone i e => u64 i ∧ u64 e
  | RowAuthPrincipal n => short n
  | _ => True
  end.

Definition app_row (r : row) : bool :=
  match r with RowRaftLog _ | RowRaftKV _ => false | _ => true end.

(** ** Scans *)

(** The keys a Pebble iterator with [LowerBound lo] and [UpperBound hi] visits. *)
Definition in_range (lo : bytes) (hi : option bytes) (k : bytes) : Prop :=
  bytes_le lo k ∧ match hi with None => True | Some h => bytes_lt k h end.
#[export] Instance in_range_dec lo hi k : Decision (in_range lo hi k).
Proof. unfold in_range. destruct hi; apply _. Defined.

Lemma bytes_between p x y k :
  bytes_le (p ++ x) k → bytes_lt k (p ++ y) →
  ∃ r, k = p ++ r ∧ bytes_le x r ∧ bytes_lt r y.
Proof.
  unfold bytes_le, bytes_lt. revert k.
  induction p as [|a p IH]; intros k H1 H2; [by exists k|].
  destruct k as [|b k]; simpl in *; [done|].
  destruct (N.eqb_spec (N_of_ascii b) (N_of_ascii a)) as [E|E].
  - apply N_of_ascii_inj in E as ->. rewrite ?N.eqb_refl in H1, H2.
    destruct (IH k) as (r & -> & ? & ?); [done..|]. by exists r.
  - rewrite N.ltb_lt in H2. rewrite N.ltb_ge in H1. lia.
Qed.

Lemma N_of_ascii_succ b :
  N_of_ascii b ≠ 255 →
  N_of_ascii (ascii_of_N ((N_of_ascii b + 1) mod 256)) = N_of_ascii b + 1.
Proof.
  intros Hb. pose proof (N_of_ascii_lt b).
  rewrite N.mod_small, N_ascii_embedding by lia. done.
Qed.

Lemma bytes_single_range b c r :
  N_of_ascii c = N_of_ascii b + 1 →
  bytes_le [b] r → bytes_lt r [c] → ∃ r', r = b :: r'.
Proof.
  unfold bytes_le, bytes_lt. intros Hc H1 H2.
  destruct r as [|d r]; simpl in *; [done|]. exists r. f_equal. apply N_of_ascii_inj.
  revert H1 H2. destruct (N.eqb_spec (N_of_ascii d) (N_of_ascii b)); [done|].
  destruct (N.eqb_spec (N_of_ascii d) (N_of_ascii c)).
  - by destruct r.
  - rewrite N.ltb_lt, N.ltb_ge. lia.
Qed.

Lemma bytes_single_max b r :
  N_of_ascii b = 255 → bytes_le [b] r → ∃ r', r = b :: r'.
Proof.
  unfold bytes_le. intros Hb H. destruct r as [|d r]; simpl in *; [done|].
  exists r. f_equal. apply N_of_ascii_inj. pose proof (N_of_ascii_lt d).
  revert H. destruct (N.eqb_spec (N_of_ascii d) (N_of_ascii b)); [done|].
  rewrite N.ltb_ge. lia.
Qed.

Lemma PrefixEnd_snoc p b :
  PrefixEnd (p ++ [b]) =
  if bool_decide (N_of_ascii b = 255) then PrefixEnd p
  else Some (p ++ [ascii_of_N ((N_of_ascii b + 1) mod 256)]).
Proof.
  unfold PrefixEnd. rewrite reverse_snoc. cbn [prefixEnd_rev].
  case_bool_decide as E1; case_bool_decide as E2.
  - done.
  - apply (f_equal N_of_ascii) in E1. rewrite N_of_ascii_succ in E1 by done.
    change (N_of_ascii "000") with 0 in E1. lia.
  - rewrite E2 in E1. by destruct E1.
  - by rewrite reverse_cons, reverse_involutive.
Qed.

(** A scan bounded by [PrefixEnd p] visits exactly the keys that start with [p]. *)
Lemma PrefixEnd_range p k : in_range p (PrefixEnd p) k ↔ ∃ r, k = p ++ r.
Proof.
  assert (Hle : ∀ q x, bytes_le (q ++ x) k → bytes_le q k).
  { intros q x H. etransitivity; [apply bytes_le_prefix|done]. }
  split.
  2:{ clear Hle. intros [r ->]. split; [apply bytes_le_prefix|]. revert r.
      induction p as [|b p IH] using rev_ind; intros r; [done|].
      rewrite PrefixEnd_snoc. case_bool_decide as E.
      - specialize (IH (b :: r)). by rewrite <-app_assoc.
      - rewrite <-app_assoc. apply bytes_lt_app. unfold bytes_lt. cbn [app bytes_ltb].
        rewrite N_of_ascii_succ by done.
        destruct (N.eqb_spec (N_of_ascii b) (N_of_ascii b + 1)); [lia|].
        apply N.ltb_lt. lia. }
  intros [Hlo Hhi]. revert Hlo Hhi. induction p as [|b p IH] using rev_ind; intros Hlo Hhi.
  - by exists k.
  - rewrite PrefixEnd_snoc in Hhi. case_bool_decide as E.
    + destruct IH as [r Hr]; [by eapply Hle|done|]. clear Hle. subst k.
      apply bytes_le_app, bytes_single_max in Hlo as [r' ->]; [|done].
      exists r'. by rewrite <-app_assoc.
    + clear Hle. edestruct bytes_between as (r & -> & H1 & H2); [exact Hlo|exact Hhi|].
      eapply bytes_single_range in H1 as [r' ->]; [|by apply N_of_ascii_succ|done].
      exists r'. by rewrite <-app_assoc.
Qed.

#[local] Set Warnings "-clear-no-such-hyp".

(** Two rows of the abstract keyspace with the same key are the same row. *)
Lemma row_key_inj_aux r1 r2 :
  row_ok r1 → row_ok r2 → row_key r1 = row_key r2 → r1 = r2.
Proof.
  destruct r1, r2; cbn [row_ok row_key]; intros H1 H2 E; destruct_and?;
    try discriminate E;
    first [ apply MessageKey_inj in E; [|done..]
          | apply GroupMetaKey_inj in E; [|done..]
          | apply LeaseKey_inj in E; [|done..]
          | apply TimeIndexKey_inj in E; [|done..]
          | apply DLQKey_inj in E; [|done..]
          | apply DedupKey_inj in E; [|done..]
          | apply WFRunKey_inj in E; [|done..]
          | apply WFHistoryKey_inj in E; [|done..]
          | apply WFActivityDoneKey_inj in E; [|done..]
          | apply key_tail, lp_inj in E; [|done..]
          | apply key_tail, u64be_inj in E; [|done..]
          | apply key_tail in E ]; naive_solver.
Qed.

(** ** Order inside a table *)
Lemma MessageKey_lt l g i j : i < j → u64 j → bytes_lt (MessageKey l g i) (MessageKey l g j).
Proof.
  intros ??. unfold MessageKey.
  apply (bytes_lt_app [tagMessage]), bytes_lt_app, bytes_lt_app.
  rewrite <-(app_nil_r (u64be i)), <-(app_nil_r (u64be j)). by apply be_bytes_lt_app.
Qed.
Lemma WFHistoryKey_lt r i j : i < j → u64 j → bytes_lt (WFHistoryKey r i) (WFHistoryKey r j).
Proof.
  intros ??. unfold WFHistoryKey.
  apply (bytes_lt_app [tagWFHistory]), bytes_lt_app.
  rewrite <-(app_nil_r (u64be i)), <-(app_nil_r (u64be j)). by apply be_bytes_lt_app.
Qed.
Lemma RaftLogKey_lt i j : i < j → u64 j → bytes_lt (RaftLogKey i) (RaftLogKey j).
Proof.
  intros ??. unfold RaftLogKey. apply (bytes_lt_app [tagRaftLog]).
  rewrite <-(app_nil_r (u64be i)), <-(app_nil_r (u64be j)). by apply be_bytes_lt_app.
Qed.
Lemma TimeIndexKey_lt ts ts' k k' r r' :
  ts < ts' → u64 ts' → bytes_lt (TimeIndexKey ts k r) (TimeIndexKey ts' k' r').
Proof.
  intros ??. unfold TimeIndexKey.
  apply (bytes_lt_app [tagTimeIndex]). by apply be_bytes_lt_app.
Qed.

(** ** What the scans of the program visit *)
Lemma MessagePrefix_rows l g r :
  short l → short g → row_ok r →
  in_range (MessagePrefix l g) (PrefixEnd (MessagePrefix l g)) (row_key r) ↔
  ∃ i, r = RowMessage l g i.
Proof.
  intros Hl Hg Hr. rewrite PrefixEnd_range. split.
  - intros [x E]. unfold MessagePrefix in E. destruct r; cbn [row_key row_ok] in *; try discriminate E.
    rewrite <-app_comm_cons, <-app_assoc in E. apply key_tail in E. destruct Hr as (?&?&?).
    apply lp_app_inj in E as [-> E]; [|done..].
    apply lp_app_inj in E as [-> E]; [|done..]. eauto.
  - intros [i ->]. exists (u64be i). cbn [row_key]. unfold MessageKey, MessagePrefix.
    by rewrite <-app_comm_cons, <-app_assoc.
Qed.

Lemma GroupMetaLanePrefix_rows l r :
  short l → row_ok r →
  in_range (GroupMetaLanePrefix l) (PrefixEnd (GroupMetaLanePrefix l)) (row_key r) ↔
  ∃ g, r = RowGroupMeta l g.
Proof.
  intros Hl Hr. rewrite PrefixEnd_range. split.
  - intros [x E]. unfold GroupMetaLanePrefix in E.
    destruct r; cbn [row_key row_ok] in *; try discriminate E.
    rewrite <-app_comm_cons in E. apply key_tail in E. destruct Hr as (?&?).
    apply lp_app_inj in E as [-> E]; [|done..]. eauto.
  - intros [g ->]. by exists (lp g).
Qed.

Lemma DLQGroupPrefix_rows l g r :
  short l → short g → row_ok r →
  in_range (DLQGroupPrefix l g) (PrefixEnd (DLQGroupPrefix l g)) (row_key r) ↔
  ∃ ts i, r = RowDLQ l g ts i.
Proof.
  intros Hl Hg Hr. rewrite PrefixEnd_range. split.
  - intros [x E]. unfold DLQGroupPrefix in E.
    destruct r; cbn [row_key row_ok] in *; try discriminate E.
    rewrite <-app_comm_cons, <-app_assoc in E. apply key_tail in E. destruct Hr as (?&?&?&?).
    apply lp_app_inj in E as [-> E]; [|done..].
    apply lp_app_inj in E as [-> E]; [|done..]. eauto.
  - intros (ts & i & ->). exists (u64be ts ++ u64be i).
    cbn [row_key]. unfold DLQKey, DLQGroupPrefix.
    by rewrite <-app_comm_cons, <-app_assoc.
Qed.

Lemma WFHistoryPrefix_rows i r :
  u64 i → row_ok r →
  in_range (WFHistoryPrefix i) (PrefixEnd (WFHistoryPrefix i)) (row_key r) ↔
  ∃ e, r = RowWFHistory i e.
Proof.
  intros Hi Hr. rewrite PrefixEnd_range. split.
  - intros [x E]. unfold WFHistoryPrefix in E.
    destruct r; cbn [row_key row_ok] in *; try discriminate E.
    rewrite <-app_comm_cons in E. apply key_tail in E. destruct Hr as (?&?).
    apply u64be_app_inj in E as [-> E]; [|done..]. eauto.
  - intros (e & ->). by exists (u64be e).
Qed.

Lemma timer_sweep_rows now r :
  now + 1 < two64 → row_ok r →
  in_range TimeIndexPrefix (Some (TimeIndexUpTo now)) (row_key r) ↔
  ∃ ts kind ref, r = RowTimer ts kind ref ∧ ts ≤ now.
Proof.
  intros Hnow Hr. unfold TimeIndexUpTo. rewrite incr64_small by done. split.
  - intros [Hlo Hhi]. destruct r; try (exfalso; revert Hlo Hhi; by unfold bytes_lt, bytes_le). cbn [row_ok row_key] in *.
    exists dueTs, kind, ref. split; [done|].
    destruct (decide (dueTs ≤ now)) as [?|Hgt]; [done|exfalso].
    apply (bytes_lt_app [tagTimeIndex] (u64be dueTs ++ kind :: ref) (u64be (now + 1))) in Hhi.
    assert (bytes_le (u64be (now + 1)) (u64be dueTs ++ kind :: ref)) as Hc.
    { apply (be_bytes_le_app 8); [lia|exact Hr]. }
    by apply bytes_nle_lt in Hhi.
  - intros (ts & kind & ref & -> & Hts). split; [done|].
    apply (bytes_lt_app [tagTimeIndex]).
    rewrite <-(app_nil_r (u64be (now + 1))). apply (be_bytes_lt_app 8); [lia|exact Hnow].
Qed.

Lemma AppKeyspace_rows r :
  in_range AppKeyspaceBounds.1 (Some AppKeyspaceBounds.2) (row_key r) ↔ app_row r = true.
Proof.
  unfold in_range, bytes_le, bytes_lt.
  destruct r as [[]| | | | | | | | | | | | | | | | |];
    (split; [intros [_ H]; first [reflexivity|discriminate H]
            |intros H; first [discriminate H|split; reflexivity]]).
Qed.

(** ** Parsers of timer references and time-index keys *)
Lemma ParseReadyAtRef_ReadyAtRef l g i :
  short l → short g → u64 i → ParseReadyAtRef (ReadyAtRef l g i) = Some (l, g, i).
Proof.
  intros ???. unfold ParseReadyAtRef, ReadyAtRef. rewrite !takeLP_lp by done.
  rewrite length_u64be. simpl Nat.ltb. cbv iota.
  rewrite take_ge, be_val_u64be by (rewrite ?length_u64be; done). done.
Qed.
Lemma ParseLeaseDeadlineRef_LeaseDeadlineRef i :
  u64 i → ParseLeaseDeadlineRef (LeaseDeadlineRef i) = Some i.
Proof.
  intros ?. unfold ParseLeaseDeadlineRef, LeaseDeadlineRef.
  rewrite length_u64be. simpl Nat.ltb. cbv iota.
  rewrite take_ge, be_val_u64be by (rewrite ?length_u64be; done). done.
Qed.
Lemma ParseDedupRef_DedupRef l k : short l → ParseDedupRef (DedupRef l k) = Some (l, k).
Proof. apply takeLP_lp. Qed.
Lemma ParseWFTimerRef_WFTimerRef r e :
  u64 r → u64 e → ParseWFTimerRef (WFTimerRef r e) = Some (r, e).
Proof.
  intros ??. unfold ParseWFTimerRef, WFTimerRef.
  rewrite length_app, !length_u64be. simpl Nat.ltb. cbv iota.
  rewrite take_app_length', drop_app_length', (take_ge (u64be e)), !be_val_u64be
    by (rewrite ?length_u64be; done). done.
Qed.
Lemma ParseTimeIndexKey_TimeIndexKey ts k ref :
  u64 ts → ParseTimeIndexKey (TimeIndexKey ts k ref) = Some (ts, k, ref).
Proof.
  intros ?. unfold ParseTimeIndexKey, TimeIndexKey.
  rewrite bool_decide_eq_true_2 by done. rewrite orb_false_r.
  destruct (Nat.ltb_spec (length (tagTimeIndex :: u64be ts ++ k :: ref)) 10) as [Hl|_].
  { rewrite length_cons, length_app, length_u64be, length_cons in Hl. lia. }
  change (drop 9 (tagTimeIndex :: ?x)) with (drop 8 x).
  change (drop 1 (tagTimeIndex :: ?x)) with x.
  rewrite drop_app_length', take_app_length', be_val_u64be by (rewrite ?length_u64be; done).
  done.
Qed.

(** Past 65535 bytes the truncated length prefix is ambiguous: two different
    (lane, group) pairs share one group-meta key. *)
Lemma replicate_zero_key n m :
  replicate n ("000"%char) ++ replicate m ("000"%char) = replicate (n + m) ("000"%char).
Proof. by rewrite replicate_add. Qed.
Lemma lp_overflow_aux :
  ∃ l g l' g', (l, g) ≠ (l', g') ∧ GroupMetaKey l g = GroupMetaKey l' g'.
Proof.
  set (n := N.to_nat two16). assert (Hn : N.of_nat n = two16) by apply N2Nat.id. clearbody n.
  assert (Hz : be_bytes 2 0 = replicate 2 "000"%char) by done.
  assert (Hlp : lp (replicate n "000"%char) = replicate (2 + n) "000"%char).
  { unfold lp. rewrite length_replicate, Hn. change (wrap16 two16) with 0.
    by rewrite Hz, replicate_zero_key. }
  exists (replicate n "000"%char), [], [], (replicate n "000"%char). split.
  - intros [= E _]. apply (f_equal length) in E. rewrite length_replicate in E.
    simpl in E. subst n. done.
  - unfold GroupMetaKey. rewrite Hlp. change (lp []) with (replicate 2 "000"%char).
    rewrite !replicate_zero_key. do 2 f_equal. lia.
Qed.

#[global] Arguments u64be : simpl never.
#[global] Arguments lp : simpl never.
