(* ===== verification/Data.v ===== *)
(** * Data: stored rows, commands and results

    The protobuf messages the state machine stores
    ([gen/rota/v1/rota.pb.go]), the JSON records of [apply_phase4.go] and the
    Raft commands and their results ([internal/fsm/command.go]).  Field names
    keep the source's names behind a prefix per type; [<prefix>set_<Field>] is
    the assignment to that field.  Enumerations the code only ever writes from
    its own constants are inductive types; enumerations that reach the code as
    raw integers (command kinds, event types, actions) are integers with the
    source's constants. *)

From Stdlib Require Export SpecFloat.
From S2P Require Import Prelude.

(** ** [float64]: IEEE 754 binary64, on the Standard Library's specification. *)
Abbreviation float64 := spec_float.
Definition f64_zero : float64 := S754_zero false.
Definition f64_one : float64 := S754_finite false 4503599627370496 (-52).
(** Go's [==] on [float64]: the two zeroes are equal, a NaN equals nothing. *)
Definition f64_eqb (x y : float64) : bool := SFeqb x y.

(** [map[string]string] *)
Abbreviation headers := (gmap bytes bytes).

(** ** Enumerations *)
Inductive MessageState :=
  | MESSAGE_STATE_UNSPECIFIED | READY | DELAYED | LEASED | DEAD | DONE.
#[export] Instance MessageState_eq_dec : EqDecision MessageState.
Proof. solve_decision. Defined.

Inductive WorkflowStatus :=
  | WF_PENDING | WF_RUNNING | WF_COMPLETED | WF_FAILED | WF_CANCELED | WF_CONTINUED.
#[export] Instance WorkflowStatus_eq_dec : EqDecision WorkflowStatus.
Proof. solve_decision. Defined.

(** [HistoryEventType] is an [int32] and reaches the state machine from a command. *)
Definition HET_WORKFLOW_STARTED : Z := 1.
Definition HET_WORKFLOW_TASK_COMPLETED : Z := 3.
Definition HET_ACTIVITY_SCHEDULED : Z := 4.
Definition HET_ACTIVITY_COMPLETED : Z := 5.
Definition HET_ACTIVITY_FAILED : Z := 6.
Definition HET_TIMER_STARTED : Z := 7.
Definition HET_TIMER_FIRED : Z := 8.
Definition HET_SIGNAL_RECEIVED : Z := 9.
Definition HET_WORKFLOW_COMPLETED : Z := 11.
Definition HET_WORKFLOW_FAILED : Z := 12.
Definition HET_WORKFLOW_CANCELED : Z := 13.
Definition HET_WORKFLOW_CONTINUED_AS_NEW : Z := 14.

(** ** Stored protobuf messages *)

Record Message := mkMessage {
  m_MsgId : N;
  m_Lane : bytes;
  m_GroupId : bytes;
  m_Payload : bytes;
  m_Headers : headers;
  m_NotBeforeMs : N;
  m_TtlMs : N;
  m_Attempt : N;
  m_MaxAttempts : N;
  m_EnqueueMs : N;
  m_State : MessageState;
  m_Epoch : N;
  m_CurLease : N;
  m_IssueToken : bool;
  m_ExternalToken : bytes
}.
Definition m_set_TtlMs (v : N) (r : Message) : Message :=
  mkMessage r.(m_MsgId) r.(m_Lane) r.(m_GroupId) r.(m_Payload) r.(m_Headers) r.(m_NotBeforeMs) v r.(m_Attempt) r.(m_MaxAttempts) r.(m_EnqueueMs) r.(m_State) r.(m_Epoch) r.(m_CurLease) r.(m_IssueToken) r.(m_ExternalToken).
Definition m_set_Attempt (v : N) (r : Message) : Message :=
  mkMessage r.(m_MsgId) r.(m_Lane) r.(m_GroupId) r.(m_Payload) r.(m_Headers) r.(m_NotBeforeMs) r.(m_TtlMs) v r.(m_MaxAttempts) r.(m_EnqueueMs) r.(m_State) r.(m_Epoch) r.(m_CurLease) r.(m_IssueToken) r.(m_ExternalToken).
Definition m_set_State (v : MessageState) (r : Message) : Message :=
  mkMessage r.(m_MsgId) r.(m_Lane) r.(m_GroupId) r.(m_Payload) r.(m_Headers) r.(m_NotBeforeMs) r.(m_TtlMs) r.(m_Attempt) r.(m_MaxAttempts) r.(m_EnqueueMs) v r.(m_Epoch) r.(m_CurLease) r.(m_IssueToken) r.(m_ExternalToken).
Definition m_set_Epoch (v : N) (r : Message) : Message :=
  mkMessage r.(m_MsgId) r.(m_Lane) r.(m_GroupId) r.(m_Payload) r.(m_Headers) r.(m_NotBeforeMs) r.(m_TtlMs) r.(m_Attempt) r.(m_MaxAttempts) r.(m_EnqueueMs) r.(m_State) v r.(m_CurLease) r.(m_IssueToken) r.(m_ExternalToken).
Definition m_set_CurLease (v : N) (r : Message) : Message :=
  mkMessage r.(m_MsgId) r.(m_Lane) r.(m_GroupId) r.(m_Payload) r.(m_Headers) r.(m_NotBeforeMs) r.(m_TtlMs) r.(m_Attempt) r.(m_MaxAttempts) r.(m_EnqueueMs) r.(m_State) r.(m_Epoch) v r.(m_IssueToken) r.(m_ExternalToken).

Record GroupMeta := mkGroupMeta {
  gm_Lane : bytes;
  gm_GroupId : bytes;
  gm_Weight : float64;
  gm_BatchSize : N;
  gm_Paused : bool;
  gm_Deficit : float64;
  gm_VirtualTime : float64;
  gm_ReadyCount : N;
  gm_InflightCount : N;
  gm_TotalCount : N;
  gm_NextSeq : N;
  gm_LastServedSeq : Z;
  gm_LastServedTs : Z;
  gm_LastActivityMs : N;
  gm_DelayedCount : N
}.
Definition gm_set_Weight (v : float64) (r : GroupMeta) : GroupMeta :=
  mkGroupMeta r.(gm_Lane) r.(gm_GroupId) v r.(gm_BatchSize) r.(gm_Paused) r.(gm_Deficit) r.(gm_VirtualTime) r.(gm_ReadyCount) r.(gm_InflightCount) r.(gm_TotalCount) r.(gm_NextSeq) r.(gm_LastServedSeq) r.(gm_LastServedTs) r.(gm_LastActivityMs) r.(gm_DelayedCount).
Definition gm_set_BatchSize (v : N) (r : GroupMeta) : GroupMeta :=
  mkGroupMeta r.(gm_Lane) r.(gm_GroupId) r.(gm_Weight) v r.(gm_Paused) r.(gm_Deficit) r.(gm_VirtualTime) r.(gm_ReadyCount) r.(gm_InflightCount) r.(gm_TotalCount) r.(gm_NextSeq) r.(gm_LastServedSeq) r.(gm_LastServedTs) r.(gm_LastActivityMs) r.(gm_DelayedCount).
Definition gm_set_Paused (v : bool) (r : GroupMeta) : GroupMeta :=
  mkGroupMeta r.(gm_Lane) r.(gm_GroupId) r.(gm_Weight) r.(gm_BatchSize) v r.(gm_Deficit) r.(gm_VirtualTime) r.(gm_ReadyCount) r.(gm_InflightCount) r.(gm_TotalCount) r.(gm_NextSeq) r.(gm_LastServedSeq) r.(gm_LastServedTs) r.(gm_LastActivityMs) r.(gm_DelayedCount).
Definition gm_set_ReadyCount (v : N) (r : GroupMeta) : GroupMeta :=
  mkGroupMeta r.(gm_Lane) r.(gm_GroupId) r.(gm_Weight) r.(gm_BatchSize) r.(gm_Paused) r.(gm_Deficit) r.(gm_VirtualTime) v r.(gm_InflightCount) r.(gm_TotalCount) r.(gm_NextSeq) r.(gm_LastServedSeq) r.(gm_LastServedTs) r.(gm_LastActivityMs) r.(gm_DelayedCount).
Definition gm_set_InflightCount (v : N) (r : GroupMeta) : GroupMeta :=
  mkGroupMeta r.(gm_Lane) r.(gm_GroupId) r.(gm_Weight) r.(gm_BatchSize) r.(gm_Paused) r.(gm_Deficit) r.(gm_VirtualTime) r.(gm_ReadyCount) v r.(gm_TotalCount) r.(gm_NextSeq) r.(gm_LastServedSeq) r.(gm_LastServedTs) r.(gm_LastActivityMs) r.(gm_DelayedCount).
Definition gm_set_TotalCount (v : N) (r : GroupMeta) : GroupMeta :=
  mkGroupMeta r.(gm_Lane) r.(gm_GroupId) r.(gm_Weight) r.(gm_BatchSize) r.(gm_Paused) r.(gm_Deficit) r.(gm_VirtualTime) r.(gm_ReadyCount) r.(gm_InflightCount) v r.(gm_NextSeq) r.(gm_LastServedSeq) r.(gm_LastServedTs) r.(gm_LastActivityMs) r.(gm_DelayedCount).
Definition gm_set_NextSeq (v : N) (r : GroupMeta) : GroupMeta :=
  mkGroupMeta r.(gm_Lane) r.(gm_GroupId) r.(gm_Weight) r.(gm_BatchSize) r.(gm_Paused) r.(gm_Deficit) r.(gm_VirtualTime) r.(gm_ReadyCount) r.(gm_InflightCount) r.(gm_TotalCount) v r.(gm_LastServedSeq) r.(gm_LastServedTs) r.(gm_LastActivityMs) r.(gm_DelayedCount).
Definition gm_set_LastActivityMs (v : N) (r : GroupMeta) : GroupMeta :=
  mkGroupMeta r.(gm_Lane) r.(gm_GroupId) r.(gm_Weight) r.(gm_BatchSize) r.(gm_Paused) r.(gm_Deficit) r.(gm_VirtualTime) r.(gm_ReadyCount) r.(gm_InflightCount) r.(gm_TotalCount) r.(gm_NextSeq) r.(gm_LastServedSeq) r.(gm_LastServedTs) v r.(gm_DelayedCount).
Definition gm_set_DelayedCount (v : N) (r : GroupMeta) : GroupMeta :=
  mkGroupMeta r.(gm_Lane) r.(gm_GroupId) r.(gm_Weight) r.(gm_BatchSize) r.(gm_Paused) r.(gm_Deficit) r.(gm_VirtualTime) r.(gm_ReadyCount) r.(gm_InflightCount) r.(gm_TotalCount) r.(gm_NextSeq) r.(gm_LastServedSeq) r.(gm_LastServedTs) r.(gm_LastActivityMs) v.

(** [&rotav1.GroupMeta{}] *)
Definition gm_zero : GroupMeta :=
  mkGroupMeta [] [] f64_zero 0 false f64_zero f64_zero 0 0 0 0 0 0 0 0.

Record Lease := mkLease {
  ls_LeaseId : N;
  ls_MsgId : N;
  ls_Lane : bytes;
  ls_GroupId : bytes;
  ls_ConsumerId : bytes;
  ls_DeadlineMs : N;
  ls_AttemptAtLease : N;
  ls_Epoch : N;
  ls_ExtendCount : N;
  ls_CompletionTokenHash : bytes;
  ls_GrantedMs : N
}.
Definition ls_set_DeadlineMs (v : N) (r : Lease) : Lease :=
  mkLease r.(ls_LeaseId) r.(ls_MsgId) r.(ls_Lane) r.(ls_GroupId) r.(ls_ConsumerId) v r.(ls_AttemptAtLease) r.(ls_Epoch) r.(ls_ExtendCount) r.(ls_CompletionTokenHash) r.(ls_GrantedMs).
Definition ls_set_Epoch (v : N) (r : Lease) : Lease :=
  mkLease r.(ls_LeaseId) r.(ls_MsgId) r.(ls_Lane) r.(ls_GroupId) r.(ls_ConsumerId) r.(ls_DeadlineMs) r.(ls_AttemptAtLease) v r.(ls_ExtendCount) r.(ls_CompletionTokenHash) r.(ls_GrantedMs).
Definition ls_set_ExtendCount (v : N) (r : Lease) : Lease :=
  mkLease r.(ls_LeaseId) r.(ls_MsgId) r.(ls_Lane) r.(ls_GroupId) r.(ls_ConsumerId) r.(ls_DeadlineMs) r.(ls_AttemptAtLease) r.(ls_Epoch) v r.(ls_CompletionTokenHash) r.(ls_GrantedMs).
Definition ls_set_CompletionTokenHash (v : bytes) (r : Lease) : Lease :=
  mkLease r.(ls_LeaseId) r.(ls_MsgId) r.(ls_Lane) r.(ls_GroupId) r.(ls_ConsumerId) r.(ls_DeadlineMs) r.(ls_AttemptAtLease) r.(ls_Epoch) r.(ls_ExtendCount) v r.(ls_GrantedMs).

Record DeadLetter := mkDeadLetter {
  dl_Original : Message;
  dl_FinalAttempt : N;
  dl_Reason : bytes;
  dl_FailureHeaders : headers;
  dl_DeadAtMs : N
}.

Record AuthGrant := mkAuthGrant {
  ag_LanePattern : bytes;
  ag_GroupPattern : bytes;
  ag_Actions : list Z;
  ag_Note : bytes
}.

Record AuthTokenInfo := mkAuthTokenInfo {
  at_TokenId : bytes;
  at_Salt : bytes;
  at_Hash : bytes;
  at_CreatedMs : N;
  at_RotatedMs : N
}.

Record AuthPrincipal := mkAuthPrincipal {
  ap_Name : bytes;
  ap_Disabled : bool;
  ap_Tags : list bytes;
  ap_Grants : list AuthGrant;
  ap_Token : option AuthTokenInfo;
  ap_CreatedMs : N;
  ap_UpdatedMs : N
}.
Definition ap_set_Disabled (v : bool) (r : AuthPrincipal) : AuthPrincipal :=
  mkAuthPrincipal r.(ap_Name) v r.(ap_Tags) r.(ap_Grants) r.(ap_Token) r.(ap_CreatedMs) r.(ap_UpdatedMs).
Definition ap_set_Grants (v : list AuthGrant) (r : AuthPrincipal) : AuthPrincipal :=
  mkAuthPrincipal r.(ap_Name) r.(ap_Disabled) r.(ap_Tags) v r.(ap_Token) r.(ap_CreatedMs) r.(ap_UpdatedMs).
Definition ap_set_Token (v : option AuthTokenInfo) (r : AuthPrincipal) : AuthPrincipal :=
  mkAuthPrincipal r.(ap_Name) r.(ap_Disabled) r.(ap_Tags) r.(ap_Grants) v r.(ap_CreatedMs) r.(ap_UpdatedMs).
Definition ap_set_UpdatedMs (v : N) (r : AuthPrincipal) : AuthPrincipal :=
  mkAuthPrincipal r.(ap_Name) r.(ap_Disabled) r.(ap_Tags) r.(ap_Grants) r.(ap_Token) r.(ap_CreatedMs) v.

Record HistoryEvent := mkHistoryEvent {
  ev_EventId : N;
  ev_EventType : Z;
  ev_EventTimeMs : N;
  ev_Attrs : bytes
}.

Record WorkflowRun := mkWorkflowRun {
  run_RunId : N;
  run_WorkflowType : bytes;
  run_TenantId : bytes;
  run_Status : WorkflowStatus;
  run_RunEpoch : N;
  run_CurHistorySeq : N;
  run_Input : bytes;
  run_StartedMs : N;
  run_LastEventMs : N;
  run_ParentRunId : N;
  run_WfTaskPending : bool
}.
Definition run_set_Status (v : WorkflowStatus) (r : WorkflowRun) : WorkflowRun :=
  mkWorkflowRun r.(run_RunId) r.(run_WorkflowType) r.(run_TenantId) v r.(run_RunEpoch) r.(run_CurHistorySeq) r.(run_Input) r.(run_StartedMs) r.(run_LastEventMs) r.(run_ParentRunId) r.(run_WfTaskPending).
Definition run_set_RunEpoch (v : N) (r : WorkflowRun) : WorkflowRun :=
  mkWorkflowRun r.(run_RunId) r.(run_WorkflowType) r.(run_TenantId) r.(run_Status) v r.(run_CurHistorySeq) r.(run_Input) r.(run_StartedMs) r.(run_LastEventMs) r.(run_ParentRunId) r.(run_WfTaskPending).
Definition run_set_CurHistorySeq (v : N) (r : WorkflowRun) : WorkflowRun :=
  mkWorkflowRun r.(run_RunId) r.(run_WorkflowType) r.(run_TenantId) r.(run_Status) r.(run_RunEpoch) v r.(run_Input) r.(run_StartedMs) r.(run_LastEventMs) r.(run_ParentRunId) r.(run_WfTaskPending).
Definition run_set_LastEventMs (v : N) (r : WorkflowRun) : WorkflowRun :=
  mkWorkflowRun r.(run_RunId) r.(run_WorkflowType) r.(run_TenantId) r.(run_Status) r.(run_RunEpoch) r.(run_CurHistorySeq) r.(run_Input) r.(run_StartedMs) v r.(run_ParentRunId) r.(run_WfTaskPending).
Definition run_set_WfTaskPending (v : bool) (r : WorkflowRun) : WorkflowRun :=
  mkWorkflowRun r.(run_RunId) r.(run_WorkflowType) r.(run_TenantId) r.(run_Status) r.(run_RunEpoch) r.(run_CurHistorySeq) r.(run_Input) r.(run_StartedMs) r.(run_LastEventMs) r.(run_ParentRunId) v.

(** ** Messages carried inside payloads and event attributes *)

Record WorkflowTaskRef := mkWorkflowTaskRef {
  wtr_RunId : N;
  wtr_WorkflowType : bytes
}.

Record ActivityScheduledAttrs := mkActivityScheduledAttrs {
  asa_ActivityType : bytes;
  asa_TenantId : bytes;
  asa_Input : bytes
}.

Record ActivityCompletedAttrs := mkActivityCompletedAttrs {
  aca_ScheduledEventId : N;
  aca_Success : bool;
  aca_Result : bytes
}.

Record ActivityTask := mkActivityTask {
  atk_RunId : N;
  atk_ScheduledEventId : N;
  atk_ActivityType : bytes;
  atk_Input : bytes
}.

Record SignalReceivedAttrs := mkSignalReceivedAttrs {
  sra_SignalName : bytes;
  sra_Payload : bytes
}.

(** ** JSON records ([apply_phase4.go]) *)

Record CronSpec := mkCronSpec {
  cs_CronID : bytes;
  cs_Lane : bytes;
  cs_GroupID : bytes;
  cs_Payload : bytes;
  cs_Headers : headers;
  cs_Schedule : bytes;
  cs_NextFireMs : N;
  cs_LastFireMs : N;
  cs_Paused : bool
}.
Definition cs_set_NextFireMs (v : N) (r : CronSpec) : CronSpec :=
  mkCronSpec r.(cs_CronID) r.(cs_Lane) r.(cs_GroupID) r.(cs_Payload) r.(cs_Headers) r.(cs_Schedule) v r.(cs_LastFireMs) r.(cs_Paused).
Definition cs_set_LastFireMs (v : N) (r : CronSpec) : CronSpec :=
  mkCronSpec r.(cs_CronID) r.(cs_Lane) r.(cs_GroupID) r.(cs_Payload) r.(cs_Headers) r.(cs_Schedule) r.(cs_NextFireMs) v r.(cs_Paused).
Definition cs_set_Paused (v : bool) (r : CronSpec) : CronSpec :=
  mkCronSpec r.(cs_CronID) r.(cs_Lane) r.(cs_GroupID) r.(cs_Payload) r.(cs_Headers) r.(cs_Schedule) r.(cs_NextFireMs) r.(cs_LastFireMs) v.

Record SingletonRec := mkSingletonRec {
  sr_Name : bytes;
  sr_Holder : bytes;
  sr_DeadlineMs : N;
  sr_Fence : N
}.
Definition sr_set_Holder (v : bytes) (r : SingletonRec) : SingletonRec :=
  mkSingletonRec r.(sr_Name) v r.(sr_DeadlineMs) r.(sr_Fence).
Definition sr_set_DeadlineMs (v : N) (r : SingletonRec) : SingletonRec :=
  mkSingletonRec r.(sr_Name) r.(sr_Holder) v r.(sr_Fence).

(** [SingletonRec{}] *)
Definition sr_zero : SingletonRec := mkSingletonRec [] [] 0 0.

Record LaneConfigRec := mkLaneConfigRec {
  lc_RatePerSec : float64;
  lc_Burst : N
}.

(** ** Commands ([command.go]) *)

Record AuthGrantCmd := mkAuthGrantCmd {
  agc_LanePattern : bytes;
  agc_GroupPattern : bytes;
  agc_Actions : list Z;
  agc_Note : bytes
}.

Record AuthPrincipalCmd := mkAuthPrincipalCmd {
  apc_Op : N;
  apc_Name : bytes;
  apc_Tags : list bytes;
  apc_Grants : list AuthGrantCmd;
  apc_Grant : option AuthGrantCmd;
  apc_GrantIndex : N;
  apc_Disabled : bool;
  apc_TokenID : bytes;
  apc_Salt : bytes;
  apc_TokenHash : bytes;
  apc_NowMs : N
}.

Record WFCancelCmd := mkWFCancelCmd {
  wcc_RunID : N;
  wcc_Reason : bytes;
  wcc_NowMs : N
}.

Record WFSignalCmd := mkWFSignalCmd {
  wsc_RunID : N;
  wsc_SignalName : bytes;
  wsc_Payload : bytes;
  wsc_NowMs : N
}.

Record WFStartRunCmd := mkWFStartRunCmd {
  wst_WorkflowType : bytes;
  wst_TenantID : bytes;
  wst_Input : bytes;
  wst_ParentRunID : N;
  wst_NowMs : N
}.

Record WFEventIn := mkWFEventIn {
  wei_Type : Z;
  wei_Attrs : bytes
}.

Record WFAppendEventsCmd := mkWFAppendEventsCmd {
  wac_RunID : N;
  wac_RunEpoch : N;
  wac_HistorySeq : N;
  wac_Events : list WFEventIn;
  wac_NowMs : N
}.

Record WFCompleteActivityCmd := mkWFCompleteActivityCmd {
  wca_RunID : N;
  wca_ScheduledEventID : N;
  wca_Success : bool;
  wca_Result : bytes;
  wca_NowMs : N
}.

Record RedriveCmd := mkRedriveCmd {
  rd_Lane : bytes;
  rd_GroupID : bytes;
  rd_MsgID : N;
  rd_NowMs : N
}.

Record LaneConfigCmd := mkLaneConfigCmd {
  lcc_Lane : bytes;
  lcc_RatePerSec : float64;
  lcc_Burst : N
}.

Record ReapGroupCmd := mkReapGroupCmd {
  rg_Lane : bytes;
  rg_GroupID : bytes
}.

Record TeardownCmd := mkTeardownCmd {
  td_GroupID : bytes
}.

Record GroupConfigCmd := mkGroupConfigCmd {
  gc_Lane : bytes;
  gc_GroupID : bytes;
  gc_Weight : option float64;
  gc_BatchSize : option N
}.

Record GroupLifecycleCmd := mkGroupLifecycleCmd {
  gl_Lane : bytes;
  gl_GroupID : bytes;
  gl_Op : N
}.

Record CronCmd := mkCronCmd {
  cr_Op : N;
  cr_CronID : bytes;
  cr_Lane : bytes;
  cr_GroupID : bytes;
  cr_Payload : bytes;
  cr_Headers : headers;
  cr_Schedule : bytes;
  cr_NextFireMs : N;
  cr_NowMs : N
}.

Record FireCronCmd := mkFireCronCmd {
  fc_CronID : bytes;
  fc_FireAt : N;
  fc_NextFireMs : N
}.

Record IssueTokenCmd := mkIssueTokenCmd {
  it_LeaseID : N;
  it_TokenHash : bytes
}.

Record CompleteCmd := mkCompleteCmd {
  cp_TokenHash : bytes;
  cp_Success : bool;
  cp_Meta : headers;
  cp_DelayMs : N;
  cp_NowMs : N
}.

Record SingletonCmd := mkSingletonCmd {
  sg_Op : N;
  sg_Name : bytes;
  sg_Holder : bytes;
  sg_TTLms : N;
  sg_Fence : N;
  sg_NowMs : N
}.

Record PolicyCmd := mkPolicyCmd {
  pol_Lane : bytes;
  pol_Binding : bytes
}.

Record PublishCmd := mkPublishCmd {
  p_Lane : bytes;
  p_GroupID : bytes;
  p_Payload : bytes;
  p_Headers : headers;
  p_Weight : float64;
  p_HasWeight : bool;
  p_BatchSize : N;
  p_HasBatch : bool;
  p_MaxAttempts : N;
  p_NotBeforeMs : N;
  p_TtlExpiryMs : N;
  p_NowMs : N;
  p_IssueToken : bool;
  p_ExternalToken : bytes;
  p_DedupKey : bytes;
  p_DedupExpiryMs : N
}.

Record PublishBatchCmd := mkPublishBatchCmd {
  pb_Items : list PublishCmd;
  pb_Atomic : bool
}.

Record LeaseCmd := mkLeaseCmd {
  l_Lane : bytes;
  l_GroupID : bytes;
  l_ConsumerID : bytes;
  l_DeadlineMs : N;
  l_MaxLifeMs : N
}.

Record AckCmd := mkAckCmd {
  a_LeaseID : N
}.

Record NackCmd := mkNackCmd {
  n_LeaseID : N;
  n_Mode : N;
  n_DelayMs : N;
  n_FailureMeta : headers;
  n_NowMs : N
}.

Record ExtendCmd := mkExtendCmd {
  e_LeaseID : N;
  e_NewDeadlineMs : N
}.

Record FireTimerCmd := mkFireTimerCmd {
  f_Kind : byte;
  f_DueTs : N;
  f_Ref : bytes;
  f_FireAt : N
}.

(** [CmdType] ([iota + 1]). *)

Definition CmdPublish : N := 1.
Definition CmdLease : N := 2.
Definition CmdAck : N := 3.
Definition CmdNack : N := 4.
Definition CmdExtend : N := 5.
Definition CmdFireTimer : N := 6.
Definition CmdSetPolicy : N := 7.
Definition CmdGroupConfig : N := 8.
Definition CmdGroupLifecycle : N := 9.
Definition CmdCron : N := 10.
Definition CmdFireCron : N := 11.
Definition CmdIssueToken : N := 12.
Definition CmdComplete : N := 13.
Definition CmdSingleton : N := 14.
Definition CmdSetLaneConfig : N := 15.
Definition CmdReapGroup : N := 16.
Definition CmdTeardownGroup : N := 17.
Definition CmdPublishBatch : N := 18.
Definition CmdRedrive : N := 19.
Definition CmdWFStartRun : N := 20.
Definition CmdWFAppendEvents : N := 21.
Definition CmdWFCompleteActivity : N := 22.
Definition CmdWFSignal : N := 23.
Definition CmdWFCancel : N := 24.
Definition CmdAuthPrincipal : N := 25.

(** [GroupOp], [CronOp], [SingletonOp], [AuthPrincipalOp], [NackMode]. *)
Definition GroupPause : N := 0.
Definition GroupResume : N := 1.
Definition GroupCancel : N := 2.
Definition GroupPurge : N := 3.
Definition CronSchedule : N := 0.
Definition CronDelete : N := 1.
Definition CronPause : N := 2.
Definition CronResume : N := 3.
Definition SingletonAcquire : N := 0.
Definition SingletonRenew : N := 1.
Definition SingletonRelease : N := 2.
Definition AuthCreatePrincipal : N := 0.
Definition AuthRotatePrincipalToken : N := 1.
Definition AuthSetPrincipalDisabled : N := 2.
Definition AuthGrantPrincipal : N := 3.
Definition AuthRevokePrincipalGrant : N := 4.
Definition NackRequeueNoPenalty : N := 0.
Definition NackRetry : N := 1.
Definition NackDeadLetter : N := 2.

(** The log-entry envelope: a kind and one optional pointer per kind. *)
Record Command := mkCommand {
  c_Type : N;
  c_Publish : option PublishCmd;
  c_PublishBatch : option PublishBatchCmd;
  c_Lease : option LeaseCmd;
  c_Ack : option AckCmd;
  c_Nack : option NackCmd;
  c_Extend : option ExtendCmd;
  c_Fire : option FireTimerCmd;
  c_Policy : option PolicyCmd;
  c_GroupConfig : option GroupConfigCmd;
  c_GroupLifecycle : option GroupLifecycleCmd;
  c_Cron : option CronCmd;
  c_FireCron : option FireCronCmd;
  c_IssueToken : option IssueTokenCmd;
  c_Complete : option CompleteCmd;
  c_Singleton : option SingletonCmd;
  c_LaneConfig : option LaneConfigCmd;
  c_ReapGroup : option ReapGroupCmd;
  c_Teardown : option TeardownCmd;
  c_Redrive : option RedriveCmd;
  c_WFStart : option WFStartRunCmd;
  c_WFAppend : option WFAppendEventsCmd;
  c_WFCompleteActivity : option WFCompleteActivityCmd;
  c_WFSignal : option WFSignalCmd;
  c_WFCancel : option WFCancelCmd;
  c_AuthPrincipal : option AuthPrincipalCmd
}.

(** A command of kind [t] with no payload, and the one-payload commands the node proposes. *)
Definition cmd_of (t : N) : Command :=
  mkCommand t None None None None None None None None None None None None None None None None None None None None None None None None None.
Definition cmd_Publish (x : PublishCmd) : Command :=
  mkCommand CmdPublish (Some x) None None None None None None None None None None None None None None None None None None None None None None None None.
Definition cmd_PublishBatch (x : PublishBatchCmd) : Command :=
  mkCommand CmdPublishBatch None (Some x) None None None None None None None None None None None None None None None None None None None None None None None.
Definition cmd_Lease (x : LeaseCmd) : Command :=
  mkCommand CmdLease None None (Some x) None None None None None None None None None None None None None None None None None None None None None None.
Definition cmd_Ack (x : AckCmd) : Command :=
  mkCommand CmdAck None None None (Some x) None None None None None None None None None None None None None None None None None None None None None.
Definition cmd_Nack (x : NackCmd) : Command :=
  mkCommand CmdNack None None None None (Some x) None None None None None None None None None None None None None None None None None None None None.
Definition cmd_Extend (x : ExtendCmd) : Command :=
  mkCommand CmdExtend None None None None None (Some x) None None None None None None None None None None None None None None None None None None None.
Definition cmd_Fire (x : FireTimerCmd) : Command :=
  mkCommand CmdFireTimer None None None None None None (Some x) None None None None None None None None None None None None None None None None None None.
Definition cmd_Policy (x : PolicyCmd) : Command :=
  mkCommand CmdSetPolicy None None None None None None None (Some x) None None None None None None None None None None None None None None None None None.
Definition cmd_GroupConfig (x : GroupConfigCmd) : Command :=
  mkCommand CmdGroupConfig None None None None None None None None (Some x) None None None None None None None None None None None None None None None None.
Definition cmd_GroupLifecycle (x : GroupLifecycleCmd) : Command :=
  mkCommand CmdGroupLifecycle None None None None None None None None None (Some x) None None None None None None None None None None None None None None None.
Definition cmd_Cron (x : CronCmd) : Command :=
  mkCommand CmdCron None None None None None None None None None None (Some x) None None None None None None None None None None None None None None.
Definition cmd_FireCron (x : FireCronCmd) : Command :=
  mkCommand CmdFireCron None None None None None None None None None None None (Some x) None None None None None None None None None None None None None.
Definition cmd_IssueToken (x : IssueTokenCmd) : Command :=
  mkCommand CmdIssueToken None None None None None None None None None None None None (Some x) None None None None None None None None None None None None.
Definition cmd_Complete (x : CompleteCmd) : Command :=
  mkCommand CmdComplete None None None None None None None None None None None None None (Some x) None None None None None None None None None None None.
Definition cmd_Singleton (x : SingletonCmd) : Command :=
  mkCommand CmdSingleton None None None None None None None None None None None None None None (Some x) None None None None None None None None None None.
Definition cmd_LaneConfig (x : LaneConfigCmd) : Command :=
  mkCommand CmdSetLaneConfig None None None None None None None None None None None None None None None (Some x) None None None None None None None None None.
Definition cmd_ReapGroup (x : ReapGroupCmd) : Command :=
  mkCommand CmdReapGroup None None None None None None None None None None None None None None None None (Some x) None None None None None None None None.
Definition cmd_Teardown (x : TeardownCmd) : Command :=
  mkCommand CmdTeardownGroup None None None None None None None None None None None None None None None None None (Some x) None None None None None None None.
Definition cmd_Redrive (x : RedriveCmd) : Command :=
  mkCommand CmdRedrive None None None None None None None None None None None None None None None None None None (Some x) None None None None None None.
Definition cmd_WFStart (x : WFStartRunCmd) : Command :=
  mkCommand CmdWFStartRun None None None None None None None None None None None None None None None None None None None (Some x) None None None None None.
Definition cmd_WFAppend (x : WFAppendEventsCmd) : Command :=
  mkCommand CmdWFAppendEvents None None None None None None None None None None None None None None None None None None None None (Some x) None None None None.
Definition cmd_WFCompleteActivity (x : WFCompleteActivityCmd) : Command :=
  mkCommand CmdWFCompleteActivity None None None None None None None None None None None None None None None None None None None None None (Some x) None None None.
Definition cmd_WFSignal (x : WFSignalCmd) : Command :=
  mkCommand CmdWFSignal None None None None None None None None None None None None None None None None None None None None None None (Some x) None None.
Definition cmd_WFCancel (x : WFCancelCmd) : Command :=
  mkCommand CmdWFCancel None None None None None None None None None None None None None None None None None None None None None None None (Some x) None.
Definition cmd_AuthPrincipal (x : AuthPrincipalCmd) : Command :=
  mkCommand CmdAuthPrincipal None None None None None None None None None None None None None None None None None None None None None None None None (Some x).

(** ** Apply results *)

Record WFAppendResult := mkWFAppendResult {
  war_Applied : bool;
  war_Reason : bytes;
  war_NewSeq : N
}.

Record PublishItemResult := mkPublishItemResult {
  pir_MsgID : N;
  pir_OK : bool;
  pir_Duplicate : bool;
  pir_Err : bytes
}.

Record LeaseResult := mkLeaseResult {
  lr_LeaseID : N;
  lr_MsgID : N;
  lr_Lane : bytes;
  lr_GroupID : bytes;
  lr_Payload : bytes;
  lr_Headers : headers;
  lr_Attempt : N;
  lr_DeadlineMs : N;
  lr_Empty : bool;
  lr_IssueToken : bool;
  lr_ExternalToken : bytes
}.

(** [&LeaseResult{Empty: true}] *)
Definition lr_empty : LeaseResult :=
  mkLeaseResult 0 0 [] [] [] ∅ 0 0 true false [].

(** The [interface{}] an apply handler returns. *)
Inductive ApplyResult :=
  | RNil
  | RPublish (MsgID : N) (Duplicate : bool)
  | RPublishBatch (Items : list PublishItemResult)
  | RLease (r : LeaseResult)
  | RAck (OK : bool)
  | RNack (OK DeadLettered : bool)
  | RExtend (OK : bool)
  | RGroupOp (Affected : N)
  | RTeardown (AffectedLanes : list bytes) (Affected : N)
  | RRedrive (OK : bool) (NewMsgID : N)
  | RComplete (OK DeadLettered Unknown : bool)
  | RSingleton (OK : bool) (Fence : N) (Holder : bytes)
  | RWFStartRun (RunID : N)
  | RWFAppend (r : WFAppendResult)
  | RPrincipal (p : AuthPrincipal)
  | RAuthOp (Ok : bool).

(** ** Rows

    The value of a key, decoded.  The protobuf rows hold a marshalled message
    and the JSON rows a marshalled record in the program; the encoders are
    third-party or library code whose decode-after-encode is the identity, so a
    row is modelled by what it decodes to.  The rows the program encodes by
    hand ([u64b], [dedupVal], the done marker, policy bindings) stay bytes. *)
Inductive value :=
  | VRaw (b : bytes)
  | VMessage (m : Message)
  | VGroupMeta (g : GroupMeta)
  | VLease (l : Lease)
  | VDeadLetter (d : DeadLetter)
  | VRun (r : WorkflowRun)
  | VEvent (e : HistoryEvent)
  | VCron (c : CronSpec)
  | VSingleton (s : SingletonRec)
  | VLaneConfig (l : LaneConfigRec)
  | VPrincipal (p : AuthPrincipal).
