(* ===== verification/Store.v ===== *)
(** * The store, its iterators and the FSM's batch ([internal/storage/store.go])

    A Pebble database is a finite map from keys to values.  An iterator over
    [[lo, hi)] visits its rows in byte order.  A batch is a list of writes,
    applied in order by [commit]; an [Apply] handler reads the COMMITTED store
    and only appends to its batch, which is what the monad [M] makes explicit:
    no read ever sees a write of the same batch.  Pebble's own failures (I/O
    errors) are not modelled. *)

From S2P Require Import Prelude Keys Data.

(** ** Iterators *)
Definition row_le {V} (x y : bytes * V) : Prop := bytes_le x.1 y.1.
#[export] Instance row_le_dec V : RelDecision (@row_le V).
Proof. intros x y. unfold row_le. apply _. Defined.
#[export] Instance row_le_preorder V : PreOrder (@row_le V).
Proof.
  split; unfold row_le.
  - intros x. reflexivity.
  - intros x y z ??. by etransitivity.
Qed.
#[export] Instance row_le_total V : Total (@row_le V).
Proof. intros x y. apply (total bytes_le). Qed.

Definition NewIter {V} (lo : bytes) (hi : option bytes) (db : gmap bytes V) :
    list (bytes * V) :=
  merge_sort row_le (filter (λ kv, in_range lo hi kv.1) (map_to_list db)).

Section iterators.
Context {V : Type}.
Implicit Types (db : gmap bytes V) (lo k : bytes) (hi : option bytes).

Lemma NewIter_Permutation lo hi db :
  NewIter lo hi db ≡ₚ filter (λ kv, in_range lo hi kv.1) (map_to_list db).
Proof. apply merge_sort_Permutation. Qed.

Lemma elem_of_NewIter lo hi db k v :
  (k, v) ∈ NewIter lo hi db ↔ db !! k = Some v ∧ in_range lo hi k.
Proof.
  rewrite NewIter_Permutation, list_elem_of_filter,
    elem_of_map_to_list. tauto.
Qed.

Lemma NewIter_NoDup_fst lo hi db : NoDup (NewIter lo hi db).*1.
Proof.
  assert ((NewIter lo hi db).*1 ≡ₚ
          (filter (λ kv, in_range lo hi kv.1) (map_to_list db)).*1) as ->.
  { apply fmap_Permutation, NewIter_Permutation. }
  pose proof (NoDup_fst_map_to_list db) as Hnd.
  induction (map_to_list db) as [|[k v] l IH]; [done|].
  rewrite fmap_cons, NoDup_cons in Hnd. destruct Hnd as [Hk Hnd].
  rewrite filter_cons. case_decide; [|auto].
  rewrite fmap_cons, NoDup_cons. split; [|auto].
  contradict Hk. apply list_elem_of_fmap in Hk as ([k' v'] & -> & Hin).
  apply list_elem_of_filter in Hin as [_ Hin]. apply list_elem_of_fmap. eauto.
Qed.

Lemma NewIter_sorted lo hi db : StronglySorted row_le (NewIter lo hi db).
Proof. unfold NewIter. apply StronglySorted_merge_sort; apply _. Qed.

(** Rows come in strictly increasing key order. *)
Lemma NewIter_strict lo hi db i j k v k' v' :
  NewIter lo hi db !! i = Some (k, v) → NewIter lo hi db !! j = Some (k', v') →
  (i < j)%nat → bytes_lt k k'.
Proof.
  intros Hi Hj Hij. pose proof (NewIter_NoDup_fst lo hi db) as Hnd.
  pose proof (NewIter_sorted lo hi db) as Hs.
  revert i j Hi Hj Hij. induction Hs as [|[a w] l Hs IH Hall]; intros i j Hi Hj Hij; [done|].
  rewrite fmap_cons, NoDup_cons in Hnd. destruct Hnd as [Hnin Hnd].
  destruct i as [|i], j as [|j]; try lia.
  - simpl in Hi, Hj. simplify_eq. apply list_elem_of_lookup_2 in Hj.
    rewrite Forall_forall in Hall.
    apply Hall in Hj as Hle. unfold row_le in Hle. simpl in Hle.
    apply bytes_le_lteq in Hle as [?| ->]; [done|].
    destruct Hnin. apply list_elem_of_fmap. by exists (k', v').
  - eapply IH; [done|exact Hi|exact Hj|lia].
Qed.

(** A strictly sorted list with the right members is the iteration. *)
Lemma NewIter_unique lo hi db l :
  StronglySorted row_le l → NoDup l →
  (∀ k v, (k, v) ∈ l ↔ db !! k = Some v ∧ in_range lo hi k) →
  NewIter lo hi db = l.
Proof.
  intros Hs Hnd Hin.
  assert (Hperm : NewIter lo hi db ≡ₚ l).
  { apply NoDup_Permutation; [|done|].
    - eapply NoDup_fmap_1, NewIter_NoDup_fst.
    - intros [k v]. by rewrite elem_of_NewIter, Hin. }
  assert (Hfst : NoDup l.*1) by (rewrite <-Hperm; apply NewIter_NoDup_fst).
  pose proof (NewIter_sorted lo hi db) as Hs'. revert Hs' Hperm.
  generalize (NewIter lo hi db). clear Hin Hnd.
  induction Hs as [|x l Hs IH Hall]; intros l' Hs' Hperm.
  { by apply Permutation_nil_r in Hperm. }
  destruct l' as [|y l']; [by apply Permutation_nil_l in Hperm|].
  apply StronglySorted_inv in Hs' as [Hs' Hall'].
  rewrite fmap_cons, NoDup_cons in Hfst. destruct Hfst as [Hx Hfst].
  rewrite Forall_forall in Hall, Hall'.
  assert (x = y) as ->.
  { assert (Hxin : x ∈ y :: l') by (rewrite Hperm; left).
    assert (Hyin : y ∈ x :: l) by (rewrite <-Hperm; left).
    apply elem_of_cons in Hxin as [?|Hxin]; [done|].
    apply elem_of_cons in Hyin as [?|Hyin]; [done|].
    apply Hall in Hyin as H1. apply Hall' in Hxin as H2.
    destruct Hx. apply list_elem_of_fmap. exists y. split; [|done].
    by apply (anti_symm bytes_le). }
  f_equal. apply IH; [done|done|]. by apply Permutation_cons_inv in Hperm.
Qed.
End iterators.

(** ** Rows: what [GetProto] / [putProto] read and write for each message type *)
Abbreviation store := (gmap bytes value).

Class Row (A : Type) := {
  row_in : A → value;
  row_out : value → option A;
  row_out_in x : row_out (row_in x) = Some x;
  row_out_Some v x : row_out v = Some x → v = row_in x;
}.

Ltac solve_row := by first [done | intros [] ?; naive_solver].
#[export] Program Instance Row_bytes : Row bytes :=
  {| row_in := VRaw; row_out v := match v with VRaw b => Some b | _ => None end |}.
Solve Obligations with solve_row.
#[export] Program Instance Row_Message : Row Message :=
  {| row_in := VMessage; row_out v := match v with VMessage m => Some m | _ => None end |}.
Solve Obligations with solve_row.
#[export] Program Instance Row_GroupMeta : Row GroupMeta :=
  {| row_in := VGroupMeta; row_out v := match v with VGroupMeta m => Some m | _ => None end |}.
Solve Obligations with solve_row.
#[export] Program Instance Row_Lease : Row Lease :=
  {| row_in := VLease; row_out v := match v with VLease m => Some m | _ => None end |}.
Solve Obligations with solve_row.
#[export] Program Instance Row_DeadLetter : Row DeadLetter :=
  {| row_in := VDeadLetter; row_out v := match v with VDeadLetter m => Some m | _ => None end |}.
Solve Obligations with solve_row.
#[export] Program Instance Row_Run : Row WorkflowRun :=
  {| row_in := VRun; row_out v := match v with VRun m => Some m | _ => None end |}.
Solve Obligations with solve_row.
#[export] Program Instance Row_Event : Row HistoryEvent :=
  {| row_in := VEvent; row_out v := match v with VEvent m => Some m | _ => None end |}.
Solve Obligations with solve_row.
#[export] Program Instance Row_Cron : Row CronSpec :=
  {| row_in := VCron; row_out v := match v with VCron m => Some m | _ => None end |}.
Solve Obligations with solve_row.
#[export] Program Instance Row_Singleton : Row SingletonRec :=
  {| row_in := VSingleton; row_out v := match v with VSingleton m => Some m | _ => None end |}.
Solve Obligations with solve_row.
#[export] Program Instance Row_LaneConfig : Row LaneConfigRec :=
  {| row_in := VLaneConfig; row_out v := match v with VLaneConfig m => Some m | _ => None end |}.
Solve Obligations with solve_row.
#[export] Program Instance Row_Principal : Row AuthPrincipal :=
  {| row_in := VPrincipal; row_out v := match v with VPrincipal m => Some m | _ => None end |}.
Solve Obligations with solve_row.

(** [GetProto], or [GetRaw] followed by [json.Unmarshal] for a JSON row.  A row
    of another type is read as absent; [typed_store] is the invariant that the
    situation does not arise. *)
Definition GetProto {A} `{Row A} (k : bytes) (db : store) : option A :=
  db !! k ≫= row_out.
(** [GetRaw] of a row the program encodes by hand. *)
Definition GetRaw (k : bytes) (db : store) : option bytes := GetProto k db.

(** ** Batches *)
Inductive bop :=
  | BSet (k : bytes) (v : value)
  | BDel (k : bytes).
Abbreviation batch := (list bop).

Definition apply_bop (db : store) (o : bop) : store :=
  match o with
  | BSet k v => <[k := v]> db
  | BDel k => delete k db
  end.
Definition commit (b : batch) (db : store) : store := foldl apply_bop db b.

Lemma commit_app b1 b2 db : commit (b1 ++ b2) db = commit b2 (commit b1 db).
Proof. apply foldl_app. Qed.

(** ** The handler monad: read the committed store, write the batch, or fail *)
Definition M (A : Type) : Type := store → result (A * batch).

#[export] Instance M_ret : MRet M := λ A x db, Ok (x, []).
#[export] Instance M_bind : MBind M := λ A B f m db,
  match m db with
  | Err e => Err e
  | Ok (x, b1) =>
      match f x db with
      | Err e => Err e
      | Ok (y, b2) => Ok (y, b1 ++ b2)
      end
  end.
Definition gets {A} (f : store → A) : M A := λ db, Ok (f db, []).
Definition fail {A} (e : bytes) : M A := λ _, Err e.
Definition bset (k : bytes) (v : value) : M unit := λ _, Ok ((), [BSet k v]).
Definition bdel (k : bytes) : M unit := λ _, Ok ((), [BDel k]).
Definition when (c : bool) (m : M unit) : M unit := if c then m else mret ().

Definition putProto {A} `{Row A} (k : bytes) (x : A) : M unit := bset k (row_in x).

(** The store after the batch of a successful handler is committed. *)
Definition run {A} (m : M A) (db : store) : option (A * store) :=
  match m db with
  | Ok (x, b) => Some (x, commit b db)
  | Err _ => None
  end.

(** ** Helpers of [fsm.go] *)
Definition u64b (v : N) : bytes := be_bytes 8 v.
Definition beU64 (b : bytes) : N :=
  if (length b <? 8)%nat then 0 else be_val (take 8 b).
Definition decr (v : N) : N := if 0 <? v then v - 1 else v.

Definition addTimer (dueTs : N) (kind : byte) (ref : bytes) (epoch : N) : M unit :=
  bset (TimeIndexKey dueTs kind ref) (VRaw (u64b epoch)).
Definition delTimer (dueTs : N) (kind : byte) (ref : bytes) : M unit :=
  bdel (TimeIndexKey dueTs kind ref).

Lemma beU64_u64b v : u64 v → beU64 (u64b v) = v.
Proof.
  intros Hv. unfold beU64, u64b. rewrite length_be_bytes. simpl Nat.ltb. cbv iota.
  rewrite take_ge by (by rewrite length_be_bytes). by apply be_val_u64be.
Qed.

(** ** Group scans the node performs on the store *)
Record GroupInfo := mkGroupInfo {
  gi_ID : bytes; gi_Ready : N; gi_InFlight : N; gi_Weight : float64; gi_Paused : bool }.

Fixpoint decodeGroups (rows : list (bytes * value)) : result (list GroupInfo) :=
  match rows with
  | [] => Ok []
  | (_, v) :: rows' =>
      match row_out v with
      | None => Err (bs "unmarshal")
      | Some gm =>
          match decodeGroups rows' with
          | Err e => Err e
          | Ok l => Ok (mkGroupInfo gm.(gm_GroupId) gm.(gm_ReadyCount)
                          gm.(gm_InflightCount) gm.(gm_Weight) gm.(gm_Paused) :: l)
          end
      end
  end.

Definition ListGroups (lane : bytes) (db : store) : result (list GroupInfo) :=
  let lo := GroupMetaLanePrefix lane in
  decodeGroups (NewIter lo (PrefixEnd lo) db).

Definition CountDLQ (lane : bytes) (db : store) : nat :=
  let lo := DLQLanePrefix lane in
  length (NewIter lo (PrefixEnd lo) db).

(** ** Typing of the store: each table holds rows of its own type *)
Definition value_typed (k : bytes) (v : value) : bool :=
  match k, v with
  | t :: _, VRaw _ =>
      bool_decide (t ∈ [tagMeta; tagTimeIndex; tagPolicy; tagToken; tagDedup; tagWFActivityDn])
  | t :: _, VMessage _ => bool_decide (t = tagMessage)
  | t :: _, VGroupMeta _ => bool_decide (t = tagGroupMeta)
  | t :: _, VLease _ => bool_decide (t = tagLease)
  | t :: _, VDeadLetter _ => bool_decide (t = tagDLQ)
  | t :: _, VRun _ => bool_decide (t = tagWFRun)
  | t :: _, VEvent _ => bool_decide (t = tagWFHistory)
  | t :: _, VCron _ => bool_decide (t = tagCron)
  | t :: _, VSingleton _ => bool_decide (t = tagSingleton)
  | t :: _, VLaneConfig _ => bool_decide (t = tagLaneConfig)
  | t :: _, VPrincipal _ => bool_decide (t = tagAuthPrincipal)
  | [], _ => false
  end.

Definition typed_store (db : store) : Prop := ∀ k v, db !! k = Some v → value_typed k v.
Definition typed_bop (o : bop) : Prop :=
  match o with BSet k v => value_typed k v | BDel _ => True end.

Lemma typed_commit b db :
  typed_store db → Forall typed_bop b → typed_store (commit b db).
Proof.
  intros Hdb Hb. revert db Hdb. induction Hb as [|o b Ho Hb IH]; intros db Hdb; [done|].
  apply IH. destruct o as [k v|k]; intros k' v'; simpl; intros E.
  - destruct (decide (k = k')) as [->|Hne]; simplify_map_eq; [exact Ho|by apply Hdb].
  - apply lookup_delete_Some in E as [_ E]. by apply Hdb.
Qed.

(** A handler that always writes typed rows. *)
Definition typed_M {A} (m : M A) : Prop :=
  ∀ db x b, m db = Ok (x, b) → Forall typed_bop b.

Lemma typed_ret {A} (x : A) : typed_M (mret x).
Proof. intros db y b [= _ <-]. constructor. Qed.
Lemma typed_gets {A} (f : store → A) : typed_M (gets f).
Proof. intros db y b [= _ <-]. constructor. Qed.
Lemma typed_fail {A} e : typed_M (@fail A e).
Proof. by intros db y b. Qed.
Lemma typed_bset k v : value_typed k v → typed_M (bset k v).
Proof. intros H db y b [= _ <-]. by constructor. Qed.
Lemma typed_bdel k : typed_M (bdel k).
Proof. intros db y b [= _ <-]. by constructor. Qed.
Lemma typed_bind {A B} (m : M A) (f : A → M B) :
  typed_M m → (∀ x, typed_M (f x)) → typed_M (m ≫= f).
Proof.
  intros Hm Hf db y b. unfold mbind, M_bind.
  destruct (m db) as [[x b1]|] eqn:E1; [|done].
  destruct (f x db) as [[z b2]|] eqn:E2; [|done]. intros [= <- <-].
  apply Forall_app; split; [by eapply Hm|by eapply Hf].
Qed.

Create HintDb rota_typed discriminated.
#[export] Hint Resolve typed_ret typed_gets typed_fail typed_bset typed_bdel : rota_typed.
#[export] Hint Extern 1 (typed_M (mbind _ _)) => apply typed_bind; [|intros ?] : rota_typed.
#[export] Hint Extern 1 (Is_true (value_typed _ _)) => exact I : rota_typed.
#[export] Hint Extern 2 (typed_M (when ?c _)) => unfold when; destruct c : rota_typed.
#[export] Hint Extern 2 (typed_M (match ?x with _ => _ end)) => destruct x : rota_typed.
#[export] Hint Extern 3 (typed_M (putProto _ _)) => unfold putProto : rota_typed.
#[export] Hint Extern 3 (typed_M (addTimer _ _ _ _)) => unfold addTimer : rota_typed.
#[export] Hint Extern 3 (typed_M (delTimer _ _ _)) => unfold delTimer : rota_typed.
