(* ===== verification/Backoff.v ===== *)
(** * Deterministic retry backoff ([internal/fsm/backoff.go])

    The delay before the next retry of a message: exponential with a jitter
    drawn from an FNV-1a hash of (message id, attempt), so that every replica
    computes the same instant. *)

From S2P Require Import Prelude.

Definition defaultMaxAttempts : N := 3.
Definition backoffBaseMs : N := 500.
Definition backoffMaxMs : N := 30000.
Definition backoffMaxShift : N := 16.
Definition penaliseExpiry : bool := false.

(** [hash/fnv]'s [New64a]: xor the byte in, multiply by the prime. *)
Definition fnv64a_offset : N := 14695981039346656037.
Definition fnv64a_prime : N := 1099511628211.
Definition fnv64a (b : bytes) : N :=
  foldl (λ h c, wrap64 (N.lxor h (N_of_ascii c) * fnv64a_prime)) fnv64a_offset b.

(** [byte(x >> (8 * i))] for [i] from 0 to [n - 1]. *)
Fixpoint le_bytes (n : nat) (x : N) : bytes :=
  match n with
  | O => []
  | S n' => ascii_of_N (x mod 256) :: le_bytes n' (N.shiftr x 8)
  end.

Definition backoff_base (attempt : N) : N :=
  let shift := if backoffMaxShift <? attempt then backoffMaxShift else attempt in
  let base := wrap64 (N.shiftl backoffBaseMs shift) in
  if backoffMaxMs <? base then backoffMaxMs else base.

Definition backoffMs (msgID attempt : N) : N :=
  let base := backoff_base attempt in
  let buf := le_bytes 8 msgID ++ le_bytes 4 attempt in
  let jitter := fnv64a buf mod (base / 4 + 1) in
  let d := add64 base jitter in
  if backoffMaxMs <? d then backoffMaxMs else d.

(** ** Bounds *)
Lemma backoff_base_eq attempt :
  backoff_base attempt = N.min (backoffBaseMs * 2 ^ N.min attempt 16) backoffMaxMs.
Proof.
  unfold backoff_base, backoffMaxShift, backoffMaxMs, backoffBaseMs.
  assert (∀ a, a ≤ 16 → 500 * 2 ^ a < two64) as Hlt.
  { intros a Ha. apply N.le_lt_trans with (500 * 2 ^ 16); [|done].
    apply N.mul_le_mono_l, N.pow_le_mono_r; lia. }
  destruct (N.ltb_spec 16 attempt).
  - rewrite (N.min_r attempt 16) by lia. done.
  - rewrite (N.min_l attempt) by lia.
    rewrite N.shiftl_mul_pow2, wrap64_small by (apply Hlt; lia).
    generalize (500 * 2 ^ attempt). intros x. destruct (N.ltb_spec 30000 x); lia.
Qed.

Lemma backoff_base_bounds attempt : 500 ≤ backoff_base attempt ≤ 30000.
Proof.
  rewrite backoff_base_eq. unfold backoffBaseMs, backoffMaxMs.
  assert (2 ^ 0 ≤ 2 ^ N.min attempt 16) by (apply N.pow_le_mono_r; lia). lia.
Qed.

Lemma backoffMs_range id attempt :
  backoff_base attempt ≤ backoffMs id attempt
    ≤ N.min (backoff_base attempt + backoff_base attempt / 4) backoffMaxMs.
Proof.
  pose proof (backoff_base_bounds attempt) as Hb. revert Hb.
  unfold backoffMs. generalize (backoff_base attempt). intros base Hb.
  set (j := fnv64a _ mod _). assert (j < base / 4 + 1) as Hj by (apply N.mod_lt; clear; generalize (base / 4); lia).
  pose proof (N.Div0.mul_div_le base 4) as Hq. revert Hq Hj.
  generalize (base / 4). intros q Hq Hj. clearbody j. unfold add64, wrap64, two64, backoffMaxMs.
  rewrite N.mod_small by lia. destruct (N.ltb_spec 30000 (base + j)); split; lia.
Qed.

Lemma backoffMs_positive id attempt : 500 ≤ backoffMs id attempt.
Proof.
  pose proof (backoffMs_range id attempt). pose proof (backoff_base_bounds attempt). lia.
Qed.

Lemma backoff_base_mono a a' : a ≤ a' → backoff_base a ≤ backoff_base a'.
Proof.
  intros Ha. rewrite !backoff_base_eq. unfold backoffBaseMs.
  assert (2 ^ N.min a 16 ≤ 2 ^ N.min a' 16) by (apply N.pow_le_mono_r; lia). lia.
Qed.
