(* ===== verification/Publish.v ===== *)
(** * Publishing ([internal/fsm/fsm.go], and [publishReady] of [apply_phase4.go])

    One message is written by [publishOne] (client publishes and redrives) or
    [publishReady] (cron fires, workflow and activity tasks).  Deduplication
    keeps a row per (lane, dedup_key) with the original id and the window's
    absolute expiry; the batch handler shares one evolving group meta between
    the items of a group. *)

From S2P Require Import Prelude Keys Data Store.

(** ** Group metadata *)
Definition gm_default (lane group : bytes) : GroupMeta :=
  mkGroupMeta lane group f64_one 1 false f64_zero f64_zero 0 0 0 1 0 0 0 0.

Definition loadGroupMeta (lane group : bytes) (db : store) : GroupMeta :=
  match GetProto (GroupMetaKey lane group) db with
  | Some gm => gm
  | None => gm_default lane group
  end.

(** ** One message *)
Definition publish_knobs (c : PublishCmd) (gm : GroupMeta) : GroupMeta :=
  let gm := if c.(p_HasWeight) then gm_set_Weight c.(p_Weight) gm else gm in
  let gm := if c.(p_HasBatch) && (0 <? c.(p_BatchSize))
            then gm_set_BatchSize c.(p_BatchSize) gm else gm in
  if f64_eqb gm.(gm_Weight) f64_zero then gm_set_Weight f64_one gm else gm.

(** Returns the assigned id and the mutated group meta, which the caller persists. *)
Definition publishOne (c : PublishCmd) (gm : GroupMeta) : M (N * GroupMeta) :=
  let gm := publish_knobs c gm in
  let msgID := gm.(gm_NextSeq) in
  let gm := gm_set_NextSeq (incr64 gm.(gm_NextSeq)) gm in
  let gm := gm_set_TotalCount (incr64 gm.(gm_TotalCount)) gm in
  let gm := gm_set_LastActivityMs c.(p_NowMs) gm in
  let msg := mkMessage msgID c.(p_Lane) c.(p_GroupID) c.(p_Payload) c.(p_Headers)
               c.(p_NotBeforeMs) 0 0 c.(p_MaxAttempts) c.(p_NowMs)
               MESSAGE_STATE_UNSPECIFIED 0 0 c.(p_IssueToken) c.(p_ExternalToken) in
  '(msg, gm) ← (if c.(p_NowMs) <? c.(p_NotBeforeMs) then
                  addTimer c.(p_NotBeforeMs) TimerReadyAt
                    (ReadyAtRef c.(p_Lane) c.(p_GroupID) msgID) msg.(m_Epoch);;
                  mret (m_set_State DELAYED msg,
                        gm_set_DelayedCount (incr64 gm.(gm_DelayedCount)) gm)
                else
                  mret (m_set_State READY msg,
                        gm_set_ReadyCount (incr64 gm.(gm_ReadyCount)) gm));
  msg ← (if c.(p_NowMs) <? c.(p_TtlExpiryMs) then
           addTimer c.(p_TtlExpiryMs) TimerMsgExpiry
             (ReadyAtRef c.(p_Lane) c.(p_GroupID) msgID) 0;;
           mret (m_set_TtlMs (sub64 c.(p_TtlExpiryMs) c.(p_NowMs)) msg)
         else mret msg);
  putProto (MessageKey c.(p_Lane) c.(p_GroupID) msgID) msg;;
  mret (msgID, gm).

(** An immediately leasable message: reads and writes the group meta itself. *)
Definition publishReady (lane group payload : bytes) (hdrs : headers) (nowMs : N) : M N :=
  gm ← gets (loadGroupMeta lane group);
  let gm := if f64_eqb gm.(gm_Weight) f64_zero then gm_set_Weight f64_one gm else gm in
  let id := gm.(gm_NextSeq) in
  let gm := gm_set_NextSeq (incr64 gm.(gm_NextSeq)) gm in
  let gm := gm_set_TotalCount (incr64 gm.(gm_TotalCount)) gm in
  let gm := gm_set_ReadyCount (incr64 gm.(gm_ReadyCount)) gm in
  let gm := gm_set_LastActivityMs nowMs gm in
  let msg := mkMessage id lane group payload hdrs 0 0 0 0 nowMs READY 0 0 false [] in
  putProto (MessageKey lane group id) msg;;
  putProto (GroupMetaKey lane group) gm;;
  mret id.

(** ** Producer idempotency *)
Definition dedupVal (msgID expiryMs : N) : bytes := be_bytes 8 msgID ++ be_bytes 8 expiryMs.

Definition parseDedupVal (v : bytes) : option (N * N) :=
  if (length v <? 16)%nat then None
  else Some (be_val (take 8 v), be_val (take 8 (drop 8 v))).

Definition checkDedup (c : PublishCmd) (db : store) : option N :=
  match GetRaw (DedupKey c.(p_Lane) c.(p_DedupKey)) db with
  | None => None
  | Some v =>
      match parseDedupVal v with
      | None => None
      | Some (msgID, expiry) => if expiry <=? c.(p_NowMs) then None else Some msgID
      end
  end.

Definition recordDedup (c : PublishCmd) (msgID : N) : M unit :=
  if c.(p_DedupExpiryMs) <=? c.(p_NowMs) then mret ()
  else
    bset (DedupKey c.(p_Lane) c.(p_DedupKey)) (VRaw (dedupVal msgID c.(p_DedupExpiryMs)));;
    addTimer c.(p_DedupExpiryMs) TimerDedupExpiry (DedupRef c.(p_Lane) c.(p_DedupKey)) 0.

(** ** The publish handlers *)
Definition applyPublish (c : PublishCmd) : M ApplyResult :=
  dup ← (if nonempty c.(p_DedupKey) then gets (checkDedup c) else mret None);
  match dup with
  | Some id => mret (RPublish id true)
  | None =>
      gm ← gets (loadGroupMeta c.(p_Lane) c.(p_GroupID));
      '(id, gm) ← publishOne c gm;
      putProto (GroupMetaKey c.(p_Lane) c.(p_GroupID)) gm;;
      when (nonempty c.(p_DedupKey)) (recordDedup c id);;
      mret (RPublish id false)
  end.

(** Recover from an error, keeping none of the failed operation's writes. *)
Definition try {A} (m : M A) : M (result A) := λ db,
  match m db with
  | Ok (x, b) => Ok (Ok x, b)
  | Err e => Ok (Err e, [])
  end.

(** The variables of [applyPublishBatch]'s loop. *)
Record pbstate := mkpbstate {
  pbs_cache : gmap bytes GroupMeta;
  pbs_order : list bytes;
  pbs_dedup : gmap bytes N;
  pbs_items : list PublishItemResult }.

Definition pbs_push (r : PublishItemResult) (st : pbstate) : pbstate :=
  mkpbstate st.(pbs_cache) st.(pbs_order) st.(pbs_dedup) (st.(pbs_items) ++ [r]).

(** [a + "\x00" + b] *)
Definition nulkey (a b : bytes) : bytes := a ++ "000"%char :: b.

Definition publishItem (atomic : bool) (item : PublishCmd) (st : pbstate) : M pbstate :=
  dup ← (if nonempty item.(p_DedupKey) then
           d ← gets (checkDedup item);
           mret (match d with
                 | Some id => Some id
                 | None => st.(pbs_dedup) !! nulkey item.(p_Lane) item.(p_DedupKey)
                 end)
         else mret None);
  match dup with
  | Some id => mret (pbs_push (mkPublishItemResult id true true []) st)
  | None =>
      let key := nulkey item.(p_Lane) item.(p_GroupID) in
      '(gm, order) ← (match st.(pbs_cache) !! key with
                      | Some gm => mret (gm, st.(pbs_order))
                      | None =>
                          gm ← gets (loadGroupMeta item.(p_Lane) item.(p_GroupID));
                          mret (gm, st.(pbs_order) ++ [key])
                      end);
      r ← try (publishOne item gm);
      match r with
      | Err e =>
          if atomic then fail e
          else mret (pbs_push (mkPublishItemResult 0 false false e)
                       (mkpbstate (<[key := gm]> st.(pbs_cache)) order st.(pbs_dedup) st.(pbs_items)))
      | Ok (id, gm) =>
          let st := mkpbstate (<[key := gm]> st.(pbs_cache)) order st.(pbs_dedup) st.(pbs_items) in
          if nonempty item.(p_DedupKey) then
            r ← try (recordDedup item id);
            match r with
            | Err e =>
                if atomic then fail e
                else mret (pbs_push (mkPublishItemResult 0 false false e) st)
            | Ok _ =>
                mret (pbs_push (mkPublishItemResult id true false [])
                        (mkpbstate st.(pbs_cache) st.(pbs_order)
                           (<[nulkey item.(p_Lane) item.(p_DedupKey) := id]> st.(pbs_dedup))
                           st.(pbs_items)))
            end
          else mret (pbs_push (mkPublishItemResult id true false []) st)
      end
  end.

Fixpoint publishItems (atomic : bool) (items : list PublishCmd) (st : pbstate) : M pbstate :=
  match items with
  | [] => mret st
  | item :: items' => st ← publishItem atomic item st; publishItems atomic items' st
  end.

(** The closing loop over [order]: persist each group meta once. *)
Fixpoint putGroups (order : list bytes) (cache : gmap bytes GroupMeta) : M unit :=
  match order with
  | [] => mret ()
  | key :: order' =>
      match cache !! key with
      | Some gm => putProto (GroupMetaKey gm.(gm_Lane) gm.(gm_GroupId)) gm
      | None => mret ()
      end;;
      putGroups order' cache
  end.

Definition applyPublishBatch (c : PublishBatchCmd) : M ApplyResult :=
  st ← publishItems c.(pb_Atomic) c.(pb_Items) (mkpbstate ∅ [] ∅ []);
  putGroups st.(pbs_order) st.(pbs_cache);;
  mret (RPublishBatch st.(pbs_items)).
