(* ===== verification/Workflow.v ===== *)
(** * The durable-execution kernel ([internal/fsm/apply_workflow.go])

    A run is a [WorkflowRun] row and an append-only history of events.  Every
    append is fenced by (run_epoch, history_seq); an activity's terminal is
    recorded once, behind a done marker.  Workflow and activity tasks are
    ordinary messages written by [publishReady].

    The payloads and event attributes are protobuf messages encoded by
    third-party code: [PayloadCodec] is that code, a parameter of the model. *)

From Stdlib Require DecimalString.
From S2P Require Import Prelude Keys Data Store Publish.

(** [proto.Marshal] / [proto.Unmarshal] at the message types the kernel puts
    inside payloads and attributes.  [ContinueAsNew_Input] is the [Input] that
    [proto.Unmarshal] leaves in the message, whether or not it fails. *)
Class PayloadCodec := {
  marshal_WorkflowTaskRef : WorkflowTaskRef → bytes;
  unmarshal_WorkflowTaskRef : bytes → option WorkflowTaskRef;
  marshal_ActivityTask : ActivityTask → bytes;
  unmarshal_ActivityTask : bytes → option ActivityTask;
  marshal_ActivityScheduledAttrs : ActivityScheduledAttrs → bytes;
  unmarshal_ActivityScheduledAttrs : bytes → option ActivityScheduledAttrs;
  marshal_ActivityCompletedAttrs : ActivityCompletedAttrs → bytes;
  marshal_TimerStartedAttrs : N → bytes;
  unmarshal_TimerStartedAttrs : bytes → option N;
  marshal_TimerFiredAttrs : N → bytes;
  marshal_SignalReceivedAttrs : SignalReceivedAttrs → bytes;
  marshal_ContinueAsNewAttrs : bytes → bytes;
  ContinueAsNew_Input : bytes → bytes;
}.

(** The documented behaviour theorems may rely on: decoding an encoded message
    gives it back, and a decoded integer field is a [uint64]. *)
Class PayloadCodecLaws (PC : PayloadCodec) : Prop := {
  WorkflowTaskRef_roundtrip x :
    u64 x.(wtr_RunId) → unmarshal_WorkflowTaskRef (marshal_WorkflowTaskRef x) = Some x;
  ActivityTask_roundtrip x :
    u64 x.(atk_RunId) → u64 x.(atk_ScheduledEventId) →
    unmarshal_ActivityTask (marshal_ActivityTask x) = Some x;
  ActivityScheduledAttrs_roundtrip x :
    unmarshal_ActivityScheduledAttrs (marshal_ActivityScheduledAttrs x) = Some x;
  TimerStartedAttrs_roundtrip x :
    u64 x → unmarshal_TimerStartedAttrs (marshal_TimerStartedAttrs x) = Some x;
  ContinueAsNewAttrs_roundtrip x : ContinueAsNew_Input (marshal_ContinueAsNewAttrs x) = x;
  ActivityTask_u64 b x :
    unmarshal_ActivityTask b = Some x → u64 x.(atk_RunId) ∧ u64 x.(atk_ScheduledEventId);
}.

Definition ActivityLanePrefix : bytes := Eval cbv in bs "__act/".
Definition WorkflowLanePrefix : bytes := Eval cbv in bs "__wf/".

(** [strconv.FormatUint(runID, 10)] *)
Definition runGroup (runID : N) : bytes :=
  bs (DecimalString.NilZero.string_of_uint (N.to_uint runID)).

Section workflow.
Context {PC : PayloadCodec}.

Definition dispatchWorkflowTask (run : WorkflowRun) : M WorkflowRun :=
  if negb (bool_decide (run.(run_Status) = WF_RUNNING)) || run.(run_WfTaskPending)
  then mret run
  else
    let ref := mkWorkflowTaskRef run.(run_RunId) run.(run_WorkflowType) in
    let payload := marshal_WorkflowTaskRef ref in
    let lane := WorkflowLanePrefix ++ run.(run_WorkflowType) in
    publishReady lane (runGroup run.(run_RunId)) payload ∅ run.(run_LastEventMs);;
    mret (run_set_WfTaskPending true run).

Definition nextRunID : M N :=
  v ← gets (GetRaw (MetaKey (bs "next_run_id")));
  let id := match v with Some v => beU64 v | None => 1 end in
  bset (MetaKey (bs "next_run_id")) (VRaw (u64b (incr64 id)));;
  mret id.

Definition createRun (workflowType tenant input : bytes) (parentRunID nowMs : N) : M N :=
  runID ← nextRunID;
  let run := mkWorkflowRun runID workflowType tenant WF_RUNNING 0 0 input nowMs nowMs
               parentRunID false in
  let started := mkHistoryEvent 1 HET_WORKFLOW_STARTED nowMs input in
  putProto (WFHistoryKey runID 1) started;;
  let run := run_set_CurHistorySeq 1 run in
  run ← dispatchWorkflowTask run;
  putProto (WFRunKey runID) run;;
  mret runID.

Definition applyWFStartRun (c : WFStartRunCmd) : M ApplyResult :=
  runID ← createRun c.(wst_WorkflowType) c.(wst_TenantID) c.(wst_Input)
            c.(wst_ParentRunID) c.(wst_NowMs);
  mret (RWFStartRun runID).

Definition dispatchActivity (runID schedEventID : N) (attrs : bytes) : M unit :=
  match unmarshal_ActivityScheduledAttrs attrs with
  | None => mret ()
  | Some asa =>
      if negb (nonempty asa.(asa_ActivityType)) then mret ()
      else
        let task := mkActivityTask runID schedEventID asa.(asa_ActivityType) asa.(asa_Input) in
        let payload := marshal_ActivityTask task in
        let lane := ActivityLanePrefix ++ asa.(asa_ActivityType) in
        publishReady lane asa.(asa_TenantId) payload ∅ 0;;
        mret ()
  end.

Definition armWFTimer (runID startedEventID : N) (attrs : bytes) : M unit :=
  match unmarshal_TimerStartedAttrs attrs with
  | None => mret ()
  | Some fireAt =>
      if fireAt =? 0 then mret ()
      else addTimer fireAt TimerWFFired (WFTimerRef runID startedEventID) 0
  end.

(** The [switch] on one appended event: its dispatch, and the run's status after it. *)
Definition appendEffect (c : WFAppendEventsCmd) (next : N) (e : WFEventIn) (run : WorkflowRun) :
    M WorkflowRun :=
  if (e.(wei_Type) =? HET_ACTIVITY_SCHEDULED)%Z then
    dispatchActivity c.(wac_RunID) next e.(wei_Attrs);; mret run
  else if (e.(wei_Type) =? HET_TIMER_STARTED)%Z then
    armWFTimer c.(wac_RunID) next e.(wei_Attrs);; mret run
  else if (e.(wei_Type) =? HET_WORKFLOW_COMPLETED)%Z then
    mret (run_set_Status WF_COMPLETED run)
  else if (e.(wei_Type) =? HET_WORKFLOW_FAILED)%Z then
    mret (run_set_Status WF_FAILED run)
  else if (e.(wei_Type) =? HET_WORKFLOW_CANCELED)%Z then
    mret (run_set_Status WF_CANCELED run)
  else if (e.(wei_Type) =? HET_WORKFLOW_CONTINUED_AS_NEW)%Z then
    let run := run_set_Status WF_CONTINUED run in
    createRun run.(run_WorkflowType) run.(run_TenantId) (ContinueAsNew_Input e.(wei_Attrs))
      run.(run_RunId) c.(wac_NowMs);;
    mret run
  else mret run.

(** The loop over the command's events: ids follow the committed sequence. *)
Fixpoint appendEvents (c : WFAppendEventsCmd) (evs : list WFEventIn) (next : N)
    (run : WorkflowRun) : M (N * WorkflowRun) :=
  match evs with
  | [] => mret (next, run)
  | e :: evs' =>
      let next := incr64 next in
      putProto (WFHistoryKey c.(wac_RunID) next)
        (mkHistoryEvent next e.(wei_Type) c.(wac_NowMs) e.(wei_Attrs));;
      run ← appendEffect c next e run;
      appendEvents c evs' next run
  end.

Definition append_rejected (reason : bytes) : ApplyResult :=
  RWFAppend (mkWFAppendResult false reason 0).

Definition applyWFAppendEvents (c : WFAppendEventsCmd) : M ApplyResult :=
  r ← gets (GetProto (WFRunKey c.(wac_RunID)));
  match r with
  | None => mret (append_rejected (bs "missing"))
  | Some run =>
      if negb (bool_decide (run.(run_Status) = WF_RUNNING)) then
        mret (append_rejected (bs "closed"))
      else if negb (c.(wac_RunEpoch) =? run.(run_RunEpoch))
              || negb (c.(wac_HistorySeq) =? run.(run_CurHistorySeq)) then
        mret (append_rejected (bs "stale"))
      else
        '(next, run) ← appendEvents c c.(wac_Events) run.(run_CurHistorySeq) run;
        let run := run_set_CurHistorySeq next run in
        let run := run_set_RunEpoch (incr32 run.(run_RunEpoch)) run in
        let run := run_set_LastEventMs c.(wac_NowMs) run in
        let run := run_set_WfTaskPending false run in
        putProto (WFRunKey c.(wac_RunID)) run;;
        mret (RWFAppend (mkWFAppendResult true [] next))
  end.

(** The tail shared by every external event: advance the run, supersede the
    in-flight task and dispatch a fresh one. *)
Definition advanceRun (runID seq nowMs : N) (run : WorkflowRun) : M unit :=
  let run := run_set_CurHistorySeq seq run in
  let run := run_set_RunEpoch (incr32 run.(run_RunEpoch)) run in
  let run := run_set_LastEventMs nowMs run in
  let run := run_set_WfTaskPending false run in
  run ← dispatchWorkflowTask run;
  putProto (WFRunKey runID) run.

(** Returns (appended, reason, newSeq). *)
Definition recordActivityTerminal (runID schedEventID : N) (failed : bool) (res : bytes)
    (nowMs : N) : M WFAppendResult :=
  r ← gets (GetProto (WFRunKey runID));
  match r with
  | None => mret (mkWFAppendResult false (bs "missing") 0)
  | Some run =>
      if negb (bool_decide (run.(run_Status) = WF_RUNNING)) then
        mret (mkWFAppendResult false (bs "closed") 0)
      else
        don ← gets (GetRaw (WFActivityDoneKey runID schedEventID));
        match don with
        | Some _ => mret (mkWFAppendResult false (bs "duplicate_completion") 0)
        | None =>
            sched ← gets (GetProto (WFHistoryKey runID schedEventID));
            let valid := match sched with
                         | Some ev => (ev.(ev_EventType) =? HET_ACTIVITY_SCHEDULED)%Z
                         | None => false
                         end in
            if negb valid then mret (mkWFAppendResult false (bs "invalid_completion") 0)
            else
              let seq := incr64 run.(run_CurHistorySeq) in
              let typ := if failed then HET_ACTIVITY_FAILED else HET_ACTIVITY_COMPLETED in
              let attrs := marshal_ActivityCompletedAttrs
                             (mkActivityCompletedAttrs schedEventID (negb failed) res) in
              putProto (WFHistoryKey runID seq) (mkHistoryEvent seq typ nowMs attrs);;
              bset (WFActivityDoneKey runID schedEventID) (VRaw ["001"%char]);;
              advanceRun runID seq nowMs run;;
              mret (mkWFAppendResult true [] seq)
        end
  end.

Definition applyWFCompleteActivity (c : WFCompleteActivityCmd) : M ApplyResult :=
  r ← recordActivityTerminal c.(wca_RunID) c.(wca_ScheduledEventID) (negb c.(wca_Success))
        c.(wca_Result) c.(wca_NowMs);
  mret (RWFAppend r).

Definition appendExternalEvent (runID : N) (typ : Z) (attrs : bytes) (nowMs : N) : M unit :=
  r ← gets (GetProto (WFRunKey runID));
  match r with
  | None => mret ()
  | Some run =>
      if negb (bool_decide (run.(run_Status) = WF_RUNNING)) then mret ()
      else
        let seq := incr64 run.(run_CurHistorySeq) in
        putProto (WFHistoryKey runID seq) (mkHistoryEvent seq typ nowMs attrs);;
        advanceRun runID seq nowMs run
  end.

Definition recordTimerFired (runID startedEventID nowMs : N) : M unit :=
  appendExternalEvent runID HET_TIMER_FIRED (marshal_TimerFiredAttrs startedEventID) nowMs.

Definition applyWFCancel (c : WFCancelCmd) : M ApplyResult :=
  r ← gets (GetProto (WFRunKey c.(wcc_RunID)));
  match r with
  | None => mret (append_rejected (bs "missing"))
  | Some run =>
      if negb (bool_decide (run.(run_Status) = WF_RUNNING)) then
        mret (append_rejected (bs "closed"))
      else
        let seq := incr64 run.(run_CurHistorySeq) in
        putProto (WFHistoryKey c.(wcc_RunID) seq)
          (mkHistoryEvent seq HET_WORKFLOW_CANCELED c.(wcc_NowMs) c.(wcc_Reason));;
        let run := run_set_CurHistorySeq seq run in
        let run := run_set_RunEpoch (incr32 run.(run_RunEpoch)) run in
        let run := run_set_Status WF_CANCELED run in
        let run := run_set_LastEventMs c.(wcc_NowMs) run in
        let run := run_set_WfTaskPending false run in
        putProto (WFRunKey c.(wcc_RunID)) run;;
        mret (RWFAppend (mkWFAppendResult true [] seq))
  end.

Definition applyWFSignal (c : WFSignalCmd) : M ApplyResult :=
  let attrs := marshal_SignalReceivedAttrs
                 (mkSignalReceivedAttrs c.(wsc_SignalName) c.(wsc_Payload)) in
  appendExternalEvent c.(wsc_RunID) HET_SIGNAL_RECEIVED attrs c.(wsc_NowMs);;
  mret (RWFAppend (mkWFAppendResult true [] 0)).
End workflow.
