(* ===== verification/Broker.v ===== *)
(** * Leasing and settling messages ([internal/fsm/fsm.go])

    [applyLease] grants the head READY message of a group; [applyAck],
    [applyNack] and [applyExtend] settle or prolong the lease.  A message that
    runs out of attempts is moved to the dead-letter table, and an activity
    task that dead-letters is surfaced to its run. *)

From S2P Require Import Prelude Keys Data Store Backoff Publish Workflow.

(** The lowest READY message of a group, in key order; a row that is not a
    message fails the scan. *)
Fixpoint firstReady (rows : list (bytes * value)) : result (option Message) :=
  match rows with
  | [] => Ok None
  | (_, v) :: rows' =>
      match row_out v with
      | None => Err (bs "unmarshal")
      | Some m => if bool_decide (m.(m_State) = READY) then Ok (Some m) else firstReady rows'
      end
  end.

Definition headReady (lane group : bytes) (db : store) : result (option Message) :=
  let lo := MessagePrefix lane group in
  firstReady (NewIter lo (PrefixEnd lo) db).

(** Lift a fallible read. *)
Definition reads {A} (f : store → result A) : M A := λ db,
  match f db with Ok x => Ok (x, []) | Err e => Err e end.

Definition nextLeaseID : M N :=
  v ← gets (GetRaw (MetaKey (bs "next_lease_id")));
  let id := match v with Some v => beU64 v | None => 1 end in
  bset (MetaKey (bs "next_lease_id")) (VRaw (u64b (incr64 id)));;
  mret id.

(** The lease row [applyLease] writes for the (already mutated) head message. *)
Definition lease_of (c : LeaseCmd) (leaseID : N) (head : Message) : Lease :=
  mkLease leaseID head.(m_MsgId) c.(l_Lane) c.(l_GroupID) c.(l_ConsumerID) c.(l_DeadlineMs)
    head.(m_Attempt) head.(m_Epoch) 0 [] c.(l_DeadlineMs).

Definition applyLease (c : LeaseCmd) : M ApplyResult :=
  head ← reads (headReady c.(l_Lane) c.(l_GroupID));
  match head with
  | None => mret (RLease lr_empty)
  | Some head =>
      leaseID ← nextLeaseID;
      let head := m_set_State LEASED head in
      let head := m_set_CurLease leaseID head in
      let head := m_set_Epoch (incr32 head.(m_Epoch)) head in
      let lease := lease_of c leaseID head in
      gm ← gets (GetProto (GroupMetaKey c.(l_Lane) c.(l_GroupID)));
      let gm := match gm with Some gm => gm | None => gm_zero end in
      let gm := if 0 <? gm.(gm_ReadyCount) then gm_set_ReadyCount (gm.(gm_ReadyCount) - 1) gm
                else gm in
      let gm := gm_set_InflightCount (incr64 gm.(gm_InflightCount)) gm in
      addTimer c.(l_DeadlineMs) TimerLeaseDeadline (LeaseDeadlineRef leaseID) head.(m_Epoch);;
      when (0 <? c.(l_MaxLifeMs))
        (addTimer c.(l_MaxLifeMs) TimerLeaseMaxLife (LeaseDeadlineRef leaseID) 0);;
      putProto (MessageKey c.(l_Lane) c.(l_GroupID) head.(m_MsgId)) head;;
      putProto (LeaseKey leaseID) lease;;
      putProto (GroupMetaKey c.(l_Lane) c.(l_GroupID)) gm;;
      mret (RLease (mkLeaseResult leaseID head.(m_MsgId) c.(l_Lane) c.(l_GroupID)
                      head.(m_Payload) head.(m_Headers) head.(m_Attempt) c.(l_DeadlineMs)
                      false head.(m_IssueToken) head.(m_ExternalToken)))
  end.

Definition deleteLeaseToken (lease : Lease) : M unit :=
  when (nonempty lease.(ls_CompletionTokenHash)) (bdel (TokenKey lease.(ls_CompletionTokenHash))).

Definition applyAck (c : AckCmd) : M ApplyResult :=
  r ← gets (GetProto (LeaseKey c.(a_LeaseID)));
  match r with
  | None => mret (RAck false)
  | Some lease =>
      bdel (MessageKey lease.(ls_Lane) lease.(ls_GroupId) lease.(ls_MsgId));;
      bdel (LeaseKey c.(a_LeaseID));;
      deleteLeaseToken lease;;
      delTimer lease.(ls_DeadlineMs) TimerLeaseDeadline (LeaseDeadlineRef c.(a_LeaseID));;
      gm ← gets (GetProto (GroupMetaKey lease.(ls_Lane) lease.(ls_GroupId)));
      match gm with
      | None => mret ()
      | Some gm =>
          let gm := gm_set_InflightCount (decr gm.(gm_InflightCount)) gm in
          let gm := gm_set_TotalCount (decr gm.(gm_TotalCount)) gm in
          putProto (GroupMetaKey lease.(ls_Lane) lease.(ls_GroupId)) gm
      end;;
      mret (RAck true)
  end.

(** Requeue a message, READY now or DELAYED until [readyAtMs]; returns the
    mutated group meta, which the caller persists. *)
Definition makeReady (msg : Message) (gm : GroupMeta) (readyAtMs nowMs : N) : M GroupMeta :=
  let msg := m_set_CurLease 0 msg in
  let msg := m_set_Epoch (incr32 msg.(m_Epoch)) msg in
  '(msg, gm) ← (if nowMs <? readyAtMs then
                  addTimer readyAtMs TimerReadyAt
                    (ReadyAtRef msg.(m_Lane) msg.(m_GroupId) msg.(m_MsgId)) msg.(m_Epoch);;
                  mret (m_set_State DELAYED msg,
                        gm_set_DelayedCount (incr64 gm.(gm_DelayedCount)) gm)
                else
                  mret (m_set_State READY msg,
                        gm_set_ReadyCount (incr64 gm.(gm_ReadyCount)) gm));
  putProto (MessageKey msg.(m_Lane) msg.(m_GroupId) msg.(m_MsgId)) msg;;
  mret gm.

(** [found] and the message or group meta that [GetProto] filled in. *)
Definition or_zero (gm : option GroupMeta) : GroupMeta := default gm_zero gm.

Definition leased_by (leaseID : N) (msg : Message) : bool :=
  bool_decide (msg.(m_State) = LEASED) && (msg.(m_CurLease) =? leaseID).

Definition max_attempts (msg : Message) : N :=
  if msg.(m_MaxAttempts) =? 0 then defaultMaxAttempts else msg.(m_MaxAttempts).

Section settle.
Context {PC : PayloadCodec}.

Definition deadLetter (msg : Message) (reason : bytes) (meta : headers) (deadTs : N) : M unit :=
  putProto (DLQKey msg.(m_Lane) msg.(m_GroupId) deadTs msg.(m_MsgId))
    (mkDeadLetter msg msg.(m_Attempt) reason meta deadTs);;
  bdel (MessageKey msg.(m_Lane) msg.(m_GroupId) msg.(m_MsgId));;
  when (has_prefix ActivityLanePrefix msg.(m_Lane))
    match unmarshal_ActivityTask msg.(m_Payload) with
    | Some task =>
        if negb (task.(atk_RunId) =? 0) then
          recordActivityTerminal task.(atk_RunId) task.(atk_ScheduledEventId) true
            (bs "activity_dead_lettered: " ++ reason) deadTs;;
          mret ()
        else mret ()
    | None => mret ()
    end.

Definition applyNack (c : NackCmd) : M ApplyResult :=
  r ← gets (GetProto (LeaseKey c.(n_LeaseID)));
  match r with
  | None => mret (RNack false false)
  | Some lease =>
      bdel (LeaseKey c.(n_LeaseID));;
      deleteLeaseToken lease;;
      delTimer lease.(ls_DeadlineMs) TimerLeaseDeadline (LeaseDeadlineRef c.(n_LeaseID));;
      m ← gets (GetProto (MessageKey lease.(ls_Lane) lease.(ls_GroupId) lease.(ls_MsgId)));
      g ← gets (GetProto (GroupMetaKey lease.(ls_Lane) lease.(ls_GroupId)));
      let gkey := GroupMetaKey lease.(ls_Lane) lease.(ls_GroupId) in
      let gfound := bool_decide (is_Some g) in
      match m with
      | None => mret (RNack false false)
      | Some msg =>
          if negb (leased_by c.(n_LeaseID) msg) then mret (RNack false false)
          else
            let gm := or_zero g in
            let gm := gm_set_InflightCount (decr gm.(gm_InflightCount)) gm in
            if c.(n_Mode) =? NackRetry then
              let msg := m_set_Attempt (incr32 msg.(m_Attempt)) msg in
              if max_attempts msg <=? msg.(m_Attempt) then
                deadLetter msg (bs "max_attempts") c.(n_FailureMeta) c.(n_NowMs);;
                let gm := gm_set_TotalCount (decr gm.(gm_TotalCount)) gm in
                when gfound (putProto gkey gm);;
                mret (RNack true true)
              else
                let delay := if 0 <? c.(n_DelayMs) then c.(n_DelayMs)
                             else backoffMs msg.(m_MsgId) msg.(m_Attempt) in
                let readyAt := add64 c.(n_NowMs) delay in
                gm ← makeReady msg gm readyAt c.(n_NowMs);
                when gfound (putProto gkey gm);;
                mret (RNack true false)
            else if c.(n_Mode) =? NackDeadLetter then
              deadLetter msg (bs "terminal_nack") c.(n_FailureMeta) c.(n_NowMs);;
              let gm := gm_set_TotalCount (decr gm.(gm_TotalCount)) gm in
              when gfound (putProto gkey gm);;
              mret (RNack true true)
            else
              let readyAt := add64 c.(n_NowMs) c.(n_DelayMs) in
              gm ← makeReady msg gm readyAt c.(n_NowMs);
              when gfound (putProto gkey gm);;
              mret (RNack true false)
      end
  end.

Definition applyExtend (c : ExtendCmd) : M ApplyResult :=
  r ← gets (GetProto (LeaseKey c.(e_LeaseID)));
  match r with
  | None => mret (RExtend false)
  | Some lease =>
      m ← gets (GetProto (MessageKey lease.(ls_Lane) lease.(ls_GroupId) lease.(ls_MsgId)));
      match m with
      | None => mret (RExtend false)
      | Some msg =>
          if negb (leased_by c.(e_LeaseID) msg) then mret (RExtend false)
          else
            delTimer lease.(ls_DeadlineMs) TimerLeaseDeadline (LeaseDeadlineRef c.(e_LeaseID));;
            let msg := m_set_Epoch (incr32 msg.(m_Epoch)) msg in
            let key := MessageKey lease.(ls_Lane) lease.(ls_GroupId) lease.(ls_MsgId) in
            let lease := ls_set_DeadlineMs c.(e_NewDeadlineMs) lease in
            let lease := ls_set_ExtendCount (incr32 lease.(ls_ExtendCount)) lease in
            let lease := ls_set_Epoch msg.(m_Epoch) lease in
            addTimer c.(e_NewDeadlineMs) TimerLeaseDeadline (LeaseDeadlineRef c.(e_LeaseID))
              msg.(m_Epoch);;
            putProto key msg;;
            putProto (LeaseKey c.(e_LeaseID)) lease;;
            mret (RExtend true)
      end
  end.
End settle.
