(* ===== verification/Control.v ===== *)
(** * Control-plane commands ([internal/fsm/apply_phase4.go])

    Lane and group configuration, group lifecycle, reap and teardown, DLQ
    redrive, crons, completion tokens and singletons.  The JSON rows
    ([CronSpec], [SingletonRec], [LaneConfigRec]) are read by [GetProto] at
    their own row type. *)

From S2P Require Import Prelude Keys Data Store Backoff Publish Workflow Broker.

Definition applySetLaneConfig (c : LaneConfigCmd) : M ApplyResult :=
  putProto (LaneConfigKey c.(lcc_Lane)) (mkLaneConfigRec c.(lcc_RatePerSec) c.(lcc_Burst));;
  mret RNil.

Definition applyReapGroup (c : ReapGroupCmd) : M ApplyResult :=
  g ← gets (GetProto (GroupMetaKey c.(rg_Lane) c.(rg_GroupID)));
  match g with
  | None => mret (RGroupOp 0)
  | Some gm =>
      if negb (gm.(gm_TotalCount) =? 0) then mret (RGroupOp 0)
      else bdel (GroupMetaKey c.(rg_Lane) c.(rg_GroupID));; mret (RGroupOp 1)
  end.

(** ** Dropping the leasable messages of a group *)
Definition leasable (m : Message) : bool :=
  bool_decide (m.(m_State) = READY) || bool_decide (m.(m_State) = DELAYED).

(** The loop of [dropLeasable] over the group's rows, in key order. *)
Fixpoint dropRows (lane group : bytes) (rows : list (bytes * value)) (dropped : N) : M N :=
  match rows with
  | [] => mret dropped
  | (_, v) :: rows' =>
      match row_out v with
      | None => fail (bs "unmarshal")
      | Some m =>
          if leasable m then
            bdel (MessageKey lane group m.(m_MsgId));;
            dropRows lane group rows' (incr64 dropped)
          else dropRows lane group rows' dropped
      end
  end.

Definition dropLeasable (lane group : bytes) (gm : GroupMeta) : M N :=
  let lo := MessagePrefix lane group in
  rows ← gets (NewIter lo (PrefixEnd lo));
  dropped ← dropRows lane group rows 0;
  let gm := gm_set_ReadyCount 0 gm in
  let gm := gm_set_DelayedCount 0 gm in
  let gm := if dropped <=? gm.(gm_TotalCount)
            then gm_set_TotalCount (gm.(gm_TotalCount) - dropped) gm
            else gm_set_TotalCount gm.(gm_InflightCount) gm in
  putProto (GroupMetaKey lane group) gm;;
  mret dropped.

(** The lanes whose group meta names the group, in key order. *)
Fixpoint lanesOf (group : bytes) (rows : list (bytes * value)) : list bytes :=
  match rows with
  | [] => []
  | (_, v) :: rows' =>
      match row_out v with
      | Some gm => if bool_decide (gm.(gm_GroupId) = group)
                   then gm.(gm_Lane) :: lanesOf group rows'
                   else lanesOf group rows'
      | None => lanesOf group rows'
      end
  end.

Fixpoint teardownLanes (group : bytes) (lanes : list bytes) (affected : N) : M N :=
  match lanes with
  | [] => mret affected
  | lane :: lanes' =>
      g ← gets (GetProto (GroupMetaKey lane group));
      match g with
      | None => teardownLanes group lanes' affected
      | Some gm =>
          d ← dropLeasable lane group gm;
          bdel (GroupMetaKey lane group);;
          teardownLanes group lanes' (add64 affected d)
      end
  end.

Definition applyTeardownGroup (c : TeardownCmd) : M ApplyResult :=
  rows ← gets (NewIter GroupMetaBounds.1 (Some GroupMetaBounds.2));
  let lanes := lanesOf c.(td_GroupID) rows in
  affected ← teardownLanes c.(td_GroupID) lanes 0;
  mret (RTeardown lanes affected).

(** ** Redrive *)
(** The first dead letter of the scan with the message's id, and its key. *)
Fixpoint findDead (msgID : N) (rows : list (bytes * value)) : option (bytes * DeadLetter) :=
  match rows with
  | [] => None
  | (k, v) :: rows' =>
      match row_out v with
      | Some cand =>
          if cand.(dl_Original).(m_MsgId) =? msgID then Some (k, cand) else findDead msgID rows'
      | None => findDead msgID rows'
      end
  end.

(** The publish a redrive performs: the original's content, a fresh id. *)
Definition redrive_publish (c : RedriveCmd) (orig : Message) : PublishCmd :=
  mkPublishCmd c.(rd_Lane) c.(rd_GroupID) orig.(m_Payload) orig.(m_Headers)
    f64_zero false 0 false orig.(m_MaxAttempts) 0 0 c.(rd_NowMs)
    orig.(m_IssueToken) orig.(m_ExternalToken) [] 0.

Definition applyRedrive (c : RedriveCmd) : M ApplyResult :=
  let lo := DLQGroupPrefix c.(rd_Lane) c.(rd_GroupID) in
  rows ← gets (NewIter lo (PrefixEnd lo));
  match findDead c.(rd_MsgID) rows with
  | None => mret (RRedrive false 0)
  | Some (dlqKey, dl) =>
      gm ← gets (loadGroupMeta c.(rd_Lane) c.(rd_GroupID));
      '(newID, gm) ← publishOne (redrive_publish c dl.(dl_Original)) gm;
      putProto (GroupMetaKey c.(rd_Lane) c.(rd_GroupID)) gm;;
      bdel dlqKey;;
      mret (RRedrive true newID)
  end.

(** ** Group configuration and lifecycle *)
Definition applyGroupConfig (c : GroupConfigCmd) : M ApplyResult :=
  gm ← gets (loadGroupMeta c.(gc_Lane) c.(gc_GroupID));
  let gm := match c.(gc_Weight) with Some w => gm_set_Weight w gm | None => gm end in
  let gm := match c.(gc_BatchSize) with
            | Some n => if 0 <? n then gm_set_BatchSize n gm else gm
            | None => gm
            end in
  let gm := if f64_eqb gm.(gm_Weight) f64_zero then gm_set_Weight f64_one gm else gm in
  putProto (GroupMetaKey c.(gc_Lane) c.(gc_GroupID)) gm;;
  mret (RGroupOp 0).

Definition applyGroupLifecycle (c : GroupLifecycleCmd) : M ApplyResult :=
  g ← gets (GetProto (GroupMetaKey c.(gl_Lane) c.(gl_GroupID)));
  match g with
  | None => mret (RGroupOp 0)
  | Some gm =>
      if c.(gl_Op) =? GroupPause then
        putProto (GroupMetaKey c.(gl_Lane) c.(gl_GroupID)) (gm_set_Paused true gm);;
        mret (RGroupOp 0)
      else if c.(gl_Op) =? GroupResume then
        putProto (GroupMetaKey c.(gl_Lane) c.(gl_GroupID)) (gm_set_Paused false gm);;
        mret (RGroupOp 0)
      else if (c.(gl_Op) =? GroupCancel) || (c.(gl_Op) =? GroupPurge) then
        dropped ← dropLeasable c.(gl_Lane) c.(gl_GroupID) gm;
        mret (RGroupOp dropped)
      else mret (RGroupOp 0)
  end.

(** ** Crons *)
Definition loadCron (id : bytes) (db : store) : option CronSpec := GetProto (CronKey id) db.

Definition applyCron (c : CronCmd) : M ApplyResult :=
  if c.(cr_Op) =? CronSchedule then
    let spec := mkCronSpec c.(cr_CronID) c.(cr_Lane) c.(cr_GroupID) c.(cr_Payload)
                  c.(cr_Headers) c.(cr_Schedule) c.(cr_NextFireMs) 0 false in
    putProto (CronKey c.(cr_CronID)) spec;;
    addTimer c.(cr_NextFireMs) TimerCronDue (CronDueRef c.(cr_CronID)) 0;;
    mret RNil
  else if c.(cr_Op) =? CronDelete then
    spec ← gets (loadCron c.(cr_CronID));
    match spec with
    | Some spec => delTimer spec.(cs_NextFireMs) TimerCronDue (CronDueRef c.(cr_CronID))
    | None => mret ()
    end;;
    bdel (CronKey c.(cr_CronID));;
    mret RNil
  else if c.(cr_Op) =? CronPause then
    spec ← gets (loadCron c.(cr_CronID));
    match spec with
    | Some spec =>
        delTimer spec.(cs_NextFireMs) TimerCronDue (CronDueRef c.(cr_CronID));;
        putProto (CronKey c.(cr_CronID)) (cs_set_Paused true spec);;
        mret RNil
    | None => mret RNil
    end
  else if c.(cr_Op) =? CronResume then
    spec ← gets (loadCron c.(cr_CronID));
    match spec with
    | Some spec =>
        let spec := cs_set_Paused false spec in
        let spec := cs_set_NextFireMs c.(cr_NextFireMs) spec in
        putProto (CronKey c.(cr_CronID)) spec;;
        addTimer c.(cr_NextFireMs) TimerCronDue (CronDueRef c.(cr_CronID)) 0;;
        mret RNil
    | None => mret RNil
    end
  else mret RNil.

Definition applyFireCron (c : FireCronCmd) : M ApplyResult :=
  spec ← gets (loadCron c.(fc_CronID));
  match spec with
  | None => mret RNil
  | Some spec =>
      let tkey := TimeIndexKey spec.(cs_NextFireMs) TimerCronDue (CronDueRef c.(fc_CronID)) in
      present ← gets (GetRaw tkey);
      match present with
      | None => mret RNil
      | Some _ =>
          publishReady spec.(cs_Lane) spec.(cs_GroupID) spec.(cs_Payload) spec.(cs_Headers)
            c.(fc_FireAt);;
          bdel tkey;;
          let spec := cs_set_LastFireMs c.(fc_FireAt) spec in
          let spec := cs_set_NextFireMs c.(fc_NextFireMs) spec in
          putProto (CronKey c.(fc_CronID)) spec;;
          addTimer c.(fc_NextFireMs) TimerCronDue (CronDueRef c.(fc_CronID)) 0;;
          mret RNil
      end
  end.

(** ** Completion tokens *)
Definition applyIssueToken (c : IssueTokenCmd) : M ApplyResult :=
  r ← gets (GetProto (LeaseKey c.(it_LeaseID)));
  match r with
  | None => mret (RAck false)
  | Some lease =>
      let lease := ls_set_CompletionTokenHash c.(it_TokenHash) lease in
      putProto (LeaseKey c.(it_LeaseID)) lease;;
      bset (TokenKey c.(it_TokenHash)) (VRaw (u64b c.(it_LeaseID)));;
      mret (RAck true)
  end.

Definition applyComplete `{PC : PayloadCodec} (c : CompleteCmd) : M ApplyResult :=
  raw ← gets (GetRaw (TokenKey c.(cp_TokenHash)));
  match raw with
  | None => mret (RComplete false false true)
  | Some raw =>
      let leaseID := beU64 raw in
      bdel (TokenKey c.(cp_TokenHash));;
      if c.(cp_Success) then
        r ← applyAck (mkAckCmd leaseID);
        mret (RComplete (match r with RAck ok => ok | _ => false end) false false)
      else
        r ← applyNack (mkNackCmd leaseID NackRetry c.(cp_DelayMs) c.(cp_Meta) c.(cp_NowMs));
        mret (match r with
              | RNack ok dead => RComplete ok dead false
              | _ => RComplete false false false
              end)
  end.

(** ** Singletons *)
Definition applySingleton (c : SingletonCmd) : M ApplyResult :=
  r ← gets (GetProto (SingletonKey c.(sg_Name)));
  let found := bool_decide (is_Some r) in
  let rec := match r with Some rec => rec | None => sr_zero end in
  if c.(sg_Op) =? SingletonAcquire then
    let held := found && nonempty rec.(sr_Holder) && (c.(sg_NowMs) <? rec.(sr_DeadlineMs))
                && negb (bool_decide (rec.(sr_Holder) = c.(sg_Holder))) in
    if held then mret (RSingleton false rec.(sr_Fence) rec.(sr_Holder))
    else
      let rec := mkSingletonRec c.(sg_Name) c.(sg_Holder) (add64 c.(sg_NowMs) c.(sg_TTLms))
                   (incr64 rec.(sr_Fence)) in
      putProto (SingletonKey c.(sg_Name)) rec;;
      mret (RSingleton true rec.(sr_Fence) c.(sg_Holder))
  else if c.(sg_Op) =? SingletonRenew then
    if negb found || negb (bool_decide (rec.(sr_Holder) = c.(sg_Holder)))
       || negb (rec.(sr_Fence) =? c.(sg_Fence)) then
      mret (RSingleton false rec.(sr_Fence) rec.(sr_Holder))
    else
      let rec := sr_set_DeadlineMs (add64 c.(sg_NowMs) c.(sg_TTLms)) rec in
      putProto (SingletonKey c.(sg_Name)) rec;;
      mret (RSingleton true rec.(sr_Fence) c.(sg_Holder))
  else if c.(sg_Op) =? SingletonRelease then
    if found && bool_decide (rec.(sr_Holder) = c.(sg_Holder)) && (rec.(sr_Fence) =? c.(sg_Fence))
    then
      let rec := sr_set_Holder [] rec in
      let rec := sr_set_DeadlineMs 0 rec in
      putProto (SingletonKey c.(sg_Name)) rec;;
      mret (RSingleton true 0 [])
    else mret (RSingleton false 0 [])
  else mret (RSingleton false 0 []).
