(* ===== verification/Auth.v ===== *)
(** * Principals ([internal/fsm/apply_auth.go]) *)

From S2P Require Import Prelude Keys Data Store Publish.

Definition authGrantFromCmd (g : AuthGrantCmd) : AuthGrant :=
  mkAuthGrant g.(agc_LanePattern) g.(agc_GroupPattern) g.(agc_Actions) g.(agc_Note).
Definition authGrantsFromCmd (l : list AuthGrantCmd) : list AuthGrant := authGrantFromCmd <$> l.

Definition loadAuthPrincipal (name : bytes) : M AuthPrincipal :=
  p ← gets (GetProto (AuthPrincipalKey name));
  match p with
  | None => fail (bs "principal not found")
  | Some p => mret p
  end.

(** [c.TokenID == "" || len(c.Salt) == 0 || len(c.TokenHash) == 0] *)
Definition no_token_material (c : AuthPrincipalCmd) : bool :=
  negb (nonempty c.(apc_TokenID)) || negb (nonempty c.(apc_Salt)) || negb (nonempty c.(apc_TokenHash)).

(** The presence test is [GetRaw]'s: any row, whatever it decodes to. *)
Definition applyAuthCreatePrincipal (c : AuthPrincipalCmd) : M ApplyResult :=
  ok ← gets (λ db, bool_decide (is_Some (db !! AuthPrincipalKey c.(apc_Name))));
  if (ok : bool) then fail (bs "principal already exists")
  else if no_token_material c then fail (bs "principal token material is required")
  else
    let p := mkAuthPrincipal c.(apc_Name) false c.(apc_Tags) (authGrantsFromCmd c.(apc_Grants))
               (Some (mkAuthTokenInfo c.(apc_TokenID) c.(apc_Salt) c.(apc_TokenHash)
                        c.(apc_NowMs) c.(apc_NowMs)))
               c.(apc_NowMs) c.(apc_NowMs) in
    putProto (AuthPrincipalKey c.(apc_Name)) p;;
    mret (RPrincipal p).

Definition applyAuthRotatePrincipalToken (c : AuthPrincipalCmd) : M ApplyResult :=
  p ← loadAuthPrincipal c.(apc_Name);
  if no_token_material c then fail (bs "principal token material is required")
  else
    let created := match p.(ap_Token) with
                   | Some t => if negb (t.(at_CreatedMs) =? 0) then t.(at_CreatedMs)
                               else c.(apc_NowMs)
                   | None => c.(apc_NowMs)
                   end in
    let p := ap_set_Token (Some (mkAuthTokenInfo c.(apc_TokenID) c.(apc_Salt) c.(apc_TokenHash)
                                   created c.(apc_NowMs))) p in
    let p := ap_set_UpdatedMs c.(apc_NowMs) p in
    putProto (AuthPrincipalKey c.(apc_Name)) p;;
    mret (RPrincipal p).

Definition applyAuthSetPrincipalDisabled (c : AuthPrincipalCmd) : M ApplyResult :=
  p ← loadAuthPrincipal c.(apc_Name);
  let p := ap_set_Disabled c.(apc_Disabled) p in
  let p := ap_set_UpdatedMs c.(apc_NowMs) p in
  putProto (AuthPrincipalKey c.(apc_Name)) p;;
  mret (RAuthOp true).

Definition applyAuthGrantPrincipal (c : AuthPrincipalCmd) : M ApplyResult :=
  p ← loadAuthPrincipal c.(apc_Name);
  match c.(apc_Grant) with
  | None => fail (bs "grant is required")
  | Some g =>
      let p := ap_set_Grants (p.(ap_Grants) ++ [authGrantFromCmd g]) p in
      let p := ap_set_UpdatedMs c.(apc_NowMs) p in
      putProto (AuthPrincipalKey c.(apc_Name)) p;;
      mret (RAuthOp true)
  end.

(** [int(c.GrantIndex)] is exact: [GrantIndex] is a [uint32] and [int] has 64 bits. *)
Definition applyAuthRevokePrincipalGrant (c : AuthPrincipalCmd) : M ApplyResult :=
  p ← loadAuthPrincipal c.(apc_Name);
  let i := N.to_nat c.(apc_GrantIndex) in
  if (length p.(ap_Grants) <=? i)%nat then fail (bs "grant index out of range")
  else
    let p := ap_set_Grants (take i p.(ap_Grants) ++ drop (S i) p.(ap_Grants)) p in
    let p := ap_set_UpdatedMs c.(apc_NowMs) p in
    putProto (AuthPrincipalKey c.(apc_Name)) p;;
    mret (RAuthOp true).

Definition applyAuthPrincipal (c : option AuthPrincipalCmd) : M ApplyResult :=
  match c with
  | None => fail (bs "auth principal command is nil")
  | Some c =>
      if negb (nonempty c.(apc_Name)) then fail (bs "principal name is required")
      else if c.(apc_Op) =? AuthCreatePrincipal then applyAuthCreatePrincipal c
      else if c.(apc_Op) =? AuthRotatePrincipalToken then applyAuthRotatePrincipalToken c
      else if c.(apc_Op) =? AuthSetPrincipalDisabled then applyAuthSetPrincipalDisabled c
      else if c.(apc_Op) =? AuthGrantPrincipal then applyAuthGrantPrincipal c
      else if c.(apc_Op) =? AuthRevokePrincipalGrant then applyAuthRevokePrincipalGrant c
      else fail (bs "unknown auth principal op")
  end.
