(* ===== verification/Timers.v ===== *)
(** * Firing timers ([applyFireTimer], [internal/fsm/fsm.go])

    One definition per timer kind, then the dispatch on the kind.  A fire
    re-reads the timer row first: a row that is gone means the timer already
    fired or was cancelled, and the handler writes nothing. *)

From S2P Require Import Prelude Keys Data Store Backoff Publish Workflow Broker Control.

Section timers.
Context {PC : PayloadCodec}.

(** [case storage.TimerReadyAt] *)
Definition fireReadyAt (ref : bytes) (timerEpoch : N) : M unit :=
  match ParseReadyAtRef ref with
  | None => mret ()
  | Some (lane, group, msgID) =>
      m ← gets (GetProto (MessageKey lane group msgID));
      match m with
      | None => mret ()
      | Some msg =>
          if bool_decide (msg.(m_State) = DELAYED) && (msg.(m_Epoch) =? timerEpoch) then
            let msg := m_set_State READY msg in
            let msg := m_set_Epoch (incr32 msg.(m_Epoch)) msg in
            g ← gets (GetProto (GroupMetaKey lane group));
            match g with
            | None => mret ()
            | Some gm =>
                let gm := gm_set_ReadyCount (incr64 gm.(gm_ReadyCount)) gm in
                let gm := gm_set_DelayedCount (decr gm.(gm_DelayedCount)) gm in
                putProto (GroupMetaKey lane group) gm
            end;;
            putProto (MessageKey lane group msgID) msg
          else mret ()
      end
  end.

(** The requeue of a timed-out message: with or without the retry penalty. *)
Definition expireLease (msg : Message) (gm : GroupMeta) (fireAt : N) : M GroupMeta :=
  if penaliseExpiry then
    let msg := m_set_Attempt (incr32 msg.(m_Attempt)) msg in
    if max_attempts msg <=? msg.(m_Attempt) then
      deadLetter msg (bs "max_attempts") ∅ fireAt;;
      mret (gm_set_TotalCount (decr gm.(gm_TotalCount)) gm)
    else makeReady msg gm (add64 fireAt (backoffMs msg.(m_MsgId) msg.(m_Attempt))) fireAt
  else makeReady msg gm fireAt fireAt.

(** [case storage.TimerLeaseDeadline] *)
Definition fireLeaseDeadline (ref : bytes) (timerEpoch fireAt : N) : M unit :=
  match ParseLeaseDeadlineRef ref with
  | None => mret ()
  | Some leaseID =>
      l ← gets (GetProto (LeaseKey leaseID));
      match l with
      | None => mret ()
      | Some lease =>
          m ← gets (GetProto (MessageKey lease.(ls_Lane) lease.(ls_GroupId) lease.(ls_MsgId)));
          match m with
          | None => mret ()
          | Some msg =>
              if leased_by leaseID msg && (msg.(m_Epoch) =? timerEpoch) then
                bdel (LeaseKey leaseID);;
                deleteLeaseToken lease;;
                let gkey := GroupMetaKey lease.(ls_Lane) lease.(ls_GroupId) in
                g ← gets (GetProto gkey);
                let gm := or_zero g in
                let gm := gm_set_InflightCount (decr gm.(gm_InflightCount)) gm in
                gm ← expireLease msg gm fireAt;
                when (bool_decide (is_Some g)) (putProto gkey gm)
              else mret ()
          end
      end
  end.

(** [case storage.TimerLeaseMaxLife] *)
Definition fireLeaseMaxLife (ref : bytes) (fireAt : N) : M unit :=
  match ParseLeaseDeadlineRef ref with
  | None => mret ()
  | Some leaseID =>
      l ← gets (GetProto (LeaseKey leaseID));
      match l with
      | None => mret ()
      | Some lease =>
          m ← gets (GetProto (MessageKey lease.(ls_Lane) lease.(ls_GroupId) lease.(ls_MsgId)));
          match m with
          | None => mret ()
          | Some msg =>
              if leased_by leaseID msg then
                bdel (LeaseKey leaseID);;
                deleteLeaseToken lease;;
                delTimer lease.(ls_DeadlineMs) TimerLeaseDeadline (LeaseDeadlineRef leaseID);;
                let gkey := GroupMetaKey lease.(ls_Lane) lease.(ls_GroupId) in
                g ← gets (GetProto gkey);
                let gm := or_zero g in
                let gm := gm_set_InflightCount (decr gm.(gm_InflightCount)) gm in
                deadLetter msg (bs "max_lease_lifetime") ∅ fireAt;;
                let gm := gm_set_TotalCount (decr gm.(gm_TotalCount)) gm in
                when (bool_decide (is_Some g)) (putProto gkey gm)
              else mret ()
          end
      end
  end.

(** [case storage.TimerWFFired] *)
Definition fireWFTimer (ref : bytes) (fireAt : N) : M unit :=
  match ParseWFTimerRef ref with
  | None => mret ()
  | Some (runID, startedID) => recordTimerFired runID startedID fireAt
  end.

(** [case storage.TimerMsgExpiry] *)
Definition fireMsgExpiry (ref : bytes) (fireAt : N) : M unit :=
  match ParseReadyAtRef ref with
  | None => mret ()
  | Some (lane, group, msgID) =>
      m ← gets (GetProto (MessageKey lane group msgID));
      match m with
      | None => mret ()
      | Some msg =>
          if leasable msg then
            let gkey := GroupMetaKey lane group in
            g ← gets (GetProto gkey);
            let gm := or_zero g in
            let gm := if bool_decide (msg.(m_State) = READY)
                      then gm_set_ReadyCount (decr gm.(gm_ReadyCount)) gm
                      else gm_set_DelayedCount (decr gm.(gm_DelayedCount)) gm in
            deadLetter msg (bs "ttl") ∅ fireAt;;
            let gm := gm_set_TotalCount (decr gm.(gm_TotalCount)) gm in
            when (bool_decide (is_Some g)) (putProto gkey gm)
          else mret ()
      end
  end.

(** [case storage.TimerDedupExpiry] *)
Definition fireDedupExpiry (ref : bytes) (fireAt : N) : M unit :=
  match ParseDedupRef ref with
  | None => mret ()
  | Some (lane, key) =>
      let dk := DedupKey lane key in
      v ← gets (GetRaw dk);
      match v with
      | None => mret ()
      | Some v =>
          match parseDedupVal v with
          | Some (_, expiry) => when (expiry <=? fireAt) (bdel dk)
          | None => mret ()
          end
      end
  end.

Definition fireKind (c : FireTimerCmd) (timerEpoch : N) : M unit :=
  if bool_decide (c.(f_Kind) = TimerReadyAt) then fireReadyAt c.(f_Ref) timerEpoch
  else if bool_decide (c.(f_Kind) = TimerLeaseDeadline) then
    fireLeaseDeadline c.(f_Ref) timerEpoch c.(f_FireAt)
  else if bool_decide (c.(f_Kind) = TimerLeaseMaxLife) then
    fireLeaseMaxLife c.(f_Ref) c.(f_FireAt)
  else if bool_decide (c.(f_Kind) = TimerWFFired) then fireWFTimer c.(f_Ref) c.(f_FireAt)
  else if bool_decide (c.(f_Kind) = TimerMsgExpiry) then fireMsgExpiry c.(f_Ref) c.(f_FireAt)
  else if bool_decide (c.(f_Kind) = TimerDedupExpiry) then
    fireDedupExpiry c.(f_Ref) c.(f_FireAt)
  else mret ().

Definition applyFireTimer (c : FireTimerCmd) : M ApplyResult :=
  let tkey := TimeIndexKey c.(f_DueTs) c.(f_Kind) c.(f_Ref) in
  val ← gets (GetRaw tkey);
  match val with
  | None => mret RNil
  | Some val =>
      let timerEpoch := wrap32 (beU64 val) in
      fireKind c timerEpoch;;
      bdel tkey;;
      mret RNil
  end.
End timers.
