(* ===== verification/Fsm.v ===== *)
(** * The replicated state machine ([FSM], [internal/fsm/fsm.go])

    [Apply] turns one committed log entry into one atomic batch: the handler's
    writes and the applied index, committed together.  [dispatch] is the switch
    on the command type.  A panic (an unknown command type, a nil payload) is
    [None]: the process halts and nothing is committed. *)

From S2P Require Import Prelude Keys Data Store Publish Workflow Broker Control Auth Timers.

(** [raft.Log]: the fields [Apply] reads.  [Type == raft.LogCommand] is a flag. *)
Record Log := mkLog { log_IsCommand : bool; log_Index : N; log_Data : bytes }.

Record FSM := mkFSM { fsm_s : store; fsm_appliedIndex : N }.

(** What [Apply] returns as an [interface{}]. *)
Inductive response :=
  | Skipped
  | Failed (e : bytes)
  | Applied (r : ApplyResult).

Definition appliedIndexKey : bytes := MetaKey (bs "applied_index").

Definition New (s : store) : FSM :=
  mkFSM s (match GetRaw appliedIndexKey s with Some v => beU64 v | None => 0 end).

(** A handler's outcome: [None] is a panic. *)
Definition H : Type := store → option (result (ApplyResult * batch)).

(** Call a handler with the command's payload pointer, dereferenced at once. *)
Definition deref {C} (h : C → M ApplyResult) (c : option C) : H :=
  λ db, match c with Some c => Some (h c db) | None => None end.

(** [applyTeardownGroup] dereferences its command only at the first group row
    that decodes. *)
Definition deref_teardown (c : option TeardownCmd) : H := λ db,
  match c with
  | Some c => Some (applyTeardownGroup c db)
  | None =>
      if existsb (λ kv : bytes * value, bool_decide (is_Some (row_out (A:=GroupMeta) kv.2)))
           (NewIter GroupMetaBounds.1 (Some GroupMetaBounds.2) db)
      then None
      else Some (Ok (RTeardown [] 0, []))
  end.

(** [case CmdSetPolicy] *)
Definition applySetPolicy (c : PolicyCmd) : M ApplyResult :=
  bset (PolicyKey c.(pol_Lane)) (VRaw c.(pol_Binding));; mret RNil.

Section fsm.
Context {PC : PayloadCodec}.
(** [json.Unmarshal] into a [Command]. *)
Variable unmarshal_cmd : bytes → option Command.

Definition dispatch (cmd : Command) : H :=
  let t := cmd.(c_Type) in
  if t =? CmdPublish then deref applyPublish cmd.(c_Publish)
  else if t =? CmdPublishBatch then deref applyPublishBatch cmd.(c_PublishBatch)
  else if t =? CmdLease then deref applyLease cmd.(c_Lease)
  else if t =? CmdAck then deref applyAck cmd.(c_Ack)
  else if t =? CmdNack then deref applyNack cmd.(c_Nack)
  else if t =? CmdExtend then deref applyExtend cmd.(c_Extend)
  else if t =? CmdFireTimer then deref applyFireTimer cmd.(c_Fire)
  else if t =? CmdSetPolicy then deref applySetPolicy cmd.(c_Policy)
  else if t =? CmdGroupConfig then deref applyGroupConfig cmd.(c_GroupConfig)
  else if t =? CmdGroupLifecycle then deref applyGroupLifecycle cmd.(c_GroupLifecycle)
  else if t =? CmdCron then deref applyCron cmd.(c_Cron)
  else if t =? CmdFireCron then deref applyFireCron cmd.(c_FireCron)
  else if t =? CmdIssueToken then deref applyIssueToken cmd.(c_IssueToken)
  else if t =? CmdComplete then deref applyComplete cmd.(c_Complete)
  else if t =? CmdSingleton then deref applySingleton cmd.(c_Singleton)
  else if t =? CmdSetLaneConfig then deref applySetLaneConfig cmd.(c_LaneConfig)
  else if t =? CmdReapGroup then deref applyReapGroup cmd.(c_ReapGroup)
  else if t =? CmdTeardownGroup then deref_teardown cmd.(c_Teardown)
  else if t =? CmdRedrive then deref applyRedrive cmd.(c_Redrive)
  else if t =? CmdWFStartRun then deref applyWFStartRun cmd.(c_WFStart)
  else if t =? CmdWFAppendEvents then deref applyWFAppendEvents cmd.(c_WFAppend)
  else if t =? CmdWFCompleteActivity then deref applyWFCompleteActivity cmd.(c_WFCompleteActivity)
  else if t =? CmdWFSignal then deref applyWFSignal cmd.(c_WFSignal)
  else if t =? CmdWFCancel then deref applyWFCancel cmd.(c_WFCancel)
  else if t =? CmdAuthPrincipal then λ db, Some (applyAuthPrincipal cmd.(c_AuthPrincipal) db)
  else λ _, None.

Definition Apply (f : FSM) (l : Log) : option (response * FSM) :=
  if negb l.(log_IsCommand) then Some (Skipped, f)
  else if l.(log_Index) <=? f.(fsm_appliedIndex) then Some (Skipped, f)
  else
    match unmarshal_cmd l.(log_Data) with
    | None => Some (Failed (bs "unmarshal"), f)
    | Some cmd =>
        match dispatch cmd f.(fsm_s) with
        | None => None
        | Some (Err e) => Some (Failed e, f)
        | Some (Ok (res, b)) =>
            let b := b ++ [BSet appliedIndexKey (VRaw (u64b l.(log_Index)))] in
            Some (Applied res, mkFSM (commit b f.(fsm_s)) l.(log_Index))
        end
    end.

(** Raft hands the committed log to [Apply] in order; a panic stops the node. *)
Fixpoint applyLog (f : FSM) (log : list Log) : option (list response * FSM) :=
  match log with
  | [] => Some ([], f)
  | l :: log' =>
      match Apply f l with
      | None => None
      | Some (r, f1) =>
          match applyLog f1 log' with
          | None => None
          | Some (rs, f2) => Some (r :: rs, f2)
          end
      end
  end.
End fsm.
