(* ===== verification/Demo.v ===== *)
(** * Concrete instances

    A payload codec that satisfies [PayloadCodecLaws], a decoder for a handful
    of commands, and short names for the commands the witnesses run. *)

From S2P Require Import Prelude Keys Data Store Publish Workflow Fsm.

(** ** A self-delimiting string encoding: [1 b] per byte, then [0] *)
Fixpoint esc (s : bytes) : bytes :=
  match s with
  | [] => ["000"%char]
  | b :: s' => "001"%char :: b :: esc s'
  end.
Fixpoint unesc (s : bytes) : option (bytes * bytes) :=
  match s with
  | "001"%char :: b :: s' =>
      match unesc s' with Some (x, r) => Some (b :: x, r) | None => None end
  | "000"%char :: r => Some ([], r)
  | _ => None
  end.
Lemma unesc_esc s r : unesc (esc s ++ r) = Some (s, r).
Proof. induction s as [|b s IH]; [done|]. simpl. by rewrite IH. Qed.

(** Eight big-endian bytes, then the rest. *)
Definition take64 (b : bytes) : option (N * bytes) :=
  if (length b <? 8)%nat then None else Some (be_val (take 8 b), drop 8 b).
Lemma take64_u64be v r : u64 v → take64 (u64be v ++ r) = Some (v, r).
Proof.
  intros Hv. unfold take64. rewrite length_app, length_u64be.
  destruct (Nat.ltb_spec (8 + length r) 8); [lia|].
  by rewrite take_app_length', drop_app_length', be_val_u64be by (rewrite ?length_u64be; done).
Qed.
Lemma take64_u64 b v r : take64 b = Some (v, r) → u64 v.
Proof.
  unfold take64. destruct (Nat.ltb_spec (length b) 8); [done|]. intros [= <- _].
  pose proof (be_val_lt (take 8 b)) as Hv. by rewrite length_take_le in Hv by done.
Qed.

#[global] Arguments take64 : simpl never.

#[export] Instance demo_codec : PayloadCodec := {|
  marshal_WorkflowTaskRef x := u64be x.(wtr_RunId) ++ x.(wtr_WorkflowType);
  unmarshal_WorkflowTaskRef b :=
    '(r, b) ← take64 b; Some (mkWorkflowTaskRef r b);
  marshal_ActivityTask x :=
    u64be x.(atk_RunId) ++ u64be x.(atk_ScheduledEventId) ++ esc x.(atk_ActivityType)
    ++ x.(atk_Input);
  unmarshal_ActivityTask b :=
    '(r, b) ← take64 b; '(e, b) ← take64 b; '(t, b) ← unesc b; Some (mkActivityTask r e t b);
  marshal_ActivityScheduledAttrs x :=
    esc x.(asa_ActivityType) ++ esc x.(asa_TenantId) ++ x.(asa_Input);
  unmarshal_ActivityScheduledAttrs b :=
    '(t, b) ← unesc b; '(n, b) ← unesc b; Some (mkActivityScheduledAttrs t n b);
  marshal_ActivityCompletedAttrs x :=
    u64be x.(aca_ScheduledEventId) ++ (if x.(aca_Success) then "001"%char else "000"%char)
    :: x.(aca_Result);
  marshal_TimerStartedAttrs x := u64be x;
  unmarshal_TimerStartedAttrs b := '(v, _) ← take64 b; Some v;
  marshal_TimerFiredAttrs x := u64be x;
  marshal_SignalReceivedAttrs x := esc x.(sra_SignalName) ++ x.(sra_Payload);
  marshal_ContinueAsNewAttrs x := x;
  ContinueAsNew_Input b := b;
|}.

#[export] Instance demo_codec_laws : PayloadCodecLaws demo_codec.
Proof.
  split; cbn -[take64 u64be u64].
  - intros [r t] ?. cbn -[take64 u64be u64] in *. by rewrite take64_u64be.
  - intros [r e t i] ??. cbn -[take64 u64be u64] in *.
    do 2 (rewrite take64_u64be by done; cbn -[take64 u64be]). by rewrite unesc_esc.
  - intros [t n i]. cbn. rewrite unesc_esc. cbn. by rewrite unesc_esc.
  - intros x ?. rewrite <-(app_nil_r (u64be x)), take64_u64be by done. done.
  - done.
  - intros b x. destruct (take64 b) as [[r b']|] eqn:E1; [|done]. cbn -[take64 u64].
    destruct (take64 b') as [[e b2]|] eqn:E2; [|done]. cbn -[take64 u64].
    destruct (unesc b2) as [[t b3]|]; [|done]. intros [= <-].
    split; by eapply take64_u64.
Qed.

(** ** Commands on lane "l", group "g" *)
Definition demo_publish (payload : bytes) (now : N) : PublishCmd :=
  mkPublishCmd (bs "l") (bs "g") payload ∅ f64_zero false 0 false 3 0 0 now false [] [] 0.
Definition demo_lease (deadline : N) : LeaseCmd :=
  mkLeaseCmd (bs "l") (bs "g") (bs "c") deadline 0.

(** A decoder for log entries: one letter per command. *)
Definition demo_unmarshal (b : bytes) : option Command :=
  match b with
  | "p"%char :: payload => Some (cmd_Publish (demo_publish payload 10))
  | "l"%char :: _ => Some (cmd_Lease (demo_lease 100))
  | "a"%char :: _ => Some (cmd_Ack (mkAckCmd 1))
  | "c"%char :: _ => Some (cmd_AuthPrincipal (mkAuthPrincipalCmd 9 (bs "x") [] [] None 0 false [] [] [] 0))
  | "u"%char :: _ => Some (cmd_of 99)
  | _ => None
  end.
Definition demo_log (entries : list bytes) : list Log :=
  imap (λ i e, mkLog true (N.of_nat (S i)) e) entries.
Definition demo_fsm0 : FSM := New ∅.

Definition is_some {A} (o : option A) : bool := match o with Some _ => true | None => false end.

(** The responses and the state of a log that does not halt. *)
Definition runs_to (um : bytes → option Command) (f : FSM) (log : list Log) :
    list response * FSM :=
  match applyLog um f log with Some x => x | None => ([], f) end.
Lemma runs_to_eq um f log :
  is_some (applyLog um f log) = true →
  applyLog um f log = Some ((runs_to um f log).1, (runs_to um f log).2).
Proof. unfold runs_to. by destruct (applyLog um f log) as [[]|]. Qed.
