(* ===== verification/Snapshot.v ===== *)
(** * Snapshots ([Snapshot], [Persist], [Restore]; [internal/fsm/fsm.go])

    A snapshot is a point-in-time view of the store; [Persist] streams the rows
    of the application keyspace, in key order, as length-prefixed chunks, and
    [Restore] replaces the application keyspace by the rows of a stream.  Both
    work on encoded rows, so the store here is the raw one: keys and values are
    bytes. *)

From S2P Require Import Prelude Keys Data Store.

Abbreviation rawstore := (gmap bytes bytes).

(** ** Chunks *)
Definition writeChunk (b : bytes) : bytes :=
  be_bytes 4 (wrap32 (N.of_nat (length b))) ++ b.

(** [io.EOF] (nothing left at all) is told from every other read error. *)
Inductive chunk :=
  | ChunkEOF
  | ChunkErr (e : bytes)
  | Chunk (data rest : bytes).

(** [io.ReadFull] of the length, then of the body.  A length read that finds no
    byte, or a non-empty body read that finds no byte, is [io.EOF]; a partial
    one is [io.ErrUnexpectedEOF]. *)
Definition readChunk (r : bytes) : chunk :=
  if (length r =? 0)%nat then ChunkEOF
  else if (length r <? 4)%nat then ChunkErr (bs "unexpected EOF")
  else
    let n := N.to_nat (be_val (take 4 r)) in
    let r := drop 4 r in
    if (length r <? n)%nat then
      if (length r =? 0)%nat then ChunkEOF else ChunkErr (bs "unexpected EOF")
    else Chunk (take n r) (drop n r).

(** ** Persist *)
Definition persistRow (kv : bytes * bytes) : bytes := writeChunk kv.1 ++ writeChunk kv.2.

Definition Persist (snap : rawstore) : bytes :=
  concat (persistRow <$> NewIter AppKeyspaceBounds.1 (Some AppKeyspaceBounds.2) snap).

(** ** Restore *)
Definition DeleteRange (lo hi : bytes) (db : rawstore) : rawstore :=
  filter (λ kv, ¬ in_range lo (Some hi) kv.1) db.

Definition commitRows (b : list (bytes * bytes)) (db : rawstore) : rawstore :=
  foldl (λ db kv, <[kv.1 := kv.2]> db) db b.

Section restore.
(** [b.Len()] of the Pebble batch holding these writes. *)
Variable batchLen : list (bytes * bytes) → N.

(** The read loop: the store, the pending batch [b] and the rest of the
    stream.  It ends with an error or with the store to date.  An [io.EOF]
    where the key is due ends the stream; where the value is due it is an
    error.  Each round consumes at least eight bytes, so [fuel] can be the
    length of the stream. *)
Fixpoint restoreLoop (fuel : nat) (b : list (bytes * bytes)) (db : rawstore) (r : bytes) :
    option bytes * rawstore :=
  match fuel with
  | O => (Some (bs "out of fuel"), db)
  | S fuel' =>
      match readChunk r with
      | ChunkEOF => (None, commitRows b db)
      | ChunkErr e => (Some e, db)
      | Chunk key r =>
          match readChunk r with
          | ChunkEOF => (Some (bs "EOF"), db)
          | ChunkErr e => (Some e, db)
          | Chunk val r =>
              let b := b ++ [(key, val)] in
              if 4194304 <? batchLen b then restoreLoop fuel' [] (commitRows b db) r
              else restoreLoop fuel' b db r
          end
      end
  end.

(** The error, if any, the store and the applied index afterwards. *)
Definition Restore (rc : bytes) (db : rawstore) (appliedIndex : N) :
    option bytes * rawstore * N :=
  let '(lo, hi) := AppKeyspaceBounds in
  let db := DeleteRange lo hi db in
  match restoreLoop (S (length rc)) [] db rc with
  | (Some e, db) => (Some e, db, appliedIndex)
  | (None, db) =>
      (None, db, match db !! MetaKey (bs "applied_index") with
                 | Some v => beU64 v
                 | None => appliedIndex
                 end)
  end.
End restore.

(** ** A restored snapshot *)
Lemma readChunk_writeChunk b r :
  N.of_nat (length b) < two32 → readChunk (writeChunk b ++ r) = Chunk b r.
Proof.
  intros Hb. unfold readChunk, writeChunk. rewrite wrap32_small by done.
  assert (Hl : length (be_bytes 4 (N.of_nat (length b))) = 4%nat) by apply length_be_bytes.
  rewrite <-app_assoc, !length_app, Hl.
  destruct (Nat.eqb_spec (4 + (length b + length r)) 0); [lia|].
  destruct (Nat.ltb_spec (4 + (length b + length r)) 4); [lia|].
  rewrite take_app_length', drop_app_length' by done.
  rewrite be_val_bytes_small by done. rewrite Nat2N.id, length_app.
  destruct (Nat.ltb_spec (length b + length r) (length b)); [lia|].
  by rewrite take_app_length, drop_app_length.
Qed.

Definition chunkable (kv : bytes * bytes) : Prop :=
  N.of_nat (length kv.1) < two32 ∧ N.of_nat (length kv.2) < two32.

Lemma commitRows_app b1 b2 db : commitRows (b1 ++ b2) db = commitRows b2 (commitRows b1 db).
Proof. apply foldl_app. Qed.

Lemma commitRows_lookup (rows : list (bytes * bytes)) (db : rawstore) (k : bytes) :
  NoDup rows.*1 →
  commitRows rows db !! k =
    match (list_to_map rows : rawstore) !! k with Some v => Some v | None => db !! k end.
Proof.
  revert db. induction rows as [|[k' v'] rows IH]; intros db Hnd.
  { simpl. by rewrite lookup_empty. }
  rewrite fmap_cons, NoDup_cons in Hnd. destruct Hnd as [Hnin Hnd].
  change (commitRows ((k', v') :: rows) db) with (commitRows rows (<[k' := v']> db)).
  rewrite IH by done. simpl. destruct (decide (k = k')) as [->|Hne].
  - rewrite not_elem_of_list_to_map_1 by done. by rewrite !lookup_insert_eq.
  - by rewrite !lookup_insert_ne by done.
Qed.

(** A stream of rows followed by a tail that reads as the end of the stream. *)
Lemma restoreLoop_rows bl fuel rows tail b db :
  Forall chunkable rows → readChunk tail = ChunkEOF → (length rows < fuel)%nat →
  restoreLoop bl fuel b db (concat (persistRow <$> rows) ++ tail) = (None, commitRows (b ++ rows) db).
Proof.
  intros Hc Ht. revert fuel b db.
  induction Hc as [|[k v] rows [Hk Hv] Hc IH]; intros fuel b db Hf; (destruct fuel as [|fuel]; [simpl in Hf; lia|]).
  - simpl. by rewrite Ht, app_nil_r.
  - rewrite fmap_cons. cbn [concat restoreLoop]. unfold persistRow at 1. simpl in Hk, Hv, Hf.
    rewrite <-!app_assoc. cbn [fst snd].
    rewrite readChunk_writeChunk by done. rewrite readChunk_writeChunk by done.
    destruct (_ <? _).
    + rewrite IH by lia. by rewrite <-commitRows_app, <-app_assoc.
    + rewrite IH by lia. by rewrite <-app_assoc.
Qed.

Lemma length_persist rows : (length rows <= length (concat (persistRow <$> rows)))%nat.
Proof.
  induction rows as [|kv rows IH]; [done|]. rewrite fmap_cons. cbn [concat].
  rewrite length_app. unfold persistRow at 1, writeChunk. rewrite !length_app, !length_be_bytes.
  simpl. lia.
Qed.

Definition app_key (k : bytes) : Prop :=
  in_range AppKeyspaceBounds.1 (Some AppKeyspaceBounds.2) k.

Lemma NewIter_to_map {V} (lo : bytes) (hi : option bytes) (db : gmap bytes V) k :
  (list_to_map (NewIter lo hi db) : gmap bytes V) !! k =
    if decide (in_range lo hi k) then db !! k else None.
Proof.
  apply option_eq. intros v. rewrite <-elem_of_list_to_map by apply NewIter_NoDup_fst.
  rewrite elem_of_NewIter. case_decide; [tauto|]. split; [tauto|done].
Qed.

Lemma DeleteRange_lookup (lo hi : bytes) (db : rawstore) (k : bytes) :
  DeleteRange lo hi db !! k = if decide (in_range lo (Some hi) k) then None else db !! k.
Proof.
  unfold DeleteRange. rewrite map_lookup_filter. destruct (db !! k) as [v|]; simpl.
  - by repeat case_guard || case_decide.
  - by case_decide.
Qed.

Lemma restore_persist_aux bl snap db idx :
  map_Forall (λ k v, chunkable (k, v)) snap →
  ∃ db', Restore bl (Persist snap) db idx =
           (None, db', match db' !! MetaKey (bs "applied_index") with
                       | Some v => beU64 v | None => idx end) ∧
    ∀ k, db' !! k = if decide (app_key k) then snap !! k else db !! k.
Proof.
  intros Hc. unfold Restore, Persist. cbn [fst snd AppKeyspaceBounds].
  set (rows := NewIter _ _ _).
  pose proof (restoreLoop_rows bl (S (length (concat (persistRow <$> rows)))) rows []
    [] (DeleteRange [tagMeta] ["016"%char] db)) as E.
  rewrite app_nil_r in E. rewrite E; subst rows.
  - eexists. split; [reflexivity|]. intros k. simpl app.
    rewrite commitRows_lookup by apply NewIter_NoDup_fst.
    rewrite NewIter_to_map, DeleteRange_lookup. unfold app_key. simpl.
    case_decide; [by destruct (snap !! k)|done].
  - apply Forall_forall. intros [k v] [Hin _]%elem_of_NewIter. by apply (Hc k v).
  - done.
  - apply Nat.lt_succ_r, length_persist.
Qed.

(** ** Theorems *)

(** C37: snapshot round trip.  Whatever the batch sizes, restoring a persisted
    snapshot on any store succeeds, gives every application row the snapshot's
    value (rows the snapshot lacks are gone), leaves the Raft log and stable
    rows alone, and takes the applied index from the snapshot. *)
Theorem Restore_Persist bl snap db idx :
  map_Forall (λ k v, chunkable (k, v)) snap →
  ∃ db', Restore bl (Persist snap) db idx =
           (None, db', match snap !! MetaKey (bs "applied_index") with
                       | Some v => beU64 v | None => idx end) ∧
    ∀ k, db' !! k = if decide (app_key k) then snap !! k else db !! k.
Proof.
  intros Hc. destruct (restore_persist_aux bl snap db idx Hc) as (db' & -> & Hk).
  exists db'. split; [|done]. by rewrite Hk, decide_True by (by split).
Qed.

(** A stream cut right after the length header of a key is not detected:
    [Restore] reports success with the rows before the cut only. *)
Theorem Restore_truncated_accepted bl rows n db idx :
  Forall chunkable rows → 0 < n → n < two32 →
  ∃ db', Restore bl (concat (persistRow <$> rows) ++ be_bytes 4 n) db idx =
    (None, db', match db' !! MetaKey (bs "applied_index") with
                | Some v => beU64 v | None => idx end).
Proof.
  intros Hc Hn0 Hn. unfold Restore. cbn [AppKeyspaceBounds].
  assert (Hl : length (be_bytes 4 n) = 4%nat) by apply length_be_bytes.
  rewrite restoreLoop_rows; [eexists; reflexivity|done| |].
  - assert (Hv : be_val (be_bytes 4 n) = n) by (by rewrite be_val_bytes_small).
    revert Hl Hv. generalize (be_bytes 4 n). intros h Hl Hv. unfold readChunk. rewrite Hl.
    rewrite take_ge, drop_ge, Hv by lia.
    destruct (Nat.ltb_spec (length (@nil ascii)) (N.to_nat n)); [done|simpl in *; lia].
  - rewrite length_app. pose proof (length_persist rows). lia.
Qed.

(** ** Witnesses *)
Definition demo_raw : rawstore :=
  <[MetaKey (bs "applied_index") := be_bytes 8 5]> (<[PolicyKey (bs "l") := bs "wasm"]> ∅).

Example Restore_Persist_witness :
  ∃ db', Restore (λ _, 0) (Persist demo_raw) {[ CronKey (bs "old") := bs "x" ]} 2 = (None, db', 5).
Proof.
  edestruct (Restore_Persist (λ _, 0) demo_raw {[ CronKey (bs "old") := bs "x" ]} 2)
    as (db' & E & _); [|by exists db'; rewrite E].
  apply map_Forall_insert_2; [by vm_compute|].
  apply map_Forall_insert_2; [by vm_compute|]. apply map_Forall_empty.
Defined.

Example Restore_truncated_accepted_witness :
  ∃ db', Restore (λ _, 0) (concat (persistRow <$> [(CronKey (bs "c"), bs "x")]) ++ be_bytes 4 9) ∅ 2
    = (None, db', 2).
Proof.
  edestruct (Restore_truncated_accepted (λ _, 0) [(CronKey (bs "c"), bs "x")] 9 ∅ 2)
    as (db' & E); [by repeat constructor|by vm_compute|by vm_compute|].
  rewrite E. eexists. f_equal.
  assert (snd (fst (Restore (λ _, 0)
    (concat (persistRow <$> [(CronKey (bs "c"), bs "x")]) ++ be_bytes 4 9) ∅ 2)) !!
    MetaKey (bs "applied_index") = None) as Hn by by vm_compute.
  rewrite E in Hn. cbn [fst snd] in Hn. by rewrite Hn.
Defined.
