(* ===== verification/Typing.v ===== *)
(** * Typing of the stored rows

    Every handler writes rows of the type their table holds, so a row is always
    read back at the type it was written with: reading a row of another type as
    absent, which [GetProto] does, never happens to a store the state machine
    produced. *)

From S2P Require Import Prelude Keys Data Store Backoff Publish Workflow Broker Control Auth Timers Fsm.

(** Walk a handler's monadic structure; the leaves are in [rota_typed]. *)
Ltac typed :=
  repeat first
    [ solve [auto 2 with rota_typed]
    | apply typed_bind; [|intros ?]
    | match goal with
      | |- typed_M (match ?x with _ => _ end) => destruct x
      | |- typed_M (when _ _) => unfold when
      | |- typed_M (putProto _ _) => unfold putProto
      | |- typed_M (addTimer _ _ _ _) => unfold addTimer
      | |- typed_M (delTimer _ _ _) => unfold delTimer
      | |- typed_M (let _ := _ in _) => cbv zeta
      end ].

Lemma typed_reads {A} (f : store → result A) : typed_M (reads f).
Proof. intros db x b. unfold reads. destruct (f db); [intros [= _ <-]; constructor|done]. Qed.
Lemma typed_try {A} (m : M A) : typed_M m → typed_M (try m).
Proof.
  intros Hm db x b. unfold try. destruct (m db) as [[y c]|] eqn:E; intros [= <- <-]; [|constructor].
  by eapply Hm.
Qed.
#[export] Hint Resolve typed_reads typed_try : rota_typed.

Lemma typed_store_empty : typed_store ∅.
Proof. intros k v E. by rewrite lookup_empty in E. Qed.

(** ** Publishing *)
Lemma typed_publishOne c gm : typed_M (publishOne c gm).
Proof. unfold publishOne. typed. Qed.
Lemma typed_publishReady l g p h now : typed_M (publishReady l g p h now).
Proof. unfold publishReady. typed. Qed.
Lemma typed_recordDedup c id : typed_M (recordDedup c id).
Proof. unfold recordDedup. typed. Qed.
#[export] Hint Resolve typed_publishOne typed_publishReady typed_recordDedup : rota_typed.

Lemma typed_applyPublish c : typed_M (applyPublish c).
Proof. unfold applyPublish. typed. Qed.
Lemma typed_publishItem at_ item st : typed_M (publishItem at_ item st).
Proof. unfold publishItem. typed. Qed.
#[export] Hint Resolve typed_publishItem : rota_typed.
Lemma typed_publishItems at_ items st : typed_M (publishItems at_ items st).
Proof. revert st. induction items; intros st; simpl; typed. Qed.
Lemma typed_putGroups order cache : typed_M (putGroups order cache).
Proof. induction order; simpl; typed. Qed.
#[export] Hint Resolve typed_publishItems typed_putGroups : rota_typed.
Lemma typed_applyPublishBatch c : typed_M (applyPublishBatch c).
Proof. unfold applyPublishBatch. typed. Qed.

(** ** Workflows *)
Section workflow.
Context {PC : PayloadCodec}.

Lemma typed_dispatchWorkflowTask run : typed_M (dispatchWorkflowTask run).
Proof. unfold dispatchWorkflowTask. typed. Qed.
#[local] Hint Resolve typed_dispatchWorkflowTask : rota_typed.
Lemma typed_createRun w t i p now : typed_M (createRun w t i p now).
Proof. unfold createRun, nextRunID. typed. Qed.
Lemma typed_dispatchActivity r e a : typed_M (dispatchActivity r e a).
Proof. unfold dispatchActivity. typed. Qed.
Lemma typed_armWFTimer r e a : typed_M (armWFTimer r e a).
Proof. unfold armWFTimer. typed. Qed.
#[local] Hint Resolve typed_createRun typed_dispatchActivity typed_armWFTimer : rota_typed.
Lemma typed_appendEffect c n e run : typed_M (appendEffect c n e run).
Proof. unfold appendEffect. typed. Qed.
#[local] Hint Resolve typed_appendEffect : rota_typed.
Lemma typed_appendEvents c evs n run : typed_M (appendEvents c evs n run).
Proof. revert n run. induction evs; intros n run; simpl; typed. Qed.
#[local] Hint Resolve typed_appendEvents : rota_typed.

Lemma typed_applyWFStartRun c : typed_M (applyWFStartRun c).
Proof. unfold applyWFStartRun. typed. Qed.
Lemma typed_applyWFAppendEvents c : typed_M (applyWFAppendEvents c).
Proof. unfold applyWFAppendEvents. typed. Qed.
Lemma typed_advanceRun r s now run : typed_M (advanceRun r s now run).
Proof. unfold advanceRun. typed. Qed.
#[local] Hint Resolve typed_advanceRun : rota_typed.
Lemma typed_recordActivityTerminal r s f res now :
  typed_M (recordActivityTerminal r s f res now).
Proof. unfold recordActivityTerminal. typed. Qed.
Lemma typed_appendExternalEvent r t a now : typed_M (appendExternalEvent r t a now).
Proof. unfold appendExternalEvent. typed. Qed.
#[local] Hint Resolve typed_recordActivityTerminal typed_appendExternalEvent : rota_typed.
Lemma typed_applyWFCompleteActivity c : typed_M (applyWFCompleteActivity c).
Proof. unfold applyWFCompleteActivity. typed. Qed.
Lemma typed_applyWFCancel c : typed_M (applyWFCancel c).
Proof. unfold applyWFCancel. typed. Qed.
Lemma typed_applyWFSignal c : typed_M (applyWFSignal c).
Proof. unfold applyWFSignal. typed. Qed.

(** ** Leasing and settling *)
Lemma typed_nextLeaseID : typed_M nextLeaseID.
Proof. unfold nextLeaseID. typed. Qed.
#[local] Hint Resolve typed_nextLeaseID : rota_typed.
Lemma typed_applyLease c : typed_M (applyLease c).
Proof. unfold applyLease. typed. Qed.
Lemma typed_deleteLeaseToken l : typed_M (deleteLeaseToken l).
Proof. unfold deleteLeaseToken. typed. Qed.
#[local] Hint Resolve typed_deleteLeaseToken : rota_typed.
Lemma typed_applyAck c : typed_M (applyAck c).
Proof. unfold applyAck. typed. Qed.
Lemma typed_makeReady m gm r now : typed_M (makeReady m gm r now).
Proof. unfold makeReady. typed. Qed.
Lemma typed_deadLetter m r h ts : typed_M (deadLetter m r h ts).
Proof. unfold deadLetter. typed. Qed.
#[local] Hint Resolve typed_makeReady typed_deadLetter : rota_typed.
Lemma typed_applyNack c : typed_M (applyNack c).
Proof. unfold applyNack. typed. Qed.
Lemma typed_applyExtend c : typed_M (applyExtend c).
Proof. unfold applyExtend. typed. Qed.
#[local] Hint Resolve typed_applyAck typed_applyNack : rota_typed.

(** ** Control plane *)
Lemma typed_dropRows l g rows d : typed_M (dropRows l g rows d).
Proof. revert d. induction rows; intros d; simpl; typed. Qed.
#[local] Hint Resolve typed_dropRows : rota_typed.
Lemma typed_dropLeasable l g gm : typed_M (dropLeasable l g gm).
Proof. unfold dropLeasable. typed. Qed.
#[local] Hint Resolve typed_dropLeasable : rota_typed.
Lemma typed_teardownLanes g lanes a : typed_M (teardownLanes g lanes a).
Proof. revert a. induction lanes as [|x lanes IH]; intros acc; simpl; typed. Qed.
#[local] Hint Resolve typed_teardownLanes : rota_typed.
Lemma typed_applyTeardownGroup c : typed_M (applyTeardownGroup c).
Proof. unfold applyTeardownGroup. typed. Qed.
Lemma typed_applyReapGroup c : typed_M (applyReapGroup c).
Proof. unfold applyReapGroup. typed. Qed.
Lemma typed_applyRedrive c : typed_M (applyRedrive c).
Proof. unfold applyRedrive. typed. Qed.
Lemma typed_applyGroupConfig c : typed_M (applyGroupConfig c).
Proof. unfold applyGroupConfig. typed. Qed.
Lemma typed_applyGroupLifecycle c : typed_M (applyGroupLifecycle c).
Proof. unfold applyGroupLifecycle. typed. Qed.
Lemma typed_applyCron c : typed_M (applyCron c).
Proof. unfold applyCron. typed. Qed.
Lemma typed_applyFireCron c : typed_M (applyFireCron c).
Proof. unfold applyFireCron. typed. Qed.
Lemma typed_applyIssueToken c : typed_M (applyIssueToken c).
Proof. unfold applyIssueToken. typed. Qed.
Lemma typed_applyComplete c : typed_M (applyComplete c).
Proof. unfold applyComplete. typed. Qed.
Lemma typed_applySingleton c : typed_M (applySingleton c).
Proof. unfold applySingleton. typed. Qed.
Lemma typed_applySetLaneConfig c : typed_M (applySetLaneConfig c).
Proof. unfold applySetLaneConfig. typed. Qed.
Lemma typed_applySetPolicy c : typed_M (applySetPolicy c).
Proof. unfold applySetPolicy. typed. Qed.

(** ** Principals *)
Lemma typed_loadAuthPrincipal n : typed_M (loadAuthPrincipal n).
Proof. unfold loadAuthPrincipal. typed. Qed.
#[local] Hint Resolve typed_loadAuthPrincipal : rota_typed.
Lemma typed_applyAuthPrincipal c : typed_M (applyAuthPrincipal c).
Proof.
  unfold applyAuthPrincipal, applyAuthCreatePrincipal, applyAuthRotatePrincipalToken,
    applyAuthSetPrincipalDisabled, applyAuthGrantPrincipal, applyAuthRevokePrincipalGrant.
  typed.
Qed.

(** ** Timers *)
Lemma typed_expireLease m gm at_ : typed_M (expireLease m gm at_).
Proof. unfold expireLease. typed. Qed.
#[local] Hint Resolve typed_expireLease : rota_typed.
Lemma typed_fireKind c e : typed_M (fireKind c e).
Proof.
  unfold fireKind, fireReadyAt, fireLeaseDeadline, fireLeaseMaxLife, fireWFTimer,
    recordTimerFired, fireMsgExpiry, fireDedupExpiry. typed.
Qed.
#[local] Hint Resolve typed_fireKind : rota_typed.
Lemma typed_applyFireTimer c : typed_M (applyFireTimer c).
Proof. unfold applyFireTimer. typed. Qed.
#[local] Hint Resolve typed_applyPublish typed_applyPublishBatch typed_applyLease
  typed_applyExtend typed_applyFireTimer typed_applySetPolicy typed_applyGroupConfig
  typed_applyGroupLifecycle typed_applyCron typed_applyFireCron typed_applyIssueToken
  typed_applyComplete typed_applySingleton typed_applySetLaneConfig typed_applyReapGroup
  typed_applyTeardownGroup typed_applyRedrive typed_applyWFStartRun typed_applyWFAppendEvents
  typed_applyWFCompleteActivity typed_applyWFSignal typed_applyWFCancel
  typed_applyAuthPrincipal : rota_typed.

(** ** Every command *)
Lemma typed_deref {C} (h : C → M ApplyResult) c db r b :
  (∀ c, typed_M (h c)) → deref h c db = Some (Ok (r, b)) → Forall typed_bop b.
Proof. intros Hh. unfold deref. destruct c as [c|]; [|done]. intros [= E]. by eapply Hh. Qed.

Lemma typed_dispatch_aux cmd db r b :
  dispatch cmd db = Some (Ok (r, b)) → Forall typed_bop b.
Proof.
  unfold dispatch. cbv zeta.
  repeat lazymatch goal with
  | |- (if ?c then _ else _) _ = _ → _ =>
      destruct c; [try (apply typed_deref; auto 2 with rota_typed; done)|]
  end.
  - unfold deref_teardown. destruct (c_Teardown cmd).
    + intros [= E]. by eapply typed_applyTeardownGroup.
    + destruct (existsb _ _); [done|]. intros [= _ <-]. constructor.
  - intros [= E]. by eapply typed_applyAuthPrincipal.
  - done.
Qed.
End workflow.
