(* ===== verification/FsmProps.v ===== *)
(** * Properties of the replicated state machine

    The applied index makes [Apply] idempotent, is persisted with the batch it
    belongs to, and makes a restart-and-replay reach the state of a node that
    never stopped. *)

From S2P Require Import Prelude Keys Data Store Publish Workflow Broker Control Auth Timers Fsm Demo Typing.

Lemma commit_snoc_set b k v db : commit (b ++ [BSet k v]) db !! k = Some v.
Proof. rewrite commit_app. simpl. by rewrite lookup_insert_eq. Qed.

Section fsm.
Context {PC : PayloadCodec} (um : bytes → option Command).
Implicit Types (f : FSM) (l : Log) (log : list Log).

(** The index in memory is the one a restart would read back. *)
Definition coherent f : Prop := New f.(fsm_s) = f.
Definition log_u64 log : Prop := Forall (λ l, u64 l.(log_Index)) log.
(** Raft's log: indices strictly increase. *)
Definition log_increasing log : Prop :=
  StronglySorted (λ l1 l2, l1.(log_Index) < l2.(log_Index)) log.

(** What one [Apply] that does not halt can do. *)
Lemma Apply_cases f l r f' :
  Apply um f l = Some (r, f') →
  (f' = f ∧ ((∃ e, r = Failed e) ∨ r = Skipped)) ∨
  (f.(fsm_appliedIndex) < l.(log_Index) ∧
   ∃ cmd res b, um l.(log_Data) = Some cmd ∧ dispatch cmd f.(fsm_s) = Some (Ok (res, b)) ∧
     r = Applied res ∧
     f' = mkFSM (commit (b ++ [BSet appliedIndexKey (VRaw (u64b l.(log_Index)))]) f.(fsm_s))
            l.(log_Index)).
Proof.
  unfold Apply. destruct (log_IsCommand l); simpl; [|naive_solver].
  destruct (N.leb_spec (log_Index l) (fsm_appliedIndex f)); [naive_solver|].
  destruct (um _) as [cmd|]; [|naive_solver].
  destruct (dispatch cmd (fsm_s f)) as [[[res b]|e]|] eqn:E; [|naive_solver|done].
  intros [= <- <-]. right. eauto 10.
Qed.

Lemma Apply_mono f l r f' :
  Apply um f l = Some (r, f') → f.(fsm_appliedIndex) ≤ f'.(fsm_appliedIndex).
Proof.
  intros [[-> _]|(Hlt & ? & ? & ? & _ & _ & _ & ->)]%Apply_cases; simpl; lia.
Qed.

Lemma Apply_coherent f l r f' :
  u64 l.(log_Index) → coherent f → Apply um f l = Some (r, f') → coherent f'.
Proof.
  intros Hu Hf [[-> _]|(_ & ? & ? & ? & _ & _ & _ & ->)]%Apply_cases; [done|].
  unfold coherent, New. simpl. unfold GetRaw, GetProto. rewrite commit_snoc_set. simpl.
  by rewrite beU64_u64b.
Qed.

Lemma Apply_skip f l : l.(log_Index) ≤ f.(fsm_appliedIndex) → Apply um f l = Some (Skipped, f).
Proof.
  intros H. unfold Apply. destruct (log_IsCommand l); [simpl|done].
  by rewrite (proj2 (N.leb_le _ _)).
Qed.

Lemma applyLog_app f log1 log2 rs1 f1 rs2 f2 :
  applyLog um f log1 = Some (rs1, f1) → applyLog um f1 log2 = Some (rs2, f2) →
  applyLog um f (log1 ++ log2) = Some (rs1 ++ rs2, f2).
Proof.
  revert f rs1. induction log1 as [|l log1 IH]; intros f rs1; simpl.
  - by intros [= <- <-].
  - destruct (Apply um f l) as [[r f0]|]; [|done].
    destruct (applyLog um f0 log1) as [[rs' f']|] eqn:E; [|done].
    intros [= <- <-] E2. by rewrite (IH _ _ E E2).
Qed.

Lemma applyLog_mono f log rs f' :
  applyLog um f log = Some (rs, f') → f.(fsm_appliedIndex) ≤ f'.(fsm_appliedIndex).
Proof.
  revert f rs. induction log as [|l log IH]; intros f rs; simpl; [by intros [= _ <-]|].
  destruct (Apply um f l) as [[r f1]|] eqn:E; [|done].
  destruct (applyLog um f1 log) as [[rs' f2]|] eqn:E2; [|done]. intros [= _ <-].
  apply Apply_mono in E. apply IH in E2. lia.
Qed.

Lemma applyLog_coherent f log rs f' :
  log_u64 log → coherent f → applyLog um f log = Some (rs, f') → coherent f'.
Proof.
  intros Hu. revert f rs. induction Hu as [|l log Hl Hu IH]; intros f rs Hf; simpl.
  - by intros [= _ <-].
  - destruct (Apply um f l) as [[r f1]|] eqn:E; [|done].
    destruct (applyLog um f1 log) as [[rs' f2]|] eqn:E2; [|done]. intros [= _ <-].
    eapply IH, E2. by eapply Apply_coherent.
Qed.

(** If the log as a whole left the index below an entry, it did nothing at or
    after that entry. *)
Lemma applyLog_below f l log rs f' :
  Forall (λ l', l.(log_Index) < l'.(log_Index)) log →
  applyLog um f log = Some (rs, f') → f'.(fsm_appliedIndex) < l.(log_Index) → f' = f.
Proof.
  intros Hl. revert f rs. induction Hl as [|l' log Hl Hall IH]; intros f rs; simpl.
  - by intros [= _ <-].
  - destruct (Apply um f l') as [[r f1]|] eqn:E; [|done].
    destruct (applyLog um f1 log) as [[rs' f2]|] eqn:E2; [|done]. intros [= _ <-] Hlt.
    pose proof (IH _ _ E2 Hlt) as ->.
    apply Apply_cases in E as [[-> _]|(_ & ? & ? & ? & _ & _ & _ & ->)]; [done|].
    simpl in *. lia.
Qed.

(** On the state a log produced, no entry of the log does anything. *)
Lemma applyLog_settled f log rs f' :
  log_increasing log → applyLog um f log = Some (rs, f') →
  Forall (λ l, ∃ r, Apply um f' l = Some (r, f')) log.
Proof.
  intros Hs. revert f rs. induction Hs as [|l log Hs IH Hall]; intros f rs; simpl; [done|].
  destruct (Apply um f l) as [[r f1]|] eqn:E; [|done].
  destruct (applyLog um f1 log) as [[rs' f2]|] eqn:E2; [|done]. intros [= _ <-].
  constructor; [|by eapply IH]. apply applyLog_mono in E2 as Hm.
  destruct (N.leb_spec (log_Index l) (fsm_appliedIndex f2)) as [Hle|Hgt].
  - rewrite Apply_skip by done. eauto.
  - apply (applyLog_below f1 l) in E2; [|done..]. subst f2.
    apply Apply_cases in E as E'.
    destruct E' as [[-> _]|(_ & ? & ? & ? & _ & _ & _ & ->)]; [eauto|simpl in *; lia].
Qed.

Lemma applyLog_settled_run f log :
  Forall (λ l, ∃ r, Apply um f l = Some (r, f)) log → ∃ rs, applyLog um f log = Some (rs, f).
Proof.
  induction 1 as [|l log [r Hr] _ [rs IH]]; simpl; [eauto|]. rewrite Hr, IH. eauto.
Qed.

Lemma replay_aux f log1 log2 rs1 f1 rs2 f2 :
  coherent f → log_u64 (log1 ++ log2) → log_increasing (log1 ++ log2) →
  applyLog um f log1 = Some (rs1, f1) → applyLog um f1 log2 = Some (rs2, f2) →
  ∃ rs, applyLog um (New f1.(fsm_s)) (log1 ++ log2) = Some (rs, f2).
Proof.
  intros Hf Hu Hs E1 E2.
  apply Forall_app in Hu as [Hu1 _]. apply (applyLog_coherent _ _ _ _ Hu1 Hf) in E1 as Hc.
  unfold coherent in Hc. rewrite Hc.
  apply StronglySorted_app in Hs as (_ & Hs1 & _).
  apply (applyLog_settled _ _ _ _ Hs1) in E1. apply applyLog_settled_run in E1 as [rs E1].
  exists (rs ++ rs2). by eapply applyLog_app.
Qed.

Lemma Apply_typed f l r f' :
  typed_store f.(fsm_s) → Apply um f l = Some (r, f') → typed_store f'.(fsm_s).
Proof.
  intros Hf [[-> _]|(_ & cmd & res & b & _ & E & _ & ->)]%Apply_cases; [done|]. simpl.
  apply typed_commit; [done|]. apply Forall_app. split; [|by repeat constructor].
  by eapply typed_dispatch_aux.
Qed.

Lemma applyLog_typed_aux f log rs f' :
  typed_store f.(fsm_s) → applyLog um f log = Some (rs, f') → typed_store f'.(fsm_s).
Proof.
  revert f rs. induction log as [|l log IH]; intros f rs Hf; simpl; [by intros [= _ <-]|].
  destruct (Apply um f l) as [[r f1]|] eqn:E; [|done].
  destruct (applyLog um f1 log) as [[rs' f2]|] eqn:E2; [|done]. intros [= _ <-].
  eapply IH, E2. by eapply Apply_typed.
Qed.
End fsm.

(** ** Theorems *)

(** C1: crash recovery.  Stop a node anywhere in the log and rebuild it from its
    store; replaying the WHOLE log from the start then reaches exactly the state
    of a node that never stopped: no committed entry is applied twice, none is
    lost. *)
Theorem crash_replay {PC : PayloadCodec} (um : bytes → option Command) f log1 log2 rs1 f1 rs2 f2 :
  coherent f → log_u64 (log1 ++ log2) → log_increasing (log1 ++ log2) →
  applyLog um f log1 = Some (rs1, f1) → applyLog um f1 log2 = Some (rs2, f2) →
  ∃ rs, applyLog um (New f1.(fsm_s)) (log1 ++ log2) = Some (rs, f2).
Proof. intros; by eapply replay_aux. Qed.

(** What one [Apply] does.  It halts only on an unknown command type or a
    nil payload; otherwise either nothing changes (not a command, an old index,
    an undecodable entry, a failing handler), or the handler's batch and the
    index are committed together, and the index read back from the store is the
    one in memory. *)
Theorem Apply_atomic {PC : PayloadCodec} (um : bytes → option Command) f l r f' :
  u64 l.(log_Index) → coherent f → Apply um f l = Some (r, f') →
  (f' = f ∧ (r = Skipped ∨ ∃ e, r = Failed e)) ∨
  (∃ cmd res b, um l.(log_Data) = Some cmd ∧ dispatch cmd f.(fsm_s) = Some (Ok (res, b)) ∧
     r = Applied res ∧
     f.(fsm_appliedIndex) < f'.(fsm_appliedIndex) ∧
     f'.(fsm_appliedIndex) = l.(log_Index) ∧
     New f'.(fsm_s) = f' ∧
     (∀ k, k ≠ appliedIndexKey → f'.(fsm_s) !! k = commit b f.(fsm_s) !! k)).
Proof.
  intros Hu Hc E. pose proof (Apply_coherent um _ _ _ _ Hu Hc E) as Hc'.
  apply Apply_cases in E as [[-> Hr]|(Hlt & cmd & res & b & E1 & E2 & -> & ->)].
  - left. split; [done|]. destruct Hr as [?| ->]; auto.
  - right. exists cmd, res, b. repeat split; [done..|]. intros k Hk. simpl.
    rewrite commit_app. simpl. by rewrite lookup_insert_ne.
Qed.

(** A command type this binary does not know halts the node, whatever its
    payload: the entry is neither applied nor skipped, and the index does not
    advance past it. *)
Theorem Apply_unknown_halts {PC : PayloadCodec} (um : bytes → option Command) f l cmd :
  l.(log_IsCommand) = true → f.(fsm_appliedIndex) < l.(log_Index) →
  um l.(log_Data) = Some cmd → cmd.(c_Type) = 0 ∨ CmdAuthPrincipal < cmd.(c_Type) →
  Apply um f l = None.
Proof.
  intros Hc Hi Hu Ht. unfold Apply. rewrite Hc, Hu. simpl.
  destruct (N.leb_spec (log_Index l) (fsm_appliedIndex f)); [lia|].
  assert (dispatch cmd (fsm_s f) = None) as ->; [|done].
  unfold dispatch. cbv zeta.
  repeat match goal with
  | |- (if c_Type cmd =? ?x then _ else _) _ = _ =>
      destruct (N.eqb_spec (c_Type cmd) x) as [Hx|_];
      [exfalso; unfold CmdAuthPrincipal in *; rewrite Hx in Ht; by destruct Ht as [Ht|Ht]|]
  end. done.
Qed.

(** C36: the typing invariant.  From a well-typed store, every state a log
    reaches is well-typed: each table holds rows of its own type only. *)
Theorem applyLog_typed {PC : PayloadCodec} (um : bytes → option Command) f log rs f' :
  typed_store f.(fsm_s) → applyLog um f log = Some (rs, f') → typed_store f'.(fsm_s).
Proof. apply applyLog_typed_aux. Qed.

(** ** Witnesses *)
Example crash_replay_witness :
  let log := demo_log [bs "pHello"; bs "l"; bs "a"; bs "c"] in
  let f1 := (runs_to demo_unmarshal demo_fsm0 (take 2 log)).2 in
  let f2 := (runs_to demo_unmarshal f1 (drop 2 log)).2 in
  fsm_appliedIndex f1 = 2 ∧ fsm_appliedIndex f2 = 3 ∧
  ∃ rs, applyLog demo_unmarshal (New f1.(fsm_s)) (take 2 log ++ drop 2 log) = Some (rs, f2).
Proof.
  cbv zeta. split; [by vm_compute|]. split; [by vm_compute|].
  eapply (crash_replay demo_unmarshal demo_fsm0); [done|..].
  - by repeat constructor.
  - by repeat constructor.
  - apply runs_to_eq. by vm_compute.
  - apply runs_to_eq. by vm_compute.
Defined.

Example Apply_atomic_witness :
  let l := mkLog true 7 (bs "pHello") in
  ∃ r f', Apply demo_unmarshal demo_fsm0 l = Some (r, f') ∧ New f'.(fsm_s) = f'.
Proof.
  cbv zeta. destruct (Apply demo_unmarshal demo_fsm0 (mkLog true 7 (bs "pHello")))
    as [[r f']|] eqn:E; [|by vm_compute in E].
  exists r, f'. split; [done|].
  apply Apply_atomic in E; [|done..].
  destruct E as [[-> _]|(? & ? & ? & _ & _ & _ & _ & _ & H & _)]; [done|exact H].
Defined.

Example Apply_unknown_halts_witness :
  Apply demo_unmarshal demo_fsm0 (mkLog true 1 (bs "u")) = None.
Proof.
  apply (Apply_unknown_halts _ _ _ (cmd_of 99)); [done..|]. right. by vm_compute.
Defined.

Example applyLog_typed_witness :
  let log := demo_log [bs "pHello"; bs "l"; bs "a"; bs "c"] in
  typed_store (runs_to demo_unmarshal demo_fsm0 log).2.(fsm_s).
Proof.
  cbv zeta. eapply (applyLog_typed _ demo_fsm0); [apply typed_store_empty|].
  apply runs_to_eq. by vm_compute.
Defined.
