(* ===== verification/Recovery.v ===== *)
(** * Catching up from a snapshot

    Snapshots stream encoded rows ([Snapshot]) and the state machine works on
    decoded ones ([Fsm]); the row codec joins the two.  A follower that installs a
    leader's snapshot and is then handed the log, the entries the snapshot covers
    included, ends in the leader's state. *)

From S2P Require Import Prelude Keys Data Store Publish Workflow Broker Control Auth Timers Fsm Demo Typing FsmProps Snapshot.

(** The encodings of rows (protobuf, JSON); a raw row is stored as it is. *)
Class RowCodec := {
  encode_row : value → bytes;
  decode_row : bytes → bytes → option value;
  encode_raw b : encode_row (VRaw b) = b;
}.

Section recovery.
Context {RC : RowCodec} {PC : PayloadCodec} (um : bytes → option Command).
Implicit Types (db : store) (raw : rawstore) (f : FSM).

(** The application rows of a database are the encodings of [db]'s. *)
Definition holds raw db : Prop := ∀ k, app_key k → raw !! k = encode_row <$> db !! k.
(** What the state machine reads from a database. *)
Definition view raw : store := map_imap (λ k b, if decide (app_key k) then decode_row k b else None) raw.
(** The rows read back as they were written. *)
Definition faithful db : Prop := map_Forall (λ k v, decode_row k (encode_row v) = Some v) db.

Lemma typed_app_key k v : value_typed k v → app_key k.
Proof.
  unfold app_key, in_range, bytes_le, bytes_lt. destruct k as [|t k]; [by destruct v|].
  destruct v; cbn [value_typed]; intros Ht%bool_decide_unpack;
    repeat match goal with H : _ ∈ _ :: _ |- _ => apply elem_of_cons in H as [->|H] | H : _ ∈ [] |- _ => by apply elem_of_nil in H end;
    subst; (split; [by destruct k|reflexivity]).
Qed.
Lemma view_holds raw db : typed_store db → faithful db → holds raw db → view raw = db.
Proof.
  intros Ht Hf Hh. apply map_eq. intros k. unfold view. rewrite map_lookup_imap.
  destruct (decide (app_key k)) as [Hk|Hk].
  - rewrite Hh by done. destruct (db !! k) as [v|] eqn:E; cbn; [by apply Hf|done].
  - destruct (db !! k) as [v|] eqn:E; [by apply Ht, typed_app_key in E|]. by destruct (raw !! k).
Qed.
(** The index a snapshot carries is the state machine's. *)
Lemma applied_of_snapshot f raw idx : coherent f → typed_store f.(fsm_s) → holds raw f.(fsm_s) →
  idx ≤ f.(fsm_appliedIndex) →
  match raw !! MetaKey (bs "applied_index") with Some v => beU64 v | None => idx end = f.(fsm_appliedIndex).
Proof.
  intros Hc Ht Hh Hidx. apply (f_equal fsm_appliedIndex) in Hc. cbn in Hc. rewrite <-Hc in Hidx |- *.
  unfold appliedIndexKey in *. rewrite Hh by (by split). unfold GetRaw, GetProto in *.
  destruct (fsm_s f !! MetaKey (bs "applied_index")) as [v|] eqn:E; cbn in *; [|lia].
  apply Ht in E. destruct v; try done. cbn. by rewrite encode_raw.
Qed.
End recovery.

(** ** Theorem *)

(** C2: snapshot catch-up.  A leader that applied a prefix of the log persists its
    rows; a follower, whatever its own rows and at whatever earlier index, restores
    them.  It then is in the leader's state at the prefix, with its own Raft rows
    untouched; and whether Raft hands it the whole log again or only the entries
    after the prefix, it reaches the state of a node that applied every entry. *)
Theorem snapshot_catch_up {RC : RowCodec} {PC : PayloadCodec} (um : bytes → option Command)
    batchLen f log1 log2 rs1 f1 rs2 f2 leader follower idx
    (Hc : coherent f) (Ht : typed_store f.(fsm_s))
    (Hu : log_u64 (log1 ++ log2)) (Hinc : log_increasing (log1 ++ log2))
    (Hrun1 : applyLog um f log1 = Some (rs1, f1)) (Hrun2 : applyLog um f1 log2 = Some (rs2, f2))
    (Hrows : faithful f1.(fsm_s)) (Hleader : holds leader f1.(fsm_s))
    (Hsize : map_Forall (λ k v, chunkable (k, v)) leader) (Hidx : idx ≤ f1.(fsm_appliedIndex)) :
  ∃ follower' idx', Restore batchLen (Persist leader) follower idx = (None, follower', idx') ∧
    mkFSM (view follower') idx' = f1 ∧
    (∀ k, ¬ app_key k → follower' !! k = follower !! k) ∧
    applyLog um (mkFSM (view follower') idx') log2 = Some (rs2, f2) ∧
    ∃ rs, applyLog um (mkFSM (view follower') idx') (log1 ++ log2) = Some (rs, f2).
Proof.
  destruct (restore_persist_aux batchLen leader follower idx Hsize) as (follower' & Hr & Hk).
  apply Forall_app in Hu as Hu1. destruct Hu1 as [Hu1 _].
  pose proof (applyLog_coherent um _ _ _ _ Hu1 Hc Hrun1) as Hc1.
  pose proof (applyLog_typed_aux um _ _ _ _ Ht Hrun1) as Ht1.
  assert (Hh : holds follower' f1.(fsm_s)).
  { intros k Ha. rewrite Hk, decide_True by done. by apply Hleader. }
  assert (Hf : mkFSM (view follower') f1.(fsm_appliedIndex) = f1).
  { rewrite (view_holds follower' f1.(fsm_s)) by done. by destruct f1. }
  rewrite (applied_of_snapshot f1 follower' idx) in Hr by done.
  exists follower', f1.(fsm_appliedIndex). rewrite Hf. split; [exact Hr|]. split; [done|]. split; [|split; [done|]].
  - intros k Ha. by rewrite Hk, decide_False.
  - destruct (replay_aux um f log1 log2 rs1 f1 rs2 f2 Hc Hu Hinc Hrun1 Hrun2) as [rs Hrs]. exists rs.
    unfold coherent in Hc1. by rewrite Hc1 in Hrs.
Qed.

(** ** Witness *)
(** Raw rows only: every entry sets a lane's policy. *)
#[export] Instance raw_rows : RowCodec := {|
  encode_row v := match v with VRaw b => b | _ => [] end;
  decode_row _ b := Some (VRaw b);
  encode_raw b := eq_refl |}.
Definition demo_policies (b : bytes) : option Command := Some (cmd_Policy (mkPolicyCmd b b)).
Definition demo_prefix : FSM := (runs_to demo_policies demo_fsm0 (demo_log [bs "a"; bs "b"])).2.
Definition demo_leader : rawstore := encode_row <$> demo_prefix.(fsm_s).
Lemma demo_prefix_rows : faithful demo_prefix.(fsm_s) ∧ map_Forall (λ k v, chunkable (k, v)) demo_leader.
Proof.
  assert (Hv : Forall (λ kv : bytes * value, match kv.2 with VRaw b => (length kv.1 + length b <? 100)%nat | _ => false end = true)
    (map_to_list demo_prefix.(fsm_s))) by (apply (bool_decide_unpack _); by vm_compute).
  rewrite Forall_forall in Hv. split.
  - intros k v Hk. apply elem_of_map_to_list, Hv in Hk. by destruct v.
  - intros k b Hk. unfold demo_leader in Hk. apply lookup_fmap_Some in Hk as (v & <- & Hk).
    apply elem_of_map_to_list, Hv in Hk. cbn [fst snd] in Hk. destruct v as [b| | | | | | | | | |]; try discriminate Hk.
    apply Nat.ltb_lt in Hk. unfold chunkable, two32. cbn [encode_row raw_rows fst snd]. lia.
Qed.
Example snapshot_catch_up_witness :
  let tail := [mkLog true 3 (bs "c")] in
  ∃ follower' idx' f2,
    Restore (λ _, 0) (Persist demo_leader) {[ PolicyKey (bs "old") := bs "x" ]} 1 = (None, follower', idx') ∧
    idx' = 2 ∧ fsm_appliedIndex f2 = 3 ∧
    ∃ rs, applyLog demo_policies (mkFSM (view follower') idx') (demo_log [bs "a"; bs "b"] ++ tail) = Some (rs, f2).
Proof.
  cbv zeta.
  destruct (snapshot_catch_up demo_policies (λ _, 0) demo_fsm0 (demo_log [bs "a"; bs "b"]) [mkLog true 3 (bs "c")]
    (runs_to demo_policies demo_fsm0 (demo_log [bs "a"; bs "b"])).1 demo_prefix
    (runs_to demo_policies demo_prefix [mkLog true 3 (bs "c")]).1
    (runs_to demo_policies demo_prefix [mkLog true 3 (bs "c")]).2 demo_leader
    {[ PolicyKey (bs "old") := bs "x" ]} 1) as (follower' & idx' & H1 & H2 & _ & _ & rs & H3).
  - done.
  - apply typed_store_empty.
  - by repeat constructor.
  - by repeat constructor.
  - apply runs_to_eq. by vm_compute.
  - apply runs_to_eq. by vm_compute.
  - apply demo_prefix_rows.
  - intros k _. unfold demo_leader. by rewrite lookup_fmap.
  - apply demo_prefix_rows.
  - by vm_compute.
  - exists follower', idx', (runs_to demo_policies demo_prefix [mkLog true 3 (bs "c")]).2.
    split; [exact H1|]. split; [|split; [by vm_compute|by exists rs]].
    apply (f_equal fsm_appliedIndex) in H2. cbn in H2. rewrite H2. by vm_compute.
Defined.
