(* ===== verification/Reason.v ===== *)
(** * Reasoning about handlers

    Inversion of a handler's run into the reads it did and the batch it wrote,
    and lookups in the store after a batch.  [minv H] decomposes
    [H : handler db = Ok (r, b)]; [key_ne] separates keys of different tables. *)

From S2P Require Import Prelude Keys Data Store Publish Broker.

Lemma bind_Ok {A B} (m : M A) (f : A → M B) db y b :
  (m ≫= f) db = Ok (y, b) →
  ∃ x b1 b2, m db = Ok (x, b1) ∧ f x db = Ok (y, b2) ∧ b = b1 ++ b2.
Proof.
  unfold mbind, M_bind. destruct (m db) as [[x b1]|]; [|done].
  destruct (f x db) as [[z b2]|] eqn:E; [|done]. intros [= <- <-]. eauto 10.
Qed.
Lemma ret_Ok {A} (x : A) db y b : (mret x : M A) db = Ok (y, b) → y = x ∧ b = [].
Proof. by intros [= <- <-]. Qed.
Lemma gets_Ok {A} (f : store → A) db y b : gets f db = Ok (y, b) → y = f db ∧ b = [].
Proof. by intros [= <- <-]. Qed.
Lemma fail_Ok {A} e db (y : A) b : fail e db = Ok (y, b) → False.
Proof. done. Qed.
Lemma bset_Ok k v db y b : bset k v db = Ok (y, b) → y = () ∧ b = [BSet k v].
Proof. by intros [= <- <-]. Qed.
Lemma bdel_Ok k db y b : bdel k db = Ok (y, b) → y = () ∧ b = [BDel k].
Proof. by intros [= <- <-]. Qed.
Lemma putProto_Ok {A} `{Row A} k (x : A) db y b :
  putProto k x db = Ok (y, b) → y = () ∧ b = [BSet k (row_in x)].
Proof. apply bset_Ok. Qed.
Lemma addTimer_Ok ts kd ref e db y b :
  addTimer ts kd ref e db = Ok (y, b) → y = () ∧ b = [BSet (TimeIndexKey ts kd ref) (VRaw (u64b e))].
Proof. apply bset_Ok. Qed.
Lemma delTimer_Ok ts kd ref db y b :
  delTimer ts kd ref db = Ok (y, b) → y = () ∧ b = [BDel (TimeIndexKey ts kd ref)].
Proof. apply bdel_Ok. Qed.
Lemma when_Ok c m db y b :
  when c m db = Ok (y, b) → (c = true ∧ m db = Ok (y, b)) ∨ (c = false ∧ b = []).
Proof. unfold when. destruct c; [tauto|]. intros [_ ->]%ret_Ok. tauto. Qed.

(** One step of inversion on [H]. *)
Ltac minv1 H :=
  lazymatch type of H with
  | mbind _ _ _ = Ok _ =>
      let x := fresh "x" in let b1 := fresh "b" in let b2 := fresh "b" in
      let H1 := fresh "Hm" in let Hb := fresh "Hb" in
      apply bind_Ok in H; destruct H as (x & b1 & b2 & H1 & H & Hb);
      try subst; minv1 H1; try minv1 H
  | (let _ := _ in _) _ = Ok _ => cbv zeta in H; minv1 H
  | mret _ _ = Ok _ => apply ret_Ok in H; destruct H; try subst
  | gets _ _ = Ok _ => apply gets_Ok in H; destruct H; try subst
  | fail _ _ = Ok _ => by apply fail_Ok in H
  | bset _ _ _ = Ok _ => apply bset_Ok in H; destruct H; try subst
  | bdel _ _ = Ok _ => apply bdel_Ok in H; destruct H; try subst
  | putProto _ _ _ = Ok _ => apply putProto_Ok in H; destruct H; try subst
  | addTimer _ _ _ _ _ = Ok _ => apply addTimer_Ok in H; destruct H; try subst
  | delTimer _ _ _ _ = Ok _ => apply delTimer_Ok in H; destruct H; try subst
  | when _ _ _ = Ok _ =>
      apply when_Ok in H; destruct H as [[? H]|[? H]]; try subst; try minv1 H
  | (match ?x with _ => _ end) _ = Ok _ =>
      let E := fresh "E" in destruct x eqn:E; try minv1 H
  | _ => idtac
  end.
Ltac minv H := minv1 H; simpl app in *; simplify_eq.

(** ** Keys of different tables *)
Ltac key_ne :=
  first [ done | discriminate | let E := fresh in intros E; discriminate E ].

(** The table of a key. *)
Definition tag (k : bytes) : option byte := head k.

(** ** Lookups after a batch *)
Lemma GetProto_row {A} `{Row A} k db (x : A) : GetProto k db = Some x ↔ db !! k = Some (row_in x).
Proof.
  unfold GetProto. destruct (db !! k) as [v|]; simpl; [|by split].
  split; [intros E; apply row_out_Some in E; by f_equal|intros [= ->]; apply row_out_in].
Qed.
Lemma GetProto_insert {A} `{Row A} k (x : A) db : GetProto k (<[k := row_in x]> db) = Some x.
Proof. apply GetProto_row. by rewrite lookup_insert_eq. Qed.
Lemma GetProto_insert_ne {A} `{Row A} k k' v db :
  k ≠ k' → @GetProto A _ k' (<[k := v]> db) = GetProto k' db.
Proof. intros. unfold GetProto. by rewrite lookup_insert_ne. Qed.
Lemma GetProto_delete {A} `{Row A} k db : @GetProto A _ k (delete k db) = None.
Proof. unfold GetProto. by rewrite lookup_delete_eq. Qed.
Lemma GetProto_delete_ne {A} `{Row A} k k' db :
  k ≠ k' → @GetProto A _ k' (delete k db) = GetProto k' db.
Proof. intros. unfold GetProto. by rewrite lookup_delete_ne. Qed.
Lemma GetProto_ext {A} `{Row A} k db db' :
  db !! k = db' !! k → @GetProto A _ k db = GetProto k db'.
Proof. unfold GetProto. by intros ->. Qed.

(** The rows a batch leaves alone. *)
Definition bop_key (o : bop) : bytes := match o with BSet k _ | BDel k => k end.
Lemma commit_frame b db k : k ∉ bop_key <$> b → commit b db !! k = db !! k.
Proof.
  revert db. induction b as [|o b IH]; intros db Hk; [done|].
  rewrite fmap_cons, not_elem_of_cons in Hk. destruct Hk as [Hne Hk].
  change (commit (o :: b) db) with (commit b (apply_bop db o)). rewrite IH by done.
  destruct o; simpl in *; [by rewrite lookup_insert_ne|by rewrite lookup_delete_ne].
Qed.
Lemma commit_cons o b db : commit (o :: b) db = commit b (apply_bop db o).
Proof. done. Qed.
(** A batch whose keys avoid a set of tables leaves those tables alone. *)
Lemma commit_frame_tag b db k :
  Forall (λ o, tag (bop_key o) ≠ tag k) b → commit b db !! k = db !! k.
Proof.
  intros Hb. apply commit_frame. intros Hin. apply list_elem_of_fmap in Hin as (o & -> & Ho).
  rewrite Forall_forall in Hb. by apply (Hb o).
Qed.

(** ** Structural facts about handlers: totality, and the tables they write *)
Definition total_M {A} (m : M A) : Prop := ∀ db, ∃ x b, m db = Ok (x, b).
Definition writes_M {A} (ts : list byte) (m : M A) : Prop :=
  ∀ db x b, m db = Ok (x, b) → Forall (λ o, ∃ t, tag (bop_key o) = Some t ∧ t ∈ ts) b.

Lemma total_bind {A B} (m : M A) (f : A → M B) :
  total_M m → (∀ x, total_M (f x)) → total_M (m ≫= f).
Proof.
  intros Hm Hf db. unfold mbind, M_bind. destruct (Hm db) as (x & b1 & ->).
  destruct (Hf x db) as (y & b2 & ->). eauto.
Qed.
Lemma total_ret {A} (x : A) : total_M (mret x). Proof. intros db. by eexists _, _. Qed.
Lemma total_gets {A} (f : store → A) : total_M (gets f). Proof. intros db. by eexists _, _. Qed.
Lemma total_bset k v : total_M (bset k v). Proof. intros db. by eexists _, _. Qed.
Lemma total_bdel k : total_M (bdel k). Proof. intros db. by eexists _, _. Qed.

Lemma writes_bind {A B} (ts : list byte) (m : M A) (f : A → M B) :
  writes_M ts m → (∀ x, writes_M ts (f x)) → writes_M ts (m ≫= f).
Proof.
  intros Hm Hf db y b (x & b1 & b2 & E1 & E2 & ->)%bind_Ok.
  apply Forall_app. split; [by eapply Hm|by eapply Hf].
Qed.
Lemma writes_ret {A} (ts : list byte) (x : A) : writes_M ts (mret x).
Proof. intros db y b [_ ->]%ret_Ok. constructor. Qed.
Lemma writes_gets {A} (ts : list byte) (f : store → A) : writes_M ts (gets f).
Proof. intros db y b [_ ->]%gets_Ok. constructor. Qed.
Lemma writes_fail {A} (ts : list byte) e : writes_M ts (@fail A e).
Proof. by intros db y b ?%fail_Ok. Qed.
Lemma writes_bset (ts : list byte) (k : bytes) v : (∃ t, tag k = Some t ∧ t ∈ ts) → writes_M ts (bset k v).
Proof. intros H db y b [_ ->]%bset_Ok. by repeat constructor. Qed.
Lemma writes_bdel (ts : list byte) (k : bytes) : (∃ t, tag k = Some t ∧ t ∈ ts) → writes_M ts (bdel k).
Proof. intros H db y b [_ ->]%bdel_Ok. by repeat constructor. Qed.

Ltac in_tags := eexists; split; [reflexivity|repeat first [apply list_elem_of_here | apply list_elem_of_further]].

Create HintDb rota_struct discriminated.
#[export] Hint Resolve total_ret total_gets total_bset total_bdel
  writes_ret writes_gets writes_fail : rota_struct.

(** Walk a handler's structure; leaves for sub-handlers are in [rota_struct]. *)
Ltac structural :=
  repeat first
    [ solve [auto 2 with rota_struct]
    | apply total_bind; [|intros ?]
    | apply writes_bind; [|intros ?]
    | apply writes_bset; in_tags
    | apply writes_bdel; in_tags
    | match goal with
      | |- total_M (match ?x with _ => _ end) => destruct x
      | |- writes_M _ (match ?x with _ => _ end) => destruct x
      | |- _ (when _ _) => unfold when
      | |- _ (putProto _ _) => unfold putProto
      | |- _ (addTimer _ _ _ _) => unfold addTimer
      | |- _ (delTimer _ _ _) => unfold delTimer
      | |- total_M (let _ := _ in _) => cbv zeta
      | |- writes_M _ (let _ := _ in _) => cbv zeta
      end ].

(** The rows outside the written tables keep their value. *)
Lemma writes_frame {A} (ts : list byte) (m : M A) (db : store) x (b : batch) (k : bytes) (t : byte) :
  writes_M ts m → m db = Ok (x, b) → tag k = Some t → t ∉ ts → commit b db !! k = db !! k.
Proof.
  intros Hw E Ht Hn. apply commit_frame_tag. eapply Forall_impl; [by eapply Hw|].
  intros o (t' & Ho & Hin) Heq. rewrite Ho, Ht in Heq. by injection Heq as ->.
Qed.

(** Timer keys of different kinds or references differ, whatever their times. *)
Lemma TimeIndexKey_ref ts k r ts' k' r' :
  TimeIndexKey ts k r = TimeIndexKey ts' k' r' → k = k' ∧ r = r'.
Proof.
  intros E%key_tail. apply app_inj_1 in E as [_ E]; [|by rewrite !length_u64be].
  by injection E as -> ->.
Qed.
Lemma TimeIndexKey_kind_ne ts k r ts' k' r' :
  k ≠ k' → TimeIndexKey ts k r ≠ TimeIndexKey ts' k' r'.
Proof. intros Hk E. by apply TimeIndexKey_ref in E as [? _]. Qed.

(** * Properties of every write of a handler

    [each_M P m]: whatever the store, every write of [m]'s batch satisfies [P].
    The tactic [each] walks a handler; sub-handlers' lemmas are hints. *)

Definition each_M {A} (P : bop → Prop) (m : M A) : Prop := ∀ db x b, m db = Ok (x, b) → Forall P b.

Section each.
Context (P : bop → Prop).

Lemma each_bind {A B : Type} (m : M A) (f : A → M B) :
  each_M P m → (∀ x, each_M P (f x)) → each_M P (m ≫= f).
Proof.
  intros Hm Hf db y b (x & b1 & b2 & E1 & E2 & ->)%bind_Ok.
  apply Forall_app. split; [by eapply Hm|by eapply Hf].
Qed.
Lemma each_ret {A} (x : A) : each_M P (mret x).
Proof. intros db y b [_ ->]%ret_Ok. constructor. Qed.
Lemma each_gets {A} (f : store → A) : each_M P (gets f).
Proof. intros db y b [_ ->]%gets_Ok. constructor. Qed.
Lemma each_reads {A} (f : store → result A) : each_M P (reads f).
Proof. intros db y b E. unfold reads in E. destruct (f db); [|done]. injection E as _ <-. constructor. Qed.
Lemma each_fail {A} e : each_M P (@fail A e).
Proof. by intros db y b ?%fail_Ok. Qed.
Lemma each_bset (k : bytes) v : P (BSet k v) → each_M P (bset k v).
Proof. intros Hk db y b [_ ->]%bset_Ok. by repeat constructor. Qed.
Lemma each_bdel (k : bytes) : P (BDel k) → each_M P (bdel k).
Proof. intros Hk db y b [_ ->]%bdel_Ok. by repeat constructor. Qed.
Lemma each_try {A} (m : M A) : each_M P m → each_M P (try m).
Proof.
  intros Hm db x b E. unfold try in E. destruct (m db) as [[y b']|] eqn:Em; injection E as _ <-;
    [by eapply Hm|constructor].
Qed.
Lemma each_writes {A} (ts : list byte) (m : M A) :
  writes_M ts m → (∀ o t, tag (bop_key o) = Some t → t ∈ ts → P o) → each_M P m.
Proof.
  intros Hw Hn db x b E. eapply Forall_impl; [by eapply Hw|].
  intros o (t & Ht & Hin). by eapply Hn.
Qed.
End each.

Create HintDb rota_each discriminated.
#[export] Hint Resolve each_ret each_gets each_reads each_fail : rota_each.

(** A write of a row of a known table. *)
Ltac each_op := cbn; repeat split; by intros [=].
Ltac each :=
  repeat first
    [ solve [auto 2 with rota_each]
    | apply each_bind; [|intros ?]
    | apply each_try
    | apply each_bset; solve [each_op]
    | apply each_bdel; solve [each_op]
    | match goal with
      | |- each_M _ (match ?x with _ => _ end) => destruct x
      | |- each_M _ (when _ _) => unfold when
      | |- each_M _ (putProto _ _) => unfold putProto
      | |- each_M _ (addTimer _ _ _ _) => unfold addTimer
      | |- each_M _ (delTimer _ _ _) => unfold delTimer
      | |- each_M _ (let _ := _ in _) => cbv zeta
      end ].
