(* ===== verification/Structure.v ===== *)
(** * Totality and frames of the handlers

    Every handler of a settling, timer or workflow command returns a result on
    every store (only a row that does not decode can make a scan fail), and
    writes only to the tables listed here. *)

From S2P Require Import Prelude Keys Data Store Backoff Publish Workflow Broker Control Timers Reason.

Section structure.
Context {PC : PayloadCodec}.

(** ** Totality *)
Lemma total_publishOne c gm : total_M (publishOne c gm).
Proof. unfold publishOne. structural. Qed.
Lemma total_publishReady l g p h now : total_M (publishReady l g p h now).
Proof. unfold publishReady. structural. Qed.
Lemma total_recordDedup c id : total_M (recordDedup c id).
Proof. unfold recordDedup. structural. Qed.
#[local] Hint Resolve total_publishOne total_publishReady total_recordDedup : rota_struct.
Lemma total_applyPublish c : total_M (applyPublish c).
Proof. unfold applyPublish. structural. Qed.

Lemma total_dispatchWorkflowTask run : total_M (dispatchWorkflowTask run).
Proof. unfold dispatchWorkflowTask. structural. Qed.
#[local] Hint Resolve total_dispatchWorkflowTask : rota_struct.
Lemma total_advanceRun r s now run : total_M (advanceRun r s now run).
Proof. unfold advanceRun. structural. Qed.
#[local] Hint Resolve total_advanceRun : rota_struct.
Lemma total_recordActivityTerminal r s f res now : total_M (recordActivityTerminal r s f res now).
Proof. unfold recordActivityTerminal. structural. Qed.
Lemma total_appendExternalEvent r t a now : total_M (appendExternalEvent r t a now).
Proof. unfold appendExternalEvent. structural. Qed.
Lemma total_createRun w t i p now : total_M (createRun w t i p now).
Proof. unfold createRun, nextRunID. structural. Qed.
Lemma total_dispatchActivity r e a : total_M (dispatchActivity r e a).
Proof. unfold dispatchActivity. structural. Qed.
Lemma total_armWFTimer r e a : total_M (armWFTimer r e a).
Proof. unfold armWFTimer. structural. Qed.
#[local] Hint Resolve total_recordActivityTerminal total_appendExternalEvent total_createRun
  total_dispatchActivity total_armWFTimer : rota_struct.
Lemma total_appendEvents c evs n run : total_M (appendEvents c evs n run).
Proof.
  revert n run. induction evs as [|e evs IH]; intros n run; simpl; [structural|].
  unfold appendEffect. structural.
Qed.
#[local] Hint Resolve total_appendEvents : rota_struct.
Lemma total_applyWFAppendEvents c : total_M (applyWFAppendEvents c).
Proof. unfold applyWFAppendEvents. structural. Qed.

Lemma total_deleteLeaseToken l : total_M (deleteLeaseToken l).
Proof. unfold deleteLeaseToken. structural. Qed.
Lemma total_makeReady m gm r now : total_M (makeReady m gm r now).
Proof. unfold makeReady. structural. Qed.
Lemma total_deadLetter m r h ts : total_M (deadLetter m r h ts).
Proof. unfold deadLetter. structural. Qed.
#[local] Hint Resolve total_deleteLeaseToken total_makeReady total_deadLetter : rota_struct.
Lemma total_applyAck c : total_M (applyAck c).
Proof. unfold applyAck. structural. Qed.
Lemma total_applyNack c : total_M (applyNack c).
Proof. unfold applyNack. structural. Qed.
Lemma total_applyExtend c : total_M (applyExtend c).
Proof. unfold applyExtend. structural. Qed.
Lemma total_applyFireTimer c : total_M (applyFireTimer c).
Proof.
  unfold applyFireTimer, fireKind, fireReadyAt, fireLeaseDeadline, expireLease, fireLeaseMaxLife,
    fireWFTimer, recordTimerFired, fireMsgExpiry, fireDedupExpiry. structural.
Qed.

(** ** Frames *)
Definition wf_tags : list byte :=
  [tagWFRun; tagWFHistory; tagWFActivityDn; tagMessage; tagGroupMeta].
Lemma writes_publishReady l g p h now : writes_M wf_tags (publishReady l g p h now).
Proof. unfold publishReady. structural. Qed.
#[local] Hint Resolve writes_publishReady : rota_struct.
Lemma writes_advanceRun r s now run : writes_M wf_tags (advanceRun r s now run).
Proof. unfold advanceRun, dispatchWorkflowTask. structural. Qed.
#[local] Hint Resolve writes_advanceRun : rota_struct.
Lemma writes_recordActivityTerminal r s f res now :
  writes_M wf_tags (recordActivityTerminal r s f res now).
Proof. unfold recordActivityTerminal. structural. Qed.
Lemma writes_appendExternalEvent r t a now : writes_M wf_tags (appendExternalEvent r t a now).
Proof. unfold appendExternalEvent. structural. Qed.
End structure.
