(* ===== verification/Accounting.v ===== *)
(** * The accounting invariant of the broker

    The counters of a group's meta row are exactly the numbers of its messages
    in each state, ids are below the group's sequence, and leases and leased
    messages point at each other.  [Inv n db] states this with a bound [n] on
    the sequences and the lease counter, so that [uint64] arithmetic does not
    wrap; a command raises the bound by the number of messages it publishes
    (at least 1). *)

From S2P Require Import Prelude Keys Data Store Backoff Publish Workflow Broker Control Reason.

(** ** Row-wise well-formedness *)
Definition live_state (st : MessageState) : bool :=
  match st with READY | DELAYED | LEASED => true | _ => false end.

Definition row_wf (k : bytes) (v : value) : Prop :=
  value_typed k v ∧
  match v with
  | VMessage m => k = MessageKey m.(m_Lane) m.(m_GroupId) m.(m_MsgId) ∧
                  short m.(m_Lane) ∧ short m.(m_GroupId) ∧ u64 m.(m_MsgId) ∧
                  live_state m.(m_State) = true
  | VGroupMeta gm => k = GroupMetaKey gm.(gm_Lane) gm.(gm_GroupId) ∧
                     short gm.(gm_Lane) ∧ short gm.(gm_GroupId)
  | VLease l => k = LeaseKey l.(ls_LeaseId) ∧ u64 l.(ls_LeaseId) ∧
                short l.(ls_Lane) ∧ short l.(ls_GroupId) ∧ u64 l.(ls_MsgId)
  | VCron c => short c.(cs_Lane) ∧ short c.(cs_GroupID)
  | VRun r => short (WorkflowLanePrefix ++ r.(run_WorkflowType)) ∧ short (runGroup r.(run_RunId))
  | _ => True
  end.
Definition rows_wf (db : store) : Prop := ∀ k v, db !! k = Some v → row_wf k v.

(** ** Counting the messages of a group *)
Definition mstate (v : value) : option MessageState :=
  match v with VMessage m => Some m.(m_State) | _ => None end.
Definition in_state (l g : bytes) (st : MessageState) (kv : bytes * value) : Prop :=
  has_prefix (MessagePrefix l g) kv.1 = true ∧ mstate kv.2 = Some st.
#[export] Instance in_state_dec l g st kv : Decision (in_state l g st kv).
Proof. unfold in_state. apply _. Defined.
Definition cnt (l g : bytes) (st : MessageState) (db : store) : N :=
  N.of_nat (size (filter (in_state l g st) db)).

Definition next_lease (db : store) : N :=
  match GetRaw (MetaKey (bs "next_lease_id")) db with Some v => beU64 v | None => 1 end.

Definition group_ok (n : N) (l g : bytes) (db : store) : Prop :=
  match (GetProto (GroupMetaKey l g) db : option GroupMeta) with
  | None => ∀ i, u64 i → GetProto (A:=Message) (MessageKey l g i) db = None
  | Some gm =>
      gm.(gm_ReadyCount) = cnt l g READY db ∧
      gm.(gm_DelayedCount) = cnt l g DELAYED db ∧
      gm.(gm_InflightCount) = cnt l g LEASED db ∧
      gm.(gm_TotalCount) = gm.(gm_ReadyCount) + gm.(gm_DelayedCount) + gm.(gm_InflightCount) ∧
      gm.(gm_TotalCount) < gm.(gm_NextSeq) ∧ gm.(gm_NextSeq) ≤ n ∧
      ∀ i m, u64 i → GetProto (A:=Message) (MessageKey l g i) db = Some m →
             1 ≤ i ∧ i < gm.(gm_NextSeq)
  end.

Record Inv (n : N) (db : store) : Prop := {
  inv_n : n < two64;
  inv_rows : rows_wf db;
  inv_group l g : short l → short g → group_ok n l g db;
  (** A lease points at a message leased under it. *)
  inv_lease id ls : u64 id → GetProto (A:=Lease) (LeaseKey id) db = Some ls →
    id < next_lease db ∧ 1 ≤ id ∧
    ∃ m, GetProto (MessageKey ls.(ls_Lane) ls.(ls_GroupId) ls.(ls_MsgId)) db = Some m ∧
         leased_by id m = true;
  (** A leased message is under a lease that points at it. *)
  inv_leased l g i m : short l → short g → u64 i →
    GetProto (A:=Message) (MessageKey l g i) db = Some m → m.(m_State) = LEASED →
    u64 m.(m_CurLease) ∧
    ∃ ls, GetProto (A:=Lease) (LeaseKey m.(m_CurLease)) db = Some ls ∧
          ls.(ls_Lane) = l ∧ ls.(ls_GroupId) = g ∧ ls.(ls_MsgId) = i;
  inv_next : 1 ≤ next_lease db ∧ next_lease db ≤ n;
}.

(** ** Prefixes and keys *)
Lemma MessageKey_prefix l g i : has_prefix (MessagePrefix l g) (MessageKey l g i) = true.
Proof.
  apply has_prefix_spec. exists (u64be i). unfold MessageKey, MessagePrefix.
  by rewrite <-app_comm_cons, <-app_assoc.
Qed.
Lemma MessagePrefix_inv l g l' g' i :
  short l → short g → short l' → short g' →
  has_prefix (MessagePrefix l g) (MessageKey l' g' i) = true → l = l' ∧ g = g'.
Proof.
  intros ???? [x E]%has_prefix_spec. unfold MessagePrefix, MessageKey in E.
  rewrite <-app_comm_cons, <-app_assoc in E. apply key_tail in E.
  apply lp_app_inj in E as [-> E]; [|done..]. by apply lp_app_inj in E as [-> E].
Qed.

Lemma message_row l g i db m :
  rows_wf db → short l → short g → u64 i → GetProto (MessageKey l g i) db = Some m →
  m.(m_Lane) = l ∧ m.(m_GroupId) = g ∧ m.(m_MsgId) = i ∧ live_state m.(m_State) = true.
Proof.
  intros Hwf ??? E%GetProto_row. apply Hwf in E as (_ & E & ? & ? & ? & ?).
  apply MessageKey_inj in E as (<- & <- & <-); done.
Qed.
Lemma group_row l g db gm :
  rows_wf db → short l → short g → GetProto (GroupMetaKey l g) db = Some gm →
  gm.(gm_Lane) = l ∧ gm.(gm_GroupId) = g.
Proof.
  intros Hwf ?? E%GetProto_row. apply Hwf in E as (_ & E & ? & ?).
  by apply GroupMetaKey_inj in E as (<- & <-).
Qed.
Lemma lease_row id db ls :
  rows_wf db → u64 id → GetProto (LeaseKey id) db = Some ls →
  ls.(ls_LeaseId) = id ∧ short ls.(ls_Lane) ∧ short ls.(ls_GroupId) ∧ u64 ls.(ls_MsgId).
Proof.
  intros Hwf ? E%GetProto_row. apply Hwf in E as (_ & E & ? & ? & ? & ?).
  by apply LeaseKey_inj in E as <-.
Qed.

(** ** The counters *)
Definition ind (st : MessageState) (o : option Message) : N :=
  match o with Some m => if decide (m.(m_State) = st) then 1 else 0 | None => 0 end.

(** The contribution of one key to the count. *)
Definition contrib (l g : bytes) (st : MessageState) (k : bytes) (o : option value) : N :=
  match o with
  | Some v => if decide (in_state l g st (k, v)) then 1 else 0
  | None => 0
  end.

Lemma cnt_split l g st k db :
  cnt l g st db = cnt l g st (delete k db) + contrib l g st k (db !! k).
Proof.
  unfold cnt, contrib. rewrite map_filter_delete, map_size_delete, map_lookup_filter.
  destruct (db !! k) as [v|] eqn:E; simpl; [|unfold id; lia].
  destruct (decide (in_state l g st (k, v))) as [HP|HP].
  - rewrite option_guard_True by done. simpl.
    assert (size (filter (in_state l g st) db) ≠ 0%nat) as Hne; [|lia].
    intros E0%map_size_empty_inv. rewrite map_empty in E0. specialize (E0 k).
    rewrite map_lookup_filter, E in E0. simpl in E0. by rewrite option_guard_True in E0.
  - rewrite option_guard_False by done. simpl. unfold id. lia.
Qed.

(** Two stores that agree on a group's rows count the same messages. *)
Lemma cnt_ext l g st db db' :
  (∀ k, has_prefix (MessagePrefix l g) k = true → db !! k = db' !! k) →
  cnt l g st db = cnt l g st db'.
Proof.
  intros Heq. unfold cnt. do 2 f_equal. apply map_filter_strong_ext_1. intros k v.
  unfold in_state. simpl. split; intros [[Hp ?] E]; (split; [done|]).
  - by rewrite <-Heq.
  - by rewrite Heq.
Qed.

(** One message changes. *)
Lemma cnt_update l g st k db db' :
  (∀ k', k' ≠ k → has_prefix (MessagePrefix l g) k' = true → db !! k' = db' !! k') →
  cnt l g st db' + contrib l g st k (db !! k) = cnt l g st db + contrib l g st k (db' !! k).
Proof.
  intros Heq. rewrite (cnt_split l g st k db), (cnt_split l g st k db').
  assert (cnt l g st (delete k db) = cnt l g st (delete k db')) as ->; [|lia].
  apply cnt_ext. intros k' Hp. destruct (decide (k' = k)) as [->|Hne].
  - by rewrite !lookup_delete_eq.
  - rewrite !lookup_delete_ne by done. by apply Heq.
Qed.

Lemma contrib_message l g st i db :
  rows_wf db →
  contrib l g st (MessageKey l g i) (db !! MessageKey l g i) =
  ind st (GetProto (MessageKey l g i) db).
Proof.
  intros Hwf. unfold contrib, ind, GetProto.
  destruct (db !! MessageKey l g i) as [v|] eqn:E; simpl; [|done].
  apply Hwf in E as [Ht _].
  destruct v; try (by destruct Ht). simpl.
  case_decide as H1; case_decide as H2; try done.
  - by destruct H1 as [_ [= ?]].
  - destruct H1. split; [apply MessageKey_prefix|]. simpl. by f_equal.
Qed.

(** ** Group transitions *)
Implicit Types (db : store) (n : N) (m : Message) (gm : GroupMeta).

(** The counters of [gn] account for message [i] going from [mo] to [mn] in a
    group whose counters were those of [go]. *)
Definition gm_trans (n i : N) (mo mn : option Message) (go gn : option GroupMeta) : Prop :=
  match gn with
  | None => go = None ∧ mn = None
  | Some gn =>
      let g0 := or_zero go in
      gn.(gm_ReadyCount) + ind READY mo = g0.(gm_ReadyCount) + ind READY mn ∧
      gn.(gm_DelayedCount) + ind DELAYED mo = g0.(gm_DelayedCount) + ind DELAYED mn ∧
      gn.(gm_InflightCount) + ind LEASED mo = g0.(gm_InflightCount) + ind LEASED mn ∧
      gn.(gm_TotalCount) = gn.(gm_ReadyCount) + gn.(gm_DelayedCount) + gn.(gm_InflightCount) ∧
      gn.(gm_TotalCount) < gn.(gm_NextSeq) ∧
      g0.(gm_NextSeq) ≤ gn.(gm_NextSeq) ∧ gn.(gm_NextSeq) ≤ n ∧
      (mn ≠ None → 1 ≤ i ∧ i < gn.(gm_NextSeq))
  end.

Lemma MessageKey_row k db v :
  rows_wf db → db !! k = Some v → tag k = Some tagMessage →
  ∃ l g i, short l ∧ short g ∧ u64 i ∧ k = MessageKey l g i.
Proof.
  intros Hwf E Ht. apply Hwf in E as [Hty H]. destruct k as [|t k]; [done|].
  injection Ht as ->. destruct v; try (by destruct Hty). destruct H as (-> & ? & ? & ? & _). eauto 10.
Qed.

Lemma prefix_tag l g k : has_prefix (MessagePrefix l g) k = true → tag k = Some tagMessage.
Proof. by intros [x ->]%has_prefix_spec. Qed.

(** No message, no count. *)
Lemma cnt_empty l g st db :
  rows_wf db → short l → short g →
  (∀ i, u64 i → GetProto (A:=Message) (MessageKey l g i) db = None) → cnt l g st db = 0.
Proof.
  intros Hwf Hl Hg Hno. unfold cnt.
  assert (filter (in_state l g st) db = ∅) as ->; [|by rewrite map_size_empty].
  apply map_empty. intros k. apply map_lookup_filter_None. right. intros v E [Hp Hs].
  simpl in *. apply prefix_tag in Hp as Ht.
  destruct (MessageKey_row _ _ _ Hwf E Ht) as (l' & g' & i & ? & ? & ? & ->).
  apply MessagePrefix_inv in Hp as [<- <-]; [|done..].
  destruct v; try done. assert (GetProto (MessageKey l g i) db = Some m) as E'.
  { by apply GetProto_row. } by rewrite Hno in E'.
Qed.

Lemma cnt_zero_of_absent_group n l g st db :
  rows_wf db → short l → short g → group_ok n l g db →
  GetProto (A:=GroupMeta) (GroupMetaKey l g) db = None → cnt l g st db = 0.
Proof.
  intros Hwf Hl Hg Hok E. unfold group_ok in Hok. rewrite E in Hok. by apply cnt_empty.
Qed.

Lemma group_ok_frame n n' l g db db' :
  n ≤ n' → group_ok n l g db →
  (∀ k, has_prefix (MessagePrefix l g) k = true → db' !! k = db !! k) →
  db' !! GroupMetaKey l g = db !! GroupMetaKey l g → group_ok n' l g db'.
Proof.
  intros Hn Hok Hm Hg. unfold group_ok in *.
  rewrite (GetProto_ext _ _ _ Hg). destruct (GetProto (GroupMetaKey l g) db) as [gm|].
  - rewrite !(cnt_ext l g _ db' db) by done.
    destruct Hok as (?&?&?&?&?&?&Hid). split_and!; try done; [lia|].
    intros i m Hi E. apply (Hid i m Hi). rewrite <-E. apply GetProto_ext. symmetry.
    apply Hm, MessageKey_prefix.
  - intros i Hi. rewrite <-(Hok i Hi). apply GetProto_ext, Hm, MessageKey_prefix.
Qed.

Definition group_tags (k : bytes) : Prop := tag k = Some tagMessage ∨ tag k = Some tagGroupMeta.

(** One message of one group changes, with its meta: every group stays right. *)
Lemma group_step n n' l g i db db' :
  (∀ l g, short l → short g → group_ok n l g db) → rows_wf db → rows_wf db' →
  short l → short g → u64 i → n ≤ n' →
  (∀ k, group_tags k → k ≠ MessageKey l g i → k ≠ GroupMetaKey l g → db' !! k = db !! k) →
  gm_trans n' i (GetProto (MessageKey l g i) db) (GetProto (MessageKey l g i) db')
    (GetProto (GroupMetaKey l g) db) (GetProto (GroupMetaKey l g) db') →
  ∀ l g, short l → short g → group_ok n' l g db'.
Proof.
  intros Hok Hwf Hwf' Hl Hg Hi Hn Hfr Htr l' g' Hl' Hg'.
  destruct (decide ((l', g') = (l, g))) as [[= -> ->]|Hne].
  2:{ apply (group_ok_frame n n' l' g' db); [done|by apply Hok|..].
      - intros k Hp. apply Hfr; [left; by eapply prefix_tag| |].
        + intros ->. apply MessagePrefix_inv in Hp as [-> ->]; [|done..]. by destruct Hne.
        + intros ->. by apply prefix_tag in Hp.
      - apply Hfr; [by right|by key_ne|].
        intros E. apply GroupMetaKey_inj in E as [-> ->]; [|done..]. by destruct Hne. }
  assert (Hcnt : ∀ st, cnt l g st db' + ind st (GetProto (MessageKey l g i) db) =
                       cnt l g st db + ind st (GetProto (MessageKey l g i) db')).
  { intros st. rewrite <-!contrib_message by done. apply cnt_update.
    intros k Hk Hp. symmetry. apply Hfr; [left; by eapply prefix_tag|done|].
    intros ->. by apply prefix_tag in Hp. }
  assert (Hoth : ∀ j, u64 j → j ≠ i →
    @GetProto Message _ (MessageKey l g j) db' = GetProto (MessageKey l g j) db).
  { intros j Hj Hji. apply GetProto_ext, Hfr; [by left| |by key_ne].
    intros E. by apply MessageKey_inj in E as (_ & _ & ?). }
  specialize (Hok l g Hl' Hg').
  pose proof (λ st, cnt_zero_of_absent_group n l g st db Hwf Hl Hg Hok) as Hz.
  unfold group_ok in *. unfold gm_trans in Htr.
  destruct (GetProto (GroupMetaKey l g) db') as [gn|].
  - assert (Hold : (or_zero (GetProto (GroupMetaKey l g) db)).(gm_ReadyCount) = cnt l g READY db ∧
      (or_zero (GetProto (GroupMetaKey l g) db)).(gm_DelayedCount) = cnt l g DELAYED db ∧
      (or_zero (GetProto (GroupMetaKey l g) db)).(gm_InflightCount) = cnt l g LEASED db).
    { destruct (GetProto (GroupMetaKey l g) db) as [g0|]; simpl; [naive_solver|].
      by rewrite !Hz. }
    destruct Hold as (Hr & Hd & Hf).
    destruct Htr as (Tr & Td & Tf & Tt & Tn & Tm & Tn' & Ti).
    pose proof (Hcnt READY). pose proof (Hcnt DELAYED). pose proof (Hcnt LEASED).
    split_and!; [lia..|done|lia|done|].
    intros j m Hj E. destruct (decide (j = i)) as [->|Hji]; [apply Ti; congruence|].
    rewrite Hoth in E by done.
    destruct (GetProto (GroupMetaKey l g) db) as [g0|]; simpl in *.
    + destruct Hok as (_&_&_&_&_&_&Hid). specialize (Hid j m Hj E). lia.
    + by rewrite Hok in E.
  - destruct Htr as [Hgo Hmn]. rewrite Hgo in Hok. intros j Hj.
    destruct (decide (j = i)) as [->|Hji]; [done|]. rewrite Hoth by done. by apply Hok.
Qed.

(** What a group's invariant says of one of its messages. *)
Lemma group_info n l g i db m :
  group_ok n l g db → rows_wf db → short l → short g → u64 i →
  GetProto (MessageKey l g i) db = Some m →
  ∃ gm, GetProto (GroupMetaKey l g) db = Some gm ∧
    1 ≤ i ∧ i < gm.(gm_NextSeq) ∧ gm.(gm_NextSeq) ≤ n ∧
    ind READY (Some m) ≤ gm.(gm_ReadyCount) ∧ ind DELAYED (Some m) ≤ gm.(gm_DelayedCount) ∧
    ind LEASED (Some m) ≤ gm.(gm_InflightCount) ∧
    gm.(gm_TotalCount) = gm.(gm_ReadyCount) + gm.(gm_DelayedCount) + gm.(gm_InflightCount) ∧
    gm.(gm_TotalCount) < gm.(gm_NextSeq).
Proof.
  intros Hok Hwf Hl Hg Hi E. unfold group_ok in Hok.
  destruct (GetProto (GroupMetaKey l g) db) as [gm|]; [|by rewrite Hok in E].
  exists gm. split; [done|]. destruct Hok as (Hr & Hd & Hf & Ht & Hlt & Hle & Hid).
  destruct (Hid i m Hi E) as [? ?].
  assert (Hge : ∀ st, ind st (Some m) ≤ cnt l g st db).
  { intros st. rewrite (cnt_split l g st (MessageKey l g i)), contrib_message, E by done. lia. }
  pose proof (Hge READY). pose proof (Hge DELAYED). pose proof (Hge LEASED).
  split_and!; try done; lia.
Qed.

Lemma group_bounds n l g db gm :
  group_ok n l g db → GetProto (GroupMetaKey l g) db = Some gm →
  gm.(gm_TotalCount) = gm.(gm_ReadyCount) + gm.(gm_DelayedCount) + gm.(gm_InflightCount) ∧
  gm.(gm_TotalCount) < gm.(gm_NextSeq) ∧ gm.(gm_NextSeq) ≤ n ∧
  (∀ j, u64 j → gm.(gm_NextSeq) ≤ j → GetProto (A:=Message) (MessageKey l g j) db = None).
Proof.
  unfold group_ok. intros Hok E. rewrite E in Hok. destruct Hok as (?&?&?&?&?&?&Hid).
  split_and!; try done. intros j Hj Hle.
  destruct (GetProto (MessageKey l g j) db) as [m|] eqn:Em; [|done].
  destruct (Hid j m Hj Em). lia.
Qed.

(** ** Leases *)
Definition points (ls : Lease) (l g : bytes) (i : N) : Prop :=
  ls.(ls_Lane) = l ∧ ls.(ls_GroupId) = g ∧ ls.(ls_MsgId) = i.

Definition lease_ok (db : store) : Prop :=
  (∀ id ls, u64 id → GetProto (A:=Lease) (LeaseKey id) db = Some ls →
    id < next_lease db ∧ 1 ≤ id ∧
    ∃ m, GetProto (MessageKey ls.(ls_Lane) ls.(ls_GroupId) ls.(ls_MsgId)) db = Some m ∧
         leased_by id m = true) ∧
  (∀ l g i m, short l → short g → u64 i →
    GetProto (A:=Message) (MessageKey l g i) db = Some m → m.(m_State) = LEASED →
    u64 m.(m_CurLease) ∧
    ∃ ls, GetProto (A:=Lease) (LeaseKey m.(m_CurLease)) db = Some ls ∧ points ls l g i).

Lemma Inv_lease_ok n db : Inv n db → lease_ok db.
Proof. intros H. split; [apply (inv_lease n db H)|apply (inv_leased n db H)]. Qed.

Lemma leased_by_true id m : leased_by id m = true ↔ m.(m_State) = LEASED ∧ m.(m_CurLease) = id.
Proof. unfold leased_by. by rewrite andb_true_iff, bool_decide_eq_true, N.eqb_eq. Qed.

(** One lease and one message change together. *)
Lemma lease_step id l g i db db' :
  lease_ok db → rows_wf db → rows_wf db' → short l → short g → u64 i → u64 id →
  next_lease db ≤ next_lease db' →
  (∀ id', u64 id' → id' ≠ id →
    @GetProto Lease _ (LeaseKey id') db' = GetProto (LeaseKey id') db) →
  (∀ l' g' j, short l' → short g' → u64 j → (l', g', j) ≠ (l, g, i) →
    @GetProto Message _ (MessageKey l' g' j) db' = GetProto (MessageKey l' g' j) db) →
  (∀ m, GetProto (MessageKey l g i) db = Some m → m.(m_State) = LEASED → m.(m_CurLease) = id) →
  (∀ ls, GetProto (LeaseKey id) db = Some ls → points ls l g i) →
  (∀ ls, GetProto (LeaseKey id) db' = Some ls →
    points ls l g i ∧ id < next_lease db' ∧ 1 ≤ id ∧
    ∃ m, GetProto (MessageKey l g i) db' = Some m ∧ leased_by id m = true) →
  (∀ m, GetProto (MessageKey l g i) db' = Some m → m.(m_State) = LEASED →
    m.(m_CurLease) = id ∧ ∃ ls : Lease, GetProto (LeaseKey id) db' = Some ls) →
  lease_ok db'.
Proof.
  intros [Hls Hm] Hwf Hwf' Hl Hg Hi Hid Hnx Hol Hom Hcur Hpt Hls' Hm'. split.
  - intros id' ls Hid' E. destruct (decide (id' = id)) as [->|Hne].
    + destruct (Hls' ls E) as ((<- & <- & <-) & ? & ? & ?). auto.
    + rewrite Hol in E by done. destruct (Hls id' ls Hid' E) as (? & ? & m & Em & Hb).
      split; [lia|]. split; [done|]. exists m. split; [|done].
      destruct (lease_row id' db ls Hwf Hid' E) as (_ & ? & ? & ?).
      rewrite Hom; [done..|]. intros [= E1 E2 E3]. rewrite E1, E2, E3 in Em.
      apply leased_by_true in Hb as [Hst Hc]. by rewrite (Hcur m Em Hst) in Hc.
  - intros l' g' j m Hl' Hg' Hj E Hst. destruct (decide ((l', g', j) = (l, g, i))) as [[= -> -> ->]|Hne].
    + destruct (Hm' m E Hst) as (-> & ls & E'). split; [done|]. exists ls. split; [done|].
      by destruct (Hls' ls E').
    + rewrite Hom in E by done. destruct (Hm _ _ _ _ Hl' Hg' Hj E Hst) as (Hu & ls & El & Hp).
      split; [done|]. exists ls. split; [|done].
      destruct (decide (m.(m_CurLease) = id)) as [Hc|Hc]; [|by rewrite Hol].
      rewrite Hc in El. destruct (Hpt ls El) as (<- & <- & <-).
      destruct Hp as (<- & <- & <-). by destruct Hne.
Qed.

(** No lease and no leased message is involved. *)
Lemma lease_frame l g i db db' :
  lease_ok db → rows_wf db → short l → short g → u64 i →
  next_lease db' = next_lease db →
  (∀ id, u64 id → @GetProto Lease _ (LeaseKey id) db' = GetProto (LeaseKey id) db) →
  (∀ l' g' j, short l' → short g' → u64 j → (l', g', j) ≠ (l, g, i) →
    @GetProto Message _ (MessageKey l' g' j) db' = GetProto (MessageKey l' g' j) db) →
  (∀ m, GetProto (MessageKey l g i) db = Some m → m.(m_State) ≠ LEASED) →
  (∀ m, GetProto (MessageKey l g i) db' = Some m → m.(m_State) ≠ LEASED) →
  lease_ok db'.
Proof.
  intros [Hls Hm] Hwf Hl Hg Hi Hnx Hol Hom Hb Ha. split.
  - intros id ls Hid E. rewrite Hol in E by done. rewrite Hnx.
    destruct (Hls id ls Hid E) as (? & ? & m & Em & Hby). split; [done|]. split; [done|].
    exists m. split; [|done]. destruct (lease_row id db ls Hwf Hid E) as (_ & ? & ? & ?).
    rewrite Hom; [done..|]. intros [= E1 E2 E3]. rewrite E1, E2, E3 in Em.
    apply leased_by_true in Hby as [Hst _]. by apply Hb in Em.
  - intros l' g' j m Hl' Hg' Hj E Hst.
    destruct (decide ((l', g', j) = (l, g, i))) as [[= -> -> ->]|Hne]; [by apply Ha in E|].
    rewrite Hom in E by done. destruct (Hm _ _ _ _ Hl' Hg' Hj E Hst) as (Hu & ls & El & Hp).
    split; [done|]. exists ls. by rewrite Hol.
Qed.

(** ** Assembling the invariant *)
Definition broker_tags (k : bytes) : Prop :=
  group_tags k ∨ tag k = Some tagLease ∨ k = MetaKey (bs "next_lease_id").

(** The frame of a command that works on one message: its row, its group's
    meta, and possibly one lease and the lease counter. *)
Definition frame1 (l g : bytes) (i : N) (db db' : store) : Prop :=
  ∀ k, group_tags k → k ≠ MessageKey l g i → k ≠ GroupMetaKey l g → db' !! k = db !! k.

Lemma frame1_message l g i db db' l' g' j :
  frame1 l g i db db' → short l → short g → u64 i → short l' → short g' → u64 j →
  (l', g', j) ≠ (l, g, i) →
  @GetProto Message _ (MessageKey l' g' j) db' = GetProto (MessageKey l' g' j) db.
Proof.
  intros Hf ?????? Hne. apply GetProto_ext, Hf; [by left| |by key_ne].
  intros E. apply MessageKey_inj in E as (-> & -> & ->); [|done..]. by destruct Hne.
Qed.

Lemma Inv_step n n' l g i db db' :
  Inv n db → n ≤ n' → n' < two64 → rows_wf db' → short l → short g → u64 i →
  frame1 l g i db db' →
  gm_trans n' i (GetProto (MessageKey l g i) db) (GetProto (MessageKey l g i) db')
    (GetProto (GroupMetaKey l g) db) (GetProto (GroupMetaKey l g) db') →
  lease_ok db' → 1 ≤ next_lease db' ∧ next_lease db' ≤ n' → Inv n' db'.
Proof.
  intros H Hn Hn' Hwf' Hl Hg Hi Hf Htr [Hls Hm] Hnx. destruct H as [? Hwf Hgr _ _ _].
  constructor; [done|done| |done|done|done].
  intros l' g' ??. by apply (group_step n n' l g i db db').
Qed.

Lemma rows_wf_commit db b :
  rows_wf db → Forall (λ o, match o with BSet k v => row_wf k v | BDel _ => True end) b →
  rows_wf (commit b db).
Proof.
  intros Hdb Hb. revert db Hdb. induction Hb as [|o b Ho Hb IH]; intros db Hdb; [done|].
  rewrite commit_cons. apply IH. destruct o as [k v|k]; intros k' v'; simpl; intros E.
  - apply lookup_insert_Some in E as [[<- <-]|[_ E]]; [done|by apply Hdb].
  - apply lookup_delete_Some in E as [_ E]. by apply Hdb.
Qed.

(** A command that writes no broker row at all. *)
Lemma Inv_frame n db db' :
  Inv n db → rows_wf db' → (∀ k, broker_tags k → db' !! k = db !! k) → Inv n db'.
Proof.
  intros [Hn Hwf Hgr Hls Hm Hnx] Hwf' Hf.
  assert (Hnl : next_lease db' = next_lease db).
  { unfold next_lease, GetRaw. erewrite GetProto_ext; [done|]. apply Hf. by do 2 right. }
  assert (Hl : ∀ id, @GetProto Lease _ (LeaseKey id) db' = GetProto (LeaseKey id) db).
  { intros id. apply GetProto_ext, Hf. by right; left. }
  assert (Hmm : ∀ l g i, @GetProto Message _ (MessageKey l g i) db' = GetProto (MessageKey l g i) db).
  { intros l g i. apply GetProto_ext, Hf. by left; left. }
  constructor; rewrite ?Hnl; [done|done| | | |done].
  - intros l g ? ?. apply (group_ok_frame n n l g db); [done|by apply Hgr|..].
    + intros k Hp. apply Hf. left; left. by eapply prefix_tag.
    + apply Hf. by left; right.
  - intros id ls Hid. rewrite Hl. intros E. destruct (Hls id ls Hid E) as (? & ? & m & ? & ?).
    split; [done|]. split; [done|]. exists m. by rewrite Hmm.
  - intros l g i m ? ? ?. rewrite Hmm. intros E Hst.
    destruct (Hm l g i m) as (? & ls & ? & ?); [done..|]. split; [done|]. exists ls. by rewrite Hl.
Qed.
