(* ===== verification/AccountingOps.v ===== *)
(** * The broker's commands preserve the accounting invariant

    Each command's batch is reduced to its [core], the writes to the message,
    group-meta and lease tables and to the lease counter; the other writes
    (timers, dedup rows, tokens, dead letters, runs, history) leave the
    invariant alone as long as they are well-formed. *)

From S2P Require Import Prelude Keys Data Store Backoff Publish Workflow Broker Control Auth Timers Fsm Reason Accounting.

Implicit Types (db : store) (n : N) (m : Message) (gm : GroupMeta) (b : batch).

(** ** The core of a batch *)
Definition is_broker (k : bytes) : bool :=
  match k with
  | t :: _ => Ascii.eqb t tagMessage || Ascii.eqb t tagGroupMeta || Ascii.eqb t tagLease
              || bool_decide (k = MetaKey (bs "next_lease_id"))
  | [] => false
  end.
Fixpoint core b : batch :=
  match b with
  | [] => []
  | o :: b' => if is_broker (bop_key o) then o :: core b' else core b'
  end.
Definition bop_wf (o : bop) : Prop :=
  match o with BSet k v => row_wf k v | BDel _ => True end.

Lemma is_broker_spec k : is_broker k = true ↔ broker_tags k.
Proof.
  unfold is_broker, broker_tags, group_tags, tag. destruct k as [|t k].
  { split; [done|]. by intros [[?|?]|[?|?]]. }
  rewrite !orb_true_iff, !Ascii.eqb_eq, bool_decide_eq_true. simpl. naive_solver.
Qed.

Lemma core_app b1 b2 : core (b1 ++ b2) = core b1 ++ core b2.
Proof. induction b1 as [|o b1 IH]; simpl; [done|]. destruct (is_broker _); by rewrite IH. Qed.

Lemma commit_core b db k : broker_tags k → commit b db !! k = commit (core b) db !! k.
Proof.
  intros Hk. assert (∀ db1 db2, db1 !! k = db2 !! k → commit b db1 !! k = commit (core b) db2 !! k)
    as H; [|by apply H].
  induction b as [|o b IH]; intros db1 db2 E; [done|]. simpl core.
  destruct (is_broker (bop_key o)) eqn:Eb; rewrite !commit_cons; apply IH.
  - destruct o as [k' v|k']; simpl; [rewrite !lookup_insert|rewrite !lookup_delete];
      by case_decide.
  - assert (bop_key o ≠ k).
    { intros <-. apply is_broker_spec in Hk. congruence. }
    destruct o as [k' v|k']; simpl in *; [by rewrite lookup_insert_ne|by rewrite lookup_delete_ne].
Qed.

Lemma core_wf b : Forall bop_wf b → Forall bop_wf (core b).
Proof.
  induction 1 as [|o b Ho Hb IH]; simpl; [constructor|]. destruct (is_broker _); [by constructor|done].
Qed.

(** Only the core of a batch matters. *)
Lemma Inv_core n' b db :
  rows_wf db → Forall bop_wf b → (rows_wf (commit (core b) db) → Inv n' (commit (core b) db)) →
  Inv n' (commit b db).
Proof.
  intros Hwf Hb H. apply (Inv_frame n' (commit (core b) db)).
  - apply H. apply rows_wf_commit; [done|]. by apply core_wf.
  - by apply rows_wf_commit.
  - intros k Hk. by apply commit_core.
Qed.

(** A command whose batch has no core. *)
Lemma Inv_quiet n b db : Inv n db → Forall bop_wf b → core b = [] → Inv n (commit b db).
Proof.
  intros H Hb E. apply Inv_core; [by apply (inv_rows n)|done|]. by rewrite E.
Qed.

Lemma Inv_mono n n' db : Inv n db → n ≤ n' → n' < two64 → Inv n' db.
Proof.
  intros [Hn Hwf Hgr Hls Hm Hnx] Hle Hlt. constructor; [done|done| |done|done|lia].
  intros l g Hl Hg. by apply (group_ok_frame n n' l g db db); [|apply Hgr|..].
Qed.

(** ** Lookups in a concrete store *)
Ltac lk1 :=
  first
    [ rewrite GetProto_insert
    | rewrite GetProto_delete
    | rewrite GetProto_insert_ne by key_ne
    | rewrite GetProto_delete_ne by key_ne ].
Ltac lk := unfold commit; cbn [foldl apply_bop]; repeat lk1.

Ltac frame1_tac :=
  let k := fresh "k" in let Hk := fresh "Hk" in
  intros k Hk ? ?; apply commit_frame; cbn [bop_key fmap list_fmap];
  rewrite ?not_elem_of_cons; split_and!; try done;
  try apply not_elem_of_nil; by intros ->; destruct Hk as [Hk|Hk].

Lemma next_lease_ext db db' :
  db' !! MetaKey (bs "next_lease_id") = db !! MetaKey (bs "next_lease_id") →
  next_lease db' = next_lease db.
Proof. intros E. unfold next_lease, GetRaw. by rewrite (GetProto_ext _ _ _ E). Qed.

(** [row_wf] of rows the handlers write. *)
Lemma row_wf_raw k (x : bytes) : value_typed k (VRaw x) → row_wf k (VRaw x).
Proof. by split. Qed.

Lemma row_wf_timer ts kd ref e : bop_wf (BSet (TimeIndexKey ts kd ref) (VRaw (u64b e))).
Proof. by apply row_wf_raw. Qed.

Lemma row_wf_message l g i m :
  short l → short g → u64 i → m.(m_Lane) = l → m.(m_GroupId) = g → m.(m_MsgId) = i →
  live_state m.(m_State) = true → bop_wf (BSet (MessageKey l g i) (VMessage m)).
Proof. intros ??? <- <- <- ?. by repeat split. Qed.
Lemma row_wf_group l g gm :
  short l → short g → gm.(gm_Lane) = l → gm.(gm_GroupId) = g →
  bop_wf (BSet (GroupMetaKey l g) (VGroupMeta gm)).
Proof. intros ?? <- <-. by repeat split. Qed.

Lemma incr64_le n x : x + 1 ≤ n → n < two64 → incr64 x = x + 1.
Proof. intros. apply incr64_small. lia. Qed.
Lemma decr_eq x : decr x = x - 1.
Proof. unfold decr. destruct (N.ltb_spec 0 x); lia. Qed.

(** ** Publishing *)
Lemma loadGroupMeta_keys n db l g :
  Inv n db → short l → short g →
  (loadGroupMeta l g db).(gm_Lane) = l ∧ (loadGroupMeta l g db).(gm_GroupId) = g ∧
  1 ≤ (loadGroupMeta l g db).(gm_NextSeq).
Proof.
  intros H Hl Hg. unfold loadGroupMeta. destruct (GetProto (GroupMetaKey l g) db) as [gm|] eqn:E; [|done].
  destruct (group_row l g db gm (inv_rows n db H) Hl Hg E) as [-> ->].
  destruct (group_bounds n l g db gm (inv_group n db H l g Hl Hg) E) as (?&?&?&?). split_and!; [done..|lia].
Qed.

(** The counters after one more message in state [st]. *)
Definition gm_published (st : MessageState) (gm gn : GroupMeta) : Prop :=
  gn.(gm_Lane) = gm.(gm_Lane) ∧ gn.(gm_GroupId) = gm.(gm_GroupId) ∧
  gn.(gm_NextSeq) = incr64 gm.(gm_NextSeq) ∧
  gn.(gm_TotalCount) = incr64 gm.(gm_TotalCount) ∧
  gn.(gm_InflightCount) = gm.(gm_InflightCount) ∧
  gn.(gm_ReadyCount) = (if decide (st = READY) then incr64 gm.(gm_ReadyCount)
                        else gm.(gm_ReadyCount)) ∧
  gn.(gm_DelayedCount) = (if decide (st = READY) then gm.(gm_DelayedCount)
                          else incr64 gm.(gm_DelayedCount)).

Lemma publish_knobs_frame c gm :
  let gk := publish_knobs c gm in
  gk.(gm_Lane) = gm.(gm_Lane) ∧ gk.(gm_GroupId) = gm.(gm_GroupId) ∧
  gk.(gm_NextSeq) = gm.(gm_NextSeq) ∧ gk.(gm_TotalCount) = gm.(gm_TotalCount) ∧
  gk.(gm_InflightCount) = gm.(gm_InflightCount) ∧ gk.(gm_ReadyCount) = gm.(gm_ReadyCount) ∧
  gk.(gm_DelayedCount) = gm.(gm_DelayedCount).
Proof.
  unfold publish_knobs. cbv zeta.
  repeat match goal with |- context [if ?c then _ else _] => destruct c end; done.
Qed.

Lemma publishOne_core c gm db id gn b :
  short c.(p_Lane) → short c.(p_GroupID) → u64 gm.(gm_NextSeq) →
  publishOne c gm db = Ok ((id, gn), b) →
  Forall bop_wf b ∧ id = gm.(gm_NextSeq) ∧
  ∃ m, core b = [BSet (MessageKey c.(p_Lane) c.(p_GroupID) id) (VMessage m)] ∧
       (m.(m_State) = READY ∨ m.(m_State) = DELAYED) ∧ gm_published m.(m_State) gm gn.
Proof.
  intros Hl Hg Hu H. unfold publishOne in H.
  pose proof (publish_knobs_frame c gm) as (K1 & K2 & K3 & K4 & K5 & K6 & K7).
  rewrite <-K3 in Hu |- *.
  minv H.
  all: split; [|split; [done|]].
  all: try (repeat apply Forall_cons_2;
    [..|apply Forall_nil_2]; first [apply row_wf_timer | by apply row_wf_message]).
  all: eexists; split; [reflexivity|]; cbn; split; [auto|]; unfold gm_published; cbn;
    by rewrite ?K1, ?K2, ?K3, ?K4, ?K5, ?K6, ?K7.
Qed.

Lemma ind_Some st m : ind st (Some m) = if decide (m.(m_State) = st) then 1 else 0.
Proof. done. Qed.

Lemma fresh_message n db l g i :
  Inv n db → short l → short g → u64 i → (loadGroupMeta l g db).(gm_NextSeq) ≤ i →
  GetProto (A:=Message) (MessageKey l g i) db = None.
Proof.
  intros H Hl Hg Hi. unfold loadGroupMeta.
  pose proof (inv_group n db H l g Hl Hg) as Hok.
  destruct (GetProto (GroupMetaKey l g) db) as [gm|] eqn:E.
  - destruct (group_bounds n l g db gm Hok E) as (_ & _ & _ & Hf). by apply Hf.
  - intros _. unfold group_ok in Hok. rewrite E in Hok. by apply Hok.
Qed.

Lemma loadGroupMeta_bound n db l g :
  Inv n db → short l → short g → 1 ≤ n ∧ (loadGroupMeta l g db).(gm_NextSeq) ≤ n ∧
  (loadGroupMeta l g db).(gm_TotalCount) = (loadGroupMeta l g db).(gm_ReadyCount) +
    (loadGroupMeta l g db).(gm_DelayedCount) + (loadGroupMeta l g db).(gm_InflightCount) ∧
  (loadGroupMeta l g db).(gm_TotalCount) < (loadGroupMeta l g db).(gm_NextSeq).
Proof.
  intros H Hl Hg. pose proof (inv_next n db H) as Hnx. split; [lia|].
  unfold loadGroupMeta. destruct (GetProto (GroupMetaKey l g) db) as [gm|] eqn:E; simpl; [|lia].
  destruct (group_bounds n l g db gm (inv_group n db H l g Hl Hg) E) as (?&?&?&_). done.
Qed.

Lemma loadGroupMeta_or_zero l g db (f : GroupMeta → N) :
  f (gm_default l g) = 0 → f gm_zero = 0 →
  f (or_zero (GetProto (GroupMetaKey l g) db)) = f (loadGroupMeta l g db).
Proof. intros ??. unfold or_zero, loadGroupMeta. destruct (GetProto _ db); simpl; congruence. Qed.

(** A message published from the stored meta, and the meta, are written. *)
Lemma Inv_published n db l g id m gn b :
  Inv n db → n + 1 < two64 → short l → short g → Forall bop_wf b →
  id = (loadGroupMeta l g db).(gm_NextSeq) →
  m.(m_State) = READY ∨ m.(m_State) = DELAYED →
  gm_published m.(m_State) (loadGroupMeta l g db) gn →
  core b = [BSet (MessageKey l g id) (VMessage m); BSet (GroupMetaKey l g) (VGroupMeta gn)] →
  Inv (n + 1) (commit b db).
Proof.
  intros H Hn Hl Hg Hb Hid Hst Hp Hc. apply Inv_core; [by apply (inv_rows n)|done|]. rewrite Hc.
  intros Hwf'. destruct (loadGroupMeta_bound n db l g H Hl Hg) as (H1 & Hsq & Htot & Hlt).
  destruct (loadGroupMeta_keys n db l g H Hl Hg) as (_ & _ & Hsq1).
  assert (Hi : u64 id) by (unfold u64; lia).
  assert (Hfr : GetProto (A:=Message) (MessageKey l g id) db = None).
  { apply (fresh_message n); [done..|lia]. }
  assert (Hf1 : frame1 l g id db (commit [BSet (MessageKey l g id) (VMessage m);
    BSet (GroupMetaKey l g) (VGroupMeta gn)] db)) by frame1_tac.
  change (VMessage m) with (row_in m) in *. change (VGroupMeta gn) with (row_in gn) in *.
  assert (Hm' : GetProto (MessageKey l g id) (commit [BSet (MessageKey l g id) (row_in m);
    BSet (GroupMetaKey l g) (row_in gn)] db) = Some m) by (by lk).
  assert (Hnl : next_lease (commit [BSet (MessageKey l g id) (row_in m);
    BSet (GroupMetaKey l g) (row_in gn)] db) = next_lease db).
  { apply next_lease_ext. by rewrite commit_frame_tag by (by repeat constructor). }
  apply (Inv_step n _ l g id db); [done|lia|done|done|done|done|done|done| | |].
  - rewrite Hfr, Hm'. lk. unfold gm_trans. cbv zeta.
    rewrite !(loadGroupMeta_or_zero _ _ _ gm_ReadyCount), !(loadGroupMeta_or_zero _ _ _ gm_DelayedCount),
      !(loadGroupMeta_or_zero _ _ _ gm_InflightCount) by done.
    destruct Hp as (_ & _ & P1 & P2 & P3 & P4 & P5).
    assert (Hz : (or_zero (GetProto (GroupMetaKey l g) db)).(gm_NextSeq) ≤
                 (loadGroupMeta l g db).(gm_NextSeq)).
    { unfold or_zero, loadGroupMeta.
      destruct (GetProto (GroupMetaKey l g) db) as [g0|]; [reflexivity|done]. }
    rewrite (incr64_le (n + 1)) in P1, P2 by lia.
    rewrite !ind_Some. simpl ind.
    destruct Hst as [Hst|Hst]; rewrite Hst in *; simpl in P4, P5 |- *;
      rewrite (incr64_le (n + 1)) in * by lia; split_and!; first [lia|intros _; lia].
  - apply (lease_frame l g id db); [by eapply Inv_lease_ok|by apply (inv_rows n)|done..| | | |].
    + intros j Hj. by lk.
    + intros. by eapply frame1_message.
    + by rewrite Hfr.
    + rewrite Hm'. intros m' [= <-]. by destruct Hst as [-> | ->].
  - rewrite Hnl. pose proof (inv_next n db H). lia.
Qed.

(** Discharge [Forall bop_wf] of a concrete batch. *)
Ltac wf_list :=
  repeat first [ apply Forall_nil_2 | apply Forall_cons_2 | apply Forall_app_2 ];
  try first [ done | apply row_wf_timer | by apply row_wf_raw | by apply row_wf_message
            | by apply row_wf_group ].

Ltac in_batch := solve [repeat first [ apply list_elem_of_here | apply list_elem_of_further ]].

Lemma recordDedup_quiet c id db r b :
  recordDedup c id db = Ok (r, b) → Forall bop_wf b ∧ core b = [].
Proof.
  unfold recordDedup. intros H. minv H; split; [wf_list|done|wf_list|done].
Qed.

Lemma Inv_applyPublish n db c r b :
  Inv n db → n + 1 < two64 → short c.(p_Lane) → short c.(p_GroupID) →
  applyPublish c db = Ok (r, b) → Inv (n + 1) (commit b db).
Proof.
  intros H Hn Hl Hg E. unfold applyPublish in E.
  apply bind_Ok in E as (dup & b1 & b2 & E1 & E & ->).
  assert (b1 = []) as -> by (by minv E1). simpl app. clear E1.
  destruct dup as [dup|]; [minv E; by apply Inv_mono with n; [|lia|]|].
  apply bind_Ok in E as (gm & b1 & b3 & [-> ->]%gets_Ok & E & ->).
  apply bind_Ok in E as ([id gn] & b1 & b4 & E1 & E & ->).
  apply bind_Ok in E as ([] & bg & b5 & [_ ->]%putProto_Ok & E & ->).
  apply bind_Ok in E as ([] & bd & b6 & Ed & [-> ->]%ret_Ok & ->).
  destruct (loadGroupMeta_bound n db _ _ H Hl Hg) as (_ & Hsq & _).
  apply publishOne_core in E1 as (Hwf & -> & m & Hc & Hst & Hp); [|done|done|unfold u64; lia].
  destruct (loadGroupMeta_keys n db _ _ H Hl Hg) as (K1 & K2 & _).
  assert (Hd : Forall bop_wf bd ∧ core bd = []).
  { apply when_Ok in Ed as [[_ Ed]|[_ ->]]; [|done]. by apply recordDedup_quiet in Ed. }
  destruct Hd as [Hd1 Hd2]. destruct Hp as (P1 & P2 & P).
  eapply Inv_published; [done|done|exact Hl|exact Hg| |reflexivity|exact Hst|split; [done|split; [done|exact P]]|].
  - simpl. wf_list; apply row_wf_group; [done|done|congruence|congruence].
  - simpl. rewrite core_app, Hc. simpl. by rewrite app_nil_r, Hd2.
Qed.

(** ** Head of line *)
Lemma scan_message l g db k v :
  rows_wf db → short l → short g →
  (k, v) ∈ NewIter (MessagePrefix l g) (PrefixEnd (MessagePrefix l g)) db →
  ∃ i m, u64 i ∧ k = MessageKey l g i ∧ v = VMessage m ∧ m.(m_MsgId) = i ∧
         GetProto (MessageKey l g i) db = Some m.
Proof.
  intros Hwf Hl Hg [E Hin]%elem_of_NewIter.
  apply PrefixEnd_range in Hin. apply has_prefix_spec in Hin as Hp.
  destruct (MessageKey_row _ _ _ Hwf E (prefix_tag _ _ _ Hp)) as (l' & g' & i & ? & ? & Hi & ->).
  apply MessagePrefix_inv in Hp as [<- <-]; [|done..].
  destruct (Hwf _ _ E) as [Hty Hrow]. destruct v; try (by destruct Hty).
  exists i, m. destruct Hrow as (Ek & ? & ? & ? & _).
  apply MessageKey_inj in Ek as (_ & _ & <-); [|done..]. split_and!; [done..|].
  by apply GetProto_row.
Qed.

Lemma message_scan l g db i m :
  GetProto (MessageKey l g i) db = Some m →
  (MessageKey l g i, VMessage m) ∈ NewIter (MessagePrefix l g) (PrefixEnd (MessagePrefix l g)) db.
Proof.
  intros E%GetProto_row. apply elem_of_NewIter. split; [done|].
  apply PrefixEnd_range, has_prefix_spec, MessageKey_prefix.
Qed.

(** The first READY message of a list of messages. *)
Lemma firstReady_spec rows :
  Forall (λ kv : bytes * value, ∃ m, kv.2 = VMessage m) rows →
  (firstReady rows = Ok None ∧
   ∀ k m, (k, VMessage m) ∈ rows → m.(m_State) ≠ READY) ∨
  (∃ i k m, firstReady rows = Ok (Some m) ∧ rows !! i = Some (k, VMessage m) ∧
     m.(m_State) = READY ∧
     ∀ j k' m', rows !! j = Some (k', VMessage m') → m'.(m_State) = READY → (i ≤ j)%nat).
Proof.
  induction 1 as [|[k v] rows [m Hm] Hall IH]; simpl in *.
  - left. split; [done|]. intros k m Hin. by apply elem_of_nil in Hin.
  - subst v. simpl. case_bool_decide as Hst.
    + right. exists 0%nat, k, m. split_and!; [done..|]. intros. lia.
    + destruct IH as [[-> Hno]|(i & k1 & m1 & -> & Hi & Hs & Hlow)].
      * left. split; [done|]. intros k' m' [[= -> ->]|Hin]%elem_of_cons; [done|by apply Hno in Hin].
      * right. exists (S i), k1, m1. split_and!; [done..|].
        intros [|j] k' m' Hj Hs'; simpl in Hj; [by simplify_eq|]. apply Hlow in Hj; [lia|done].
Qed.

Lemma headReady_spec_aux l g db :
  rows_wf db → short l → short g →
  (headReady l g db = Ok None ∧
   ∀ i m, u64 i → GetProto (MessageKey l g i) db = Some m → m.(m_State) ≠ READY) ∨
  (∃ m, headReady l g db = Ok (Some m) ∧ u64 m.(m_MsgId) ∧
     GetProto (MessageKey l g m.(m_MsgId)) db = Some m ∧ m.(m_State) = READY ∧
     ∀ i m', u64 i → GetProto (MessageKey l g i) db = Some m' → m'.(m_State) = READY →
             m.(m_MsgId) ≤ i).
Proof.
  intros Hwf Hl Hg. unfold headReady. cbv zeta.
  set (rows := NewIter _ _ _).
  assert (Hmsgs : Forall (λ kv : bytes * value, ∃ m, kv.2 = VMessage m) rows).
  { apply Forall_forall. intros [k v] Hin. apply scan_message in Hin; [|done..].
    destruct Hin as (i & m & _ & _ & -> & _). eauto. }
  destruct (firstReady_spec rows Hmsgs) as [[-> Hno]|(i & k & m & -> & Hi & Hst & Hlow)].
  - left. split; [done|]. intros i m _ E%message_scan. by eapply Hno.
  - right. exists m. assert (Hin : (k, VMessage m) ∈ rows) by (by eapply list_elem_of_lookup_2).
    apply scan_message in Hin as (id & m0 & Hid & -> & [= <-] & <- & E); [|done..].
    split_and!; [done..|]. intros j m' Hj E' Hst'.
    pose proof (message_scan _ _ _ _ _ E') as Hin'.
    apply list_elem_of_lookup_1 in Hin' as [p Hp].
    destruct (N.le_gt_cases m.(m_MsgId) j) as [?|Hgt]; [done|exfalso].
    pose proof (Hlow p _ _ Hp Hst') as Hle.
    fold rows in Hp. assert (i ≠ p).
    { intros ->. assert (Ek : MessageKey l g m.(m_MsgId) = MessageKey l g j) by congruence.
      apply MessageKey_inj in Ek as (_ & _ & Ek); [lia|done..]. }
    pose proof (NewIter_strict _ _ _ _ _ _ _ _ _ Hi Hp ltac:(lia)) as Hlt.
    apply (MessageKey_lt l g) in Hgt; [|done].
    pose proof (bytes_lt_trans _ _ _ Hlt Hgt) as Hbad. unfold bytes_lt in Hbad.
    by rewrite bytes_ltb_irrefl in Hbad.
Qed.

Lemma reads_Ok {A} (f : store → result A) db x b : reads f db = Ok (x, b) → f db = Ok x ∧ b = [].
Proof. unfold reads. destruct (f db); [by intros [= <- <-]|done]. Qed.

(** What a successful grant writes. *)
Lemma applyLease_core n c db r b :
  Inv n db → n + 1 < two64 → short c.(l_Lane) → short c.(l_GroupID) →
  applyLease c db = Ok (r, b) →
  (r = RLease lr_empty ∧ b = [] ∧
   ∀ i m, u64 i → GetProto (MessageKey c.(l_Lane) c.(l_GroupID) i) db = Some m →
          m.(m_State) ≠ READY) ∨
  (∃ m gm,
     let id := next_lease db in
     let m' := m_set_Epoch (incr32 m.(m_Epoch)) (m_set_CurLease id (m_set_State LEASED m)) in
     let gm' := gm_set_InflightCount (incr64 gm.(gm_InflightCount))
                  (if 0 <? gm.(gm_ReadyCount) then gm_set_ReadyCount (gm.(gm_ReadyCount) - 1) gm else gm) in
     r = RLease (mkLeaseResult id m.(m_MsgId) c.(l_Lane) c.(l_GroupID) m.(m_Payload) m.(m_Headers)
                   m.(m_Attempt) c.(l_DeadlineMs) false m.(m_IssueToken) m.(m_ExternalToken)) ∧
     u64 m.(m_MsgId) ∧ m.(m_State) = READY ∧
     GetProto (MessageKey c.(l_Lane) c.(l_GroupID) m.(m_MsgId)) db = Some m ∧
     GetProto (GroupMetaKey c.(l_Lane) c.(l_GroupID)) db = Some gm ∧
     (∀ i m', u64 i → GetProto (MessageKey c.(l_Lane) c.(l_GroupID) i) db = Some m' →
        m'.(m_State) = READY → m.(m_MsgId) ≤ i) ∧
     Forall bop_wf b ∧
     BSet (TimeIndexKey c.(l_DeadlineMs) TimerLeaseDeadline (LeaseDeadlineRef id))
       (VRaw (u64b (incr32 m.(m_Epoch)))) ∈ b ∧
     core b = [BSet (MetaKey (bs "next_lease_id")) (VRaw (u64b (id + 1)));
               BSet (MessageKey c.(l_Lane) c.(l_GroupID) m.(m_MsgId)) (VMessage m');
               BSet (LeaseKey id) (VLease (lease_of c id m'));
               BSet (GroupMetaKey c.(l_Lane) c.(l_GroupID)) (VGroupMeta gm')]).
Proof.
  intros H Hn Hl Hg E. pose proof (inv_rows n db H) as Hwf. unfold applyLease in E.
  apply bind_Ok in E as (head & b1 & b2 & [E1 ->]%reads_Ok & E & ->). simpl app.
  destruct (headReady_spec_aux _ _ db Hwf Hl Hg) as [[E2 Hno]|(m & E2 & Hi & Em & Hst & Hlow)];
    rewrite E2 in E1; injection E1 as <-.
  { left. minv E. done. }
  right. destruct (group_info n _ _ _ db m (inv_group n db H _ _ Hl Hg) Hwf Hl Hg Hi Em)
    as (gm & Eg & _). destruct (inv_next n db H) as [Hx1 Hx2].
  exists m, gm. cbv zeta.
  apply bind_Ok in E as (id & b3 & b4 & E3 & E & ->). unfold nextLeaseID in E3.
  assert (id = next_lease db ∧
          b3 = [BSet (MetaKey (bs "next_lease_id")) (VRaw (u64b (next_lease db + 1)))]) as [-> ->].
  { apply bind_Ok in E3 as (v & ? & ? & [-> ->]%gets_Ok & E3 & ->).
    change (match GetRaw (MetaKey (bs "next_lease_id")) db with Some v => beU64 v | None => 1 end)
      with (next_lease db) in E3.
    minv E3. by rewrite incr64_small by lia. }
  clear E3 E2.
  destruct (message_row _ _ _ _ _ Hwf Hl Hg Hi Em) as (M1 & M2 & M3 & M4).
  destruct (group_row _ _ _ _ Hwf Hl Hg Eg) as (G1 & G2).
  assert (Hu : u64 (next_lease db)) by (unfold u64; lia).
  minv E; rewrite !Eg; destruct (0 <? gm_ReadyCount gm); split_and!; try done;
    first [in_batch|wf_list].
Qed.

Lemma next_lease_insert v db :
  u64 v → next_lease (<[MetaKey (bs "next_lease_id") := VRaw (u64b v)]> db) = v.
Proof.
  intros Hv. unfold next_lease, GetRaw. change (VRaw (u64b v)) with (row_in (u64b v)).
  rewrite GetProto_insert. by apply beU64_u64b.
Qed.
Lemma next_lease_insert_ne k v db :
  k ≠ MetaKey (bs "next_lease_id") → next_lease (<[k := v]> db) = next_lease db.
Proof. intros. apply next_lease_ext. by rewrite lookup_insert_ne. Qed.
Lemma next_lease_delete_ne k db :
  k ≠ MetaKey (bs "next_lease_id") → next_lease (delete k db) = next_lease db.
Proof. intros. apply next_lease_ext. by rewrite lookup_delete_ne. Qed.

Lemma Inv_applyLease n db c r b :
  Inv n db → n + 1 < two64 → short c.(l_Lane) → short c.(l_GroupID) →
  applyLease c db = Ok (r, b) → Inv (n + 1) (commit b db).
Proof.
  intros H Hn Hl Hg E.
  destruct (applyLease_core n c db r b H Hn Hl Hg E)
    as [(_ & -> & _)|(m & gm & _ & Hi & Hst & Em & Eg & _ & Hb & _ & Hc)].
  { by apply Inv_mono with n; [|lia|]. }
  apply Inv_core; [by apply (inv_rows n)|done|]. rewrite Hc. clear E Hc.
  set (id := next_lease db) in *. set (m' := m_set_Epoch _ _). set (gm' := gm_set_InflightCount _ _).
  destruct (inv_next n db H) as [Hx1 Hx2]. fold id in Hx1, Hx2.
  destruct (group_info n _ _ _ db m (inv_group n db H _ _ Hl Hg) (inv_rows n db H) Hl Hg Hi Em)
    as (gm0 & Eg0 & I1 & I2 & I3 & I4 & I5 & I6 & I7 & I8).
  rewrite Eg in Eg0. injection Eg0 as <-.
  change (VMessage m') with (row_in m'). change (VGroupMeta gm') with (row_in gm').
  change (VLease (lease_of c id m')) with (row_in (lease_of c id m')).
  intros Hwf'.
  assert (Hnl : next_lease (commit [BSet (MetaKey (bs "next_lease_id")) (VRaw (u64b (id + 1)));
    BSet (MessageKey (l_Lane c) (l_GroupID c) (m_MsgId m)) (row_in m');
    BSet (LeaseKey id) (row_in (lease_of c id m'));
    BSet (GroupMetaKey (l_Lane c) (l_GroupID c)) (row_in gm')] db) = id + 1).
  { unfold commit. cbn [foldl apply_bop]. rewrite !next_lease_insert_ne by key_ne.
    apply next_lease_insert. unfold u64. lia. }
  apply (Inv_step n _ (l_Lane c) (l_GroupID c) (m_MsgId m) db);
    [done|lia|done|done|done|done|done|frame1_tac| | |rewrite Hnl; lia].
  - rewrite Em, Eg. lk. unfold gm_trans. cbv zeta. rewrite !ind_Some in *. rewrite Hst in *.
    simpl in *. destruct (N.ltb_spec 0 (gm_ReadyCount gm)); simpl; [|lia].
    rewrite (incr64_le (n + 1)) by lia. split_and!; first [lia|intros _; lia].
  - apply (lease_step id (l_Lane c) (l_GroupID c) (m_MsgId m) db);
      [by eapply Inv_lease_ok|by apply (inv_rows n)|done|done|done|done|unfold u64; lia|..].
    + rewrite Hnl. lia.
    + intros j Hj Hne. lk. rewrite GetProto_insert_ne; [by lk|].
      intros Ej. apply LeaseKey_inj in Ej; [congruence|unfold u64; lia|done].
    + intros. apply (frame1_message (l_Lane c) (l_GroupID c) (m_MsgId m)); [frame1_tac|done..].
    + intros m0 Em0. rewrite Em in Em0. injection Em0 as <-. by rewrite Hst.
    + intros ls Els. destruct (inv_lease n db H id ls) as (Hlt & _); [unfold u64; lia|done|].
      fold id in Hlt. lia.
    + intros ls. rewrite Hnl. lk. intros [= <-]. split; [done|]. split; [lia|]. split; [done|].
      exists m'. split; [done|]. by apply leased_by_true.
    + intros m0. lk. intros [= <-] _. split; [done|]. eexists. by lk.
Qed.

(** ** Publishing twice from the same stored meta

    A handler's reads see the committed store, so two [publishReady] of one
    batch into the same group compute the same id: the second overwrites the
    first.  The invariant survives: [pub_base] says the group is either as it
    was when [gm0] was read, or already holds a message at [gm0]'s next id. *)
Definition pub_base (l g : bytes) (gm0 : GroupMeta) (db : store) : Prop :=
  loadGroupMeta l g db = gm0 ∨
  (∃ gn m, GetProto (GroupMetaKey l g) db = Some gn ∧ gm_published READY gm0 gn ∧
     GetProto (MessageKey l g gm0.(gm_NextSeq)) db = Some m ∧ m.(m_State) = READY).

Lemma Inv_republish n db l g gm0 m gn b :
  Inv n db → short l → short g → gm0.(gm_NextSeq) + 1 ≤ n → 1 ≤ gm0.(gm_NextSeq) →
  gm0.(gm_TotalCount) = gm0.(gm_ReadyCount) + gm0.(gm_DelayedCount) + gm0.(gm_InflightCount) →
  gm0.(gm_TotalCount) < gm0.(gm_NextSeq) →
  pub_base l g gm0 db → Forall bop_wf b → m.(m_State) = READY → gm_published READY gm0 gn →
  core b = [BSet (MessageKey l g gm0.(gm_NextSeq)) (VMessage m); BSet (GroupMetaKey l g) (VGroupMeta gn)] →
  Inv n (commit b db).
Proof.
  intros H Hl Hg Hsq Hsq1 Htot Hlt Hbase Hb Hst Hp Hc.
  apply Inv_core; [by apply (inv_rows n)|done|]. rewrite Hc. intros Hwf'.
  pose proof (inv_n n db H) as Hn.
  set (id := gm_NextSeq gm0) in *. assert (Hi : u64 id) by (unfold u64; lia).
  assert (Hf1 : frame1 l g id db (commit [BSet (MessageKey l g id) (VMessage m);
    BSet (GroupMetaKey l g) (VGroupMeta gn)] db)) by frame1_tac.
  change (VMessage m) with (row_in m) in *. change (VGroupMeta gn) with (row_in gn) in *.
  assert (Hnl : next_lease (commit [BSet (MessageKey l g id) (row_in m);
    BSet (GroupMetaKey l g) (row_in gn)] db) = next_lease db).
  { apply next_lease_ext. by rewrite commit_frame_tag by (by repeat constructor). }
  destruct Hp as (_ & _ & P1 & P2 & P3 & P4 & P5). simpl in P4, P5.
  rewrite (incr64_le n) in P1, P2, P4 by lia.
  apply (Inv_step n _ l g id db); [done|lia|done|done|done|done|done|done| | |].
  - lk. unfold gm_trans. cbv zeta. rewrite !ind_Some, !Hst.
    destruct Hbase as [Hb0|(g1 & m1 & Eg1 & (_ & _ & Q1 & Q2 & Q3 & Q4 & Q5) & Em1 & Hst1)].
    + rewrite (fresh_message n) by (rewrite ?Hb0; first [done|reflexivity]).
      rewrite !(loadGroupMeta_or_zero _ _ _ gm_ReadyCount), !(loadGroupMeta_or_zero _ _ _ gm_DelayedCount),
        !(loadGroupMeta_or_zero _ _ _ gm_InflightCount), Hb0 by done.
      assert (Hz : (or_zero (GetProto (GroupMetaKey l g) db)).(gm_NextSeq) ≤ gm0.(gm_NextSeq)).
      { rewrite <-Hb0. unfold or_zero, loadGroupMeta.
        destruct (GetProto (GroupMetaKey l g) db) as [g0|]; [reflexivity|done]. }
      simpl. split_and!; first [lia|intros _; lia].
    + fold id in Em1. rewrite Em1, Eg1, !ind_Some, !Hst1. simpl in Q4, Q5 |- *.
      rewrite (incr64_le n) in Q1, Q2, Q4 by lia. split_and!; first [lia|intros _; lia].
  - apply (lease_frame l g id db); [by eapply Inv_lease_ok|by apply (inv_rows n)|done..| | | |].
    + intros j Hj. by lk.
    + intros. by eapply frame1_message.
    + intros m1 Em1. destruct Hbase as [Hb0|(g1 & m2 & _ & _ & Em2 & Hst2)].
      * by rewrite (fresh_message n) in Em1 by (rewrite ?Hb0; first [done|reflexivity]).
      * fold id in Em2. rewrite Em2 in Em1. injection Em1 as <-. by rewrite Hst2.
    + intros m'. lk. intros [= <-]. by rewrite Hst.
  - rewrite Hnl. apply (inv_next n db H).
Qed.

Lemma publishReady_core l g payload h now db id b :
  short l → short g → u64 (loadGroupMeta l g db).(gm_NextSeq) →
  (loadGroupMeta l g db).(gm_Lane) = l → (loadGroupMeta l g db).(gm_GroupId) = g →
  publishReady l g payload h now db = Ok (id, b) →
  Forall bop_wf b ∧ id = (loadGroupMeta l g db).(gm_NextSeq) ∧
  ∃ m gn, core b = [BSet (MessageKey l g id) (VMessage m); BSet (GroupMetaKey l g) (VGroupMeta gn)] ∧
       m.(m_State) = READY ∧ m.(m_Payload) = payload ∧ gm_published READY (loadGroupMeta l g db) gn.
Proof.
  intros Hl Hg Hu Kl Kg H. unfold publishReady in H. minv H.
  destruct (f64_eqb _ _); (split; [wf_list|]); (split; [done|]); eexists _, _;
    (split; [reflexivity|]); done.
Qed.

(** ** Batches with disjoint keys commute *)
Lemma commit_local b d1 d2 k : d1 !! k = d2 !! k → commit b d1 !! k = commit b d2 !! k.
Proof.
  revert d1 d2. induction b as [|o b IH]; intros d1 d2 E; [done|].
  rewrite !commit_cons. apply IH. destruct o as [k' v|k']; simpl.
  - rewrite !lookup_insert. by case_decide.
  - rewrite !lookup_delete. by case_decide.
Qed.
Lemma commit_comm b1 b2 db :
  (∀ k, k ∈ bop_key <$> b1 → k ∉ bop_key <$> b2) →
  commit (b1 ++ b2) db = commit (b2 ++ b1) db.
Proof.
  intros Hd. apply map_eq. intros k. rewrite !commit_app.
  destruct (decide (k ∈ bop_key <$> b1)) as [Hin|Hnin].
  - rewrite commit_frame by auto. symmetry. apply commit_local. apply commit_frame. auto.
  - rewrite (commit_frame b1) by done. apply commit_local. by apply commit_frame.
Qed.

(** ** Releasing a lease *)
Lemma Inv_release n n' db id ls m b :
  Inv n db → n ≤ n' → n' < two64 → u64 id → GetProto (LeaseKey id) db = Some ls →
  GetProto (MessageKey ls.(ls_Lane) ls.(ls_GroupId) ls.(ls_MsgId)) db = Some m →
  leased_by id m = true →
  rows_wf (commit b db) →
  (∀ k, broker_tags k → k ≠ LeaseKey id →
        k ≠ MessageKey ls.(ls_Lane) ls.(ls_GroupId) ls.(ls_MsgId) →
        k ≠ GroupMetaKey ls.(ls_Lane) ls.(ls_GroupId) → commit b db !! k = db !! k) →
  GetProto (A:=Lease) (LeaseKey id) (commit b db) = None →
  (∀ mn, GetProto (MessageKey ls.(ls_Lane) ls.(ls_GroupId) ls.(ls_MsgId)) (commit b db) = Some mn →
         mn.(m_State) ≠ LEASED) →
  gm_trans n' ls.(ls_MsgId) (Some m)
    (GetProto (MessageKey ls.(ls_Lane) ls.(ls_GroupId) ls.(ls_MsgId)) (commit b db))
    (GetProto (GroupMetaKey ls.(ls_Lane) ls.(ls_GroupId)) db)
    (GetProto (GroupMetaKey ls.(ls_Lane) ls.(ls_GroupId)) (commit b db)) →
  Inv n' (commit b db).
Proof.
  intros H Hn Hn' Hid Els Em Hby Hwf' Hfr Hno Hmn Htr.
  destruct (lease_row id db ls (inv_rows n db H) Hid Els) as (_ & Hl & Hg & Hi).
  assert (Hnl : next_lease (commit b db) = next_lease db).
  { apply next_lease_ext, Hfr; [by do 2 right|by key_ne..]. }
  assert (Hf1 : frame1 ls.(ls_Lane) ls.(ls_GroupId) ls.(ls_MsgId) db (commit b db)).
  { intros k Hk ? ?. apply Hfr; [by left| |done|done]. by intros ->; destruct Hk. }
  eapply Inv_step; [exact H|done|done|done|exact Hl|exact Hg|exact Hi|done|by rewrite Em| |].
  - apply (lease_step id ls.(ls_Lane) ls.(ls_GroupId) ls.(ls_MsgId) db);
      [by eapply Inv_lease_ok|by apply (inv_rows n)|done|done|done|done|done|by rewrite Hnl|..].
    + intros j Hj Hne. apply GetProto_ext, Hfr; [by right; left| |by key_ne..].
      intros E. apply LeaseKey_inj in E; done.
    + intros. by eapply frame1_message.
    + intros m0 Em0. rewrite Em in Em0. injection Em0 as <-. intros _.
      by apply leased_by_true in Hby as [_ ?].
    + intros ls0 E. rewrite Els in E. injection E as <-. done.
    + intros ls0. by rewrite Hno.
    + intros m0 Em0. by apply Hmn in Em0.
  - rewrite Hnl. pose proof (inv_next n db H). lia.
Qed.

Ltac frame_tac :=
  let k := fresh "k" in let Hk := fresh "Hk" in
  intros k Hk ? ? ?; apply commit_frame; cbn [bop_key fmap list_fmap];
  rewrite ?not_elem_of_cons; split_and!; try done;
  try apply not_elem_of_nil; intros ->; by destruct Hk as [[Hk|Hk]|[Hk|Hk]].

Lemma lease_facts n db id ls :
  Inv n db → u64 id → GetProto (LeaseKey id) db = Some ls →
  short ls.(ls_Lane) ∧ short ls.(ls_GroupId) ∧ u64 ls.(ls_MsgId) ∧
  ∃ m gm, GetProto (MessageKey ls.(ls_Lane) ls.(ls_GroupId) ls.(ls_MsgId)) db = Some m ∧
    leased_by id m = true ∧ m.(m_State) = LEASED ∧
    m.(m_Lane) = ls.(ls_Lane) ∧ m.(m_GroupId) = ls.(ls_GroupId) ∧ m.(m_MsgId) = ls.(ls_MsgId) ∧
    GetProto (GroupMetaKey ls.(ls_Lane) ls.(ls_GroupId)) db = Some gm ∧
    gm.(gm_Lane) = ls.(ls_Lane) ∧ gm.(gm_GroupId) = ls.(ls_GroupId) ∧
    1 ≤ ls.(ls_MsgId) ∧ ls.(ls_MsgId) < gm.(gm_NextSeq) ∧ gm.(gm_NextSeq) ≤ n ∧
    1 ≤ gm.(gm_InflightCount) ∧
    gm.(gm_TotalCount) = gm.(gm_ReadyCount) + gm.(gm_DelayedCount) + gm.(gm_InflightCount) ∧
    gm.(gm_TotalCount) < gm.(gm_NextSeq).
Proof.
  intros H Hid Els. pose proof (inv_rows n db H) as Hwf.
  destruct (lease_row id db ls Hwf Hid Els) as (_ & Hl & Hg & Hi).
  destruct (inv_lease n db H id ls Hid Els) as (_ & _ & m & Em & Hby).
  destruct (group_info n _ _ _ db m (inv_group n db H _ _ Hl Hg) Hwf Hl Hg Hi Em)
    as (gm & Eg & I1 & I2 & I3 & I4 & I5 & I6 & I7 & I8).
  apply leased_by_true in Hby as Hst. destruct Hst as [Hst Hc].
  rewrite ind_Some, decide_True in I6 by done.
  destruct (message_row _ _ _ _ _ Hwf Hl Hg Hi Em) as (? & ? & ? & _).
  destruct (group_row _ _ _ _ Hwf Hl Hg Eg) as (? & ?).
  split_and!; [done..|]. exists m, gm. by split_and!.
Qed.

Lemma Inv_applyAck n db c r b :
  Inv n db → u64 c.(a_LeaseID) → applyAck c db = Ok (r, b) → Inv n (commit b db).
Proof.
  intros H Hid E. unfold applyAck, deleteLeaseToken in E.
  apply bind_Ok in E as (o & b1 & b2 & [-> ->]%gets_Ok & E & ->).
  destruct (GetProto (LeaseKey c.(a_LeaseID)) db) as [ls|] eqn:Els; [|by minv E].
  destruct (lease_facts n db _ ls H Hid Els) as (Hl & Hg & Hi & m & gm & Em & Hby & Hst & M1 & M2 &
    M3 & Eg & G1 & G2 & I1 & I2 & I3 & I4 & I5 & I6).
  assert (Hcore : Forall bop_wf b2 ∧
    core b2 = [BDel (MessageKey ls.(ls_Lane) ls.(ls_GroupId) ls.(ls_MsgId));
               BDel (LeaseKey c.(a_LeaseID));
               BSet (GroupMetaKey ls.(ls_Lane) ls.(ls_GroupId))
                 (VGroupMeta (gm_set_TotalCount (decr gm.(gm_TotalCount))
                    (gm_set_InflightCount (decr gm.(gm_InflightCount)) gm)))]).
  { minv E; simplify_eq; (split; [wf_list|reflexivity]). }
  destruct Hcore as [Hb Hc]. simpl app.
  apply Inv_core; [by apply (inv_rows n)|done|]. rewrite Hc. intros Hwf'.
  set (gm' := gm_set_TotalCount _ _) in *. change (VGroupMeta gm') with (row_in gm') in *.
  pose proof (inv_n n db H).
  apply (Inv_release n n db c.(a_LeaseID) ls m); try done.
  - frame_tac.
  - by lk.
  - intros mn. by lk.
  - rewrite Eg. lk. unfold gm_trans. cbv zeta. rewrite !ind_Some, Hst. simpl.
    rewrite !decr_eq. split_and!; first [lia|done].
Qed.

(** Requeueing: the message is READY or DELAYED again, and counted so. *)
Lemma makeReady_core m gm ra now db gn b :
  short m.(m_Lane) → short m.(m_GroupId) → u64 m.(m_MsgId) →
  makeReady m gm ra now db = Ok (gn, b) →
  Forall bop_wf b ∧ ∃ m',
    core b = [BSet (MessageKey m.(m_Lane) m.(m_GroupId) m.(m_MsgId)) (VMessage m')] ∧
    ((m'.(m_State) = READY ∧ gn = gm_set_ReadyCount (incr64 gm.(gm_ReadyCount)) gm) ∨
     (m'.(m_State) = DELAYED ∧ gn = gm_set_DelayedCount (incr64 gm.(gm_DelayedCount)) gm)).
Proof.
  intros ??? E. unfold makeReady in E. minv E; (split; [wf_list|]); eexists; (split; [reflexivity|]);
    [by right|by left].
Qed.

(** The lease is deleted and its message requeued. *)
Lemma Inv_requeue n db id ls m gm m' gn b :
  Inv n db → u64 id → GetProto (LeaseKey id) db = Some ls →
  GetProto (MessageKey ls.(ls_Lane) ls.(ls_GroupId) ls.(ls_MsgId)) db = Some m →
  leased_by id m = true → GetProto (GroupMetaKey ls.(ls_Lane) ls.(ls_GroupId)) db = Some gm →
  (let g1 := gm_set_InflightCount (decr gm.(gm_InflightCount)) gm in
   (m'.(m_State) = READY ∧ gn = gm_set_ReadyCount (incr64 g1.(gm_ReadyCount)) g1) ∨
   (m'.(m_State) = DELAYED ∧ gn = gm_set_DelayedCount (incr64 g1.(gm_DelayedCount)) g1)) →
  Forall bop_wf b →
  core b = [BDel (LeaseKey id);
            BSet (MessageKey ls.(ls_Lane) ls.(ls_GroupId) ls.(ls_MsgId)) (VMessage m');
            BSet (GroupMetaKey ls.(ls_Lane) ls.(ls_GroupId)) (VGroupMeta gn)] →
  Inv n (commit b db).
Proof.
  intros H Hid Els Em Hby Eg Hgn Hb Hc.
  destruct (lease_facts n db _ ls H Hid Els) as (Hl & Hg & Hi & m0 & gm0 & Em0 & _ & Hst & _ & _ &
    _ & Eg0 & _ & _ & I1 & I2 & I3 & I4 & I5 & I6).
  rewrite Em in Em0. injection Em0 as <-. rewrite Eg in Eg0. injection Eg0 as <-.
  apply Inv_core; [by apply (inv_rows n)|done|]. rewrite Hc. intros Hwf'.
  change (VMessage m') with (row_in m') in *. change (VGroupMeta gn) with (row_in gn) in *.
  pose proof (inv_n n db H). cbv zeta in Hgn.
  apply (Inv_release n n db id ls m); try done.
  - frame_tac.
  - by lk.
  - intros mn. lk. intros [= <-]. by destruct Hgn as [[-> _]|[-> _]].
  - rewrite Eg. lk. unfold gm_trans. cbv zeta. rewrite !ind_Some, Hst.
    destruct Hgn as [[-> ->]|[-> ->]]; simpl; rewrite decr_eq, (incr64_le n) by lia;
      split_and!; first [lia|intros _; lia].
Qed.

(** ** Workflow dispatches *)
(** The core of a batch that publishes at most one READY message, computed from
    the committed meta, on a lane satisfying [P]. *)
Definition pub_core (P : bytes → Prop) (db : store) (b : batch) : Prop :=
  core b = [] ∨
  ∃ l g m gn, P l ∧ short l ∧ short g ∧ m.(m_State) = READY ∧
    gm_published READY (loadGroupMeta l g db) gn ∧
    core b = [BSet (MessageKey l g (loadGroupMeta l g db).(gm_NextSeq)) (VMessage m);
              BSet (GroupMetaKey l g) (VGroupMeta gn)].
Definition wf_lane (l : bytes) : Prop := ∃ t, l = WorkflowLanePrefix ++ t.

Lemma pub_core_app_l P db b1 b2 : core b1 = [] → pub_core P db b2 → pub_core P db (b1 ++ b2).
Proof. unfold pub_core. rewrite core_app. intros ->. done. Qed.
Lemma pub_core_app_r P db b1 b2 : pub_core P db b1 → core b2 = [] → pub_core P db (b1 ++ b2).
Proof. unfold pub_core. rewrite core_app. intros H ->. by rewrite app_nil_r. Qed.

Lemma publishReady_pub n (P : bytes → Prop) l g payload h now db id b :
  Inv n db → P l → short l → short g → publishReady l g payload h now db = Ok (id, b) →
  Forall bop_wf b ∧ pub_core P db b.
Proof.
  intros H HP Hl Hg E. destruct (loadGroupMeta_bound n db l g H Hl Hg) as (_ & Hsq & _).
  destruct (loadGroupMeta_keys n db l g H Hl Hg) as (K1 & K2 & _).
  pose proof (inv_n n db H).
  apply publishReady_core in E as (Hb & -> & m & gn & Hc & Hst & _ & Hp);
    [|done|done|unfold u64; lia|done|done].
  split; [done|]. right. exists l, g, m, gn. by split_and!.
Qed.

(** One [pub_core] batch on top of a store that agrees with the committed one. *)
Lemma Inv_pub_core n P db dbj b :
  Inv n db → n + 1 < two64 → Inv (n + 1) dbj → pub_core P db b → Forall bop_wf b →
  (∀ l g, P l → short l → short g → pub_base l g (loadGroupMeta l g db) dbj) →
  Inv (n + 1) (commit b dbj).
Proof.
  intros H Hn Hj [Hc|(l & g & m & gn & HP & Hl & Hg & Hst & Hp & Hc)] Hb Hbase.
  { by apply Inv_quiet. }
  destruct (loadGroupMeta_bound n db l g H Hl Hg) as (_ & Hsq & Ht & Hlt).
  destruct (loadGroupMeta_keys n db l g H Hl Hg) as (_ & _ & Hs1).
  eapply (Inv_republish (n + 1) dbj l g (loadGroupMeta l g db)); try done; [lia|by apply Hbase].
Qed.

Section workflow.
Context {PC : PayloadCodec}.

Definition run_wf (run : WorkflowRun) : Prop :=
  short (WorkflowLanePrefix ++ run.(run_WorkflowType)) ∧ short (runGroup run.(run_RunId)).

Lemma run_row n db id run :
  Inv n db → GetProto (WFRunKey id) db = Some run → run_wf run.
Proof. intros H E%GetProto_row. by apply (inv_rows n db H) in E as [_ ?]. Qed.

Lemma row_wf_run id run : run_wf run → bop_wf (BSet (WFRunKey id) (VRun run)).
Proof. by intros []. Qed.
Lemma row_wf_event id e ev : bop_wf (BSet (WFHistoryKey id e) (VEvent ev)).
Proof. done. Qed.

Lemma dispatchWorkflowTask_pub n run db run' b :
  Inv n db → run_wf run → dispatchWorkflowTask run db = Ok (run', b) →
  Forall bop_wf b ∧ pub_core wf_lane db b ∧ run_wf run'.
Proof.
  intros H [Hl Hg] E. unfold dispatchWorkflowTask in E.
  destruct (negb _ || _).
  { minv E. split; [constructor|]. split; [by left|done]. }
  cbv zeta in E. apply bind_Ok in E as (id & b1 & b2 & E & [-> ->]%ret_Ok & ->).
  rewrite app_nil_r. eapply (publishReady_pub n wf_lane) in E as [? ?]; [|done|by eexists|done|done].
  done.
Qed.

Lemma advanceRun_pub n id seq now run db r b :
  Inv n db → run_wf run → advanceRun id seq now run db = Ok (r, b) →
  Forall bop_wf b ∧ pub_core wf_lane db b.
Proof.
  intros H Hr E. unfold advanceRun in E. cbv zeta in E.
  apply bind_Ok in E as (run' & b1 & b2 & E & [_ ->]%putProto_Ok & ->).
  apply (dispatchWorkflowTask_pub n) in E as (Hb & Hp & Hr'); [|done|done].
  split; [|by apply pub_core_app_r].
  apply Forall_app. split; [done|]. apply Forall_cons_2; [|constructor]. by apply row_wf_run.
Qed.

Lemma recordActivityTerminal_pub n id sched f res now db r b :
  Inv n db → recordActivityTerminal id sched f res now db = Ok (r, b) →
  Forall bop_wf b ∧ pub_core wf_lane db b.
Proof.
  intros H E. unfold recordActivityTerminal in E.
  apply bind_Ok in E as (o & b1 & b2 & [-> ->]%gets_Ok & E & ->). simpl app.
  destruct (GetProto (WFRunKey id) db) as [run|] eqn:Er; [|minv E; split; [constructor|by left]].
  pose proof (run_row n db id run H Er) as Hr.
  destruct (negb _); [minv E; split; [constructor|by left]|].
  apply bind_Ok in E as (o & b1 & b3 & [-> ->]%gets_Ok & E & ->). simpl app.
  destruct (GetRaw _ db); [minv E; split; [constructor|by left]|].
  apply bind_Ok in E as (o & b1 & b2 & [-> ->]%gets_Ok & E & ->). simpl app.
  cbv zeta in E. match type of E with (if ?c then _ else _) _ = _ => destruct c end;
    [minv E; split; [constructor|by left]|].
  apply bind_Ok in E as ([] & b1 & b3 & [_ ->]%putProto_Ok & E & ->).
  apply bind_Ok in E as ([] & b1 & b4 & [_ ->]%bset_Ok & E & ->).
  apply bind_Ok in E as ([] & b1 & b5 & E & [-> ->]%ret_Ok & ->).
  rewrite app_nil_r. apply (advanceRun_pub n) in E as [Hb Hp]; [|done|done].
  split; [by wf_list|]. apply pub_core_app_l; [done|]. by apply pub_core_app_l.
Qed.

Lemma appendExternalEvent_pub n id t a now db r b :
  Inv n db → appendExternalEvent id t a now db = Ok (r, b) →
  Forall bop_wf b ∧ pub_core wf_lane db b.
Proof.
  intros H E. unfold appendExternalEvent in E.
  apply bind_Ok in E as (o & b1 & b2 & [-> ->]%gets_Ok & E & ->). simpl app.
  destruct (GetProto (WFRunKey id) db) as [run|] eqn:Er; [|minv E; split; [constructor|by left]].
  pose proof (run_row n db id run H Er) as Hr.
  destruct (negb _); [minv E; split; [constructor|by left]|]. cbv zeta in E.
  apply bind_Ok in E as ([] & b1 & b3 & [_ ->]%putProto_Ok & E & ->).
  apply (advanceRun_pub n) in E as [Hb Hp]; [|done|done].
  split; [by wf_list|]. by apply pub_core_app_l.
Qed.

(** The committed store itself is a base. *)
Lemma pub_base_refl l g db : pub_base l g (loadGroupMeta l g db) db.
Proof. by left. Qed.

Lemma Inv_pub n P db b :
  Inv n db → n + 1 < two64 → pub_core P db b → Forall bop_wf b → Inv (n + 1) (commit b db).
Proof.
  intros H Hn Hp Hb. eapply Inv_pub_core; try done.
  - apply (Inv_mono n); [done|lia|done].
  - intros. apply pub_base_refl.
Qed.
End workflow.

(** ** Dead letters *)
Lemma act_not_wf l l' : has_prefix ActivityLanePrefix l = true → wf_lane l' → l ≠ l'.
Proof. intros [r ->]%has_prefix_spec [t ->] E. discriminate E. Qed.

(** A publish in the middle of a batch, into a group the rest of the batch does
    not touch. *)
Lemma Inv_pub_mid n db b1 bp b3 :
  Inv n db → n + 1 < two64 → Inv n (commit (b1 ++ b3) db) →
  Forall bop_wf b1 → Forall bop_wf bp → Forall bop_wf b3 →
  pub_core wf_lane db bp →
  (core bp = [] ∨ (∀ l g i, wf_lane l → short l → short g →
     GroupMetaKey l g ∉ (bop_key <$> core (b1 ++ b3)) ∧ MessageKey l g i ∉ (bop_key <$> core b3))) →
  Inv (n + 1) (commit (b1 ++ bp ++ b3) db).
Proof.
  intros H Hn H13 Hb1 Hbp Hb3 Hp Hdis.
  assert (Hgoal : Inv (n + 1) (commit bp (commit (b1 ++ b3) db))).
  { destruct Hdis as [Hc|Hdis].
    - apply Inv_quiet; [|done|done]. apply (Inv_mono n); [done|lia|done].
    - apply (Inv_pub_core n wf_lane db); try done; [apply (Inv_mono n); [done|lia|done]|].
      intros l g Hw Hl Hg. left. unfold loadGroupMeta. erewrite GetProto_ext; [done|].
      rewrite commit_core by (by left; right). apply commit_frame. by apply (Hdis l g 0). }
  apply (Inv_frame _ _ (commit (b1 ++ bp ++ b3) db)) in Hgoal; [done| |].
  - apply rows_wf_commit; [by apply (inv_rows n)|]. by rewrite !Forall_app.
  - intros k Hk. rewrite <-(commit_app (b1 ++ b3)).
    rewrite (commit_core (b1 ++ bp ++ b3)), (commit_core ((b1 ++ b3) ++ bp)) by done.
    rewrite !core_app, <-app_assoc, !(commit_app (core b1)).
    rewrite commit_comm; [done|]. intros k' Hin.
    destruct Hp as [Hc|(l & g & m & gn & Hw & Hl & Hg & _ & _ & Hc)].
    { rewrite Hc in Hin. by apply elem_of_nil in Hin. }
    destruct Hdis as [Hc'|Hdis]; [by rewrite Hc in Hc'|].
    rewrite Hc in Hin. cbn in Hin. apply elem_of_cons in Hin as [->|Hin].
    + by apply (Hdis l g).
    + apply list_elem_of_singleton in Hin as ->. destruct (Hdis l g 0 Hw Hl Hg) as [Hd _].
      rewrite core_app, fmap_app, not_elem_of_app in Hd. tauto.
Qed.

Section settle.
Context {PC : PayloadCodec}.

Lemma deadLetter_core n m reason meta ts db r b :
  Inv n db → deadLetter m reason meta ts db = Ok (r, b) →
  ∃ bp, b = [BSet (DLQKey m.(m_Lane) m.(m_GroupId) ts m.(m_MsgId))
               (VDeadLetter (mkDeadLetter m m.(m_Attempt) reason meta ts));
             BDel (MessageKey m.(m_Lane) m.(m_GroupId) m.(m_MsgId))] ++ bp ∧
    Forall bop_wf bp ∧ pub_core wf_lane db bp ∧
    (core bp = [] ∨ has_prefix ActivityLanePrefix m.(m_Lane) = true).
Proof.
  intros H E. unfold deadLetter in E.
  apply bind_Ok in E as ([] & b1 & b3 & [_ ->]%putProto_Ok & E & ->).
  apply bind_Ok in E as ([] & b1 & b4 & [_ ->]%bdel_Ok & E & ->).
  exists b4. split; [done|].
  apply when_Ok in E as [[Hpre E]|[_ ->]]; [|by split_and!; [|left..]].
  destruct (unmarshal_ActivityTask _) as [task|];
    [|minv E; by split_and!; [|left..]].
  destruct (negb _); [|minv E; by split_and!; [|left..]].
  apply bind_Ok in E as (x & b1 & b2 & E & [-> ->]%ret_Ok & ->). rewrite app_nil_r.
  eapply recordActivityTerminal_pub in E as [? ?]; [|done]. split_and!; [done..|by right].
Qed.

(** The lease and its message are deleted, the counters decremented. *)
Lemma Inv_bury n db id ls m gm bpre bp :
  Inv n db → n + 1 < two64 → u64 id → GetProto (LeaseKey id) db = Some ls →
  GetProto (MessageKey ls.(ls_Lane) ls.(ls_GroupId) ls.(ls_MsgId)) db = Some m →
  leased_by id m = true → GetProto (GroupMetaKey ls.(ls_Lane) ls.(ls_GroupId)) db = Some gm →
  Forall bop_wf bpre → Forall bop_wf bp → pub_core wf_lane db bp →
  (core bp = [] ∨ has_prefix ActivityLanePrefix ls.(ls_Lane) = true) →
  core bpre = [BDel (LeaseKey id);
               BDel (MessageKey ls.(ls_Lane) ls.(ls_GroupId) ls.(ls_MsgId))] →
  Inv (n + 1) (commit (bpre ++ bp ++
    [BSet (GroupMetaKey ls.(ls_Lane) ls.(ls_GroupId))
       (VGroupMeta (gm_set_TotalCount (decr gm.(gm_TotalCount))
                      (gm_set_InflightCount (decr gm.(gm_InflightCount)) gm)))]) db).
Proof.
  intros H Hn Hid Els Em Hby Eg Hb1 Hbp Hp Hact Hc.
  destruct (lease_facts n db _ ls H Hid Els) as (Hl & Hg & Hi & m0 & gm0 & Em0 & _ & Hst & _ & _ &
    _ & Eg0 & G1 & G2 & I1 & I2 & I3 & I4 & I5 & I6).
  rewrite Em in Em0. injection Em0 as <-. rewrite Eg in Eg0. injection Eg0 as <-.
  set (gn := gm_set_TotalCount _ _).
  assert (Hbg : Forall bop_wf [BSet (GroupMetaKey ls.(ls_Lane) ls.(ls_GroupId)) (VGroupMeta gn)]).
  { by wf_list. }
  apply Inv_pub_mid; try done.
  - apply Inv_core; [by apply (inv_rows n)|by apply Forall_app|].
    rewrite core_app, Hc. match goal with |- context [core [?o]] => change (core [o]) with [o] end.
    cbn [app]. intros Hwf'. change (VGroupMeta gn) with (row_in gn) in *.
    pose proof (inv_n n db H).
    apply (Inv_release n n db id ls m); try done.
    + frame_tac.
    + by lk.
    + intros mn. by lk.
    + rewrite Eg. lk. unfold gm_trans. cbv zeta. rewrite !ind_Some, Hst. simpl.
      rewrite !decr_eq. split_and!; first [lia|done].
  - destruct Hact as [?|Hact]; [by left|right]. intros l g i Hw Hl' Hg'.
    rewrite core_app, Hc. cbn. rewrite !not_elem_of_cons. split_and!; try apply not_elem_of_nil; try key_ne.
    + intros E. apply GroupMetaKey_inj in E as [-> _]; [|done..]. by apply (act_not_wf _ _ Hact Hw).
Qed.
End settle.

Section settle2.
Context {PC : PayloadCodec}.

Lemma Inv_applyNack n db c r b :
  Inv n db → n + 1 < two64 → u64 c.(n_LeaseID) → applyNack c db = Ok (r, b) →
  Inv (n + 1) (commit b db).
Proof.
  intros H Hn Hid E. unfold applyNack, deleteLeaseToken in E.
  assert (Hm : ∀ db', Inv n db' → Inv (n + 1) db') by (intros; by apply (Inv_mono n); [|lia|]).
  apply bind_Ok in E as (o & b1 & b2 & [-> ->]%gets_Ok & E & ->). simpl app.
  destruct (GetProto (LeaseKey c.(n_LeaseID)) db) as [ls|] eqn:Els; [|minv E; by apply Hm].
  destruct (lease_facts n db _ ls H Hid Els) as (Hl & Hg & Hi & m & gm & Em & Hby & Hst & M1 & M2 &
    M3 & Eg & G1 & G2 & I1 & I2 & I3 & I4 & I5 & I6).
  apply bind_Ok in E as ([] & b1 & b3 & [_ ->]%bdel_Ok & E & ->).
  apply bind_Ok in E as ([] & bt & b4 & Et & E & ->).
  assert (Hbt : Forall bop_wf bt ∧ core bt = []).
  { apply when_Ok in Et as [[_ [_ ->]%bdel_Ok]|[_ ->]]; by split; [wf_list|]. }
  destruct Hbt as [Hbt1 Hbt2]. clear Et.
  apply bind_Ok in E as ([] & b1 & b5 & [_ ->]%delTimer_Ok & E & ->).
  apply bind_Ok in E as (o & b1 & b6 & [-> ->]%gets_Ok & E & ->).
  apply bind_Ok in E as (o & b1 & b7 & [-> ->]%gets_Ok & E & ->). cbv zeta in E.
  rewrite Em, Eg, Hby in E. cbn [negb is_Some or_zero default] in E.
  rewrite bool_decide_eq_true_2 in E by eauto. cbn [when] in E. unfold when in E.
  set (g1 := gm_set_InflightCount _ _) in *.
  assert (Hdead : ∀ m' reason meta r' bd,
    m_Lane m' = ls_Lane ls → m_GroupId m' = ls_GroupId ls → m_MsgId m' = ls_MsgId ls →
    (deadLetter m' reason meta (n_NowMs c);;
     putProto (GroupMetaKey (ls_Lane ls) (ls_GroupId ls)) (gm_set_TotalCount (decr (gm_TotalCount g1)) g1);;
     mret r') db = Ok (r, bd) →
    Inv (n + 1) (commit ([BDel (LeaseKey (n_LeaseID c))] ++ bt ++
      [BDel (TimeIndexKey (ls_DeadlineMs ls) TimerLeaseDeadline (LeaseDeadlineRef (n_LeaseID c)))] ++ bd) db)).
  { intros m' reason meta r' bd L1 L2 L3 Ed.
    apply bind_Ok in Ed as ([] & b1 & b8 & Ed & E' & ->).
    apply bind_Ok in E' as ([] & b2 & b9 & [_ ->]%putProto_Ok & [-> ->]%ret_Ok & ->).
    eapply (deadLetter_core n) in Ed as (bp & -> & Hbp & Hp & Hact); [|done].
    rewrite L1, L2, L3 in *.
    rewrite app_nil_r, <-!app_assoc. rewrite (app_assoc [BDel _]), (app_assoc ([BDel _] ++ bt)),
      (app_assoc (([BDel _] ++ bt) ++ [_])).
    apply (Inv_bury n db (n_LeaseID c) ls m gm); try done.
    - by wf_list.
    - rewrite !core_app, Hbt2. reflexivity. }
  assert (Hready : ∀ m' ra bd r',
    m_Lane m' = ls_Lane ls → m_GroupId m' = ls_GroupId ls → m_MsgId m' = ls_MsgId ls →
    (gm' ← makeReady m' g1 ra (n_NowMs c);
     putProto (GroupMetaKey (ls_Lane ls) (ls_GroupId ls)) gm';; mret r') db = Ok (r, bd) →
    Inv (n + 1) (commit ([BDel (LeaseKey (n_LeaseID c))] ++ bt ++
      [BDel (TimeIndexKey (ls_DeadlineMs ls) TimerLeaseDeadline (LeaseDeadlineRef (n_LeaseID c)))] ++ bd) db)).
  { intros m' ra bd r' L1 L2 L3 Ed.
    apply bind_Ok in Ed as (gn & b1 & b8 & Ed & E' & ->).
    apply bind_Ok in E' as ([] & b2 & b9 & [_ ->]%putProto_Ok & [-> ->]%ret_Ok & ->).
    eapply makeReady_core in Ed as (Hb & m2 & Hc & Hgn); [|by rewrite ?L1, ?L2, ?L3..].
    rewrite L1, L2, L3 in *. apply Hm.
    apply (Inv_requeue n db (n_LeaseID c) ls m gm m2 gn); try done.
    - assert (gn.(gm_Lane) = ls.(ls_Lane) ∧ gn.(gm_GroupId) = ls.(ls_GroupId)) as [? ?].
      { by destruct Hgn as [[_ ->]|[_ ->]]. }
      by wf_list.
    - rewrite !core_app, Hbt2, Hc. reflexivity. }
  repeat (match type of E with (if ?x then _ else _) _ = _ => destruct x end);
    first [eapply Hdead, E; done | eapply Hready, E; done].
Qed.
End settle2.

(** ** Touching a lease in place *)
Lemma gm_trans_refl n i o gm :
  1 ≤ i → i < gm.(gm_NextSeq) → gm.(gm_NextSeq) ≤ n →
  gm.(gm_TotalCount) = gm.(gm_ReadyCount) + gm.(gm_DelayedCount) + gm.(gm_InflightCount) →
  gm.(gm_TotalCount) < gm.(gm_NextSeq) →
  ∀ o', (∀ st, ind st o = ind st o') → gm_trans n i o o' (Some gm) (Some gm).
Proof.
  intros H1 H2 H3 H4 H5 o' Hind. unfold gm_trans. simpl.
  rewrite !Hind. split_and!; first [lia|intros _; lia|done].
Qed.

Lemma Inv_touch n db id ls m ls' m' b :
  Inv n db → u64 id → GetProto (LeaseKey id) db = Some ls →
  GetProto (MessageKey ls.(ls_Lane) ls.(ls_GroupId) ls.(ls_MsgId)) db = Some m →
  m'.(m_State) = LEASED → m'.(m_CurLease) = id →
  points ls' ls.(ls_Lane) ls.(ls_GroupId) ls.(ls_MsgId) →
  Forall bop_wf b →
  (∀ k, broker_tags k → k ≠ LeaseKey id →
        k ≠ MessageKey ls.(ls_Lane) ls.(ls_GroupId) ls.(ls_MsgId) → commit b db !! k = db !! k) →
  GetProto (MessageKey ls.(ls_Lane) ls.(ls_GroupId) ls.(ls_MsgId)) (commit b db) = Some m' →
  GetProto (LeaseKey id) (commit b db) = Some ls' →
  Inv n (commit b db).
Proof.
  intros H Hid Els Em Hst' Hc' Hp' Hb Hfr Em' Els'.
  destruct (lease_facts n db _ ls H Hid Els) as (Hl & Hg & Hi & m0 & gm & Em0 & Hby & Hst & _ & _ &
    _ & Eg & _ & _ & I1 & I2 & I3 & I4 & I5 & I6).
  rewrite Em in Em0. injection Em0 as <-.
  pose proof (inv_rows n db H) as Hwf. pose proof (inv_n n db H).
  assert (Hwf' : rows_wf (commit b db)) by (by apply rows_wf_commit).
  assert (Hnl : next_lease (commit b db) = next_lease db).
  { apply next_lease_ext, Hfr; [by do 2 right|by key_ne..]. }
  assert (Hf1 : frame1 ls.(ls_Lane) ls.(ls_GroupId) ls.(ls_MsgId) db (commit b db)).
  { intros k Hk ? ?. apply Hfr; [by left| |done]. by intros ->; destruct Hk. }
  assert (Eg' : GetProto (A:=GroupMeta) (GroupMetaKey ls.(ls_Lane) ls.(ls_GroupId)) (commit b db) = Some gm).
  { rewrite <-Eg. apply GetProto_ext, Hfr; [by left; right|by key_ne..]. }
  eapply Inv_step; [exact H|done|done|done|exact Hl|exact Hg|exact Hi|done| | |].
  - rewrite Em, Em', Eg, Eg'. apply gm_trans_refl; try done.
    intros st. by rewrite !ind_Some, Hst, Hst'.
  - apply (lease_step id ls.(ls_Lane) ls.(ls_GroupId) ls.(ls_MsgId) db);
      [by eapply Inv_lease_ok|done|done|done|done|done|done|by rewrite Hnl|..].
    + intros j Hj Hne. apply GetProto_ext, Hfr; [by right; left| |by key_ne].
      intros E. apply LeaseKey_inj in E; done.
    + intros. by eapply frame1_message.
    + intros m0 Em0 _. rewrite Em in Em0. injection Em0 as <-. by apply leased_by_true in Hby as [_ ?].
    + intros ls0 E. rewrite Els in E. injection E as <-. done.
    + intros ls0 E. rewrite Els' in E. injection E as <-. rewrite Hnl.
      destruct (inv_lease n db H id ls Hid Els) as (? & ? & _).
      split; [done|]. split; [done|]. split; [done|]. exists m'. split; [done|]. by apply leased_by_true.
    + intros m0 E _. rewrite Em' in E. injection E as <-. split; [done|]. by exists ls'.
  - rewrite Hnl. apply (inv_next n db H).
Qed.

Lemma row_wf_lease id ls :
  u64 id → ls.(ls_LeaseId) = id → short ls.(ls_Lane) → short ls.(ls_GroupId) → u64 ls.(ls_MsgId) →
  bop_wf (BSet (LeaseKey id) (VLease ls)).
Proof. intros ? <- ???. by repeat split. Qed.

Ltac frame2_tac :=
  let k := fresh "k" in let Hk := fresh "Hk" in
  intros k Hk ? ?; apply commit_frame; cbn [bop_key fmap list_fmap];
  rewrite ?not_elem_of_cons; split_and!; try done;
  try apply not_elem_of_nil; intros ->; by destruct Hk as [[Hk|Hk]|[Hk|Hk]].

Lemma Inv_applyExtend n db c r b :
  Inv n db → u64 c.(e_LeaseID) → applyExtend c db = Ok (r, b) → Inv n (commit b db).
Proof.
  intros H Hid E. unfold applyExtend in E.
  apply bind_Ok in E as (o & b1 & b2 & [-> ->]%gets_Ok & E & ->). simpl app.
  destruct (GetProto (LeaseKey c.(e_LeaseID)) db) as [ls|] eqn:Els; [|by minv E].
  destruct (lease_facts n db _ ls H Hid Els) as (Hl & Hg & Hi & m & gm & Em & Hby & Hst & M1 & M2 &
    M3 & Eg & G1 & G2 & I1 & I2 & I3 & I4 & I5 & I6).
  destruct (lease_row _ db ls (inv_rows n db H) Hid Els) as (Hlid & _ & _ & _).
  apply bind_Ok in E as (o & b1 & b3 & [-> ->]%gets_Ok & E & ->). simpl app.
  rewrite Em, Hby in E. cbn [negb] in E. cbv zeta in E.
  set (m' := m_set_Epoch _ _) in *. set (ls' := ls_set_Epoch _ _) in *.
  minv E. apply (Inv_touch n db c.(e_LeaseID) ls m ls' m'); try done.
  - by apply leased_by_true in Hby as [_ ?].
  - wf_list; [|by apply row_wf_lease]. apply row_wf_message; try done.
    change (m_State m') with (m_State m). by rewrite Hst.
  - frame2_tac.
  - change (VMessage m') with (row_in m'). change (VLease ls') with (row_in ls'). by lk.
  - change (VMessage m') with (row_in m'). change (VLease ls') with (row_in ls'). by lk.
Qed.

Lemma Inv_applyIssueToken n db c r b :
  Inv n db → u64 c.(it_LeaseID) → applyIssueToken c db = Ok (r, b) → Inv n (commit b db).
Proof.
  intros H Hid E. unfold applyIssueToken in E.
  apply bind_Ok in E as (o & b1 & b2 & [-> ->]%gets_Ok & E & ->). simpl app.
  destruct (GetProto (LeaseKey c.(it_LeaseID)) db) as [ls|] eqn:Els; [|by minv E].
  destruct (lease_facts n db _ ls H Hid Els) as (Hl & Hg & Hi & m & gm & Em & Hby & Hst & _).
  destruct (lease_row _ db ls (inv_rows n db H) Hid Els) as (Hlid & _ & _ & _).
  set (ls' := ls_set_CompletionTokenHash _ _) in *.
  minv E. apply (Inv_touch n db c.(it_LeaseID) ls m ls' m); try done.
  - by apply leased_by_true in Hby as [_ ?].
  - wf_list. by apply row_wf_lease.
  - frame2_tac.
  - change (VLease ls') with (row_in ls'). by lk.
  - change (VLease ls') with (row_in ls'). by lk.
Qed.

(** Deleting a row first leaves fewer rows at the end. *)
Lemma commit_mono b d1 d2 : d1 ⊆ d2 → commit b d1 ⊆ commit b d2.
Proof.
  revert d1 d2. induction b as [|o b IH]; intros d1 d2 Hs; [done|]. rewrite !commit_cons.
  apply IH. destruct o; simpl; [by apply insert_mono|by apply delete_mono].
Qed.
Lemma rows_wf_subseteq d1 d2 : d1 ⊆ d2 → rows_wf d2 → rows_wf d1.
Proof. intros Hs Hwf k v E. apply Hwf. by eapply lookup_weaken. Qed.

(** Deleting a token row before a settling command: same invariant. *)
Lemma Inv_delete_token n h b db :
  Inv n (commit b db) → Inv n (commit ([BDel (TokenKey h)] ++ b) db).
Proof.
  intros H. apply (Inv_frame n _ _ H).
  - rewrite commit_app. eapply rows_wf_subseteq; [|by apply (inv_rows n)].
    apply commit_mono. simpl. apply delete_subseteq.
  - intros k Hk. by rewrite (commit_core (_ ++ _)), (commit_core b), core_app.
Qed.

Lemma Inv_applyComplete `{PC : PayloadCodec} n db c r b :
  Inv n db → n + 1 < two64 → applyComplete c db = Ok (r, b) → Inv (n + 1) (commit b db).
Proof.
  intros H Hn E. unfold applyComplete in E.
  assert (Hm : ∀ db', Inv n db' → Inv (n + 1) db') by (intros; by apply (Inv_mono n); [|lia|]).
  apply bind_Ok in E as (o & b1 & b2 & [-> ->]%gets_Ok & E & ->). simpl app.
  destruct (GetRaw _ db) as [raw|]; [|minv E; by apply Hm]. cbv zeta in E.
  assert (Hraw : u64 (beU64 raw)).
  { unfold beU64, u64. destruct (Nat.ltb_spec (length raw) 8); [done|].
    eapply N.lt_le_trans; [apply be_val_lt|]. by rewrite length_take_le by done. }
  apply bind_Ok in E as ([] & b1 & b3 & [_ ->]%bdel_Ok & E & ->).
  apply Inv_delete_token. destruct (c.(cp_Success)).
  - apply bind_Ok in E as (x & b1 & b4 & E & [-> ->]%ret_Ok & ->). rewrite app_nil_r.
    apply Hm. by eapply Inv_applyAck in E.
  - apply bind_Ok in E as (x & b1 & b4 & E & [-> ->]%ret_Ok & ->). rewrite app_nil_r.
    by eapply Inv_applyNack in E.
Qed.

(** ** Group metadata *)
(** The meta of a group is rewritten with the same counters. *)
Lemma Inv_regroup n db l g gn b :
  Inv n db → short l → short g → Forall bop_wf b →
  (let g0 := loadGroupMeta l g db in
   gn.(gm_ReadyCount) = g0.(gm_ReadyCount) ∧ gn.(gm_DelayedCount) = g0.(gm_DelayedCount) ∧
   gn.(gm_InflightCount) = g0.(gm_InflightCount) ∧ gn.(gm_TotalCount) = g0.(gm_TotalCount) ∧
   gn.(gm_NextSeq) = g0.(gm_NextSeq)) →
  core b = [BSet (GroupMetaKey l g) (VGroupMeta gn)] →
  Inv n (commit b db).
Proof.
  intros H Hl Hg Hb Hgn Hc. apply Inv_core; [by apply (inv_rows n)|done|]. rewrite Hc. intros Hwf'.
  destruct (loadGroupMeta_bound n db l g H Hl Hg) as (Hn1 & Hsq & Ht & Hlt). cbv zeta in Hgn.
  destruct Hgn as (E1 & E2 & E3 & E4 & E5).
  change (VGroupMeta gn) with (row_in gn) in *.
  pose proof (inv_n n db H).
  assert (Hnl : next_lease (commit [BSet (GroupMetaKey l g) (row_in gn)] db) = next_lease db).
  { apply next_lease_ext. by rewrite commit_frame_tag by (by repeat constructor). }
  (* message 0 never exists, so nothing moves at it *)
  assert (Hno : GetProto (A:=Message) (MessageKey l g 0) db = None).
  { destruct (GetProto (MessageKey l g 0) db) as [m|] eqn:E; [|done]. exfalso.
    destruct (group_info n l g 0 db m (inv_group n db H l g Hl Hg) (inv_rows n db H) Hl Hg ltac:(done) E)
      as (? & _ & Hbad & _). lia. }
  assert (Hz : (or_zero (GetProto (GroupMetaKey l g) db)).(gm_NextSeq) ≤
               (loadGroupMeta l g db).(gm_NextSeq)).
  { unfold or_zero, loadGroupMeta.
    destruct (GetProto (GroupMetaKey l g) db) as [g0|]; [reflexivity|done]. }
  apply (Inv_step n n l g 0 db); [done|lia|done|done|done|done|done|frame1_tac| | |].
  - lk. rewrite Hno. unfold gm_trans. cbv zeta.
    rewrite !(loadGroupMeta_or_zero _ _ _ gm_ReadyCount), !(loadGroupMeta_or_zero _ _ _ gm_DelayedCount),
      !(loadGroupMeta_or_zero _ _ _ gm_InflightCount) by done.
    simpl. split_and!; first [lia|done].
  - apply (lease_frame l g 0 db); [by eapply Inv_lease_ok|by apply (inv_rows n)|done..| | | |].
    + intros j Hj. by lk.
    + intros. by lk.
    + by rewrite Hno.
    + lk. by rewrite Hno.
  - rewrite Hnl. apply (inv_next n db H).
Qed.

Lemma Inv_applyGroupConfig n db c r b :
  Inv n db → short c.(gc_Lane) → short c.(gc_GroupID) →
  applyGroupConfig c db = Ok (r, b) → Inv n (commit b db).
Proof.
  intros H Hl Hg E. unfold applyGroupConfig in E.
  apply bind_Ok in E as (gm & b1 & b2 & [-> ->]%gets_Ok & E & ->). cbv zeta in E.
  destruct (loadGroupMeta_keys n db _ _ H Hl Hg) as (K1 & K2 & _).
  apply bind_Ok in E as ([] & b1 & b3 & [_ ->]%putProto_Ok & [-> ->]%ret_Ok & ->).
  eapply (Inv_regroup n db _ _ _ _ H Hl Hg); [..|reflexivity].
  - wf_list. apply row_wf_group; [done|done|..];
    repeat match goal with |- context [match ?x with _ => _ end] => destruct x end; done.
  - cbv zeta. repeat match goal with |- context [match ?x with _ => _ end] => destruct x end; done.
Qed.

(** ** Dropping the leasable messages of a group *)
Lemma cnt_zero l g st db :
  rows_wf db → short l → short g →
  (∀ i m, u64 i → GetProto (MessageKey l g i) db = Some m → m.(m_State) ≠ st) → cnt l g st db = 0.
Proof.
  intros Hwf Hl Hg Hno. unfold cnt.
  assert (filter (in_state l g st) db = ∅) as ->; [|by rewrite map_size_empty].
  apply map_empty. intros k. apply map_lookup_filter_None. right. intros v E [Hp Hs].
  simpl in *. apply prefix_tag in Hp as Ht.
  destruct (MessageKey_row _ _ _ Hwf E Ht) as (l' & g' & i & ? & ? & ? & ->).
  apply MessagePrefix_inv in Hp as [<- <-]; [|done..].
  destruct v; try done. injection Hs as Hs. eapply Hno; [done|by apply GetProto_row|done].
Qed.

(** One leasable message removed, with its count. *)
Definition gm_drop (m : Message) (gm : GroupMeta) : GroupMeta :=
  gm_set_TotalCount (gm.(gm_TotalCount) - 1)
    (if bool_decide (m.(m_State) = READY) then gm_set_ReadyCount (gm.(gm_ReadyCount) - 1) gm
     else gm_set_DelayedCount (gm.(gm_DelayedCount) - 1) gm).

Lemma leasable_spec m : leasable m = true ↔ m.(m_State) = READY ∨ m.(m_State) = DELAYED.
Proof. unfold leasable. by rewrite orb_true_iff, !bool_decide_eq_true. Qed.

Lemma Inv_drop n db l g i m gm :
  Inv n db → short l → short g → u64 i → leasable m = true →
  GetProto (MessageKey l g i) db = Some m → GetProto (GroupMetaKey l g) db = Some gm →
  Inv n (commit [BDel (MessageKey l g i); BSet (GroupMetaKey l g) (VGroupMeta (gm_drop m gm))] db) ∧
  1 ≤ gm.(gm_TotalCount).
Proof.
  intros H Hl Hg Hi Hst%leasable_spec Em Eg. pose proof (inv_rows n db H) as Hwf.
  destruct (group_info n l g i db m (inv_group n db H l g Hl Hg) Hwf Hl Hg Hi Em)
    as (gm0 & Eg0 & I1 & I2 & I3 & I4 & I5 & I6 & I7 & I8).
  rewrite Eg in Eg0. injection Eg0 as <-. rewrite !ind_Some in *.
  destruct (group_row l g db gm Hwf Hl Hg Eg) as [G1 G2].
  assert (Hb : Forall bop_wf [BDel (MessageKey l g i); BSet (GroupMetaKey l g) (VGroupMeta (gm_drop m gm))]).
  { wf_list. apply row_wf_group; [done|done|..]; unfold gm_drop; by destruct (bool_decide _). }
  pose proof (inv_n n db H).
  change (VGroupMeta (gm_drop m gm)) with (row_in (gm_drop m gm)) in *.
  split; [|destruct Hst as [Hst|Hst]; rewrite Hst in *; simpl in *; lia].
  apply (Inv_step n n l g i db); [done|lia|done|by apply rows_wf_commit|done|done|done|frame1_tac| | |].
  - rewrite Em, Eg. lk. unfold gm_trans, gm_drop. cbv zeta. rewrite !ind_Some.
    destruct Hst as [Hst|Hst]; rewrite !Hst in *; simpl in *; split_and!; first [lia|done].
  - apply (lease_frame l g i db); [by eapply Inv_lease_ok|done..| | | | |].
    + apply next_lease_ext. by rewrite commit_frame_tag by (by repeat constructor).
    + intros j Hj. by lk.
    + intros. apply (frame1_message l g i); [frame1_tac|done..].
    + rewrite Em. intros m0 [= <-]. by destruct Hst as [-> | ->].
    + intros m0. by lk.
  - rewrite (next_lease_ext db); [apply (inv_next n db H)|].
    by rewrite commit_frame_tag by (by repeat constructor).
Qed.

Lemma commit_deletes b db k :
  Forall (λ o, ∃ k', o = BDel k') b → db !! k = None → commit b db !! k = None.
Proof.
  intros Hb. revert db. induction Hb as [|o b [k' ->] Hb IH]; intros db E; [done|].
  rewrite commit_cons. apply IH. simpl. rewrite lookup_delete. by case_decide.
Qed.

Lemma dropRows_spec n l g rows acc db V gm d b :
  short l → short g → Inv n V → GetProto (GroupMetaKey l g) V = Some gm →
  Forall (λ kv : bytes * value, ∃ m, u64 m.(m_MsgId) ∧ kv.1 = MessageKey l g m.(m_MsgId) ∧
            kv.2 = VMessage m ∧ V !! kv.1 = Some kv.2) rows →
  NoDup rows.*1 → acc + gm.(gm_TotalCount) < two64 →
  dropRows l g rows acc db = Ok (d, b) →
  ∃ V' gm', Inv n V' ∧ GetProto (GroupMetaKey l g) V' = Some gm' ∧
    d + gm'.(gm_TotalCount) = acc + gm.(gm_TotalCount) ∧
    gm'.(gm_InflightCount) = gm.(gm_InflightCount) ∧ gm'.(gm_NextSeq) = gm.(gm_NextSeq) ∧
    Forall (λ o, ∃ i, o = BDel (MessageKey l g i)) b ∧
    (∀ k, k ≠ GroupMetaKey l g → V' !! k = commit b V !! k) ∧
    (∀ k m, (k, VMessage m) ∈ rows → leasable m = true → V' !! k = None).
Proof.
  intros Hl Hg. revert acc V gm d b.
  induction rows as [|[k v] rows IH]; intros acc V gm d b HV Eg Hrows Hnd Hacc E; cbn [dropRows] in E.
  { minv E. exists V, gm. split_and!; try done. intros k m Hin. by apply elem_of_nil in Hin. }
  apply Forall_cons in Hrows as [(m & Hi & Hk & Hv & Em) Hrows]. simpl in Hk, Hv, Em. subst k v.
  rewrite fmap_cons, NoDup_cons in Hnd. destruct Hnd as [Hnin Hnd]. cbn [row_out Row_Message] in E.
  destruct (leasable m) eqn:Els.
  - apply bind_Ok in E as ([] & b1 & b2 & [_ ->]%bdel_Ok & E & ->).
    destruct (Inv_drop n V l g m.(m_MsgId) m gm HV Hl Hg Hi Els ltac:(by apply GetProto_row) Eg)
      as [HV1 Ht1].
    set (V1 := commit _ V) in HV1.
    assert (Eg1 : GetProto (GroupMetaKey l g) V1 = Some (gm_drop m gm)).
    { unfold V1. change (VGroupMeta (gm_drop m gm)) with (row_in (gm_drop m gm)). by lk. }
    assert (HV1k : ∀ k, k ≠ GroupMetaKey l g → V1 !! k = commit [BDel (MessageKey l g m.(m_MsgId))] V !! k).
    { intros k Hk. unfold V1, commit. cbn [foldl apply_bop]. by rewrite lookup_insert_ne. }
    assert (Hd : gm_TotalCount (gm_drop m gm) = gm.(gm_TotalCount) - 1 ∧
                 gm_InflightCount (gm_drop m gm) = gm.(gm_InflightCount) ∧
                 gm_NextSeq (gm_drop m gm) = gm.(gm_NextSeq)).
    { unfold gm_drop. by destruct (bool_decide _). }
    destruct Hd as (D1 & D2 & D3).
    rewrite incr64_small in E by lia.
    destruct (IH (acc + 1) V1 (gm_drop m gm) d b2 HV1 Eg1) as
      (V' & gm' & R1 & R2 & R3 & R4 & R5 & R7 & R8 & R9); [|done|lia|done|].
    + rewrite Forall_forall in Hrows |- *. intros kv Hin.
      destruct (Hrows kv Hin) as (m1 & ? & Hk1 & ? & Em1). exists m1. split_and!; try done.
      rewrite HV1k by (rewrite Hk1; key_ne). unfold commit. cbn [foldl apply_bop].
      rewrite lookup_delete_ne; [done|]. intros Ek. apply Hnin. rewrite Ek.
      apply list_elem_of_fmap. by exists kv.
    + exists V', gm'. split_and!; try done; [lia|congruence|congruence|by constructor; eauto|..].
      * intros k Hk. rewrite R8 by done. rewrite commit_app. apply commit_local. by apply HV1k.
      * intros k m1 [[= -> ->]|Hin]%elem_of_cons Hm1; [|by eapply R9].
        rewrite R8 by key_ne. apply commit_deletes; [by eapply Forall_impl; [exact R7|naive_solver]|].
        rewrite HV1k by key_ne. apply lookup_delete_eq.
  - destruct (IH acc V gm d b HV Eg Hrows Hnd Hacc E) as
      (V' & gm' & R1 & R2 & R3 & R4 & R5 & R7 & R8 & R9).
    exists V', gm'. split_and!; try done.
    intros k m1 [[= -> ->]|Hin]%elem_of_cons Hm1; [congruence|by eapply R9].
Qed.

Lemma commit_deletes_Some b db k v :
  Forall (λ o, ∃ k', o = BDel k') b → commit b db !! k = Some v → db !! k = Some v.
Proof.
  intros Hb. revert db. induction Hb as [|o b [k' ->] Hb IH]; intros db E; [done|].
  rewrite commit_cons in E. apply IH in E. simpl in E. by apply lookup_delete_Some in E as [_ E].
Qed.

Lemma dropLeasable_spec n l g gm db d b :
  Inv n db → short l → short g → GetProto (GroupMetaKey l g) db = Some gm →
  dropLeasable l g gm db = Ok (d, b) →
  Inv n (commit b db) ∧ d = gm.(gm_ReadyCount) + gm.(gm_DelayedCount) ∧
  (∀ i m, u64 i → GetProto (MessageKey l g i) (commit b db) = Some m →
     m.(m_State) = LEASED ∧ GetProto (MessageKey l g i) db = Some m).
Proof.
  intros H Hl Hg Eg E. pose proof (inv_rows n db H) as Hwf. unfold dropLeasable in E.
  apply bind_Ok in E as (rows & b1 & b2 & [-> ->]%gets_Ok & E & ->). cbv zeta in E. simpl app.
  apply bind_Ok in E as (d' & b1 & b3 & E & E' & ->).
  apply bind_Ok in E' as ([] & b2 & b4 & [_ ->]%putProto_Ok & [-> ->]%ret_Ok & ->).
  rewrite app_nil_r. simpl gm_TotalCount. simpl gm_InflightCount.
  destruct (group_bounds n l g db gm (inv_group n db H l g Hl Hg) Eg) as (Ht & Hlt & Hsq & _).
  pose proof (inv_n n db H) as Hn. destruct (group_row l g db gm Hwf Hl Hg Eg) as [G1 G2].
  edestruct (dropRows_spec n l g (NewIter (MessagePrefix l g) (PrefixEnd (MessagePrefix l g)) db)
               0 db db gm d' b1 Hl Hg H Eg)
    as (V' & gm' & HV & Eg' & R3 & R4 & R5 & R7 & R8 & R9); [..|exact E|].
  { apply Forall_forall. intros [k v] Hin. apply scan_message in Hin as Hs; [|done..].
    destruct Hs as (i & m & Hi & -> & -> & <- & Em). exists m. apply GetProto_row in Em.
    by split_and!. }
  { apply NewIter_NoDup_fst. }
  { lia. }
  assert (Hdel : Forall (λ o, ∃ k', o = BDel k') b1) by (eapply Forall_impl; [exact R7|naive_solver]).
  assert (Hnone : ∀ i m, u64 i → GetProto (MessageKey l g i) V' = Some m →
                         leasable m = false ∧ GetProto (MessageKey l g i) db = Some m).
  { intros i m Hi Em. assert (Em0 : GetProto (MessageKey l g i) db = Some m).
    { apply GetProto_row. apply GetProto_row in Em. rewrite R8 in Em by key_ne.
      by eapply commit_deletes_Some. }
    split; [|done]. destruct (leasable m) eqn:Els; [|done]. exfalso.
    pose proof (message_scan _ _ _ _ _ Em0) as Hin. apply R9 in Hin; [|done].
    apply GetProto_row in Em. by rewrite Hin in Em. }
  destruct (group_bounds n l g V' gm' (inv_group n V' HV l g Hl Hg) Eg') as (Ht' & Hlt' & _ & _).
  assert (Hz : ∀ st, st = READY ∨ st = DELAYED → cnt l g st V' = 0).
  { intros st Hst. apply cnt_zero; [by apply (inv_rows n)|done|done|]. intros i m Hi Em Est.
    apply Hnone in Em as [Hls _]; [|done]. apply not_true_iff_false in Hls. apply Hls, leasable_spec.
    by rewrite Est. }
  pose proof (inv_group n V' HV l g Hl Hg) as Hok. unfold group_ok in Hok. rewrite Eg' in Hok.
  destruct Hok as (Or & Od & _). rewrite Hz in Or, Od by auto.
  set (gf := if d' <=? gm_TotalCount gm then _ else _).
  assert (Hgf : gm_ReadyCount gf = 0 ∧ gm_DelayedCount gf = 0 ∧
    gm_InflightCount gf = gm_InflightCount gm ∧ gm_TotalCount gf = gm_TotalCount gm' ∧
    gm_NextSeq gf = gm_NextSeq gm ∧ gm_Lane gf = l ∧ gm_GroupId gf = g).
  { unfold gf. destruct (N.leb_spec d' (gm_TotalCount gm)); simpl; split_and!; try done; lia. }
  destruct Hgf as (F1 & F2 & F3 & F4 & F5 & F6 & F7).
  assert (Hfin : commit (b1 ++ [BSet (GroupMetaKey l g) (VGroupMeta gf)]) db =
                 commit [BSet (GroupMetaKey l g) (VGroupMeta gf)] V').
  { apply map_eq. intros k. rewrite commit_app. unfold commit at 1 3. cbn [foldl apply_bop].
    rewrite !lookup_insert. case_decide as Hk; [done|]. by rewrite R8. }
  change (row_in gf) with (VGroupMeta gf). rewrite Hfin. split_and!.
  - eapply (Inv_regroup n V' l g gf); [done|done|done| | |reflexivity].
    + by wf_list.
    + assert (loadGroupMeta l g V' = gm') as -> by (unfold loadGroupMeta; by rewrite Eg').
      cbv zeta. split_and!; congruence.
  - lia.
  - intros i m Hi. change (VGroupMeta gf) with (row_in gf). lk. intros Em.
    destruct (message_row _ _ _ _ _ (inv_rows n V' HV) Hl Hg Hi Em) as (_ & _ & _ & Hlive).
    apply Hnone in Em as [Hls Em]; [|done]. split; [|done].
    unfold leasable in Hls. destruct (m_State m); done.
Qed.

Lemma Inv_applyGroupLifecycle n db c r b :
  Inv n db → short c.(gl_Lane) → short c.(gl_GroupID) →
  applyGroupLifecycle c db = Ok (r, b) → Inv n (commit b db).
Proof.
  intros H Hl Hg E. unfold applyGroupLifecycle in E.
  apply bind_Ok in E as (o & b1 & b2 & [-> ->]%gets_Ok & E & ->). simpl app.
  destruct (GetProto (GroupMetaKey _ _) db) as [gm|] eqn:Eg; [|by minv E].
  destruct (group_row _ _ db gm (inv_rows n db H) Hl Hg Eg) as [G1 G2].
  assert (Hp : ∀ p, Inv n (commit [BSet (GroupMetaKey c.(gl_Lane) c.(gl_GroupID))
                                     (VGroupMeta (gm_set_Paused p gm))] db)).
  { intros p. eapply (Inv_regroup n db _ _ _ _ H Hl Hg); [..|reflexivity].
    - by wf_list.
    - unfold loadGroupMeta. by rewrite Eg. }
  destruct (_ =? GroupPause); [minv E; apply Hp|].
  destruct (_ =? GroupResume); [minv E; apply Hp|].
  destruct (_ || _); [|by minv E].
  apply bind_Ok in E as (d & b1 & b3 & E & [-> ->]%ret_Ok & ->). rewrite app_nil_r.
  by apply (dropLeasable_spec n) in E as [? _].
Qed.

(** A drained group's meta is removed. *)
Lemma Inv_applyReapGroup n db c r b :
  Inv n db → short c.(rg_Lane) → short c.(rg_GroupID) →
  applyReapGroup c db = Ok (r, b) → Inv n (commit b db).
Proof.
  intros H Hl Hg E. unfold applyReapGroup in E.
  apply bind_Ok in E as (o & b1 & b2 & [-> ->]%gets_Ok & E & ->). simpl app.
  destruct (GetProto (GroupMetaKey _ _) db) as [gm|] eqn:Eg; [|by minv E].
  destruct (N.eqb_spec gm.(gm_TotalCount) 0) as [Ht0|]; [|by minv E]. cbn [negb] in E.
  minv E. set (l := rg_Lane c) in *. set (g := rg_GroupID c) in *.
  pose proof (inv_rows n db H) as Hwf. pose proof (inv_n n db H) as Hn.
  assert (Hno : ∀ i m, u64 i → GetProto (MessageKey l g i) db = Some m → False).
  { intros i m Hi Em.
    destruct (group_info n l g i db m (inv_group n db H l g Hl Hg) Hwf Hl Hg Hi Em)
      as (gm0 & Eg0 & I1 & I2 & I3 & I4 & I5 & I6 & I7 & I8).
    rewrite Eg in Eg0. injection Eg0 as <-. rewrite !ind_Some in *.
    destruct (message_row _ _ _ _ _ Hwf Hl Hg Hi Em) as (_ & _ & _ & Hlive).
    destruct (m_State m); try done; simpl in *; lia. }
  assert (Hnl : next_lease (commit [BDel (GroupMetaKey l g)] db) = next_lease db).
  { apply next_lease_ext. by rewrite commit_frame_tag by (by repeat constructor). }
  assert (Hwf' : rows_wf (commit [BDel (GroupMetaKey l g)] db)) by (apply rows_wf_commit; [done|by wf_list]).
  destruct H as [_ _ Hgr Hls Hm Hnx]. constructor; rewrite ?Hnl; [done|done| | | |done].
  - intros l' g' Hl' Hg'. destruct (decide ((l', g') = (l, g))) as [[= -> ->]|Hne].
    + unfold group_ok. lk. intros i Hi. lk.
      destruct (GetProto (A:=Message) (MessageKey l g i) db) as [m|] eqn:Em; [|done]. by destruct (Hno i m Hi Em).
    + apply (group_ok_frame n n l' g' db); [done|by apply Hgr|..].
      * intros k Hp. apply commit_frame. cbn. rewrite list_elem_of_singleton.
        intros ->. by apply prefix_tag in Hp.
      * apply commit_frame. cbn. rewrite list_elem_of_singleton. intros Ek.
        apply GroupMetaKey_inj in Ek as [-> ->]; done.
  - intros id ls Hid. lk. intros Els. destruct (Hls id ls Hid Els) as (? & ? & m & ? & ?).
    split; [done|]. split; [done|]. exists m. by lk.
  - intros l' g' i m ? ? ?. lk. intros Em Hst. destruct (Hm l' g' i m) as (? & ls & ? & ?); [done..|].
    split; [done|]. exists ls. by lk.
Qed.

(** ** Redrive and crons *)
Lemma findDead_in msgID rows k dl :
  findDead msgID rows = Some (k, dl) → (k, VDeadLetter dl) ∈ rows ∧ dl.(dl_Original).(m_MsgId) = msgID.
Proof.
  induction rows as [|[k' v] rows IH]; simpl; [done|]. destruct v; simpl; try (intros E; by apply IH in E as [? ?]; split; [right|]).
  destruct (N.eqb_spec (m_MsgId (dl_Original d)) msgID).
  - intros [= <- <-]. split; [left|done].
  - intros E; apply IH in E as [? ?]; split; [by right|done].
Qed.

Lemma Inv_applyRedrive n db c r b :
  Inv n db → n + 1 < two64 → short c.(rd_Lane) → short c.(rd_GroupID) →
  applyRedrive c db = Ok (r, b) → Inv (n + 1) (commit b db).
Proof.
  intros H Hn Hl Hg E. unfold applyRedrive in E.
  apply bind_Ok in E as (rows & b1 & b2 & [-> ->]%gets_Ok & E & ->). simpl app.
  destruct (findDead _ _) as [[k dl]|] eqn:Ef; [|minv E; by apply (Inv_mono n); [|lia|]].
  apply findDead_in in Ef as [[_ Hin]%elem_of_NewIter _].
  apply PrefixEnd_range in Hin as [x ->].
  apply bind_Ok in E as (gm & b1 & b3 & [-> ->]%gets_Ok & E & ->). simpl app.
  apply bind_Ok in E as ([id gn] & b1 & b4 & E1 & E & ->).
  apply bind_Ok in E as ([] & b5 & b6 & [_ ->]%putProto_Ok & E & ->).
  apply bind_Ok in E as ([] & b5 & b7 & [_ ->]%bdel_Ok & [-> ->]%ret_Ok & ->).
  destruct (loadGroupMeta_bound n db _ _ H Hl Hg) as (_ & Hsq & _).
  destruct (loadGroupMeta_keys n db _ _ H Hl Hg) as (K1 & K2 & _).
  apply publishOne_core in E1 as (Hwf & -> & m & Hc & Hst & Hp); [|done|done|unfold u64; lia].
  destruct Hp as (P1 & P2 & P).
  eapply Inv_published; [done|done|exact Hl|exact Hg| |reflexivity|exact Hst|split; [done|split; [done|exact P]]|].
  - wf_list; apply row_wf_group; [done|done|congruence|congruence].
  - rewrite core_app, Hc. reflexivity.
Qed.

Lemma row_wf_cron k spec : value_typed k (VCron spec) → short spec.(cs_Lane) → short spec.(cs_GroupID) →
  bop_wf (BSet k (VCron spec)).
Proof. by split. Qed.
Lemma cron_row n db id spec :
  Inv n db → loadCron id db = Some spec → short spec.(cs_Lane) ∧ short spec.(cs_GroupID).
Proof. intros H E%GetProto_row. by apply (inv_rows n db H) in E as [_ ?]. Qed.

Lemma Inv_applyCron n db c r b :
  Inv n db → short c.(cr_Lane) → short c.(cr_GroupID) →
  applyCron c db = Ok (r, b) → Inv n (commit b db).
Proof.
  intros H Hl Hg E.
  assert (Hb : Forall bop_wf b ∧ core b = []); [|destruct Hb; by apply Inv_quiet].
  unfold applyCron in E. destruct (_ =? CronSchedule).
  { minv E; split; [wf_list; by apply row_wf_cron; [exact I|..]|done]. }
  destruct (_ =? CronDelete).
  { minv E; (split; [wf_list|reflexivity]). }
  destruct (_ =? CronPause).
  { apply bind_Ok in E as (o & b1 & b2 & [-> ->]%gets_Ok & E & ->). simpl app.
    destruct (loadCron _ db) as [spec|] eqn:Es; [|by minv E].
    destruct (cron_row n db _ _ H Es). minv E; (split; [wf_list; by apply row_wf_cron; [exact I|..]|reflexivity]). }
  destruct (_ =? CronResume); [|by minv E].
  apply bind_Ok in E as (o & b1 & b2 & [-> ->]%gets_Ok & E & ->). simpl app.
  destruct (loadCron _ db) as [spec|] eqn:Es; [|by minv E].
  destruct (cron_row n db _ _ H Es). minv E; (split; [wf_list; by apply row_wf_cron; [exact I|..]|reflexivity]).
Qed.

Lemma Inv_applyFireCron n db c r b :
  Inv n db → n + 1 < two64 → applyFireCron c db = Ok (r, b) → Inv (n + 1) (commit b db).
Proof.
  intros H Hn E. unfold applyFireCron in E.
  apply bind_Ok in E as (o & b1 & b2 & [-> ->]%gets_Ok & E & ->). simpl app.
  destruct (loadCron _ db) as [spec|] eqn:Es; [|minv E; by apply (Inv_mono n); [|lia|]].
  destruct (cron_row n db _ _ H Es) as [Hl Hg]. cbv zeta in E.
  apply bind_Ok in E as (o & b1 & b3 & [-> ->]%gets_Ok & E & ->). simpl app.
  destruct (GetRaw _ db); [|minv E; by apply (Inv_mono n); [|lia|]].
  apply bind_Ok in E as (id & b1 & b4 & E1 & E & ->).
  eapply (publishReady_pub n (λ _, True)) in E1 as [Hb Hp]; [|done..].
  minv E. apply (Inv_pub n (λ _, True)); [done|done|by apply pub_core_app_r|].
  by wf_list.
Qed.

(** ** Commands that write no broker row *)
Lemma Inv_applySingleton n db c r b :
  Inv n db → applySingleton c db = Ok (r, b) → Inv n (commit b db).
Proof.
  intros H E. apply Inv_quiet; [done|..]; unfold applySingleton in E; minv E; wf_list; done.
Qed.
Lemma Inv_applySetLaneConfig n db c r b :
  Inv n db → applySetLaneConfig c db = Ok (r, b) → Inv n (commit b db).
Proof. intros H E. unfold applySetLaneConfig in E. minv E. apply Inv_quiet; [done|by wf_list|done]. Qed.
Lemma Inv_applySetPolicy n db c r b :
  Inv n db → applySetPolicy c db = Ok (r, b) → Inv n (commit b db).
Proof. intros H E. unfold applySetPolicy in E. minv E. apply Inv_quiet; [done|by wf_list|done]. Qed.

Lemma Inv_applyAuthPrincipal n db c r b :
  Inv n db → applyAuthPrincipal c db = Ok (r, b) → Inv n (commit b db).
Proof.
  intros H E. apply Inv_quiet; [done|..];
    unfold applyAuthPrincipal, applyAuthCreatePrincipal, applyAuthRotatePrincipalToken,
      applyAuthSetPrincipalDisabled, applyAuthGrantPrincipal, applyAuthRevokePrincipalGrant,
      loadAuthPrincipal in E; minv E; wf_list; done.
Qed.
