(* ===== verification/AccountingLog.v ===== *)
(** * The accounting invariant along a log

    Timers, workflow commands and the publish batch preserve the invariant, and
    so does every command of a log except a group teardown. *)

From S2P Require Import Prelude Keys Data Store Backoff Publish Workflow Broker Control Auth Timers Fsm Reason Accounting AccountingOps.

Implicit Types (db : store) (n : N) (m : Message) (gm : GroupMeta) (b : batch).

Lemma Inv_app_quiet n b1 b2 db :
  Inv n (commit b1 db) → Forall bop_wf b2 → core b2 = [] → Inv n (commit (b1 ++ b2) db).
Proof. intros. rewrite commit_app. by apply Inv_quiet. Qed.

(** ** References parse to representable names *)
Lemma takeLP_short (b s r : bytes) : takeLP b = Some (s, r) → short s.
Proof.
  unfold takeLP. destruct (Nat.ltb_spec (length b) 2); [done|].
  cbv zeta. destruct (Nat.ltb_spec (length b) (2 + N.to_nat (be_val (take 2 b)))); [done|].
  intros [= <- _]. unfold short. pose proof (be_val_lt (take 2 b)) as Hv.
  rewrite (length_take_le b 2) in Hv by done.
  rewrite length_take. change (256 ^ N.of_nat 2) with two16 in Hv. lia.
Qed.
Lemma be_val_take8 (b : bytes) : (8 <= length b)%nat → u64 (be_val (take 8 b)).
Proof.
  intros Hb. unfold u64. pose proof (be_val_lt (take 8 b)) as Hv.
  by rewrite length_take_le in Hv by done.
Qed.
Lemma ParseReadyAtRef_ok ref l g i :
  ParseReadyAtRef ref = Some (l, g, i) → short l ∧ short g ∧ u64 i.
Proof.
  unfold ParseReadyAtRef. destruct (takeLP ref) as [[l' r1]|] eqn:E1; [|done].
  destruct (takeLP r1) as [[g' r2]|] eqn:E2; [|done].
  destruct (Nat.ltb_spec (length r2) 8); [done|]. intros [= <- <- <-].
  split_and!; [by eapply takeLP_short|by eapply takeLP_short|by apply be_val_take8].
Qed.
Lemma ParseLeaseDeadlineRef_ok ref i : ParseLeaseDeadlineRef ref = Some i → u64 i.
Proof.
  unfold ParseLeaseDeadlineRef. destruct (Nat.ltb_spec (length ref) 8); [done|].
  intros [= <-]. by apply be_val_take8.
Qed.

Section timers.
Context {PC : PayloadCodec}.

Lemma Inv_fireReadyAt n db ref e r b :
  Inv n db → fireReadyAt ref e db = Ok (r, b) → Inv n (commit b db).
Proof.
  intros H E. unfold fireReadyAt in E.
  destruct (ParseReadyAtRef ref) as [[[l g] i]|] eqn:Ep; [|by minv E].
  apply ParseReadyAtRef_ok in Ep as (Hl & Hg & Hi).
  apply bind_Ok in E as (o & b1 & b2 & [-> ->]%gets_Ok & E & ->). simpl app.
  destruct (GetProto (MessageKey l g i) db) as [m|] eqn:Em; [|by minv E].
  destruct (bool_decide_reflect (m_State m = DELAYED)) as [Hst|]; [|by minv E].
  destruct (_ && _); [|by minv E]. cbv zeta in E.
  pose proof (inv_rows n db H) as Hwf. pose proof (inv_n n db H).
  destruct (group_info n l g i db m (inv_group n db H l g Hl Hg) Hwf Hl Hg Hi Em)
    as (gm & Eg & I1 & I2 & I3 & I4 & I5 & I6 & I7 & I8). rewrite !ind_Some in *.
  destruct (message_row _ _ _ _ _ Hwf Hl Hg Hi Em) as (M1 & M2 & M3 & M4).
  destruct (group_row l g db gm Hwf Hl Hg Eg) as [G1 G2].
  set (m' := m_set_Epoch _ _) in *.
  set (gm' := gm_set_DelayedCount (decr gm.(gm_DelayedCount))
                (gm_set_ReadyCount (incr64 gm.(gm_ReadyCount)) gm)).
  assert (b2 = [BSet (GroupMetaKey l g) (row_in gm'); BSet (MessageKey l g i) (row_in m')]) as ->.
  { clear -E Eg. minv E; by simplify_eq. }
  assert (Hb : Forall bop_wf [BSet (GroupMetaKey l g) (row_in gm'); BSet (MessageKey l g i) (row_in m')])
    by wf_list.
  apply (Inv_step n n l g i db); [done|lia|done|by apply rows_wf_commit|done|done|done|frame1_tac| | |].
  - rewrite Em, Eg. lk. unfold gm_trans, gm'. cbv zeta. rewrite !ind_Some, !Hst in *. simpl in *.
    rewrite decr_eq, (incr64_le n) by lia. split_and!; first [lia|intros _; lia].
  - apply (lease_frame l g i db); [by eapply Inv_lease_ok|done..| | | | |].
    + apply next_lease_ext. by rewrite commit_frame_tag by (by repeat constructor).
    + intros j Hj. by lk.
    + intros. apply (frame1_message l g i); [frame1_tac|done..].
    + rewrite Em. intros m0 [= <-]. by rewrite Hst.
    + intros m0. lk. by intros [= <-].
  - rewrite (next_lease_ext db); [apply (inv_next n db H)|].
    by rewrite commit_frame_tag by (by repeat constructor).
Qed.

Lemma Inv_fireLeaseDeadline n db ref e at_ r b :
  Inv n db → fireLeaseDeadline ref e at_ db = Ok (r, b) → Inv n (commit b db).
Proof.
  intros H E. unfold fireLeaseDeadline in E.
  destruct (ParseLeaseDeadlineRef ref) as [id|] eqn:Ep; [|by minv E].
  apply ParseLeaseDeadlineRef_ok in Ep as Hid.
  apply bind_Ok in E as (o & b1 & b2 & [-> ->]%gets_Ok & E & ->). simpl app.
  destruct (GetProto (LeaseKey id) db) as [ls|] eqn:Els; [|by minv E].
  destruct (lease_facts n db _ ls H Hid Els) as (Hl & Hg & Hi & m & gm & Em & Hby & Hst & M1 & M2 &
    M3 & Eg & G1 & G2 & I1 & I2 & I3 & I4 & I5 & I6).
  apply bind_Ok in E as (o & b1 & b3 & [-> ->]%gets_Ok & E & ->). simpl app.
  rewrite Em in E. destruct (_ && _); [|by minv E].
  apply bind_Ok in E as ([] & b1 & b4 & [_ ->]%bdel_Ok & E & ->).
  apply bind_Ok in E as ([] & bt & b5 & Et & E & ->). cbv zeta in E.
  assert (Hbt : Forall bop_wf bt ∧ core bt = []).
  { apply when_Ok in Et as [[_ [_ ->]%bdel_Ok]|[_ ->]]; by split; [wf_list|]. }
  destruct Hbt as [Hbt1 Hbt2].
  apply bind_Ok in E as (o & b1 & b6 & [-> ->]%gets_Ok & E & ->). simpl app.
  rewrite Eg in E. cbn [is_Some or_zero default] in E. rewrite bool_decide_eq_true_2 in E by eauto.
  apply bind_Ok in E as (gn & b1 & b7 & E & E' & ->). unfold expireLease, penaliseExpiry in E.
  apply when_Ok in E' as [[_ [_ ->]%putProto_Ok]|[? _]]; [|done].
  eapply makeReady_core in E as (Hb & m2 & Hc & Hgn); [|by rewrite ?M1, ?M2, ?M3..].
  rewrite M1, M2, M3 in *.
  apply (Inv_requeue n db id ls m gm m2 gn); try done.
  - assert (gn.(gm_Lane) = ls.(ls_Lane) ∧ gn.(gm_GroupId) = ls.(ls_GroupId)) as [? ?].
    { by destruct Hgn as [[_ ->]|[_ ->]]. }
    by wf_list.
  - change (BDel (LeaseKey id) :: ?x) with ([BDel (LeaseKey id)] ++ x).
    rewrite !core_app, Hbt2, Hc. reflexivity.
Qed.

Lemma Inv_fireLeaseMaxLife n db ref at_ r b :
  Inv n db → n + 1 < two64 → fireLeaseMaxLife ref at_ db = Ok (r, b) → Inv (n + 1) (commit b db).
Proof.
  intros H Hn E. unfold fireLeaseMaxLife in E.
  assert (Hm : ∀ db', Inv n db' → Inv (n + 1) db') by (intros; by apply (Inv_mono n); [|lia|]).
  destruct (ParseLeaseDeadlineRef ref) as [id|] eqn:Ep; [|minv E; by apply Hm].
  apply ParseLeaseDeadlineRef_ok in Ep as Hid.
  apply bind_Ok in E as (o & b1 & b2 & [-> ->]%gets_Ok & E & ->). simpl app.
  destruct (GetProto (LeaseKey id) db) as [ls|] eqn:Els; [|minv E; by apply Hm].
  destruct (lease_facts n db _ ls H Hid Els) as (Hl & Hg & Hi & m & gm & Em & Hby & Hst & M1 & M2 &
    M3 & Eg & G1 & G2 & I1 & I2 & I3 & I4 & I5 & I6).
  apply bind_Ok in E as (o & b1 & b3 & [-> ->]%gets_Ok & E & ->). simpl app.
  rewrite Em, Hby in E.
  apply bind_Ok in E as ([] & b1 & b4 & [_ ->]%bdel_Ok & E & ->).
  apply bind_Ok in E as ([] & bt & b5 & Et & E & ->).
  assert (Hbt : Forall bop_wf bt ∧ core bt = []).
  { apply when_Ok in Et as [[_ [_ ->]%bdel_Ok]|[_ ->]]; by split; [wf_list|]. }
  destruct Hbt as [Hbt1 Hbt2].
  apply bind_Ok in E as ([] & b1 & b6 & [_ ->]%delTimer_Ok & E & ->). cbv zeta in E.
  apply bind_Ok in E as (o & b1 & b7 & [-> ->]%gets_Ok & E & ->).
  rewrite Eg in E. cbn [is_Some or_zero default] in E. rewrite bool_decide_eq_true_2 in E by eauto.
  apply bind_Ok in E as ([] & b1 & b8 & Ed & E & ->).
  apply when_Ok in E as [[_ [_ ->]%putProto_Ok]|[? _]]; [|done].
  eapply (deadLetter_core n) in Ed as (bp & -> & Hbp & Hp & Hact); [|done].
  rewrite M1, M2, M3 in *. rewrite app_nil_l, <-!app_assoc.
  rewrite (app_assoc [BDel _]), (app_assoc ([BDel _] ++ bt)), (app_assoc (([BDel _] ++ bt) ++ [_])).
  apply (Inv_bury n db id ls m gm); try done.
  - by wf_list.
  - rewrite !core_app, Hbt2. reflexivity.
Qed.

(** A message that was never leased expires. *)
Lemma Inv_fireMsgExpiry n db ref at_ r b :
  Inv n db → n + 1 < two64 → fireMsgExpiry ref at_ db = Ok (r, b) → Inv (n + 1) (commit b db).
Proof.
  intros H Hn E. unfold fireMsgExpiry in E.
  assert (Hm : ∀ db', Inv n db' → Inv (n + 1) db') by (intros; by apply (Inv_mono n); [|lia|]).
  destruct (ParseReadyAtRef ref) as [[[l g] i]|] eqn:Ep; [|minv E; by apply Hm].
  apply ParseReadyAtRef_ok in Ep as (Hl & Hg & Hi).
  apply bind_Ok in E as (o & b1 & b2 & [-> ->]%gets_Ok & E & ->). simpl app.
  destruct (GetProto (MessageKey l g i) db) as [m|] eqn:Em; [|minv E; by apply Hm].
  destruct (leasable m) eqn:Els; [|minv E; by apply Hm]. cbv zeta in E.
  pose proof (inv_rows n db H) as Hwf. pose proof (inv_n n db H).
  destruct (message_row _ _ _ _ _ Hwf Hl Hg Hi Em) as (M1 & M2 & M3 & M4).
  destruct (group_info n l g i db m (inv_group n db H l g Hl Hg) Hwf Hl Hg Hi Em)
    as (gm & Eg & I1 & I2 & I3 & I4 & I5 & I6 & I7 & I8).
  destruct (group_row l g db gm Hwf Hl Hg Eg) as [G1 G2].
  apply bind_Ok in E as (o & b1 & b3 & [-> ->]%gets_Ok & E & ->). simpl app.
  rewrite Eg in E. cbn [is_Some or_zero default] in E. rewrite bool_decide_eq_true_2 in E by eauto.
  apply bind_Ok in E as ([] & b1 & b4 & Ed & E & ->).
  apply when_Ok in E as [[_ [_ ->]%putProto_Ok]|[? _]]; [|done].
  eapply (deadLetter_core n) in Ed as (bp & -> & Hbp & Hp & Hact); [|done].
  rewrite M1, M2, M3 in *. rewrite <-!app_assoc.
  destruct (Inv_drop n db l g i m gm H Hl Hg Hi Els Em Eg) as [Hdrop Ht1].
  match goal with |- context [BSet _ (row_in ?x)] => assert (x = gm_drop m gm) as -> end.
  { unfold gm_drop. rewrite ind_Some in *. apply leasable_spec in Els as [Hst|Hst]; rewrite Hst in *; simpl in *;
      rewrite !decr_eq; done. }
  change (row_in (gm_drop m gm)) with (VGroupMeta (gm_drop m gm)).
  assert (Hbg : bop_wf (BSet (GroupMetaKey l g) (VGroupMeta (gm_drop m gm)))).
  { apply row_wf_group; [done|done|..]; unfold gm_drop; by destruct (bool_decide _). }
  apply Inv_pub_mid; try done; [|by wf_list|by wf_list|].
  - apply Inv_core; [done|by wf_list|]. by intros _.
  - destruct Hact as [?|Hact]; [by left|right]. intros l' g' i' Hw Hl' Hg'.
    match goal with |- context [core (?x ++ ?y)] => change (core (x ++ y)) with
      [BDel (MessageKey l g i); BSet (GroupMetaKey l g) (VGroupMeta (gm_drop m gm))] end.
    cbn. rewrite !not_elem_of_cons. split_and!; try apply not_elem_of_nil; try key_ne.
    intros E. apply GroupMetaKey_inj in E as [-> _]; [|done..]. by apply (act_not_wf _ _ Hact Hw).
Qed.

Lemma Inv_applyFireTimer n db c r b :
  Inv n db → n + 1 < two64 → applyFireTimer c db = Ok (r, b) → Inv (n + 1) (commit b db).
Proof.
  intros H Hn E. unfold applyFireTimer in E.
  assert (Hm : ∀ db', Inv n db' → Inv (n + 1) db') by (intros; by apply (Inv_mono n); [|lia|]).
  apply bind_Ok in E as (o & b1 & b2 & [-> ->]%gets_Ok & E & ->). simpl app.
  destruct (GetRaw _ db) as [val|]; [|minv E; by apply Hm]. cbv zeta in E.
  apply bind_Ok in E as ([] & b1 & b3 & E & E' & ->).
  apply bind_Ok in E' as ([] & b2 & b4 & [_ ->]%bdel_Ok & [-> ->]%ret_Ok & ->).
  apply Inv_app_quiet; [|by wf_list|done]. unfold fireKind in E.
  destruct (bool_decide _); [by eapply Hm, Inv_fireReadyAt|].
  destruct (bool_decide _); [by eapply Hm, Inv_fireLeaseDeadline|].
  destruct (bool_decide _); [by eapply Inv_fireLeaseMaxLife|].
  destruct (bool_decide _).
  { unfold fireWFTimer in E. destruct (ParseWFTimerRef _) as [[]|]; [|minv E; by apply Hm].
    eapply appendExternalEvent_pub in E as [? ?]; [|done]. by eapply Inv_pub. }
  destruct (bool_decide _); [by eapply Inv_fireMsgExpiry|].
  destruct (bool_decide _); [|minv E; by apply Hm].
  apply Hm. unfold fireDedupExpiry in E.
  apply Inv_quiet; [done|..]; minv E; try (by wf_list); done.
Qed.
End timers.

(** ** Decimal run groups fit a length prefix *)
Lemma nb_digits_double d : (Decimal.nb_digits (Decimal.Little.double d) <= S (Decimal.nb_digits d))%nat ∧
  (Decimal.nb_digits (Decimal.Little.succ_double d) <= S (Decimal.nb_digits d))%nat.
Proof. induction d; simpl; lia. Qed.
Lemma nb_digits_little p : (Decimal.nb_digits (Pos.to_little_uint p) <= Pos.size_nat p)%nat.
Proof.
  induction p as [p IH|p IH|]; simpl; [| |lia];
    pose proof (nb_digits_double (Pos.to_little_uint p)); lia.
Qed.
Lemma nb_digits_revapp d d' :
  Decimal.nb_digits (Decimal.revapp d d') = (Decimal.nb_digits d + Decimal.nb_digits d')%nat.
Proof. revert d'. induction d; intros d'; simpl; [done|..]; rewrite IHd; simpl; lia. Qed.
Lemma length_string_of_uint d :
  String.length (DecimalString.NilEmpty.string_of_uint d) = Decimal.nb_digits d.
Proof. induction d; simpl; congruence. Qed.
Lemma length_bs s : length (bs s) = String.length s.
Proof. unfold bs. induction s; simpl; congruence. Qed.

Lemma length_NilZero d :
  (String.length (DecimalString.NilZero.string_of_uint d) <= S (Decimal.nb_digits d))%nat.
Proof.
  destruct d; [simpl; lia|..]; cbn [DecimalString.NilZero.string_of_uint];
    rewrite length_string_of_uint; lia.
Qed.

Lemma N2Pos_lt p q : N.pos p < N.pos q → (p < q)%positive.
Proof. done. Qed.

Lemma runGroup_short id : u64 id → short (runGroup id).
Proof.
  intros Hid. unfold short, runGroup. rewrite length_bs.
  assert (Hd : (Decimal.nb_digits (N.to_uint id) <= 65)%nat).
  { destruct id as [|p]; [simpl; lia|]. simpl. unfold Pos.to_uint, Decimal.rev.
    rewrite nb_digits_revapp. simpl. pose proof (nb_digits_little p).
    unfold u64 in Hid. change two64 with (N.pos (2 ^ 64)) in Hid. apply N2Pos_lt in Hid.
    apply Pos.size_nat_monotone in Hid. change (Pos.size_nat (2 ^ 64)) with 65%nat in Hid. lia. }
  pose proof (length_NilZero (N.to_uint id)). unfold two16. lia.
Qed.

(** ** Several publishes from the committed metas *)
Definition pub_bases (db dbj : store) : Prop :=
  ∀ l g, short l → short g → pub_base l g (loadGroupMeta l g db) dbj.

Lemma pub_bases_refl db : pub_bases db db.
Proof. intros l g _ _. apply pub_base_refl. Qed.

Lemma pub_core_step n P db dbj b :
  Inv n db → n + 1 < two64 → Inv (n + 1) dbj → pub_bases db dbj →
  pub_core P db b → Forall bop_wf b →
  Inv (n + 1) (commit b dbj) ∧ pub_bases db (commit b dbj).
Proof.
  intros H Hn Hj Hbase Hp Hb. split.
  { eapply Inv_pub_core; try done. intros. by apply Hbase. }
  intros l' g' Hl' Hg'. destruct (loadGroupMeta_bound n db l' g' H Hl' Hg') as (_ & Hsq & _).
  pose proof (Hbase l' g' Hl' Hg') as Hb0.
  destruct Hp as [Hc|(l & g & m & gn & _ & Hl & Hg & Hst & Hp & Hc)].
  - assert (Hsame : ∀ k, broker_tags k → commit b dbj !! k = dbj !! k).
    { intros k Hk. by rewrite commit_core, Hc by done. }
    destruct Hb0 as [<-|(g1 & m1 & E1 & P1 & E2 & S1)]; [left|right].
    + unfold loadGroupMeta. erewrite GetProto_ext; [done|]. apply Hsame. by left; right.
    + exists g1, m1. split_and!; [|done| |done].
      * rewrite <-E1. apply GetProto_ext, Hsame. by left; right.
      * rewrite <-E2. apply GetProto_ext, Hsame. by left; left.
  - destruct (loadGroupMeta_bound n db l g H Hl Hg) as (_ & Hsq' & _).
    assert (Hlk : ∀ k, broker_tags k → commit b dbj !! k =
      commit [BSet (MessageKey l g (loadGroupMeta l g db).(gm_NextSeq)) (row_in m);
              BSet (GroupMetaKey l g) (row_in gn)] dbj !! k).
    { intros k Hk. by rewrite commit_core, Hc by done. }
    destruct (decide ((l', g') = (l, g))) as [[= -> ->]|Hne].
    + right. exists gn, m. split_and!; [|done| |done].
      * erewrite GetProto_ext by (apply Hlk; by left; right). by lk.
      * erewrite GetProto_ext by (apply Hlk; by left; left). by lk.
    + assert (HneG : GroupMetaKey l g ≠ GroupMetaKey l' g').
      { intros Ek. apply GroupMetaKey_inj in Ek as [-> ->]; done. }
      assert (HneM : ∀ i j, u64 i → u64 j → MessageKey l g i ≠ MessageKey l' g' j).
      { intros i j ?? Ek. apply MessageKey_inj in Ek as (-> & -> & _); done. }
      destruct Hb0 as [<-|(g1 & m1 & E1 & P1 & E2 & S1)]; [left|right].
      * unfold loadGroupMeta at 1. erewrite GetProto_ext by (apply Hlk; by left; right).
        unfold commit. cbn [foldl apply_bop]. rewrite GetProto_insert_ne by done.
        by rewrite GetProto_insert_ne by key_ne.
      * exists g1, m1. split_and!; [|done| |done].
        -- erewrite GetProto_ext by (apply Hlk; by left; right).
           unfold commit. cbn [foldl apply_bop]. rewrite GetProto_insert_ne by done.
           by rewrite GetProto_insert_ne by key_ne.
        -- erewrite GetProto_ext by (apply Hlk; by left; left).
           unfold commit. cbn [foldl apply_bop]. rewrite GetProto_insert_ne by key_ne.
           rewrite GetProto_insert_ne; [done|]. apply HneM; unfold u64; lia.
Qed.

(** ** Workflow commands *)
Section workflow.
Context {PC : PayloadCodec}.

Definition type_ok (t : bytes) : Prop := short (WorkflowLanePrefix ++ t).

Lemma nextRunID_quiet db id b :
  nextRunID db = Ok (id, b) → Forall bop_wf b ∧ core b = [] ∧ u64 id.
Proof.
  intros E. unfold nextRunID in E.
  assert (Hu : ∀ x : bytes, u64 (beU64 x)).
  { intros x. unfold beU64. destruct (Nat.ltb_spec (length x) 8); [done|]. by apply be_val_take8. }
  apply bind_Ok in E as (v & b1 & b2 & [-> ->]%gets_Ok & E & ->).
  destruct (GetRaw _ db) as [x|]; minv E; (split; [by wf_list|split; [done|]]); [apply Hu|done].
Qed.

Lemma createRun_pub n wt tenant input parent now db id b :
  Inv n db → type_ok wt → createRun wt tenant input parent now db = Ok (id, b) →
  Forall bop_wf b ∧ pub_core (λ _, True) db b.
Proof.
  intros H Ht E. unfold createRun in E.
  apply bind_Ok in E as (rid & b1 & b2 & E1 & E & ->). cbv zeta in E.
  apply nextRunID_quiet in E1 as (Hb1 & Hc1 & Hu).
  apply bind_Ok in E as ([] & b3 & b4 & [_ ->]%putProto_Ok & E & ->).
  apply bind_Ok in E as (run & b5 & b6 & E1 & E & ->).
  apply (dispatchWorkflowTask_pub n) in E1 as (Hb & Hp & Hr); [|done|by split; [|apply runGroup_short]].
  apply bind_Ok in E as ([] & b7 & b8 & [_ ->]%putProto_Ok & [-> ->]%ret_Ok & ->).
  split.
  - wf_list; try by apply row_wf_run.
  - apply pub_core_app_l; [done|]. apply pub_core_app_l; [done|].
    apply pub_core_app_r; [|done]. destruct Hp as [?|(l & g & m & gn & _ & ?)]; [by left|right].
    by exists l, g, m, gn.
Qed.

Lemma Inv_applyWFStartRun n db c r b :
  Inv n db → n + 1 < two64 → type_ok c.(wst_WorkflowType) →
  applyWFStartRun c db = Ok (r, b) → Inv (n + 1) (commit b db).
Proof.
  intros H Hn Ht E. unfold applyWFStartRun in E.
  apply bind_Ok in E as (id & b1 & b2 & E & [-> ->]%ret_Ok & ->). rewrite app_nil_r.
  eapply createRun_pub in E as [? ?]; [|done..]. by eapply Inv_pub.
Qed.

(** The names an ACTIVITY_SCHEDULED event's attributes carry fit a key. *)
Definition event_ok (e : WFEventIn) : Prop :=
  e.(wei_Type) = HET_ACTIVITY_SCHEDULED →
  ∀ asa, unmarshal_ActivityScheduledAttrs e.(wei_Attrs) = Some asa →
         short (ActivityLanePrefix ++ asa.(asa_ActivityType)) ∧ short asa.(asa_TenantId).

Lemma appendEffect_pub n c next e run db run' b :
  Inv n db → event_ok e → run_wf run → appendEffect c next e run db = Ok (run', b) →
  Forall bop_wf b ∧ pub_core (λ _, True) db b ∧ run_wf run'.
Proof.
  intros H He Hr E. unfold appendEffect in E.
  destruct (Z.eqb_spec (wei_Type e) HET_ACTIVITY_SCHEDULED) as [Ht|_].
  { apply bind_Ok in E as ([] & b1 & b2 & E & [-> ->]%ret_Ok & ->). rewrite app_nil_r.
    unfold dispatchActivity in E. specialize (He Ht).
    destruct (unmarshal_ActivityScheduledAttrs _) as [asa|]; [|minv E; by split_and!; [|left|]].
    destruct (negb _); [minv E; by split_and!; [|left|]|]. cbv zeta in E.
    apply bind_Ok in E as (id & b5 & b6 & E & [_ ->]%ret_Ok & ->). rewrite app_nil_r.
    destruct (He asa eq_refl) as [Hl Hg].
    eapply (publishReady_pub n (λ _, True)) in E as [? ?]; [|done..]. done. }
  destruct (_ =? HET_TIMER_STARTED)%Z.
  { apply bind_Ok in E as ([] & b1 & b2 & E & [-> ->]%ret_Ok & ->). rewrite app_nil_r.
    unfold armWFTimer in E. split_and!; [|left|done]; minv E; try (by wf_list); done. }
  destruct (_ =? HET_WORKFLOW_COMPLETED)%Z; [minv E; by split_and!; [|left|]|].
  destruct (_ =? HET_WORKFLOW_FAILED)%Z; [minv E; by split_and!; [|left|]|].
  destruct (_ =? HET_WORKFLOW_CANCELED)%Z; [minv E; by split_and!; [|left|]|].
  destruct (_ =? HET_WORKFLOW_CONTINUED_AS_NEW)%Z; [|minv E; by split_and!; [|left|]].
  cbv zeta in E. apply bind_Ok in E as (id & b1 & b2 & E & [-> ->]%ret_Ok & ->). rewrite app_nil_r.
  eapply createRun_pub in E as [? ?]; [|done|apply Hr]. done.
Qed.

Lemma appendEvents_Inv n c evs db dbj next run r b :
  Inv n db → n + 1 < two64 → Inv (n + 1) dbj → pub_bases db dbj →
  Forall event_ok evs → run_wf run →
  appendEvents c evs next run db = Ok (r, b) →
  Inv (n + 1) (commit b dbj) ∧ run_wf r.2.
Proof.
  intros H Hn Hj Hbase Hevs. revert dbj Hj Hbase next run b.
  induction Hevs as [|e evs He Hevs IH]; intros dbj Hj Hbase next run b Hr E; cbn [appendEvents] in E.
  { by minv E. }
  cbv zeta in E. apply bind_Ok in E as ([] & b1 & b2 & [_ ->]%putProto_Ok & E & ->).
  apply bind_Ok in E as (run' & b3 & b4 & E1 & E & ->).
  eapply appendEffect_pub in E1 as (Hb & Hp & Hr'); [|done..].
  rewrite app_assoc, commit_app.
  destruct (pub_core_step n (λ _, True) db dbj
    ([BSet (WFHistoryKey (wac_RunID c) (incr64 next)) (row_in (mkHistoryEvent (incr64 next)
        (wei_Type e) (wac_NowMs c) (wei_Attrs e)))] ++ b3)) as [Hj' Hbase']; try done.
  - by wf_list.
  - by eapply IH.
Qed.

Lemma Inv_applyWFAppendEvents n db c r b :
  Inv n db → n + 1 < two64 → Forall event_ok c.(wac_Events) →
  applyWFAppendEvents c db = Ok (r, b) → Inv (n + 1) (commit b db).
Proof.
  intros H Hn He E. unfold applyWFAppendEvents in E.
  assert (Hm : Inv (n + 1) db) by (by apply (Inv_mono n); [|lia|]).
  apply bind_Ok in E as (o & b1 & b2 & [-> ->]%gets_Ok & E & ->). simpl app.
  destruct (GetProto (WFRunKey _) db) as [run|] eqn:Er; [|by minv E].
  pose proof (run_row n db _ run H Er) as Hr.
  destruct (negb _); [by minv E|]. destruct (_ || _); [by minv E|].
  apply bind_Ok in E as ([next run'] & b1 & b3 & E1 & E & ->). cbv zeta in E.
  apply (appendEvents_Inv n _ _ db db) in E1 as [Hi Hr']; [|done|done|done|apply pub_bases_refl|done|done].
  apply bind_Ok in E as ([] & b4 & b5 & [_ ->]%putProto_Ok & [-> ->]%ret_Ok & ->).
  apply Inv_app_quiet; [done| |done]. wf_list; try by apply row_wf_run.
Qed.

Lemma Inv_applyWFCompleteActivity n db c r b :
  Inv n db → n + 1 < two64 → applyWFCompleteActivity c db = Ok (r, b) → Inv (n + 1) (commit b db).
Proof.
  intros H Hn E. unfold applyWFCompleteActivity in E.
  apply bind_Ok in E as (x & b1 & b2 & E & [-> ->]%ret_Ok & ->). rewrite app_nil_r.
  eapply recordActivityTerminal_pub in E as [? ?]; [|done]. by eapply Inv_pub.
Qed.

Lemma Inv_applyWFSignal n db c r b :
  Inv n db → n + 1 < two64 → applyWFSignal c db = Ok (r, b) → Inv (n + 1) (commit b db).
Proof.
  intros H Hn E. unfold applyWFSignal in E. cbv zeta in E.
  apply bind_Ok in E as (x & b1 & b2 & E & [-> ->]%ret_Ok & ->). rewrite app_nil_r.
  eapply appendExternalEvent_pub in E as [? ?]; [|done]. by eapply Inv_pub.
Qed.

Lemma Inv_applyWFCancel n db c r b :
  Inv n db → applyWFCancel c db = Ok (r, b) → Inv n (commit b db).
Proof.
  intros H E. unfold applyWFCancel in E.
  apply bind_Ok in E as (o & b1 & b2 & [-> ->]%gets_Ok & E & ->). simpl app.
  destruct (GetProto (WFRunKey _) db) as [run|] eqn:Er; [|by minv E].
  pose proof (run_row n db _ run H Er) as Hr. destruct (negb _); [by minv E|].
  minv E. apply Inv_quiet; [done| |done]. wf_list; try by apply row_wf_run.
Qed.
End workflow.

(** ** The publish batch *)
Definition nulfree (s : bytes) : Prop := "000"%char ∉ s.
#[export] Instance nulfree_dec s : Decision (nulfree s).
Proof. unfold nulfree. apply _. Defined.

Lemma nulkey_inj l g l' g' :
  nulfree l → nulfree l' → nulkey l g = nulkey l' g' → l = l' ∧ g = g'.
Proof.
  unfold nulfree, nulkey. revert l'. induction l as [|a l IH]; intros [|a' l'] Hl Hl' E;
    rewrite ?not_elem_of_cons in *; simpl in E.
  - by injection E as ->.
  - injection E as Ea _. by destruct Hl' as [[] _].
  - injection E as Ea _. by destruct Hl as [[] _].
  - injection E as -> E. destruct Hl as [_ Hl], Hl' as [_ Hl'].
    by destruct (IH l' Hl Hl' E) as [-> ->].
Qed.

Definition item_ok (c : PublishCmd) : Prop :=
  short c.(p_Lane) ∧ short c.(p_GroupID) ∧ nulfree c.(p_Lane).

(** The loop's state [st] after writing [b]: [V] is the store that would result
    from also writing the cached metas. *)
Record batch_inv (n : N) (db : store) (b : batch) (st : pbstate) (V : store) : Prop := {
  bi_inv : Inv n V;
  bi_wf : Forall bop_wf b;
  bi_nometa : Forall (λ o, tag (bop_key o) ≠ Some tagGroupMeta) b;
  bi_other k : broker_tags k → tag k ≠ Some tagGroupMeta → V !! k = commit b db !! k;
  bi_cache key gm : st.(pbs_cache) !! key = Some gm →
    key = nulkey gm.(gm_Lane) gm.(gm_GroupId) ∧ nulfree gm.(gm_Lane) ∧
    GetProto (GroupMetaKey gm.(gm_Lane) gm.(gm_GroupId)) V = Some gm ∧ key ∈ st.(pbs_order);
  bi_rest l g : short l → short g →
    (∀ gm, st.(pbs_cache) !! nulkey l g = Some gm → gm.(gm_Lane) = l → gm.(gm_GroupId) = g → False) →
    V !! GroupMetaKey l g = db !! GroupMetaKey l g;
}.

Lemma publishOne_total c gm db : ∃ x b, publishOne c gm db = Ok (x, b).
Proof.
  unfold publishOne. cbv zeta. unfold mbind, M_bind.
  repeat match goal with |- context [if ?c then _ else _] => destruct c end; by eexists _, _.
Qed.
Lemma recordDedup_total c id db : ∃ b, recordDedup c id db = Ok ((), b).
Proof. unfold recordDedup. destruct (_ <=? _); by eexists. Qed.
Lemma try_Ok {A} (m : M A) db x b y b' :
  m db = Ok (x, b) → try m db = Ok (y, b') → y = Ok x ∧ b' = b.
Proof. unfold try. intros ->. by intros [= <- <-]. Qed.

Lemma publishOne_nometa c gm db x b :
  publishOne c gm db = Ok (x, b) → Forall (λ o, tag (bop_key o) ≠ Some tagGroupMeta) b.
Proof. intros E. unfold publishOne in E. minv E; by repeat constructor. Qed.
Lemma recordDedup_nometa c id db x b :
  recordDedup c id db = Ok (x, b) → Forall (λ o, tag (bop_key o) ≠ Some tagGroupMeta) b.
Proof. intros E. unfold recordDedup in E. minv E; by repeat constructor. Qed.

(** One publish from the cached (or loaded) meta. *)
Lemma batch_inv_publish n db b st V c gm id gn b1 bd st' :
  batch_inv n db b st V → n + 1 < two64 → item_ok c →
  gm = (match st.(pbs_cache) !! nulkey c.(p_Lane) c.(p_GroupID) with
        | Some gm => gm | None => loadGroupMeta c.(p_Lane) c.(p_GroupID) db end) →
  publishOne c gm db = Ok ((id, gn), b1) →
  Forall bop_wf bd → core bd = [] → Forall (λ o, tag (bop_key o) ≠ Some tagGroupMeta) bd →
  st'.(pbs_cache) = <[nulkey c.(p_Lane) c.(p_GroupID) := gn]> st.(pbs_cache) →
  st'.(pbs_order) = (match st.(pbs_cache) !! nulkey c.(p_Lane) c.(p_GroupID) with
                     | Some _ => st.(pbs_order)
                     | None => st.(pbs_order) ++ [nulkey c.(p_Lane) c.(p_GroupID)] end) →
  ∃ V', batch_inv (n + 1) db (b ++ b1 ++ bd) st' V'.
Proof.
  intros HB Hn (Hl & Hg & Hnul) Hgm E1 Hbd Hcd Hnd Hst' Hord'.
  pose proof (bi_inv n db b st V HB) as HV.
  set (l := p_Lane c) in *. set (g := p_GroupID c) in *.
  assert (Hload : gm = loadGroupMeta l g V).
  { rewrite Hgm. destruct (st.(pbs_cache) !! nulkey l g) as [g0|] eqn:Ec.
    - destruct (bi_cache n db b st V HB _ _ Ec) as (Ek & Hn0 & Eg & _).
      apply nulkey_inj in Ek as [El Eg0]; [|done..]. unfold loadGroupMeta. by rewrite El, Eg0, Eg.
    - unfold loadGroupMeta. erewrite GetProto_ext; [done|]. symmetry.
      apply (bi_rest n db b st V HB); [done..|]. by rewrite Ec. }
  destruct (loadGroupMeta_bound n V l g HV Hl Hg) as (_ & Hsq & _).
  destruct (loadGroupMeta_keys n V l g HV Hl Hg) as (K1 & K2 & _).
  pose proof (inv_n n V HV) as Hn64.
  apply publishOne_nometa in E1 as Hnm.
  rewrite Hload in E1. apply publishOne_core in E1 as (Hwf1 & -> & m & Hc1 & Hst & Hp);
    [|done|done|unfold u64; lia].
  fold l g in Hc1. destruct Hp as (P1 & P2 & P). rewrite K1 in P1. rewrite K2 in P2.
  set (V' := commit ((b1 ++ bd) ++ [BSet (GroupMetaKey l g) (VGroupMeta gn)]) V).
  assert (Hcore : core ((b1 ++ bd) ++ [BSet (GroupMetaKey l g) (VGroupMeta gn)]) =
    [BSet (MessageKey l g (gm_NextSeq (loadGroupMeta l g V))) (VMessage m);
     BSet (GroupMetaKey l g) (VGroupMeta gn)]) by (by rewrite !core_app, Hc1, Hcd).
  assert (Hmeta : ∀ k, tag k = Some tagGroupMeta → V' !! k =
            commit [BSet (GroupMetaKey l g) (VGroupMeta gn)] V !! k).
  { intros k Hk. unfold V'. rewrite commit_app. apply commit_local. apply commit_frame_tag.
    apply Forall_app. rewrite Hk. done. }
  exists V'. constructor.
  - eapply (Inv_published n V l g); [done|done|done|done| |reflexivity|exact Hst| |exact Hcore].
    + by wf_list.
    + split; [by rewrite K1|]. split; [by rewrite K2|]. exact P.
  - apply Forall_app. split; [apply HB|]. by apply Forall_app.
  - apply Forall_app. split; [apply HB|]. by apply Forall_app.
  - intros k Hk Hnt. unfold V'. rewrite commit_app, commit_frame.
    + rewrite (commit_app b). apply commit_local. by apply (bi_other n db b st V HB).
    + cbn. rewrite list_elem_of_singleton. by intros ->.
  - intros key g0. rewrite Hst', Hord'. intros [[<- <-]|[Hne Ec]]%lookup_insert_Some.
    + rewrite P1, P2. split_and!; [done|done| |].
      * erewrite GetProto_ext by (by apply Hmeta). change (VGroupMeta gn) with (row_in gn). by lk.
      * destruct (st.(pbs_cache) !! nulkey l g) as [g1|] eqn:Ec.
        -- by destruct (bi_cache n db b st V HB _ _ Ec) as (_ & _ & _ & ?).
        -- apply elem_of_app. right. by apply list_elem_of_singleton.
    + destruct (bi_cache n db b st V HB _ _ Ec) as (Ek & Hn0 & Eg & Hin).
      split_and!; [done|done| |].
      * rewrite <-Eg. apply GetProto_ext. rewrite Hmeta by done. apply commit_frame.
        cbn. rewrite list_elem_of_singleton. intros Eq. apply Hne.
        destruct (group_row _ _ _ _ (inv_rows n V HV) Hl Hg (proj2 (GetProto_row _ _ _)
          (eq_trans (f_equal (λ k, V !! k) (eq_sym Eq)) (proj1 (GetProto_row _ _ _) Eg)))) as [<- <-].
        by rewrite Ek.
      * destruct (st.(pbs_cache) !! nulkey l g); [done|]. apply elem_of_app. by left.
  - intros l' g' Hl' Hg' Hno. rewrite Hmeta by done. rewrite commit_frame.
    + apply (bi_rest n db b st V HB); [done..|]. intros g0 Ec EL EG. apply (Hno g0); [|done..].
      rewrite Hst', lookup_insert_ne; [done|]. intros Ek.
      destruct (bi_cache n db b st V HB _ _ Ec) as (_ & Hn0 & _ & _). rewrite EL in Hn0.
      apply nulkey_inj in Ek as [<- <-]; [|done..].
      apply (Hno gn); [|done..]. by rewrite Hst', lookup_insert_eq.
    + cbn. rewrite list_elem_of_singleton. intros Ek. apply GroupMetaKey_inj in Ek as [-> ->]; [|done..].
      apply (Hno gn); [|done..]. by rewrite Hst', lookup_insert_eq.
Qed.

Lemma publishItem_spec n db b st V at_ item st' b' :
  batch_inv n db b st V → n + 1 < two64 → item_ok item →
  publishItem at_ item st db = Ok (st', b') → ∃ V', batch_inv (n + 1) db (b ++ b') st' V'.
Proof.
  intros HB Hn Hok E. unfold publishItem in E.
  apply bind_Ok in E as (dup & b1 & b2 & E1 & E & ->).
  assert (b1 = []) as -> by (by minv E1). clear E1. simpl app.
  destruct dup as [id|].
  { minv E. exists V. rewrite app_nil_r. destruct HB. constructor; try done.
    by apply (Inv_mono n); [|lia|]. }
  cbv zeta in E. apply bind_Ok in E as ([gm order] & b1 & b3 & E1 & E & ->).
  set (key := nulkey (p_Lane item) (p_GroupID item)) in *.
  assert (Hgo : b1 = [] ∧ gm = (match st.(pbs_cache) !! key with
                      | Some gm => gm | None => loadGroupMeta (p_Lane item) (p_GroupID item) db end) ∧
                order = (match st.(pbs_cache) !! key with
                         | Some _ => st.(pbs_order) | None => st.(pbs_order) ++ [key] end)).
  { destruct (st.(pbs_cache) !! key); minv E1; done. }
  destruct Hgo as (-> & Hgm & Hord). clear E1. simpl app.
  apply bind_Ok in E as (r & b1 & b4 & E1 & E & ->).
  destruct (publishOne_total item gm db) as ([id gn] & b5 & E5).
  destruct (try_Ok _ _ _ _ _ _ E5 E1) as [-> ->]. clear E1. cbv zeta in E.
  destruct (nonempty _).
  - apply bind_Ok in E as (r & b1 & b6 & E1 & E & ->).
    destruct (recordDedup_total item id db) as (bd & Ed).
    destruct (try_Ok _ _ _ _ _ _ Ed E1) as [-> ->]. clear E1. minv E. rewrite app_nil_r.
    destruct (recordDedup_quiet _ _ _ _ _ Ed) as [Hd1 Hd2].
    eapply (batch_inv_publish n db b st V item); [done|done|done|reflexivity|exact E5|done|done|
      by eapply recordDedup_nometa|reflexivity|reflexivity].
  - minv E. eapply (batch_inv_publish n db b st V item); [done|done|done|reflexivity|exact E5|
      constructor|done|constructor|reflexivity|reflexivity].
Qed.

Lemma publishItems_spec n db b st V at_ items st' b' :
  batch_inv n db b st V → n + N.of_nat (length items) < two64 → Forall item_ok items →
  publishItems at_ items st db = Ok (st', b') →
  ∃ V', batch_inv (n + N.of_nat (length items)) db (b ++ b') st' V'.
Proof.
  intros HB Hn Hok. revert n b st V b' HB Hn.
  induction Hok as [|item items Hi Hok IH]; intros n b st V b' HB Hn E; cbn [publishItems] in E.
  { minv E. exists V. simpl. by rewrite app_nil_r, N.add_0_r. }
  cbn [length] in Hn. apply bind_Ok in E as (st1 & b1 & b2 & E1 & E & ->).
  eapply (publishItem_spec n db b st V) in E1 as (V1 & HB1); [|done|lia|done].
  eapply (IH (n + 1)) in E as (V2 & HB2); [|exact HB1|lia].
  exists V2. rewrite <-app_assoc in HB2. cbn [length].
  by replace (n + N.of_nat (S (length items))) with (n + 1 + N.of_nat (length items)) by lia.
Qed.

(** The closing loop writes each cached meta at its own key. *)
Lemma putGroups_spec (order : list bytes) (cache : gmap bytes GroupMeta) db r b :
  putGroups order cache db = Ok (r, b) →
  Forall (λ o, ∃ gm key, cache !! key = Some gm ∧ key ∈ order ∧
            o = BSet (GroupMetaKey gm.(gm_Lane) gm.(gm_GroupId)) (VGroupMeta gm)) b ∧
  (∀ key gm, key ∈ order → cache !! key = Some gm →
     BSet (GroupMetaKey gm.(gm_Lane) gm.(gm_GroupId)) (VGroupMeta gm) ∈ b).
Proof.
  revert b. induction order as [|key order IH]; intros b E; cbn [putGroups] in E.
  { minv E. split; [constructor|]. intros key gm Hin. by apply elem_of_nil in Hin. }
  apply bind_Ok in E as ([] & b1 & b2 & E1 & E & ->).
  apply IH in E as [IH1 IH2]. destruct (cache !! key) as [gm|] eqn:Ec.
  - apply putProto_Ok in E1 as [_ ->]. split.
    + apply Forall_app. split; [|eapply Forall_impl; [exact IH1|]].
      * constructor; [|constructor]. exists gm, key. split_and!; [done|by left|done].
      * intros o (gm' & key' & ? & ? & ->). exists gm', key'. split_and!; [done|by right|done].
    + intros key' gm' [->|Hin]%elem_of_cons Ec'; apply elem_of_app.
      * left. rewrite Ec in Ec'. injection Ec' as <-. by left.
      * right. by eapply IH2.
  - minv E1. split.
    + eapply Forall_impl; [exact IH1|].
      intros o (gm' & key' & ? & ? & ->). exists gm', key'. split_and!; [done|by right|done].
    + intros key' gm' [->|Hin]%elem_of_cons Ec'; [congruence|by eapply IH2].
Qed.

(** A batch whose writes to [k] all write [v]. *)
Lemma commit_uniform b db (k : bytes) (v : value) :
  Forall (λ o, bop_key o = k → o = BSet k v) b → k ∈ bop_key <$> b → commit b db !! k = Some v.
Proof.
  intros Hb. revert db. induction Hb as [|o b Ho Hb IH]; intros db Hin; [by apply elem_of_nil in Hin|].
  rewrite commit_cons. destruct (decide (k ∈ bop_key <$> b)) as [?|Hnin]; [by apply IH|].
  rewrite commit_frame by done. rewrite fmap_cons in Hin.
  apply elem_of_cons in Hin as [->|?]; [|done]. rewrite Ho by done. simpl. apply lookup_insert_eq.
Qed.

Lemma Inv_applyPublishBatch n db c r b :
  Inv n db → n + N.of_nat (length c.(pb_Items)) < two64 → Forall item_ok c.(pb_Items) →
  applyPublishBatch c db = Ok (r, b) → Inv (n + N.of_nat (length c.(pb_Items))) (commit b db).
Proof.
  intros H Hn Hok E. unfold applyPublishBatch in E.
  apply bind_Ok in E as (st & b1 & b2 & E1 & E & ->).
  assert (HB0 : batch_inv n db [] (mkpbstate ∅ [] ∅ []) db).
  { constructor; [done|constructor|constructor|done|..]; simpl; [|done].
    intros key gm Ec. by rewrite lookup_empty in Ec. }
  eapply publishItems_spec in E1 as (V & HB); [|exact HB0|done|done]. rewrite app_nil_l in HB.
  apply bind_Ok in E as ([] & b3 & b4 & E & [-> ->]%ret_Ok & ->). rewrite app_nil_r.
  apply putGroups_spec in E as [Hp1 Hp2].
  pose proof (bi_inv _ _ _ _ _ HB) as HV. pose proof (inv_rows _ _ HV) as HwfV.
  assert (Hmeta : ∀ key gm, st.(pbs_cache) !! key = Some gm →
    short gm.(gm_Lane) ∧ short gm.(gm_GroupId)).
  { intros key gm Ec. destruct (bi_cache _ _ _ _ _ HB _ _ Ec) as (_ & _ & Eg & _).
    apply GetProto_row, HwfV in Eg as (_ & _ & ? & ?). done. }
  assert (Hwf3 : Forall bop_wf b3).
  { eapply Forall_impl; [exact Hp1|]. intros o (gm & key & Ec & _ & ->).
    destruct (Hmeta key gm Ec). by apply row_wf_group. }
  assert (Hwf : rows_wf (commit (b1 ++ b3) db)).
  { apply rows_wf_commit; [by apply (inv_rows n)|]. apply Forall_app. split; [apply HB|done]. }
  apply (Inv_frame _ V); [done|done|]. intros k Hk. rewrite commit_app.
  destruct (decide (tag k = Some tagGroupMeta)) as [Ht|Hnt].
  2:{ rewrite commit_frame_tag; [symmetry; by apply (bi_other _ _ _ _ _ HB)|].
      eapply Forall_impl; [exact Hp1|]. intros o (gm & key & _ & _ & ->). simpl. congruence. }
  (* a group-meta key *)
  assert (Hkey : ∀ d : store, rows_wf d → ∀ v, d !! k = Some v →
    ∃ l g, short l ∧ short g ∧ k = GroupMetaKey l g).
  { intros d Hd v Ev. apply Hd in Ev as [Hty Hrow]. destruct k as [|t k]; [done|].
    injection Ht as ->. destruct v; try (by destruct Hty). destruct Hrow as (-> & ? & ?). eauto. }
  assert (Hlk : ∀ l g, short l → short g → k = GroupMetaKey l g →
    commit b3 (commit b1 db) !! k = V !! k).
  { intros l g Hl Hg ->.
    destruct (decide (GroupMetaKey l g ∈ bop_key <$> b3)) as [Hin|Hnin].
    - apply list_elem_of_fmap in Hin as (o & Eo & Hin). rewrite Forall_forall in Hp1.
      destruct (Hp1 o Hin) as (gm & key & Ec & Hino & ->). simpl in Eo.
      destruct (Hmeta key gm Ec). apply GroupMetaKey_inj in Eo as [-> ->]; [|done..].
      destruct (bi_cache _ _ _ _ _ HB _ _ Ec) as (Ek & Hnul & Eg & _).
      apply GetProto_row in Eg. rewrite Eg. apply commit_uniform.
      + apply Forall_forall. intros o' Hin'. destruct (Hp1 o' Hin') as (gm' & key' & Ec' & _ & ->).
        simpl. intros Eq. destruct (Hmeta key' gm' Ec'). apply GroupMetaKey_inj in Eq as [E1 E2]; [|done..].
        destruct (bi_cache _ _ _ _ _ HB _ _ Ec') as (Ek' & _ & _ & _).
        rewrite E1, E2, <-Ek in Ek'. subst key'. rewrite Ec in Ec'. by injection Ec' as <-.
      + apply list_elem_of_fmap. eexists. split; [|exact Hin]. done.
    - rewrite commit_frame by done.
      rewrite commit_frame_tag by (eapply Forall_impl; [apply (bi_nometa _ _ _ _ _ HB)|done]).
      symmetry. apply (bi_rest _ _ _ _ _ HB); [done..|]. intros gm Ec EL EG.
      destruct (bi_cache _ _ _ _ _ HB _ _ Ec) as (_ & _ & _ & Hin). apply Hnin.
      apply list_elem_of_fmap. eexists. split; [|by eapply Hp2]. simpl. by rewrite EL, EG. }
  destruct (commit b3 (commit b1 db) !! k) as [v|] eqn:Ev.
  - rewrite <-commit_app in Ev. destruct (Hkey _ Hwf _ Ev) as (l & g & Hl & Hg & Ek).
    by apply (Hlk l g).
  - destruct (V !! k) as [v|] eqn:EV; [|done].
    destruct (Hkey _ HwfV _ EV) as (l & g & Hl & Hg & Ek). by apply (Hlk l g).
Qed.

(** ** Commands and logs *)
Section log.
Context {PC : PayloadCodec} (um : bytes → option Command).

Definition on {A} (o : option A) (P : A → Prop) : Prop := ∀ x, o = Some x → P x.

(** The names of a command fit the 16-bit length prefix, its ids are
    [uint64]s, the lanes of a batch hold no NUL byte, and the command is not a
    group teardown (which drops the meta of groups with leased messages). *)
Record cmd_ok (cmd : Command) : Prop := {
  ok_type : cmd.(c_Type) ≠ CmdTeardownGroup;
  ok_publish : on cmd.(c_Publish) (λ c, short c.(p_Lane) ∧ short c.(p_GroupID));
  ok_batch : on cmd.(c_PublishBatch) (λ c, Forall item_ok c.(pb_Items));
  ok_lease : on cmd.(c_Lease) (λ c, short c.(l_Lane) ∧ short c.(l_GroupID));
  ok_ack : on cmd.(c_Ack) (λ c, u64 c.(a_LeaseID));
  ok_nack : on cmd.(c_Nack) (λ c, u64 c.(n_LeaseID));
  ok_extend : on cmd.(c_Extend) (λ c, u64 c.(e_LeaseID));
  ok_config : on cmd.(c_GroupConfig) (λ c, short c.(gc_Lane) ∧ short c.(gc_GroupID));
  ok_lifecycle : on cmd.(c_GroupLifecycle) (λ c, short c.(gl_Lane) ∧ short c.(gl_GroupID));
  ok_cron : on cmd.(c_Cron) (λ c, short c.(cr_Lane) ∧ short c.(cr_GroupID));
  ok_token : on cmd.(c_IssueToken) (λ c, u64 c.(it_LeaseID));
  ok_reap : on cmd.(c_ReapGroup) (λ c, short c.(rg_Lane) ∧ short c.(rg_GroupID));
  ok_redrive : on cmd.(c_Redrive) (λ c, short c.(rd_Lane) ∧ short c.(rd_GroupID));
  ok_start : on cmd.(c_WFStart) (λ c, type_ok c.(wst_WorkflowType));
  ok_append : on cmd.(c_WFAppend) (λ c, Forall event_ok c.(wac_Events));
}.

(** An upper bound on the ids a command assigns. *)
Definition weight (cmd : Command) : N :=
  match cmd.(c_PublishBatch) with
  | Some c => N.max 1 (N.of_nat (length c.(pb_Items)))
  | None => 1
  end.
Definition weights (log : list Log) : N :=
  foldr (λ l s, match um l.(log_Data) with Some cmd => weight cmd + s | None => s end) 0 log.
Definition log_ok (log : list Log) : Prop := Forall (λ l, on (um l.(log_Data)) cmd_ok) log.

Lemma weight_ge cmd : 1 ≤ weight cmd.
Proof. unfold weight. destruct (c_PublishBatch cmd); lia. Qed.

Lemma deref_Ok {C} (h : C → M ApplyResult) o db r b :
  deref h o db = Some (Ok (r, b)) → ∃ c, o = Some c ∧ h c db = Ok (r, b).
Proof. unfold deref. destruct o as [c|]; [|done]. intros [= E]. eauto. Qed.

Lemma Inv_dispatch n cmd db r b :
  Inv n db → n + weight cmd < two64 → cmd_ok cmd →
  dispatch cmd db = Some (Ok (r, b)) → Inv (n + weight cmd) (commit b db).
Proof.
  intros H Hn Hok E. pose proof (weight_ge cmd) as Hw.
  assert (H1 : ∀ db', Inv (n + 1) db' → Inv (n + weight cmd) db').
  { intros. apply (Inv_mono (n + 1)); [done|lia|done]. }
  assert (H0 : ∀ db', Inv n db' → Inv (n + weight cmd) db').
  { intros. apply (Inv_mono n); [done|lia|done]. }
  assert (Hn1 : n + 1 < two64) by lia.
  unfold dispatch in E. cbv zeta in E.
  destruct (_ =? CmdPublish).
  { apply deref_Ok in E as (c & Ec & E). destruct (ok_publish _ Hok c Ec). by eapply H1, Inv_applyPublish. }
  destruct (_ =? CmdPublishBatch).
  { apply deref_Ok in E as (c & Ec & E). unfold weight in *. rewrite Ec in *.
    eapply Inv_applyPublishBatch in E; [|done|lia|by apply (ok_batch _ Hok)].
    eapply Inv_mono; [exact E|lia|lia]. }
  destruct (_ =? CmdLease).
  { apply deref_Ok in E as (c & Ec & E). destruct (ok_lease _ Hok c Ec). by eapply H1, Inv_applyLease. }
  destruct (_ =? CmdAck).
  { apply deref_Ok in E as (c & Ec & E). eapply H0, Inv_applyAck; [done| |done]. by apply (ok_ack _ Hok). }
  destruct (_ =? CmdNack).
  { apply deref_Ok in E as (c & Ec & E). eapply H1, Inv_applyNack; [done|done| |done]. by apply (ok_nack _ Hok). }
  destruct (_ =? CmdExtend).
  { apply deref_Ok in E as (c & Ec & E). eapply H0, Inv_applyExtend; [done| |done]. by apply (ok_extend _ Hok). }
  destruct (_ =? CmdFireTimer).
  { apply deref_Ok in E as (c & Ec & E). by eapply H1, Inv_applyFireTimer. }
  destruct (_ =? CmdSetPolicy).
  { apply deref_Ok in E as (c & Ec & E). by eapply H0, Inv_applySetPolicy. }
  destruct (_ =? CmdGroupConfig).
  { apply deref_Ok in E as (c & Ec & E). destruct (ok_config _ Hok c Ec). by eapply H0, Inv_applyGroupConfig. }
  destruct (_ =? CmdGroupLifecycle).
  { apply deref_Ok in E as (c & Ec & E). destruct (ok_lifecycle _ Hok c Ec). by eapply H0, Inv_applyGroupLifecycle. }
  destruct (_ =? CmdCron).
  { apply deref_Ok in E as (c & Ec & E). destruct (ok_cron _ Hok c Ec). by eapply H0, Inv_applyCron. }
  destruct (_ =? CmdFireCron).
  { apply deref_Ok in E as (c & Ec & E). by eapply H1, Inv_applyFireCron. }
  destruct (_ =? CmdIssueToken).
  { apply deref_Ok in E as (c & Ec & E). eapply H0, Inv_applyIssueToken; [done| |done]. by apply (ok_token _ Hok). }
  destruct (_ =? CmdComplete).
  { apply deref_Ok in E as (c & Ec & E). by eapply H1, Inv_applyComplete. }
  destruct (_ =? CmdSingleton).
  { apply deref_Ok in E as (c & Ec & E). by eapply H0, Inv_applySingleton. }
  destruct (_ =? CmdSetLaneConfig).
  { apply deref_Ok in E as (c & Ec & E). by eapply H0, Inv_applySetLaneConfig. }
  destruct (_ =? CmdReapGroup).
  { apply deref_Ok in E as (c & Ec & E). destruct (ok_reap _ Hok c Ec). by eapply H0, Inv_applyReapGroup. }
  destruct (N.eqb_spec (c_Type cmd) CmdTeardownGroup) as [Ht|_]; [by destruct (ok_type _ Hok)|].
  destruct (_ =? CmdRedrive).
  { apply deref_Ok in E as (c & Ec & E). destruct (ok_redrive _ Hok c Ec). by eapply H1, Inv_applyRedrive. }
  destruct (_ =? CmdWFStartRun).
  { apply deref_Ok in E as (c & Ec & E). eapply H1, Inv_applyWFStartRun; [done|done| |done]. by apply (ok_start _ Hok). }
  destruct (_ =? CmdWFAppendEvents).
  { apply deref_Ok in E as (c & Ec & E). eapply H1, Inv_applyWFAppendEvents; [done|done| |done]. by apply (ok_append _ Hok). }
  destruct (_ =? CmdWFCompleteActivity).
  { apply deref_Ok in E as (c & Ec & E). by eapply H1, Inv_applyWFCompleteActivity. }
  destruct (_ =? CmdWFSignal).
  { apply deref_Ok in E as (c & Ec & E). by eapply H1, Inv_applyWFSignal. }
  destruct (_ =? CmdWFCancel).
  { apply deref_Ok in E as (c & Ec & E). by eapply H0, Inv_applyWFCancel. }
  destruct (_ =? CmdAuthPrincipal); [|done].
  injection E as E. by eapply H0, Inv_applyAuthPrincipal.
Qed.

Lemma Inv_Apply n f l r f' :
  Inv n f.(fsm_s) → n + weights [l] < two64 → on (um l.(log_Data)) cmd_ok →
  Apply um f l = Some (r, f') → Inv (n + weights [l]) f'.(fsm_s).
Proof.
  intros H Hn Hok E. assert (Hm : Inv (n + weights [l]) (fsm_s f)) by (by apply (Inv_mono n); [|lia|]).
  unfold Apply in E. destruct (negb _); [by injection E as _ <-|].
  destruct (_ <=? _); [by injection E as _ <-|].
  unfold weights in *. cbn [foldr] in *.
  destruct (um (log_Data l)) as [cmd|] eqn:Eu; [|by injection E as _ <-].
  rewrite N.add_0_r in *.
  destruct (dispatch cmd (fsm_s f)) as [[[res b]|e]|] eqn:Ed; [|by injection E as _ <-|done].
  injection E as _ <-. simpl. apply Inv_app_quiet; [|by wf_list|done].
  eapply Inv_dispatch; [done|done|by apply Hok|done].
Qed.

Lemma Inv_applyLog n f log rs f' :
  Inv n f.(fsm_s) → n + weights log < two64 → log_ok log →
  applyLog um f log = Some (rs, f') → Inv (n + weights log) f'.(fsm_s).
Proof.
  intros H Hn Hok. revert n f rs H Hn. induction Hok as [|l log Hl Hok IH]; intros n f rs H Hn; cbn [applyLog].
  { intros [= _ <-]. unfold weights. simpl. by rewrite N.add_0_r. }
  destruct (Apply um f l) as [[r f1]|] eqn:E; [|done].
  destruct (applyLog um f1 log) as [[rs' f2]|] eqn:E2; [|done]. intros [= _ <-].
  assert (Hw : weights (l :: log) = weights [l] + weights log).
  { unfold weights. simpl. destruct (um _); lia. }
  rewrite Hw in *. eapply Inv_Apply in E; [|done|lia|done].
  rewrite N.add_assoc. eapply IH; [exact E|lia|exact E2].
Qed.

Lemma Inv_empty : Inv 1 ∅.
Proof.
  assert (He : ∀ A `{Row A} k, @GetProto A _ k ∅ = None) by (intros; unfold GetProto; by rewrite lookup_empty).
  constructor; [done|..].
  - intros k v E. by rewrite lookup_empty in E.
  - intros l g _ _. unfold group_ok. rewrite He. intros i _. apply He.
  - intros id ls _ E. by rewrite He in E.
  - intros l g i m _ _ _ E. by rewrite He in E.
  - unfold next_lease, GetRaw. by rewrite He.
Qed.
End log.
