(* ===== verification/History.v ===== *)
(** * Workflow histories

    The history of a run is exactly the events 1 to its sequence number; events
    are never changed or removed, a closed run never changes, and an activity's
    done marker stays.  [HInv n db] is the invariant, with a bound [n] on run
    ids and sequence numbers; [extends] is what every command does to the
    workflow tables. *)

From S2P Require Import Prelude Keys Data Store Backoff Publish Workflow Broker Control Auth Timers Fsm Reason Structure Accounting.

Implicit Types (db V : store) (n r s i : N) (ev : HistoryEvent) (run : WorkflowRun).

(** ** The workflow tables *)
Definition run_counter : bytes := MetaKey (bs "next_run_id").
Definition hist r i V : option HistoryEvent := GetProto (WFHistoryKey r i) V.
Definition run_of r V : option WorkflowRun := GetProto (WFRunKey r) V.
Definition done_of r i V : option bytes := GetRaw (WFActivityDoneKey r i) V.
Definition next_run V : N :=
  match GetRaw run_counter V with Some v => beU64 v | None => 1 end.

(** Run [r]'s history is the events 1 to [s]. *)
Definition hist_is r s V : Prop := ∀ i, u64 i →
  if decide (1 ≤ i ≤ s) then ∃ ev, hist r i V = Some ev ∧ ev.(ev_EventId) = i else hist r i V = None.

Definition run_ok n r V : Prop :=
  match run_of r V with
  | None => hist_is r 0 V
  | Some run => run.(run_RunId) = r ∧ r < next_run V ∧
      1 ≤ run.(run_CurHistorySeq) ≤ n ∧ hist_is r run.(run_CurHistorySeq) V
  end.

(** The history table holds events, at their keys. *)
Definition hist_keys V : Prop := ∀ (k : bytes) v, V !! k = Some v → tag k = Some tagWFHistory →
  ∃ r i ev, u64 r ∧ u64 i ∧ k = WFHistoryKey r i ∧ v = VEvent ev.

Record HInv n V : Prop := {
  h_keys : hist_keys V;
  h_n : n < two64;
  h_next : 1 ≤ next_run V ≤ n;
  h_run r : u64 r → run_ok n r V;
}.

(** A run row after a command: closed rows stay, the others keep what identifies
    the run, and do not go back. *)
Definition run_extends run run' : Prop :=
  (run.(run_Status) ≠ WF_RUNNING → run' = run) ∧
  run'.(run_RunId) = run.(run_RunId) ∧ run'.(run_WorkflowType) = run.(run_WorkflowType) ∧
  run'.(run_TenantId) = run.(run_TenantId) ∧ run'.(run_Input) = run.(run_Input) ∧
  run.(run_CurHistorySeq) ≤ run'.(run_CurHistorySeq).

Record extends V V' : Prop := {
  x_hist r i ev : u64 r → u64 i → hist r i V = Some ev → hist r i V' = Some ev;
  x_run r run : u64 r → run_of r V = Some run → ∃ run', run_of r V' = Some run' ∧ run_extends run run';
  x_done r i d : u64 r → u64 i → done_of r i V = Some d → ∃ d', done_of r i V' = Some d';
}.

Lemma run_extends_refl run : run_extends run run.
Proof. by split_and!. Qed.
Lemma extends_refl V : extends V V.
Proof. split; eauto using run_extends_refl. Qed.
Lemma extends_trans V1 V2 V3 : extends V1 V2 → extends V2 V3 → extends V1 V3.
Proof.
  intros [A1 B1 C1] [A2 B2 C2]. split; [by eauto|..].
  - intros r run Hr H. destruct (B1 r run Hr H) as (run' & H' & Hx). destruct (B2 r run' Hr H') as (run2 & H2 & Hy).
    exists run2. split; [done|]. destruct Hx as (x1 & x2 & x3 & x4 & x5 & x6), Hy as (y1 & y2 & y3 & y4 & y5 & y6).
    split_and!; [|congruence..|lia]. intros Hs. rewrite y1; [auto|]. by rewrite x1.
  - intros r i d Hr Hi H. destruct (C1 r i d Hr Hi H) as [d' H']. by eapply C2.
Qed.

(** ** Writes *)
Definition wf_key (k : bytes) : Prop :=
  tag k = Some tagWFRun ∨ tag k = Some tagWFHistory ∨ tag k = Some tagWFActivityDn ∨ k = run_counter.
Definition wf_quiet (o : bop) : Prop :=
  tag (bop_key o) ≠ Some tagWFRun ∧ tag (bop_key o) ≠ Some tagWFHistory ∧
  tag (bop_key o) ≠ Some tagWFActivityDn ∧ bop_key o ≠ run_counter.

Definition agree V V' : Prop := ∀ k, wf_key k → V' !! k = V !! k.
Lemma agree_quiet b V : Forall wf_quiet b → agree V (commit b V).
Proof.
  intros Hb k Hk. apply commit_frame. intros Hin. apply list_elem_of_fmap in Hin as (o & -> & Ho).
  rewrite Forall_forall in Hb. destruct (Hb o Ho) as (?&?&?&?). unfold wf_key in Hk. tauto.
Qed.
Lemma agree_hist r i V V' : agree V V' → hist r i V' = hist r i V.
Proof. intros H. apply GetProto_ext, H. unfold wf_key. auto. Qed.
Lemma agree_run r V V' : agree V V' → run_of r V' = run_of r V.
Proof. intros H. apply GetProto_ext, H. unfold wf_key. auto. Qed.
Lemma agree_done r i V V' : agree V V' → done_of r i V' = done_of r i V.
Proof. intros H. apply GetProto_ext, H. unfold wf_key. auto. Qed.
Lemma agree_next V V' : agree V V' → next_run V' = next_run V.
Proof.
  intros H. unfold next_run. replace (GetRaw run_counter V') with (GetRaw run_counter V); [done|].
  symmetry. apply GetProto_ext, H. unfold wf_key. auto.
Qed.

Lemma agree_insert k v V V' : agree V V' → agree (<[k := v]> V) (<[k := v]> V').
Proof.
  intros Ha k' Hk. destruct (decide (k = k')) as [->|]; [by rewrite !lookup_insert_eq|].
  rewrite !lookup_insert_ne by done. by apply Ha.
Qed.

(** The tables after a write of each kind. *)
Section writes.
Context (V : store).
Lemma hist_put r i ev r' i' : u64 r → u64 i → u64 r' → u64 i' →
  hist r' i' (<[WFHistoryKey r i := VEvent ev]> V) = if decide (r' = r ∧ i' = i) then Some ev else hist r' i' V.
Proof.
  intros. unfold hist. case_decide as E.
  - destruct E as [-> ->]. apply GetProto_row. apply lookup_insert_eq.
  - apply GetProto_insert_ne. intros Eq. apply WFHistoryKey_inj in Eq; [|done..]. naive_solver.
Qed.
Lemma run_put r run r' : u64 r → u64 r' →
  run_of r' (<[WFRunKey r := VRun run]> V) = if decide (r' = r) then Some run else run_of r' V.
Proof.
  intros. unfold run_of. case_decide as E; [subst; apply GetProto_row, lookup_insert_eq|].
  apply GetProto_insert_ne. intros Eq. by apply WFRunKey_inj in Eq.
Qed.
Lemma done_put r i v r' i' : u64 r → u64 i → u64 r' → u64 i' →
  done_of r' i' (<[WFActivityDoneKey r i := VRaw v]> V) = if decide (r' = r ∧ i' = i) then Some v else done_of r' i' V.
Proof.
  intros. unfold done_of, GetRaw. case_decide as E.
  - destruct E as [-> ->]. apply GetProto_row, lookup_insert_eq.
  - apply GetProto_insert_ne. intros Eq. apply WFActivityDoneKey_inj in Eq; [|done..]. naive_solver.
Qed.
Lemma next_put v : u64 v → next_run (<[run_counter := VRaw (u64b v)]> V) = v.
Proof. intros. unfold next_run, GetRaw, GetProto. rewrite lookup_insert_eq. by apply beU64_u64b. Qed.

(** A write to another table leaves each of them alone. *)
Lemma hist_other r i k v : tag k ≠ Some tagWFHistory → hist r i (<[k := v]> V) = hist r i V.
Proof. intros. apply GetProto_insert_ne. by intros ->. Qed.
Lemma run_other r k v : tag k ≠ Some tagWFRun → run_of r (<[k := v]> V) = run_of r V.
Proof. intros. apply GetProto_insert_ne. by intros ->. Qed.
Lemma done_other r i k v : tag k ≠ Some tagWFActivityDn → done_of r i (<[k := v]> V) = done_of r i V.
Proof. intros. apply GetProto_insert_ne. by intros ->. Qed.
Lemma next_other k v : tag k ≠ Some tagMeta → next_run (<[k := v]> V) = next_run V.
Proof.
  intros. unfold next_run. replace (GetRaw run_counter (<[k:=v]> V)) with (GetRaw run_counter V); [done|].
  symmetry. apply GetProto_insert_ne. by intros ->.
Qed.
End writes.

(** ** Inside a command *)

(** The tables while a command over the committed store [db] is writing: [V] is
    [db] with the writes so far.  Run [ex] is being appended to, and has events
    up to [s]; a run created by the command has the id [db]'s counter gave. *)
Record mid n db (ex : option (N * N)) V : Prop := {
  m_db : HInv n db;
  m_keys : hist_keys V;
  m_next : next_run V = next_run db ∨ next_run V = next_run db + 1;
  m_run r : u64 r → (∀ s, ex ≠ Some (r, s)) → run_ok n r V;
  m_ex r s : ex = Some (r, s) → u64 r → r < next_run db ∧ hist_is r s V;
  m_new i : u64 i → 2 ≤ i → hist (next_run db) i V = None;
  m_hist r i ev : u64 r → u64 i → hist r i db = Some ev → hist r i V = Some ev;
  m_rows r : u64 r → r ≠ next_run db → run_of r V = run_of r db;
  m_done r i d : u64 r → u64 i → done_of r i db = Some d → ∃ d', done_of r i V = Some d';
}.

Lemma hist_is_ext r s V V' : (∀ i, u64 i → hist r i V' = hist r i V) → hist_is r s V → hist_is r s V'.
Proof. intros He H i Hi. specialize (H i Hi). case_decide; by rewrite He. Qed.
Lemma run_ok_ext n r V V' :
  run_of r V' = run_of r V → next_run V ≤ next_run V' → (∀ i, u64 i → hist r i V' = hist r i V) →
  run_ok n r V → run_ok n r V'.
Proof.
  unfold run_ok. intros -> Hn He. destruct (run_of r V) as [run|]; [|by apply hist_is_ext].
  intros (?&?&?&?). split_and!; try done; try lia. by eapply hist_is_ext.
Qed.
Lemma run_ok_mono n n' r V : n ≤ n' → run_ok n r V → run_ok n' r V.
Proof. unfold run_ok. destruct (run_of r V); [|done]. intros ? (?&?&?&?). split_and!; try done; lia. Qed.

Lemma hist_keys_agree V V' : agree V V' → hist_keys V → hist_keys V'.
Proof. intros Ha H k v Hk Ht. rewrite Ha in Hk by (unfold wf_key; auto). by eapply H. Qed.
Lemma hist_keys_other k v V : tag k ≠ Some tagWFHistory → hist_keys V → hist_keys (<[k := v]> V).
Proof.
  intros Hne H k' v' Hk Ht. rewrite lookup_insert_ne in Hk by (intros ->; done). by eapply H.
Qed.
Lemma hist_keys_put r i ev V : u64 r → u64 i → hist_keys V → hist_keys (<[WFHistoryKey r i := VEvent ev]> V).
Proof.
  intros Hr Hi H k v Hk Ht. apply lookup_insert_Some in Hk as [[<- <-]|[_ Hk]]; [eauto 10|by eapply H].
Qed.

(** A run above the counter has no history. *)
Lemma fresh_run n V r : HInv n V → u64 r → next_run V ≤ r → run_of r V = None ∧ hist_is r 0 V.
Proof.
  intros H Hr Hge. pose proof (h_run _ _ H r Hr) as Ho. unfold run_ok in Ho.
  destruct (run_of r V); [|done]. destruct Ho as (_ & ? & _). lia.
Qed.
Lemma hist_is_0 r i V : hist_is r 0 V → u64 i → hist r i V = None.
Proof. intros H Hi. specialize (H i Hi). case_decide; [lia|done]. Qed.

Lemma HInv_next_u64 n V : HInv n V → u64 (next_run V).
Proof. intros H. destruct (h_next _ _ H). pose proof (h_n _ _ H). unfold u64. lia. Qed.

Lemma mid_none n db : HInv n db → mid n db None db.
Proof.
  intros H. pose proof (HInv_next_u64 _ _ H). split; eauto using h_keys.
  - intros r Hr _. by apply (h_run n).
  - done.
  - intros i Hi _. eapply hist_is_0; [|done]. by eapply (fresh_run n).
Qed.
Lemma mid_some n db r run :
  HInv n db → u64 r → run_of r db = Some run → mid n db (Some (r, run.(run_CurHistorySeq))) db.
Proof.
  intros H Hr Hrun. pose proof (HInv_next_u64 _ _ H). pose proof (h_run _ _ H r Hr) as Ho.
  unfold run_ok in Ho. rewrite Hrun in Ho. destruct Ho as (_ & Hlt & _ & Hh). split; eauto using h_keys.
  - intros r' Hr' _. by apply (h_run n).
  - by intros r' s [= <- <-].
  - intros i Hi _. eapply hist_is_0; [|done]. by eapply (fresh_run n).
Qed.

Lemma mid_agree n db ex V V' : agree V V' → mid n db ex V → mid n db ex V'.
Proof.
  intros Ha [H0 HK H1 H2 H3 H4 H5 H6 H7].
  split; intros; rewrite ?(agree_next _ _ Ha), ?(agree_run _ _ _ Ha), ?(agree_hist _ _ _ _ Ha); eauto using hist_keys_agree.
  - eapply run_ok_ext; [by apply agree_run|by rewrite (agree_next _ _ Ha)|intros; by apply agree_hist|]. by apply H2.
  - destruct (H3 r s) as [? Hh]; [done..|]. split; [done|]. eapply hist_is_ext; [|done]. intros. by apply agree_hist.
  - rewrite (agree_done _ _ _ _ Ha). eauto.
Qed.
Lemma mid_quiet n db ex V b : Forall wf_quiet b → mid n db ex V → mid n db ex (commit b V).
Proof. intros Hb. by apply mid_agree, agree_quiet. Qed.

(** The next event of the run being appended to. *)
Lemma mid_event n db r s V ev :
  mid n db (Some (r, s)) V → u64 r → s + 1 < two64 → ev.(ev_EventId) = s + 1 →
  mid n db (Some (r, s + 1)) (<[WFHistoryKey r (s + 1) := VEvent ev]> V).
Proof.
  intros [H0 HK H1 H2 H3 H4 H5 H6 H7] Hr Hs Hev. destruct (H3 r s eq_refl Hr) as [Hlt Hh].
  assert (Hs' : u64 (s + 1)) by (unfold u64; lia).
  assert (Hfresh : hist r (s + 1) V = None).
  { specialize (Hh (s + 1) Hs'). case_decide; [lia|done]. }
  split; [done|by apply hist_keys_put|..].
  - by rewrite next_other.
  - intros r' Hr' Hne. assert (r' ≠ r) by (intros ->; by eapply Hne).
    eapply run_ok_ext; [by apply run_other|by rewrite next_other| |apply H2].
    + intros i Hi. rewrite hist_put by done. rewrite decide_False by naive_solver. done.
    + done.
    + intros s'. intros [= <- _]. done.
  - intros r' s' [= <- <-] _. split; [done|]. intros i Hi. rewrite hist_put by done.
    specialize (Hh i Hi). destruct (decide (r = r ∧ i = s + 1)) as [[_ ->]|Hne].
    + rewrite decide_True by lia. eauto.
    + assert (i ≠ s + 1) by naive_solver. repeat case_decide; done || lia.
  - intros i Hi H2i. rewrite hist_put; [|done..|by apply (HInv_next_u64 n)|done].
    rewrite decide_False; [by apply H4|]. intros [? _]. lia.
  - intros r' i ev' Hr' Hi Hev'. rewrite hist_put by done. case_decide as E; [|by apply H5].
    destruct E as [-> ->]. apply H5 in Hev'; [congruence|done..].
  - intros r' Hr' Hne. rewrite run_other by done. by apply H6.
  - intros. rewrite done_other by done. eauto.
Qed.

(** A done marker. *)
Lemma mid_done n db ex V r i v :
  mid n db ex V → u64 r → u64 i → mid n db ex (<[WFActivityDoneKey r i := VRaw v]> V).
Proof.
  intros [H0 HK H1 H2 H3 H4 H5 H6 H7] Hr Hi. split; [done|by apply hist_keys_other|..].
  - by rewrite next_other.
  - intros r' Hr' Hne. eapply run_ok_ext; [by apply run_other|by rewrite next_other|intros; by apply hist_other|by apply H2].
  - intros r' s E Hr'. destruct (H3 r' s E Hr'). split; [done|]. eapply hist_is_ext; [|done].
    intros. by apply hist_other.
  - intros. rewrite hist_other by done. eauto.
  - intros. rewrite hist_other by done. eauto.
  - intros. rewrite run_other by done. eauto.
  - intros. rewrite done_put by done. case_decide; eauto.
Qed.

(** A new run. *)
Lemma mid_create n db ex V ev run :
  let nid := next_run db in
  mid n db ex V → nid + 1 < two64 → ev.(ev_EventId) = 1 →
  run.(run_RunId) = nid → run.(run_CurHistorySeq) = 1 →
  mid n db ex (<[WFRunKey nid := VRun run]> (<[WFHistoryKey nid 1 := VEvent ev]>
                 (<[run_counter := VRaw (u64b (nid + 1))]> V))).
Proof.
  intros nid [H0 HK H1 H2 H3 H4 H5 H6 H7] Hn2 Hev Hid Hseq.
  destruct (h_next _ _ H0) as [Hn1 Hn]. fold nid in Hn1, Hn.
  assert (Hu : u64 nid) by (unfold u64; lia). assert (H1u : u64 1) by done.
  set (V1 := <[run_counter := _]> V). set (V2 := <[WFHistoryKey nid 1 := _]> V1).
  assert (Hnext : next_run (<[WFRunKey nid := VRun run]> V2) = nid + 1).
  { unfold V2. rewrite !next_other by done. apply next_put. unfold u64. lia. }
  assert (Hh : ∀ r i, u64 r → u64 i → hist r i (<[WFRunKey nid := VRun run]> V2) =
    if decide (r = nid ∧ i = 1) then Some ev else hist r i V).
  { intros r i Hr Hi. rewrite hist_other by done. unfold V2. rewrite hist_put by done.
    unfold V1. by rewrite hist_other by done. }
  assert (Hr : ∀ r, u64 r → run_of r (<[WFRunKey nid := VRun run]> V2) =
    if decide (r = nid) then Some run else run_of r V).
  { intros r Hr. rewrite run_put by done. unfold V2, V1. by rewrite !run_other by done. }
  split; [done|by apply hist_keys_other, hist_keys_put, hist_keys_other|..].
  - right. done.
  - intros r Hru Hne. destruct (decide (r = nid)) as [->|Hrn].
    + unfold run_ok. rewrite Hr, decide_True, Hnext, Hid, Hseq by done. split_and!; try done; try lia.
      intros i Hi. rewrite Hh by done. destruct (decide (nid = nid ∧ i = 1)) as [[_ ->]|Hi1].
      * rewrite decide_True by lia. eauto.
      * assert (i ≠ 1) by naive_solver. rewrite decide_False by lia.
        destruct (decide (i = 0)) as [->|]; [|apply H4; [done|lia]].
        specialize (H2 nid Hu). unfold run_ok in H2. destruct (run_of nid V).
        -- destruct H2 as (_ & _ & _ & H2); [done|]. specialize (H2 0 eq_refl). by rewrite decide_False in H2 by lia.
        -- eapply hist_is_0; [by apply H2|done].
    + eapply run_ok_ext; [| | |by apply (H2 r)].
      * rewrite Hr by done. by rewrite decide_False.
      * rewrite Hnext. destruct H1 as [-> | ->]; unfold nid; lia.
      * intros i Hi. rewrite Hh by done. rewrite decide_False by naive_solver. done.
  - intros r s E Hru. destruct (H3 r s E Hru) as [Hlt Hs]. split; [done|].
    eapply hist_is_ext; [|done]. intros i Hi. rewrite Hh by done. rewrite decide_False; [done|].
    intros [-> _]. unfold nid in *. lia.
  - intros i Hi H2i. fold nid. rewrite Hh by done. rewrite decide_False by lia. by apply H4.
  - intros r i ev' Hru Hi E. rewrite Hh by done. case_decide as D; [|by apply H5].
    destruct D as [-> ->].
    destruct (fresh_run n db nid H0 Hu) as [_ Hf]; [done|].
    pose proof (hist_is_0 _ _ _ Hf Hi). congruence.
  - intros r Hru Hne. rewrite Hr by done. rewrite decide_False by done. by apply H6.
  - intros r i d Hru Hi E. rewrite done_other by done. unfold V2, V1. rewrite !done_other by done. eauto.
Qed.

(** The command is done. *)
Lemma mid_finish_none n db V : mid n db None V → n + 1 < two64 → HInv (n + 1) V ∧ extends db V.
Proof.
  intros [H0 HK H1 H2 H3 H4 H5 H6 H7] Hn. pose proof (h_next _ _ H0) as Hnx. split; split.
  - done.
  - done.
  - destruct H1 as [-> | ->]; lia.
  - intros r Hr. eapply (run_ok_mono n); [lia|]. by apply H2.
  - done.
  - intros r run Hr E. exists run. split; [|apply run_extends_refl].
    destruct (decide (r = next_run db)) as [->|]; [|by rewrite H6].
    destruct (fresh_run n db (next_run db) H0 Hr) as [Hf _]; [done|]. congruence.
  - done.
Qed.
Lemma mid_finish n n' db V r s run run' :
  mid n db (Some (r, s)) V → u64 r → run_of r db = Some run → run_extends run run' →
  run'.(run_CurHistorySeq) = s → n + 1 ≤ n' → s ≤ n' → n' < two64 →
  HInv n' (<[WFRunKey r := VRun run']> V) ∧ extends db (<[WFRunKey r := VRun run']> V).
Proof.
  intros [H0 HK H1 H2 H3 H4 H5 H6 H7] Hr Hrun Hx Hseq Hn Hsn Hn'.
  pose proof (h_next _ _ H0) as Hnx. destruct (H3 r s eq_refl Hr) as [Hlt Hh].
  pose proof (h_run _ _ H0 r Hr) as Ho. unfold run_ok in Ho. rewrite Hrun in Ho. destruct Ho as (Hid & _ & Hs1 & _).
  destruct Hx as (x1 & x2 & x3 & x4 & x5 & x6).
  assert (Hnext : next_run (<[WFRunKey r := VRun run']> V) = next_run V) by (by apply next_other).
  split; split.
  - by apply hist_keys_other.
  - done.
  - rewrite Hnext. destruct H1 as [-> | ->]; lia.
  - intros r' Hr'. destruct (decide (r' = r)) as [->|Hne].
    + unfold run_ok. rewrite run_put, decide_True, Hnext by done. split_and!; try lia.
      rewrite Hseq. eapply hist_is_ext; [|done]. intros. by apply hist_other.
    + eapply (run_ok_mono n); [lia|]. apply (run_ok_ext n r' V); [|by rewrite Hnext|intros; by apply hist_other|].
      * rewrite run_put by done. by rewrite decide_False.
      * apply H2; [done|]. intros s' [= <- _]. done.
  - intros. rewrite hist_other by done. eauto.
  - intros r' run0 Hr' E. rewrite run_put by done. destruct (decide (r' = r)) as [->|Hne].
    + rewrite Hrun in E. injection E as <-. exists run'. by split_and!.
    + exists run0. split; [|apply run_extends_refl].
      destruct (decide (r' = next_run db)) as [->|]; [|by rewrite H6].
      destruct (fresh_run n db (next_run db) H0 Hr') as [Hf _]; [done|]. congruence.
  - intros. rewrite done_other by done. eauto.
Qed.

Lemma HInv_agree n V V' : agree V V' → HInv n V → HInv n V'.
Proof.
  intros Ha [HK H1 H2 H3]. split; [by eapply hist_keys_agree|done|by rewrite (agree_next _ _ Ha)|].
  intros r Hr. eapply run_ok_ext; [by apply agree_run|by rewrite (agree_next _ _ Ha)|intros; by apply agree_hist|auto].
Qed.
Lemma agree_extends V V' : agree V V' → extends V V'.
Proof.
  intros Ha. split; intros;
    rewrite ?(agree_run _ _ _ Ha), ?(agree_hist _ _ _ _ Ha), ?(agree_done _ _ _ _ Ha); eauto using run_extends_refl.
Qed.
Lemma HInv_mono n n' V : n ≤ n' → n' < two64 → HInv n V → HInv n' V.
Proof.
  intros Hn Hn' [HK H1 H2 H3]. split; [done|done|lia|]. intros. eapply run_ok_mono; eauto.
Qed.

(** What a handler of weight [w] does to the workflow tables. *)
Definition keeps (w : N) {A} (m : M A) : Prop := ∀ n db x b,
  HInv n db → n + w < two64 → m db = Ok (x, b) → HInv (n + w) (commit b db) ∧ extends db (commit b db).

Lemma keeps_quiet {A} (m : M A) : each_M wf_quiet m → keeps 1 m.
Proof.
  intros Hm n db x b H Hn E. apply Hm in E. pose proof (agree_quiet b db E) as Ha.
  split; [|by apply agree_extends]. eapply HInv_agree; [done|]. eapply HInv_mono; [|done|done]. lia.
Qed.

(** ** The workflow handlers *)
Section handlers.
Context {PC : PayloadCodec}.

Lemma wfq_publishReady l g p h now : each_M wf_quiet (publishReady l g p h now).
Proof. unfold publishReady. each. Qed.
#[local] Hint Resolve wfq_publishReady : rota_each.
Lemma wfq_dispatchActivity r i attrs : each_M wf_quiet (dispatchActivity r i attrs).
Proof. unfold dispatchActivity. each. Qed.
Lemma wfq_armWFTimer r i attrs : each_M wf_quiet (armWFTimer r i attrs).
Proof. unfold armWFTimer. each. Qed.
Lemma wfq_dispatchWorkflowTask run : each_M wf_quiet (dispatchWorkflowTask run).
Proof. unfold dispatchWorkflowTask. each. Qed.

(** Only the pending flag of the row changes. *)
Lemma dispatchWorkflowTask_run run db run' b :
  dispatchWorkflowTask run db = Ok (run', b) →
  ∃ p, run' = run_set_WfTaskPending p run ∧ Forall wf_quiet b.
Proof.
  intros E. pose proof (wfq_dispatchWorkflowTask run db run' b E) as Hq. unfold dispatchWorkflowTask in E.
  destruct (_ || _); [minv E; exists (run_WfTaskPending run); by destruct run|].
  apply bind_Ok in E as (x & b1 & b2 & _ & [-> _]%ret_Ok & _). eauto.
Qed.

Lemma createRun_mid n db ex V wt tenant input parent now id b :
  mid n db ex V → next_run db + 1 < two64 → createRun wt tenant input parent now db = Ok (id, b) →
  id = next_run db ∧ mid n db ex (commit b V).
Proof.
  intros H Hn E. pose proof (HInv_next_u64 _ _ (m_db _ _ _ _ H)) as Hu.
  unfold createRun in E. apply bind_Ok in E as (id' & b1 & b2 & E1 & E & ->).
  unfold nextRunID in E1. apply bind_Ok in E1 as (v & b3 & b4 & [-> ->]%gets_Ok & E1 & ->).
  apply bind_Ok in E1 as ([] & b5 & b6 & [_ ->]%bset_Ok & [-> ->]%ret_Ok & ->).
  change (match GetRaw _ db with Some v => beU64 v | None => 1 end) with (next_run db) in *.
  cbv zeta in E. apply bind_Ok in E as ([] & b7 & b8 & [_ ->]%putProto_Ok & E & ->).
  apply bind_Ok in E as (run & b9 & b10 & Ed & E & ->).
  apply dispatchWorkflowTask_run in Ed as (p & -> & Hq).
  apply bind_Ok in E as ([] & b11 & b12 & [_ ->]%putProto_Ok & [-> ->]%ret_Ok & ->).
  split; [done|]. rewrite incr64_small by done. rewrite !commit_app.
  set (ev := mkHistoryEvent 1 HET_WORKFLOW_STARTED now input). set (run := run_set_WfTaskPending p _).
  set (V2 := <[WFHistoryKey (next_run db) 1 := VEvent ev]> (<[run_counter := VRaw (u64b (next_run db + 1))]> V)).
  change (mid n db ex (<[WFRunKey (next_run db) := VRun run]> (commit b9 V2))).
  apply (mid_agree n db ex (<[WFRunKey (next_run db) := VRun run]> V2)).
  - by apply agree_insert, agree_quiet.
  - by apply mid_create.
Qed.

Lemma keeps_start c : keeps 1 (applyWFStartRun c).
Proof.
  intros n db x b H Hn E. unfold applyWFStartRun in E.
  apply bind_Ok in E as (id & b1 & b2 & E & [-> ->]%ret_Ok & ->). rewrite app_nil_r.
  apply (createRun_mid n db None db) in E as [_ E]; [|by apply mid_none|pose proof (h_next _ _ H); lia].
  by apply mid_finish_none.
Qed.

Lemma appendEffect_mid n db ex V c next e run run' b :
  mid n db ex V → next_run db + 1 < two64 → appendEffect c next e run db = Ok (run', b) →
  (∃ st, run' = run_set_Status st run) ∧ mid n db ex (commit b V).
Proof.
  intros H Hn E. unfold appendEffect in E.
  assert (Hset : ∀ st, run_set_Status st run = run_set_Status st run) by done.
  assert (Hsame : run = run_set_Status run.(run_Status) run) by (by destruct run).
  repeat match type of E with (if ?c then _ else _) _ = _ => destruct c end;
    cbv zeta in E;
    try (apply ret_Ok in E as [-> ->]; by eauto);
    apply bind_Ok in E as (x & b1 & b2 & E & [-> ->]%ret_Ok & ->); rewrite app_nil_r; (split; [by eauto|]).
  - apply mid_quiet; [by eapply wfq_dispatchActivity|done].
  - apply mid_quiet; [by eapply wfq_armWFTimer|done].
  - by eapply createRun_mid in E as [_ E].
Qed.

Lemma appendEvents_mid n db c evs s V run next run' b :
  mid n db (Some (c.(wac_RunID), s)) V → next_run db + 1 < two64 → u64 c.(wac_RunID) →
  s + N.of_nat (length evs) < two64 → appendEvents c evs s run db = Ok ((next, run'), b) →
  next = s + N.of_nat (length evs) ∧ (∃ st, run' = run_set_Status st run) ∧
  mid n db (Some (c.(wac_RunID), next)) (commit b V).
Proof.
  revert s V run b. induction evs as [|e evs IH]; intros s V run b H Hn Hr Hs E; cbn [appendEvents] in E.
  - apply ret_Ok in E as [[= -> ->] ->]. split; [cbn [length]; lia|]. split; [|done].
    exists (run_Status run). by destruct run.
  - cbv zeta in E. cbn [length] in *. rewrite incr64_small in E by lia.
    apply bind_Ok in E as ([] & b1 & b2 & [_ ->]%putProto_Ok & E & ->).
    apply bind_Ok in E as (run1 & b3 & b4 & E1 & E & ->). rewrite !commit_app.
    apply (mid_event n db _ s V (mkHistoryEvent (s + 1) e.(wei_Type) c.(wac_NowMs) e.(wei_Attrs))) in H;
      [|done|lia|done].
    eapply appendEffect_mid in E1 as [[st ->] H1]; [|exact H|done].
    eapply IH in E as (-> & [st' ->] & E); [|exact H1|done..|lia].
    split; [lia|]. split; [|exact E]. exists st'. done.
Qed.

Lemma keeps_append c : u64 c.(wac_RunID) → keeps (1 + N.of_nat (length c.(wac_Events))) (applyWFAppendEvents c).
Proof.
  intros Hr n db x b H Hn E. unfold applyWFAppendEvents in E.
  assert (Hrej : ∀ x', x' = b → x' = [] → HInv (n + (1 + N.of_nat (length c.(wac_Events)))) (commit b db) ∧ extends db (commit b db)).
  { intros ? <- ->. split; [|apply extends_refl]. eapply (HInv_mono n); [lia|done|done]. }
  apply bind_Ok in E as (o & b1 & b2 & [-> ->]%gets_Ok & E & ->). simpl app in *.
  change (GetProto _ db) with (run_of c.(wac_RunID) db) in E.
  destruct (run_of _ db) as [run|] eqn:Hrun; [|apply ret_Ok in E as [_ ->]; eauto].
  destruct (bool_decide_reflect (run_Status run = WF_RUNNING)) as [Hst|]; [|apply ret_Ok in E as [_ ->]; eauto].
  destruct (_ || _); [apply ret_Ok in E as [_ ->]; eauto|]. cbn [negb] in E.
  apply bind_Ok in E as ([next run'] & b1 & b3 & E1 & E & ->).
  pose proof (h_run _ _ H _ Hr) as Ho. unfold run_ok in Ho. rewrite Hrun in Ho. destruct Ho as (Hid & _ & Hs & _).
  pose proof (h_next _ _ H) as Hnx.
  eapply appendEvents_mid in E1 as (-> & [st ->] & Hm); [|by apply mid_some|lia|done|lia].
  cbv zeta in E. apply bind_Ok in E as ([] & b4 & b5 & [_ ->]%putProto_Ok & [-> ->]%ret_Ok & ->).
  rewrite !commit_app. eapply mid_finish; [exact Hm|done|exact Hrun| |reflexivity|lia|lia|lia].
  split_and!; try done. cbn. lia.
Qed.

(** One event, and the run row. *)
Lemma advanceRun_writes r s now run db u b :
  advanceRun r s now run db = Ok (u, b) →
  ∃ run', run_RunId run' = run_RunId run ∧ run_WorkflowType run' = run_WorkflowType run ∧
    run_TenantId run' = run_TenantId run ∧ run_Input run' = run_Input run ∧ run_CurHistorySeq run' = s ∧
    ∀ V, agree (<[WFRunKey r := VRun run']> V) (commit b V).
Proof.
  intros E. unfold advanceRun in E. cbv zeta in E. apply bind_Ok in E as (run1 & b1 & b2 & E1 & E & ->).
  apply dispatchWorkflowTask_run in E1 as (p & -> & Hq). apply putProto_Ok in E as [_ ->].
  eexists. split_and!; [..|intros V; rewrite commit_app; apply agree_insert; by apply agree_quiet]; done.
Qed.

Lemma advance_finish n db r s V now run run0 u b :
  mid n db (Some (r, s)) V → u64 r → run_of r db = Some run → run.(run_Status) = WF_RUNNING →
  run.(run_CurHistorySeq) ≤ s ≤ n + 1 → n + 1 < two64 →
  run_RunId run0 = run_RunId run → run_WorkflowType run0 = run_WorkflowType run →
  run_TenantId run0 = run_TenantId run → run_Input run0 = run_Input run →
  advanceRun r s now run0 db = Ok (u, b) → HInv (n + 1) (commit b V) ∧ extends db (commit b V).
Proof.
  intros Hm Hr Hrun Hst Hs Hn E1 E2 E3 E4 E. apply advanceRun_writes in E as (run' & F1 & F2 & F3 & F4 & F5 & Ha).
  destruct (mid_finish n (n + 1) db V r s run run' Hm Hr Hrun) as [HI HX]; [|done|lia..|].
  - split_and!; congruence || lia || done.
  - split; [by eapply HInv_agree|]. eapply extends_trans; [exact HX|by apply agree_extends].
Qed.

Lemma keeps_appendExternalEvent r typ attrs now : u64 r → keeps 1 (appendExternalEvent r typ attrs now).
Proof.
  intros Hr n db x b H Hn E. unfold appendExternalEvent in E.
  apply bind_Ok in E as (o & b1 & b2 & [-> ->]%gets_Ok & E & ->). simpl app in *.
  change (GetProto _ db) with (run_of r db) in E.
  assert (Hrej : HInv (n + 1) db ∧ extends db db).
  { split; [|apply extends_refl]. eapply (HInv_mono n); [lia|done|done]. }
  destruct (run_of _ db) as [run|] eqn:Hrun; [|by apply ret_Ok in E as [_ ->]].
  destruct (bool_decide_reflect (run_Status run = WF_RUNNING)) as [Hst|]; [|by apply ret_Ok in E as [_ ->]].
  cbn [negb] in E. cbv zeta in E.
  pose proof (h_run _ _ H _ Hr) as Ho. unfold run_ok in Ho. rewrite Hrun in Ho. destruct Ho as (Hid & _ & Hs & _).
  rewrite incr64_small in E by lia.
  apply bind_Ok in E as ([] & b3 & b4 & [_ ->]%putProto_Ok & E & ->). rewrite commit_app.
  eapply (advance_finish n db r); [|exact Hr|exact Hrun|exact Hst| |exact Hn|..|exact E];
    [|lia|done|done|done|done].
  apply (mid_event n db r _ db); [by apply mid_some|done|lia|done].
Qed.

Lemma keeps_then {A B : Type} (m : M A) (f : A → M B) :
  keeps 1 m → (∀ x, each_M wf_quiet (f x)) → keeps 1 (m ≫= f).
Proof.
  intros Hm Hf n db y b H Hn (x & b1 & b2 & E1 & E2 & ->)%bind_Ok. rewrite commit_app.
  destruct (Hm n db x b1 H Hn E1) as [H1 X1]. apply Hf, (agree_quiet _ (commit b1 db)) in E2.
  split; [by eapply HInv_agree|]. eapply extends_trans; [exact X1|by apply agree_extends].
Qed.
Lemma agree_commit b V V' : agree V V' → agree (commit b V) (commit b V').
Proof.
  revert V V'. induction b as [|[k v|k] b IH]; intros V V' Ha; [done|..]; rewrite !commit_cons; apply IH; simpl.
  - by apply agree_insert.
  - intros k' Hk. destruct (decide (k = k')) as [->|]; [by rewrite !lookup_delete_eq|].
    rewrite !lookup_delete_ne by done. by apply Ha.
Qed.
(** The second handler reads the committed store too. *)
Lemma keeps_after {A B : Type} (m : M A) (f : A → M B) :
  each_M wf_quiet m → (∀ x, keeps 1 (f x)) → keeps 1 (m ≫= f).
Proof.
  intros Hm Hf n db y b H Hn (x & b1 & b2 & E1 & E2 & ->)%bind_Ok. rewrite commit_app.
  apply Hm, (agree_quiet _ db), (agree_commit b2) in E1. destruct (Hf x n db y b2 H Hn E2) as [H1 X1].
  split; [by eapply HInv_agree|]. eapply extends_trans; [exact X1|by apply agree_extends].
Qed.

Lemma keeps_recordActivityTerminal r e f res now :
  u64 r → u64 e → keeps 1 (recordActivityTerminal r e f res now).
Proof.
  intros Hr He n db x b H Hn E. unfold recordActivityTerminal in E.
  apply bind_Ok in E as (o & b1 & b2 & [-> ->]%gets_Ok & E & ->). simpl app in *.
  change (GetProto _ db) with (run_of r db) in E.
  assert (Hrej : HInv (n + 1) db ∧ extends db db).
  { split; [|apply extends_refl]. eapply (HInv_mono n); [lia|done|done]. }
  destruct (run_of _ db) as [run|] eqn:Hrun; [|by apply ret_Ok in E as [_ ->]].
  destruct (bool_decide_reflect (run_Status run = WF_RUNNING)) as [Hst|]; [|by apply ret_Ok in E as [_ ->]].
  cbn [negb] in E. apply bind_Ok in E as (d & b1 & b3 & [-> ->]%gets_Ok & E & ->). simpl app in *.
  destruct (GetRaw _ db); [by apply ret_Ok in E as [_ ->]|].
  apply bind_Ok in E as (sc & b1 & b4 & [-> ->]%gets_Ok & E & ->). simpl app in *. cbv zeta in E.
  destruct (negb _); [by apply ret_Ok in E as [_ ->]|].
  pose proof (h_run _ _ H _ Hr) as Ho. unfold run_ok in Ho. rewrite Hrun in Ho. destruct Ho as (Hid & _ & Hs & _).
  rewrite incr64_small in E by lia.
  apply bind_Ok in E as ([] & b5 & b6 & [_ ->]%putProto_Ok & E & ->).
  apply bind_Ok in E as ([] & b7 & b8 & [_ ->]%bset_Ok & E & ->).
  apply bind_Ok in E as (u & b9 & b10 & E & [-> ->]%ret_Ok & ->).
  rewrite app_nil_r, !commit_app.
  eapply (advance_finish n db r); [|exact Hr|exact Hrun|exact Hst| |exact Hn|..|exact E];
    [|lia|done|done|done|done].
  apply mid_done; [|done|done]. apply (mid_event n db r _ db); [by apply mid_some|done|lia|done].
Qed.

Lemma keeps_cancel c : u64 c.(wcc_RunID) → keeps 1 (applyWFCancel c).
Proof.
  intros Hr n db x b H Hn E. unfold applyWFCancel in E.
  apply bind_Ok in E as (o & b1 & b2 & [-> ->]%gets_Ok & E & ->). simpl app in *.
  change (GetProto _ db) with (run_of (wcc_RunID c) db) in E.
  assert (Hrej : HInv (n + 1) db ∧ extends db db).
  { split; [|apply extends_refl]. eapply (HInv_mono n); [lia|done|done]. }
  destruct (run_of _ db) as [run|] eqn:Hrun; [|by apply ret_Ok in E as [_ ->]].
  destruct (bool_decide_reflect (run_Status run = WF_RUNNING)) as [Hst|]; [|by apply ret_Ok in E as [_ ->]].
  cbn [negb] in E. cbv zeta in E.
  pose proof (h_run _ _ H _ Hr) as Ho. unfold run_ok in Ho. rewrite Hrun in Ho. destruct Ho as (Hid & _ & Hs & _).
  rewrite incr64_small in E by lia.
  apply bind_Ok in E as ([] & b3 & b4 & [_ ->]%putProto_Ok & E & ->).
  apply bind_Ok in E as ([] & b5 & b6 & [_ ->]%putProto_Ok & [-> ->]%ret_Ok & ->).
  rewrite !commit_app. eapply (mid_finish n (n + 1) db _ (wcc_RunID c) _ run);
    [|done|exact Hrun| |reflexivity|lia|cbn; lia|lia].
  - apply (mid_event n db _ _ db); [by apply mid_some|done|lia|done].
  - split_and!; try done. cbn. lia.
Qed.

Lemma ParseWFTimerRef_ok ref r e : ParseWFTimerRef ref = Some (r, e) → u64 r ∧ u64 e.
Proof.
  unfold ParseWFTimerRef. destruct (Nat.ltb_spec (length ref) 16) as [|Hl]; [done|]. intros [= <- <-].
  assert (Hb : ∀ b : bytes, length b = 8%nat → u64 (be_val b)).
  { intros b Hb. pose proof (be_val_lt b) as Hv. rewrite Hb in Hv. exact Hv. }
  split; apply Hb; rewrite ?length_take, ?length_drop; lia.
Qed.

(** ** The other handlers leave the tables alone *)
Lemma wfq_publishOne c gm : each_M wf_quiet (publishOne c gm).
Proof. unfold publishOne. each. Qed.
Lemma wfq_recordDedup c id : each_M wf_quiet (recordDedup c id).
Proof. unfold recordDedup. each. Qed.
#[local] Hint Resolve wfq_publishOne wfq_recordDedup : rota_each.
Lemma wfq_applyPublish c : each_M wf_quiet (applyPublish c).
Proof. unfold applyPublish. each. Qed.
Lemma wfq_publishItems a items st : each_M wf_quiet (publishItems a items st).
Proof.
  revert st. induction items as [|i items IH]; intros st; simpl; [each|].
  apply each_bind; [|done]. unfold publishItem. each.
Qed.
Lemma wfq_putGroups order cache : each_M wf_quiet (putGroups order cache).
Proof. induction order; simpl; each. Qed.
#[local] Hint Resolve wfq_publishItems wfq_putGroups : rota_each.
Lemma wfq_applyPublishBatch c : each_M wf_quiet (applyPublishBatch c).
Proof. unfold applyPublishBatch. each. Qed.
Lemma wfq_applyLease c : each_M wf_quiet (applyLease c).
Proof. unfold applyLease, nextLeaseID. each. Qed.
Lemma wfq_makeReady m gm r now : each_M wf_quiet (makeReady m gm r now).
Proof. unfold makeReady. each. Qed.
Lemma wfq_deleteLeaseToken l : each_M wf_quiet (deleteLeaseToken l).
Proof. unfold deleteLeaseToken. each. Qed.
#[local] Hint Resolve wfq_makeReady wfq_deleteLeaseToken : rota_each.
Lemma wfq_applyAck c : each_M wf_quiet (applyAck c).
Proof. unfold applyAck. each. Qed.
#[local] Hint Resolve wfq_applyAck : rota_each.
Lemma wfq_applyExtend c : each_M wf_quiet (applyExtend c).
Proof. unfold applyExtend. each. Qed.
Lemma wfq_dropRows l g rows d : each_M wf_quiet (dropRows l g rows d).
Proof. revert d. induction rows as [|[k v] rows IH]; intros d; simpl; each. Qed.
#[local] Hint Resolve wfq_dropRows : rota_each.
Lemma wfq_dropLeasable l g gm : each_M wf_quiet (dropLeasable l g gm).
Proof. unfold dropLeasable. each. Qed.
#[local] Hint Resolve wfq_dropLeasable : rota_each.
Lemma wfq_teardownLanes g lanes a : each_M wf_quiet (teardownLanes g lanes a).
Proof. revert a. induction lanes as [|l lanes IH]; intros a; simpl; each. Qed.
#[local] Hint Resolve wfq_teardownLanes : rota_each.
Lemma wfq_control :
  (∀ c, each_M wf_quiet (applySetPolicy c)) ∧ (∀ c, each_M wf_quiet (applyGroupConfig c)) ∧
  (∀ c, each_M wf_quiet (applyGroupLifecycle c)) ∧ (∀ c, each_M wf_quiet (applyTeardownGroup c)) ∧
  (∀ c, each_M wf_quiet (applyCron c)) ∧ (∀ c, each_M wf_quiet (applyFireCron c)) ∧
  (∀ c, each_M wf_quiet (applyIssueToken c)) ∧ (∀ c, each_M wf_quiet (applySingleton c)) ∧
  (∀ c, each_M wf_quiet (applySetLaneConfig c)) ∧ (∀ c, each_M wf_quiet (applyReapGroup c)) ∧
  (∀ c, each_M wf_quiet (applyAuthPrincipal c)).
Proof.
  unfold applySetPolicy, applyGroupConfig, applyGroupLifecycle, applyTeardownGroup, applyCron,
    applyFireCron, applyIssueToken, applySingleton, applySetLaneConfig, applyReapGroup,
    applyAuthPrincipal, applyAuthCreatePrincipal, applyAuthRotatePrincipalToken,
    applyAuthSetPrincipalDisabled, applyAuthGrantPrincipal, applyAuthRevokePrincipalGrant, loadAuthPrincipal.
  split_and!; intros c; each.
Qed.

(** ** Handlers that may end an activity or fire a workflow timer *)
Context {Laws : PayloadCodecLaws PC}.

Create HintDb rota_keeps discriminated.
Ltac keeping :=
  repeat first
    [ solve [auto 2 with rota_keeps]
    | solve [apply keeps_quiet; each]
    | apply keeps_after; [solve [each]|intros ?]
    | apply keeps_then; [|intros ?; solve [each]]
    | match goal with
      | |- keeps _ (match ?x with _ => _ end) => destruct x
      | |- keeps _ (when _ _) => unfold when
      | |- keeps _ (let _ := _ in _) => cbv zeta
      end ].

Lemma keeps_deadLetter m reason meta ts : keeps 1 (deadLetter m reason meta ts).
Proof using Laws.
  unfold deadLetter. apply keeps_after; [each|intros _]. apply keeps_after; [each|intros _].
  unfold when. destruct (has_prefix _ _); [|keeping].
  destruct (unmarshal_ActivityTask _) as [t|] eqn:E; [|keeping]. apply ActivityTask_u64 in E as [Hr He].
  destruct (negb _); [|keeping]. apply keeps_then; [by apply keeps_recordActivityTerminal|intros ?; each].
Qed.
#[local] Hint Resolve keeps_deadLetter : rota_keeps.
Lemma keeps_applyNack c : keeps 1 (applyNack c).
Proof using Laws. unfold applyNack. keeping. Qed.
#[local] Hint Resolve keeps_applyNack : rota_keeps.
Lemma keeps_applyComplete c : keeps 1 (applyComplete c).
Proof using Laws. unfold applyComplete. keeping. Qed.
Lemma keeps_fireWFTimer ref now : keeps 1 (fireWFTimer ref now).
Proof using Type.
  unfold fireWFTimer. destruct (ParseWFTimerRef ref) as [[r e]|] eqn:E; [|keeping].
  apply ParseWFTimerRef_ok in E as [Hr _]. by apply keeps_appendExternalEvent.
Qed.
#[local] Hint Resolve keeps_fireWFTimer : rota_keeps.
Lemma keeps_applyFireTimer c : keeps 1 (applyFireTimer c).
Proof using Laws.
  unfold applyFireTimer, fireKind, fireReadyAt, fireLeaseDeadline, expireLease, fireLeaseMaxLife,
    fireMsgExpiry, fireDedupExpiry. keeping.
Qed.
End handlers.
