(* ===== verification/BrokerProps.v ===== *)
(** * Theorems on publishing, leasing and settling

    Functional behaviour of the broker's commands on every branch, on the
    states the accounting invariant describes; and the invariant itself along a
    log. *)

From S2P Require Import Prelude Keys Data Store Backoff Publish Workflow Broker Control Auth Timers Fsm Demo Reason Structure Accounting AccountingOps AccountingLog.

Implicit Types (db : store) (n : N) (m : Message) (gm : GroupMeta) (b : batch).

(** ** Helper lemmas *)
Lemma firstReady_total rows :
  Forall (λ kv : bytes * value, ∃ m, kv.2 = VMessage m) rows → ∃ o, firstReady rows = Ok o.
Proof. intros Hr. destruct (firstReady_spec rows Hr) as [[-> _]|(? & ? & ? & -> & _)]; eauto. Qed.

Lemma cnt_pos_message l g st db :
  rows_wf db → short l → short g → cnt l g st db ≠ 0 →
  ∃ i m, u64 i ∧ GetProto (MessageKey l g i) db = Some m ∧ m.(m_State) = st.
Proof.
  intros Hwf Hl Hg Hc. unfold cnt in Hc.
  destruct (map_choose (filter (in_state l g st) db)) as (k & v & [E [Hp Hs]]%map_lookup_filter_Some).
  { intros He. rewrite He, map_size_empty in Hc. done. }
  simpl in *. apply prefix_tag in Hp as Ht.
  destruct (MessageKey_row _ _ _ Hwf E Ht) as (l' & g' & i & ? & ? & Hi & ->).
  apply MessagePrefix_inv in Hp as [<- <-]; [|done..].
  destruct v; try done. injection Hs as Hs. exists i, m. split_and!; [done| |done]. by apply GetProto_row.
Qed.

(** READY messages and the READY counter. *)
Lemma ready_iff n l g db gm :
  Inv n db → short l → short g → GetProto (GroupMetaKey l g) db = Some gm →
  (0 < gm.(gm_ReadyCount) ↔
   ∃ i m, u64 i ∧ GetProto (MessageKey l g i) db = Some m ∧ m.(m_State) = READY).
Proof.
  intros H Hl Hg Eg. pose proof (inv_group n db H l g Hl Hg) as Hok. split.
  - intros Hpos. apply cnt_pos_message; [by apply (inv_rows n)|done|done|].
    unfold group_ok in Hok. rewrite Eg in Hok. destruct Hok as (Hr & _). lia.
  - intros (i & m & Hi & Em & Hst).
    destruct (group_info n l g i db m Hok (inv_rows n db H) Hl Hg Hi Em)
      as (gm0 & Eg0 & _ & _ & _ & I4 & _).
    rewrite Eg in Eg0. injection Eg0 as <-. rewrite ind_Some, decide_True in I4 by done. lia.
Qed.

Lemma applyLease_total n c db :
  Inv n db → short c.(l_Lane) → short c.(l_GroupID) → ∃ r b, applyLease c db = Ok (r, b).
Proof.
  intros H Hl Hg. unfold applyLease, mbind, M_bind, reads.
  destruct (headReady_spec_aux _ _ db (inv_rows n db H) Hl Hg) as [[-> _]|(m & -> & _)];
    [by eexists _, _|]. cbv zeta. unfold nextLeaseID, when, mbind, M_bind.
  unfold gets. destruct (GetRaw (MetaKey (bs "next_lease_id")) db);
    destruct (0 <? l_MaxLifeMs c); by eexists _, _.
Qed.

Lemma applyLease_grants n c db :
  Inv n db → n + 1 < two64 → short c.(l_Lane) → short c.(l_GroupID) →
  ∃ r b, applyLease c db = Ok (r, b) ∧
  ((loadGroupMeta c.(l_Lane) c.(l_GroupID) db).(gm_ReadyCount) = 0 → r = RLease lr_empty ∧ b = []) ∧
  (0 < (loadGroupMeta c.(l_Lane) c.(l_GroupID) db).(gm_ReadyCount) →
   ∃ m m', let id := next_lease db in
     GetProto (MessageKey c.(l_Lane) c.(l_GroupID) m.(m_MsgId)) db = Some m ∧ m.(m_State) = READY ∧
     (∀ i mi, u64 i → GetProto (MessageKey c.(l_Lane) c.(l_GroupID) i) db = Some mi →
        mi.(m_State) = READY → m.(m_MsgId) ≤ i) ∧
     r = RLease (mkLeaseResult id m.(m_MsgId) c.(l_Lane) c.(l_GroupID) m.(m_Payload) m.(m_Headers)
                   m.(m_Attempt) c.(l_DeadlineMs) false m.(m_IssueToken) m.(m_ExternalToken)) ∧
     GetProto (A:=Lease) (LeaseKey id) db = None ∧
     GetProto (LeaseKey id) (commit b db) = Some (lease_of c id m') ∧
     GetProto (MessageKey c.(l_Lane) c.(l_GroupID) m.(m_MsgId)) (commit b db) = Some m' ∧
     m' = m_set_Epoch (incr32 m.(m_Epoch)) (m_set_CurLease id (m_set_State LEASED m)) ∧
     next_lease (commit b db) = id + 1).
Proof.
  intros H Hn Hl Hg. destruct (applyLease_total n c db H Hl Hg) as (r & b & E).
  exists r, b. split; [done|].
  assert (Hload : ∀ gm, GetProto (GroupMetaKey c.(l_Lane) c.(l_GroupID)) db = Some gm →
    loadGroupMeta c.(l_Lane) c.(l_GroupID) db = gm) by (intros gm Eg; unfold loadGroupMeta; by rewrite Eg).
  destruct (applyLease_core n c db r b H Hn Hl Hg E)
    as [(-> & -> & Hno)|(m & gm & -> & Hi & Hst & Em & Eg & Hlow & Hb & _ & Hc)].
  - split; [done|]. unfold loadGroupMeta.
    destruct (GetProto (GroupMetaKey _ _) db) as [gm|] eqn:Eg; [|simpl; lia].
    intros Hpos. apply (ready_iff n _ _ db gm H Hl Hg Eg) in Hpos as (i & m & Hi & Em & Hst).
    by destruct (Hno i m Hi Em).
  - pose proof (ready_iff n _ _ db gm H Hl Hg Eg) as Hr. rewrite (Hload gm Eg). split.
    + intros Hz. assert (0 < gm.(gm_ReadyCount)); [|lia]. apply Hr. eauto.
    + intros _. set (id := next_lease db) in *. set (m' := m_set_Epoch _ _) in *.
      destruct (inv_next n db H) as [Hx1 Hx2]. fold id in Hx1, Hx2.
      assert (Hu : u64 id) by (unfold u64; lia).
      exists m, m'. cbv zeta. split_and!; try done.
      * destruct (GetProto (A:=Lease) (LeaseKey id) db) as [ls|] eqn:Els; [|done].
        destruct (inv_lease n db H id ls Hu Els) as (Hlt & _). fold id in Hlt. lia.
      * erewrite GetProto_ext by (apply commit_core; by right; left). rewrite Hc.
        change (VLease (lease_of c id m')) with (row_in (lease_of c id m')). by lk.
      * erewrite GetProto_ext by (apply commit_core; by left; left). rewrite Hc.
        change (VMessage m') with (row_in m'). by lk.
      * erewrite next_lease_ext by (apply commit_core; by do 2 right). rewrite Hc.
        unfold commit. cbn [foldl apply_bop]. rewrite !next_lease_insert_ne by key_ne.
        apply next_lease_insert. unfold u64. lia.
Qed.

(** The state a demonstration log reaches satisfies the invariant. *)
Lemma demo_cmd_ok (x : bytes) cmd : demo_unmarshal x = Some cmd → cmd_ok cmd.
Proof.
  intros E. destruct x as [|[[] [] [] [] [] [] [] []] x]; simpl in E; try done;
    injection E as <-; constructor; try done; intros y [= <-]; by vm_compute.
Qed.
Lemma demo_log_ok log : log_ok demo_unmarshal log.
Proof. apply Forall_forall. intros l _ cmd. apply demo_cmd_ok. Qed.

Definition demo_state (entries : list bytes) : store :=
  (runs_to demo_unmarshal demo_fsm0 (demo_log entries)).2.(fsm_s).
Lemma demo_Inv entries :
  is_some (applyLog demo_unmarshal demo_fsm0 (demo_log entries)) = true →
  (1 + weights demo_unmarshal (demo_log entries) <? two64) = true →
  Inv (1 + weights demo_unmarshal (demo_log entries)) (demo_state entries).
Proof.
  intros Hs Hw%N.ltb_lt. apply runs_to_eq in Hs. eapply Inv_applyLog; [|exact Hw| |exact Hs].
  - apply Inv_empty.
  - apply demo_log_ok.
Qed.

(** The message a publish stores. *)
Definition published (c : PublishCmd) (id : N) : Message :=
  mkMessage id c.(p_Lane) c.(p_GroupID) c.(p_Payload) c.(p_Headers) c.(p_NotBeforeMs)
    (if c.(p_NowMs) <? c.(p_TtlExpiryMs) then sub64 c.(p_TtlExpiryMs) c.(p_NowMs) else 0)
    0 c.(p_MaxAttempts) c.(p_NowMs)
    (if c.(p_NowMs) <? c.(p_NotBeforeMs) then DELAYED else READY) 0 0
    c.(p_IssueToken) c.(p_ExternalToken).

(** What [publishOne] writes, and the meta it returns. *)
Lemma publishOne_eq c gm db :
  let l := c.(p_Lane) in let g := c.(p_GroupID) in let id := gm.(gm_NextSeq) in
  ∃ gn, publishOne c gm db = Ok ((id, gn),
    (if c.(p_NowMs) <? c.(p_NotBeforeMs)
     then [BSet (TimeIndexKey c.(p_NotBeforeMs) TimerReadyAt (ReadyAtRef l g id)) (VRaw (u64b 0))] else []) ++
    (if c.(p_NowMs) <? c.(p_TtlExpiryMs)
     then [BSet (TimeIndexKey c.(p_TtlExpiryMs) TimerMsgExpiry (ReadyAtRef l g id)) (VRaw (u64b 0))] else []) ++
    [BSet (MessageKey l g id) (VMessage (published c id))]) ∧
  gm_published (if c.(p_NowMs) <? c.(p_NotBeforeMs) then DELAYED else READY) gm gn.
Proof.
  pose proof (publish_knobs_frame c gm) as (K1 & K2 & K3 & K4 & K5 & K6 & K7). cbv zeta in *.
  rewrite <-K3. unfold publishOne, published, mbind, M_bind. cbv zeta.
  destruct (_ <? p_NotBeforeMs c); destruct (_ <? p_TtlExpiryMs c); eexists; (split; [reflexivity|]);
    unfold gm_published; cbn; by rewrite ?K1, ?K2, ?K3, ?K4, ?K5, ?K6, ?K7.
Qed.

Lemma applyPublish_eq c db :
  c.(p_DedupKey) = [] →
  let gm := loadGroupMeta c.(p_Lane) c.(p_GroupID) db in
  ∀ id gn b1, publishOne c gm db = Ok ((id, gn), b1) →
  applyPublish c db = Ok (RPublish id false,
    b1 ++ [BSet (GroupMetaKey c.(p_Lane) c.(p_GroupID)) (VGroupMeta gn)]).
Proof.
  intros Hd gm id gn b1 E. unfold applyPublish, mbind, M_bind, gets. rewrite Hd. cbn [nonempty].
  cbn [mret M_ret]. fold gm. rewrite E. reflexivity.
Qed.

(** ** Theorems *)

(** C3: the accounting invariant.  On every state a log of commands other than
    group teardowns reaches from an empty store (names fit their length prefix,
    fewer than 2^64 ids are handed out): a group's counters are exactly the
    numbers of its READY, DELAYED and LEASED messages, the total is their sum,
    ids are below the group's sequence, and leases and leased messages point at
    each other. *)
Theorem accounting_invariant {PC : PayloadCodec} (um : bytes → option Command) log rs f :
  log_ok um log → 1 + weights um log < two64 →
  applyLog um (New ∅) log = Some (rs, f) → Inv (1 + weights um log) f.(fsm_s).
Proof. intros Hok Hw E. apply (Inv_applyLog um 1 (New ∅) log rs); [apply Inv_empty|done..]. Qed.

(** A message is never under two leases: two lease rows that point at the
    same message are the same lease, and the message is LEASED under it. *)
Theorem lease_exclusive n db id1 id2 ls1 ls2 :
  Inv n db → u64 id1 → u64 id2 →
  GetProto (LeaseKey id1) db = Some ls1 → GetProto (LeaseKey id2) db = Some ls2 →
  ls1.(ls_Lane) = ls2.(ls_Lane) → ls1.(ls_GroupId) = ls2.(ls_GroupId) →
  ls1.(ls_MsgId) = ls2.(ls_MsgId) →
  id1 = id2 ∧ ∃ m, GetProto (MessageKey ls1.(ls_Lane) ls1.(ls_GroupId) ls1.(ls_MsgId)) db = Some m ∧
                   m.(m_State) = LEASED ∧ m.(m_CurLease) = id1.
Proof.
  intros H H1 H2 E1 E2 EL EG EM.
  destruct (inv_lease n db H id1 ls1 H1 E1) as (_ & _ & m1 & Em1 & [Hs1 Hc1]%leased_by_true).
  destruct (inv_lease n db H id2 ls2 H2 E2) as (_ & _ & m2 & Em2 & [Hs2 Hc2]%leased_by_true).
  rewrite EL, EG, EM, Em2 in Em1. injection Em1 as ->. split; [congruence|].
  exists m1. by rewrite EL, EG, EM.
Qed.

(** C28: head of line.  A grant succeeds exactly when the group's READY counter
    is positive; it leases the READY message with the lowest id, under a lease
    id never used before; an empty answer writes nothing. *)
Theorem applyLease_head_of_line n c db :
  Inv n db → n + 1 < two64 → short c.(l_Lane) → short c.(l_GroupID) →
  ∃ r b, applyLease c db = Ok (r, b) ∧
  ((loadGroupMeta c.(l_Lane) c.(l_GroupID) db).(gm_ReadyCount) = 0 → r = RLease lr_empty ∧ b = []) ∧
  (0 < (loadGroupMeta c.(l_Lane) c.(l_GroupID) db).(gm_ReadyCount) →
   ∃ m m', let id := next_lease db in
     GetProto (MessageKey c.(l_Lane) c.(l_GroupID) m.(m_MsgId)) db = Some m ∧ m.(m_State) = READY ∧
     (∀ i mi, u64 i → GetProto (MessageKey c.(l_Lane) c.(l_GroupID) i) db = Some mi →
        mi.(m_State) = READY → m.(m_MsgId) ≤ i) ∧
     r = RLease (mkLeaseResult id m.(m_MsgId) c.(l_Lane) c.(l_GroupID) m.(m_Payload) m.(m_Headers)
                   m.(m_Attempt) c.(l_DeadlineMs) false m.(m_IssueToken) m.(m_ExternalToken)) ∧
     GetProto (A:=Lease) (LeaseKey id) db = None ∧
     GetProto (LeaseKey id) (commit b db) = Some (lease_of c id m') ∧
     GetProto (MessageKey c.(l_Lane) c.(l_GroupID) m.(m_MsgId)) (commit b db) = Some m' ∧
     m' = m_set_Epoch (incr32 m.(m_Epoch)) (m_set_CurLease id (m_set_State LEASED m)) ∧
     next_lease (commit b db) = id + 1).
Proof. apply applyLease_grants. Qed.

(** C29: publishing.  A publish without a dedup key assigns the group's next id,
    which no stored message has; stores the message READY, or DELAYED with a
    timer when its not-before is in the future; arms its expiry when it has a
    TTL; counts it; and touches no other message. *)
Theorem applyPublish_spec n c db :
  Inv n db → n + 1 < two64 → short c.(p_Lane) → short c.(p_GroupID) → c.(p_DedupKey) = [] →
  let l := c.(p_Lane) in let g := c.(p_GroupID) in
  let gm := loadGroupMeta l g db in let id := gm.(gm_NextSeq) in
  let delayed := c.(p_NowMs) <? c.(p_NotBeforeMs) in
  ∃ b gn, applyPublish c db = Ok (RPublish id false, b) ∧
    GetProto (A:=Message) (MessageKey l g id) db = None ∧
    GetProto (MessageKey l g id) (commit b db) = Some (published c id) ∧
    GetProto (GroupMetaKey l g) (commit b db) = Some gn ∧
    gn.(gm_NextSeq) = id + 1 ∧ gn.(gm_TotalCount) = gm.(gm_TotalCount) + 1 ∧
    gn.(gm_ReadyCount) = gm.(gm_ReadyCount) + (if delayed then 0 else 1) ∧
    gn.(gm_DelayedCount) = gm.(gm_DelayedCount) + (if delayed then 1 else 0) ∧
    gn.(gm_InflightCount) = gm.(gm_InflightCount) ∧
    (delayed = true →
     GetRaw (TimeIndexKey c.(p_NotBeforeMs) TimerReadyAt (ReadyAtRef l g id)) (commit b db) = Some (u64b 0)) ∧
    (c.(p_NowMs) < c.(p_TtlExpiryMs) →
     GetRaw (TimeIndexKey c.(p_TtlExpiryMs) TimerMsgExpiry (ReadyAtRef l g id)) (commit b db) = Some (u64b 0)) ∧
    (∀ l' g' i, short l' → short g' → u64 i → (l', g', i) ≠ (l, g, id) →
     @GetProto Message _ (MessageKey l' g' i) (commit b db) = GetProto (MessageKey l' g' i) db).
Proof.
  intros H Hn Hl Hg Hd l g gm id delayed.
  destruct (loadGroupMeta_bound n db l g H Hl Hg) as (_ & Hsq & Ht & Hlt). fold gm in Hsq, Ht, Hlt.
  assert (Hi : u64 id) by (unfold u64; lia).
  destruct (publishOne_eq c gm db) as (gn & E1 & _ & _ & P1 & P2 & P3 & P4 & P5).
  fold l g id delayed in E1, P4, P5.
  eexists _, gn. split; [eapply applyPublish_eq, E1; done|]. fold l g.
  change (VGroupMeta gn) with (row_in gn). change (VMessage (published c id)) with (row_in (published c id)).
  change (VRaw (u64b 0)) with (row_in (u64b 0)).
  assert (Hne : ∀ l' g' i, short l' → short g' → u64 i → (l', g', i) ≠ (l, g, id) →
    MessageKey l g id ≠ MessageKey l' g' i).
  { intros l' g' i ??? Hx Ek. apply MessageKey_inj in Ek as (-> & -> & ->); done. }
  assert (Hkd : ∀ ts ts' r, TimeIndexKey ts TimerReadyAt r ≠ TimeIndexKey ts' TimerMsgExpiry r)
    by (intros; by apply TimeIndexKey_kind_ne).
  rewrite (incr64_le (n + 1)) in P1, P2 by lia.
  split; [apply (fresh_message n); [done..|reflexivity]|].
  destruct delayed; destruct (N.ltb_spec (p_NowMs c) (p_TtlExpiryMs c)) as [Htt|Htt];
    simpl in P4, P5; rewrite (incr64_le (n + 1)) in * by lia; unfold GetRaw;
    cbn [app]; split_and!; try done; try lia; try (by lk); try (intros; by lk).
  all: try (intros; lia).
  all: try (intros _; lk; rewrite GetProto_insert_ne by (by apply not_eq_sym, Hkd); by lk).
  all: intros l' g' i Hl' Hg' Hi' Hx; lk; rewrite GetProto_insert_ne by (by apply Hne); by lk.
Qed.

(** ** Witnesses *)
Example accounting_invariant_witness :
  Inv 5 (demo_state [bs "pa"; bs "pb"; bs "l"; bs "a"]).
Proof.
  change 5 with (1 + weights demo_unmarshal (demo_log [bs "pa"; bs "pb"; bs "l"; bs "a"])).
  eapply (accounting_invariant demo_unmarshal _ (runs_to demo_unmarshal demo_fsm0
    (demo_log [bs "pa"; bs "pb"; bs "l"; bs "a"])).1).
  - apply demo_log_ok.
  - by vm_compute.
  - apply (runs_to_eq demo_unmarshal demo_fsm0). by vm_compute.
Defined.

(** One message leased, one waiting. *)
Definition demo_leased : store := demo_state [bs "pa"; bs "pb"; bs "l"].
Lemma demo_leased_Inv : Inv 4 demo_leased.
Proof.
  change 4 with (1 + weights demo_unmarshal (demo_log [bs "pa"; bs "pb"; bs "l"])).
  apply demo_Inv; by vm_compute.
Qed.

Example lease_exclusive_witness :
  ∃ m, GetProto (MessageKey (bs "l") (bs "g") 1) demo_leased = Some m ∧
       m.(m_State) = LEASED ∧ m.(m_CurLease) = 1.
Proof.
  edestruct (lease_exclusive 4 demo_leased 1 1) as [_ Hm];
    [exact demo_leased_Inv|done|done|vm_compute; reflexivity|vm_compute; reflexivity|done..|exact Hm].
Defined.

Example applyLease_head_of_line_witness :
  ∃ r b, applyLease (demo_lease 100) demo_leased = Ok (r, b) ∧
    @GetProto Lease _ (LeaseKey 2) (commit b demo_leased) ≠ None.
Proof.
  destruct (applyLease_head_of_line 4 (demo_lease 100) demo_leased) as (r & b & E & _ & Hhead);
    [exact demo_leased_Inv|done|done|done|].
  destruct Hhead as (m & m' & _ & _ & _ & _ & _ & Els & _); [by vm_compute|].
  exists r, b. split; [exact E|]. change (next_lease demo_leased) with (next_lease demo_leased) in Els.
  replace (next_lease demo_leased) with 2 in Els by (by vm_compute). by rewrite Els.
Defined.

Example applyPublish_spec_witness :
  ∃ b, applyPublish (demo_publish (bs "c") 10) demo_leased = Ok (RPublish 3 false, b).
Proof.
  destruct (applyPublish_spec 4 (demo_publish (bs "c") 10) demo_leased) as (b & gn & E & _);
    [exact demo_leased_Inv|done..|].
  exists b. replace 3 with (loadGroupMeta (bs "l") (bs "g") demo_leased).(gm_NextSeq) by (by vm_compute).
  exact E.
Defined.
