(* ===== verification/SettleProps.v ===== *)
(** * Theorems on settling, timers and group maintenance

    Acks, nacks, extends, timer fires, purges and deduplication, each on the
    states the accounting invariant describes. *)

From S2P Require Import Prelude Keys Data Store Backoff Publish Workflow Broker Control Auth Timers Fsm Demo Reason Structure Accounting AccountingOps AccountingLog BrokerProps.

Implicit Types (db : store) (n : N) (m : Message) (gm : GroupMeta) (b : batch).

(** ** Helper lemmas *)
(** A batch that writes the rows of a settled message: what other messages see. *)
Lemma message_frame (l g l' g' : bytes) i i' b db :
  short l → short g → u64 i → short l' → short g' → u64 i' → (l', g', i') ≠ (l, g, i) →
  Forall (λ o, tag (bop_key o) = Some tagMessage → bop_key o = MessageKey l g i) b →
  @GetProto Message _ (MessageKey l' g' i') (commit b db) = GetProto (MessageKey l' g' i') db.
Proof.
  intros Hl Hg Hi Hl' Hg' Hi' Hne Hb. apply GetProto_ext, commit_frame. intros Hin.
  apply list_elem_of_fmap in Hin as (o & Ek & Ho). rewrite Forall_forall in Hb.
  apply Hb in Ho; [|by rewrite <-Ek]. rewrite <-Ek in Ho.
  by apply MessageKey_inj in Ho as (-> & -> & ->).
Qed.

Ltac rows_in :=
  repeat match goal with
  | |- context [VMessage ?x] => change (VMessage x) with (row_in x)
  | |- context [VGroupMeta ?x] => change (VGroupMeta x) with (row_in x)
  | |- context [VLease ?x] => change (VLease x) with (row_in x)
  | |- context [VDeadLetter ?x] => change (VDeadLetter x) with (row_in x)
  | |- context [VRaw ?x] => change (VRaw x) with (row_in x)
  end.

Lemma commit_nil db : commit [] db = db.
Proof. done. Qed.

Ltac only_message := repeat constructor; cbn [bop_key]; try done; intros [=].

(** ** Acknowledging *)

(** C30: an ack of a live lease deletes the message, its lease and the lease's
    deadline timer, decrements the two counters, touches no other message; the
    same ack again answers "not found" and writes nothing. *)
Theorem applyAck_settles n c db ls :
  Inv n db → u64 c.(a_LeaseID) → GetProto (LeaseKey c.(a_LeaseID)) db = Some ls →
  let l := ls.(ls_Lane) in let g := ls.(ls_GroupId) in let i := ls.(ls_MsgId) in
  ∃ b gm gn, applyAck c db = Ok (RAck true, b) ∧
    @GetProto Message _ (MessageKey l g i) (commit b db) = None ∧
    @GetProto Lease _ (LeaseKey c.(a_LeaseID)) (commit b db) = None ∧
    GetRaw (TimeIndexKey ls.(ls_DeadlineMs) TimerLeaseDeadline (LeaseDeadlineRef c.(a_LeaseID)))
      (commit b db) = None ∧
    GetProto (GroupMetaKey l g) db = Some gm ∧ GetProto (GroupMetaKey l g) (commit b db) = Some gn ∧
    gn.(gm_TotalCount) + 1 = gm.(gm_TotalCount) ∧ gn.(gm_InflightCount) + 1 = gm.(gm_InflightCount) ∧
    gn.(gm_ReadyCount) = gm.(gm_ReadyCount) ∧ gn.(gm_DelayedCount) = gm.(gm_DelayedCount) ∧
    gn.(gm_NextSeq) = gm.(gm_NextSeq) ∧
    (∀ l' g' i', short l' → short g' → u64 i' → (l', g', i') ≠ (l, g, i) →
     @GetProto Message _ (MessageKey l' g' i') (commit b db) = GetProto (MessageKey l' g' i') db) ∧
    applyAck c (commit b db) = Ok (RAck false, []).
Proof.
  intros H Hid Els l g i.
  destruct (lease_facts n db _ ls H Hid Els) as (Hl & Hg & Hi & m & gm & Em & Hby & Hst & M1 & M2 &
    M3 & Eg & G1 & G2 & I1 & I2 & I3 & I4 & I5 & I6).
  destruct (total_applyAck c db) as (r & b & E). pose proof E as E0.
  exists b, gm, (gm_set_TotalCount (decr gm.(gm_TotalCount)) (gm_set_InflightCount (decr gm.(gm_InflightCount)) gm)).
  rewrite E0. unfold applyAck, deleteLeaseToken in E.
  apply bind_Ok in E as (o & b1 & b2 & [-> ->]%gets_Ok & E & ->). rewrite Els in E.
  simpl app.
  assert (Hagain : ∀ db', @GetProto Lease _ (LeaseKey (a_LeaseID c)) db' = None →
    applyAck c db' = Ok (RAck false, [])) by (intros db' En; unfold applyAck, mbind, M_bind, gets; by rewrite En).
  fold l g i in E, Em, Eg |- *. unfold GetRaw.
  minv E; simplify_eq; rows_in; split_and!; try done; try (by lk); try (simpl; rewrite ?decr_eq; lia).
  all: try (apply Hagain; by lk).
  all: intros l' g' i' Hl' Hg' Hi' Hx; apply (message_frame l g l' g' i); try done; only_message.
Qed.

(** ** Extending *)

(** Firing a timer whose row is gone writes nothing. *)
Lemma applyFireTimer_gone `{PC : PayloadCodec} c db :
  GetRaw (TimeIndexKey c.(f_DueTs) c.(f_Kind) c.(f_Ref)) db = None →
  applyFireTimer c db = Ok (RNil, []).
Proof. intros E. unfold applyFireTimer, mbind, M_bind, gets. by rewrite E. Qed.

(** an extend of a live lease moves the deadline: the lease keeps the
    message and the counters, the new deadline's timer carries the message's
    new epoch, and firing the old deadline's timer afterwards writes
    nothing. *)
Theorem applyExtend_moves_deadline `{PC : PayloadCodec} n c db ls :
  Inv n db → u64 c.(e_LeaseID) → GetProto (LeaseKey c.(e_LeaseID)) db = Some ls →
  u64 ls.(ls_DeadlineMs) → u64 c.(e_NewDeadlineMs) → c.(e_NewDeadlineMs) ≠ ls.(ls_DeadlineMs) →
  let l := ls.(ls_Lane) in let g := ls.(ls_GroupId) in let i := ls.(ls_MsgId) in
  let ref := LeaseDeadlineRef c.(e_LeaseID) in
  ∃ b m, applyExtend c db = Ok (RExtend true, b) ∧
    let m' := m_set_Epoch (incr32 m.(m_Epoch)) m in
    GetProto (MessageKey l g i) db = Some m ∧ GetProto (MessageKey l g i) (commit b db) = Some m' ∧
    leased_by c.(e_LeaseID) m' = true ∧
    GetProto (LeaseKey c.(e_LeaseID)) (commit b db) =
      Some (ls_set_Epoch m'.(m_Epoch) (ls_set_ExtendCount (incr32 ls.(ls_ExtendCount))
              (ls_set_DeadlineMs c.(e_NewDeadlineMs) ls))) ∧
    GetRaw (TimeIndexKey c.(e_NewDeadlineMs) TimerLeaseDeadline ref) (commit b db)
      = Some (u64b m'.(m_Epoch)) ∧
    @GetProto GroupMeta _ (GroupMetaKey l g) (commit b db) = GetProto (GroupMetaKey l g) db ∧
    (∀ fireAt, applyFireTimer (mkFireTimerCmd TimerLeaseDeadline ls.(ls_DeadlineMs) ref fireAt)
                 (commit b db) = Ok (RNil, [])).
Proof.
  intros H Hid Els Hd Hd' Hne l g i ref.
  destruct (lease_facts n db _ ls H Hid Els) as (Hl & Hg & Hi & m & gm & Em & Hby & Hst & M1 & M2 &
    M3 & Eg & G1 & G2 & I1 & I2 & I3 & I4 & I5 & I6).
  destruct (total_applyExtend c db) as (r & b & E). pose proof E as E0.
  exists b, m. rewrite E0. unfold applyExtend in E.
  apply bind_Ok in E as (o & b1 & b2 & [-> ->]%gets_Ok & E & ->). rewrite Els in E. simpl app.
  apply bind_Ok in E as (o & b1 & b3 & [-> ->]%gets_Ok & E & ->). fold l g i in E, Em, Eg |- *.
  rewrite Em, Hby in E. cbn [negb] in E. cbv zeta in E |- *.
  set (m' := m_set_Epoch _ _) in *. set (ls' := ls_set_Epoch _ _) in *. fold ref in E.
  minv E; simplify_eq; rows_in; unfold GetRaw.
  assert (Hk : TimeIndexKey (e_NewDeadlineMs c) TimerLeaseDeadline ref ≠
               TimeIndexKey (ls_DeadlineMs ls) TimerLeaseDeadline ref).
  { intros E. apply TimeIndexKey_inj in E as [? _]; done. }
  split_and!; try done; try (by lk).
  intros fireAt. apply applyFireTimer_gone. unfold GetRaw. cbn [f_DueTs f_Kind f_Ref].
  by lk.
Qed.

(** C35: firing a timer is idempotent: whatever the timer's kind and the state,
    once a fire is applied the same fire command writes nothing. *)
Theorem applyFireTimer_idempotent `{PC : PayloadCodec} c db r b :
  applyFireTimer c db = Ok (r, b) → applyFireTimer c (commit b db) = Ok (RNil, []).
Proof.
  intros E. unfold applyFireTimer in E.
  apply bind_Ok in E as (o & b1 & b2 & [-> ->]%gets_Ok & E & ->). simpl app.
  destruct (GetRaw _ db) as [v|] eqn:Ev.
  - apply bind_Ok in E as (u & b1 & b3 & _ & E & ->).
    apply bind_Ok in E as ([] & b4 & b5 & [_ ->]%bdel_Ok & [_ ->]%ret_Ok & ->).
    apply applyFireTimer_gone. unfold GetRaw. rewrite commit_app. cbn [app]. by lk.
  - minv E. by apply applyFireTimer_gone.
Qed.

(** ** Rejecting *)

(** A dead-lettering writes the dead letter, deletes the message and, for an
    activity task, may write workflow tables. *)
Lemma deadLetter_writes `{PC : PayloadCodec} m reason meta ts db r b :
  deadLetter m reason meta ts db = Ok (r, b) →
  ∃ bp, b = [BSet (DLQKey m.(m_Lane) m.(m_GroupId) ts m.(m_MsgId))
               (VDeadLetter (mkDeadLetter m m.(m_Attempt) reason meta ts));
             BDel (MessageKey m.(m_Lane) m.(m_GroupId) m.(m_MsgId))] ++ bp ∧
    Forall (λ o, ∃ t, tag (bop_key o) = Some t ∧ t ∈ wf_tags) bp.
Proof.
  intros E. unfold deadLetter in E.
  apply bind_Ok in E as ([] & b1 & b3 & [_ ->]%putProto_Ok & E & ->).
  apply bind_Ok in E as ([] & b1 & b4 & [_ ->]%bdel_Ok & E & ->).
  exists b4. split; [done|].
  apply when_Ok in E as [[Hpre E]|[_ ->]]; [|constructor].
  destruct (unmarshal_ActivityTask _) as [task|]; [|minv E; constructor].
  destruct (negb _); [|minv E; constructor].
  apply bind_Ok in E as (x & b1 & b2 & E & [-> ->]%ret_Ok & ->). rewrite app_nil_r.
  by eapply writes_recordActivityTerminal in E.
Qed.

(** A workflow batch leaves a row outside its tables alone. *)
Lemma wf_frame bp db k t :
  Forall (λ o, ∃ t, tag (bop_key o) = Some t ∧ t ∈ wf_tags) bp → tag k = Some t → t ∉ wf_tags →
  commit bp db !! k = db !! k.
Proof.
  intros Hb Ht Hn. apply commit_frame_tag. eapply Forall_impl; [exact Hb|].
  intros o (t' & -> & Hin) Heq. rewrite Ht in Heq. by injection Heq as ->.
Qed.

(** A batch that publishes to workflow lanes leaves an activity message, and
    its group's meta, alone. *)
Lemma pub_core_frame db bp l g k :
  pub_core wf_lane db bp → (core bp = [] ∨ has_prefix ActivityLanePrefix l = true) →
  short l → short g → k = GroupMetaKey l g ∨ (∃ i, u64 i ∧ k = MessageKey l g i) →
  (∀ l' g', short l' → short g' → u64 (loadGroupMeta l' g' db).(gm_NextSeq)) →
  ∀ db', commit bp db' !! k = db' !! k.
Proof.
  intros Hp Hact Hl Hg Hk Hseq db'.
  assert (Hb : broker_tags k) by (destruct Hk as [->|(i & _ & ->)]; left; [by right|by left]).
  rewrite commit_core by done.
  destruct Hp as [->|(l' & g' & m & gn & Hw & Hl' & Hg' & _ & _ & Hc)]; [done|].
  destruct Hact as [Hact|Hact]; [by rewrite Hc in Hact|].
  rewrite Hc. apply commit_frame. cbn [bop_key fmap list_fmap].
  pose proof (act_not_wf l l' Hact Hw) as Hne.
  rewrite !not_elem_of_cons. split_and!; try apply not_elem_of_nil.
  - destruct Hk as [->|(i & Hi & ->)]; [key_ne|].
    intros E. apply MessageKey_inj in E as (? & _ & _); auto.
  - destruct Hk as [->|(i & Hi & ->)]; [|key_ne].
    intros E. apply GroupMetaKey_inj in E as (? & _); auto.
Qed.

(** What a nack of a live lease does before it settles the message. *)
Lemma applyNack_live `{PC : PayloadCodec} n c db ls :
  Inv n db → u64 c.(n_LeaseID) → GetProto (LeaseKey c.(n_LeaseID)) db = Some ls →
  ∃ m gm bt, 
    GetProto (MessageKey ls.(ls_Lane) ls.(ls_GroupId) ls.(ls_MsgId)) db = Some m ∧
    GetProto (GroupMetaKey ls.(ls_Lane) ls.(ls_GroupId)) db = Some gm ∧
    (bt = [] ∨ bt = [BDel (TokenKey ls.(ls_CompletionTokenHash))]) ∧
    ∀ r b, applyNack c db = Ok (r, b) →
    let gkey := GroupMetaKey ls.(ls_Lane) ls.(ls_GroupId) in
    let g1 := gm_set_InflightCount (decr gm.(gm_InflightCount)) gm in
    let m1 := m_set_Attempt (incr32 m.(m_Attempt)) m in
    let pre := [BDel (LeaseKey c.(n_LeaseID))] ++ bt ++
      [BDel (TimeIndexKey ls.(ls_DeadlineMs) TimerLeaseDeadline (LeaseDeadlineRef c.(n_LeaseID)))] in
    let requeue m delay r b := (gm ← makeReady m g1 (add64 c.(n_NowMs) delay) c.(n_NowMs);
       putProto gkey gm;; mret (RNack true false)) db = Ok (r, b) in
    let bury m reason r b := (deadLetter m reason c.(n_FailureMeta) c.(n_NowMs);;
       putProto gkey (gm_set_TotalCount (decr g1.(gm_TotalCount)) g1);;
       mret (RNack true true)) db = Ok (r, b) in
    ∃ bd, b = pre ++ bd ∧
    (c.(n_Mode) = NackRetry ∧ max_attempts m ≤ m1.(m_Attempt) ∧ bury m1 (bs "max_attempts") r bd ∨
     c.(n_Mode) = NackRetry ∧ m1.(m_Attempt) < max_attempts m ∧
       requeue m1 (if 0 <? c.(n_DelayMs) then c.(n_DelayMs) else backoffMs m.(m_MsgId) m1.(m_Attempt)) r bd ∨
     c.(n_Mode) = NackDeadLetter ∧ bury m (bs "terminal_nack") r bd ∨
     c.(n_Mode) ≠ NackRetry ∧ c.(n_Mode) ≠ NackDeadLetter ∧ requeue m c.(n_DelayMs) r bd).
Proof.
  intros H Hid Els.
  destruct (lease_facts n db _ ls H Hid Els) as (Hl & Hg & Hi & m & gm & Em & Hby & _ & _ & _ & _ & Eg & _).
  set (tk := if nonempty ls.(ls_CompletionTokenHash) then [BDel (TokenKey ls.(ls_CompletionTokenHash))] else []).
  exists m, gm, tk. split_and!; [done|done|unfold tk; destruct (nonempty _); auto|].
  intros r b E. cbv zeta. unfold applyNack, deleteLeaseToken in E.
  apply bind_Ok in E as (o & b1 & b2 & [-> ->]%gets_Ok & E & ->). rewrite Els in E. simpl app.
  apply bind_Ok in E as ([] & b1 & b3 & [_ ->]%bdel_Ok & E & ->).
  apply bind_Ok in E as ([] & bt & b4 & Et & E & ->).
  assert (bt = tk) as ->.
  { unfold tk, when in *. destruct (nonempty _); by minv Et. }
  apply bind_Ok in E as ([] & b1 & b5 & [_ ->]%delTimer_Ok & E & ->).
  apply bind_Ok in E as (o & b1 & b6 & [-> ->]%gets_Ok & E & ->).
  apply bind_Ok in E as (o & b1 & b7 & [-> ->]%gets_Ok & E & ->). cbv zeta in E.
  rewrite Em, Eg, Hby in E. cbn [negb is_Some or_zero default] in E.
  rewrite bool_decide_eq_true_2 in E by eauto. cbn [when] in E. unfold when in E.
  exists b7. split; [simpl; by rewrite <-app_assoc|].
  destruct (N.eqb_spec (n_Mode c) NackRetry) as [Hr|Hr].
  - change (max_attempts (m_set_Attempt _ m)) with (max_attempts m) in E.
    change (m_Attempt (m_set_Attempt ?x m)) with x in E |- *.
    change (m_MsgId (m_set_Attempt _ m)) with (m_MsgId m) in E.
    destruct (N.leb_spec (max_attempts m) (incr32 (m_Attempt m))) as [Hx|Hx];
      [left|right; left]; by split_and!.
  - destruct (N.eqb_spec (n_Mode c) NackDeadLetter) as [Hd|Hd]; [do 2 right; left|do 3 right]; by split_and!.
Qed.

(** What a requeue leaves: the message READY now, or DELAYED under a timer that
    carries its new epoch. *)
Definition requeued (m : Message) (readyAt now : N) : Message :=
  m_set_State (if now <? readyAt then DELAYED else READY)
    (m_set_Epoch (incr32 m.(m_Epoch)) (m_set_CurLease 0 m)).

Lemma makeReady_eq m gm readyAt now db :
  makeReady m gm readyAt now db = Ok
    (if now <? readyAt then gm_set_DelayedCount (incr64 gm.(gm_DelayedCount)) gm
     else gm_set_ReadyCount (incr64 gm.(gm_ReadyCount)) gm,
     (if now <? readyAt
      then [BSet (TimeIndexKey readyAt TimerReadyAt (ReadyAtRef m.(m_Lane) m.(m_GroupId) m.(m_MsgId)))
              (VRaw (u64b (incr32 m.(m_Epoch))))] else []) ++
     [BSet (MessageKey m.(m_Lane) m.(m_GroupId) m.(m_MsgId)) (VMessage (requeued m readyAt now))]).
Proof. unfold makeReady, requeued, mbind, M_bind. by destruct (now <? readyAt). Qed.

(** C31: a nack that requeues.  A retry below the attempt limit, or a release,
    answers OK: the lease and its deadline timer are gone; the message is back,
    its attempt counted only for a retry, READY or DELAYED until now plus the
    delay (a retry without a delay backs off); and the group's counters move
    with it. *)
Theorem applyNack_requeues `{PC : PayloadCodec} n c db ls m :
  Inv n db → u64 c.(n_LeaseID) → GetProto (LeaseKey c.(n_LeaseID)) db = Some ls →
  let l := ls.(ls_Lane) in let g := ls.(ls_GroupId) in let i := ls.(ls_MsgId) in
  GetProto (MessageKey l g i) db = Some m →
  let m1 := if c.(n_Mode) =? NackRetry then m_set_Attempt (incr32 m.(m_Attempt)) m else m in
  c.(n_Mode) ≠ NackDeadLetter → (c.(n_Mode) = NackRetry → m1.(m_Attempt) < max_attempts m) →
  let delay := if (c.(n_Mode) =? NackRetry) && negb (0 <? c.(n_DelayMs))
               then backoffMs i m1.(m_Attempt) else c.(n_DelayMs) in
  let readyAt := add64 c.(n_NowMs) delay in
  ∃ b gm gn, applyNack c db = Ok (RNack true false, b) ∧
    @GetProto Lease _ (LeaseKey c.(n_LeaseID)) (commit b db) = None ∧
    GetRaw (TimeIndexKey ls.(ls_DeadlineMs) TimerLeaseDeadline (LeaseDeadlineRef c.(n_LeaseID)))
      (commit b db) = None ∧
    GetProto (MessageKey l g i) (commit b db) = Some (requeued m1 readyAt c.(n_NowMs)) ∧
    (c.(n_NowMs) < readyAt →
     GetRaw (TimeIndexKey readyAt TimerReadyAt (ReadyAtRef l g i)) (commit b db)
       = Some (u64b (requeued m1 readyAt c.(n_NowMs)).(m_Epoch))) ∧
    GetProto (GroupMetaKey l g) db = Some gm ∧ GetProto (GroupMetaKey l g) (commit b db) = Some gn ∧
    gn.(gm_TotalCount) = gm.(gm_TotalCount) ∧ gn.(gm_InflightCount) + 1 = gm.(gm_InflightCount) ∧
    gn.(gm_ReadyCount) = gm.(gm_ReadyCount) + (if c.(n_NowMs) <? readyAt then 0 else 1) ∧
    gn.(gm_DelayedCount) = gm.(gm_DelayedCount) + (if c.(n_NowMs) <? readyAt then 1 else 0).
Proof.
  intros H Hid Els l g i Em m1 Hmode Hlim delay readyAt.
  destruct (lease_facts n db _ ls H Hid Els) as (Hl & Hg & Hi & m0 & gm & Em0 & Hby & Hst & M1 & M2 &
    M3 & Eg & G1 & G2 & I1 & I2 & I3 & I4 & I5 & I6).
  destruct (applyNack_live n c db ls H Hid Els) as (m2 & gm2 & bt & Em2 & Eg2 & Hbt & Hrun).
  fold l g i in Em0, Em2, Eg, Eg2, Hrun, M1, M2, M3 |- *.
  rewrite Em in Em0, Em2. injection Em0 as <-. injection Em2 as <-.
  rewrite Eg in Eg2. injection Eg2 as <-. pose proof (inv_n n db H).
  destruct (total_applyNack c db) as (r & b & E). apply Hrun in E as Hb. cbv zeta in Hb.
  destruct Hb as (bd & -> & Hcase).
  assert (Hgo : (gm' ← makeReady m1 (gm_set_InflightCount (decr gm.(gm_InflightCount)) gm) readyAt c.(n_NowMs);
     putProto (GroupMetaKey l g) gm';; mret (RNack true false)) db = Ok (r, bd)).
  { unfold readyAt, delay, m1. rewrite <-M3.
    destruct Hcase as [(Hm & Hx & _)|[(Hm & Hx & E')|[(Hm & _)|(Hm & _ & E')]]].
    - specialize (Hlim Hm). unfold m1 in Hlim. rewrite Hm in Hlim. simpl in Hlim, Hx. lia.
    - rewrite Hm. simpl. by destruct (0 <? n_DelayMs c).
    - done.
    - apply N.eqb_neq in Hm. by rewrite Hm. }
  clear Hcase Hrun.
  assert (Hk : m1.(m_Lane) = l ∧ m1.(m_GroupId) = g ∧ m1.(m_MsgId) = i).
  { unfold m1. by destruct (_ =? _). }
  destruct Hk as (L1 & L2 & L3). clearbody m1 readyAt. clear delay Hlim.
  unfold mbind, M_bind in Hgo. rewrite makeReady_eq, L1, L2, L3 in Hgo.
  unfold putProto, bset, mret, M_ret in Hgo. unfold GetRaw.
  match type of Hgo with context [row_in ?x] => set (gn := x) in Hgo end.
  eexists _, gm, gn. split; [rewrite E; by injection Hgo as <- _|].
  injection Hgo as _ <-. subst gn.
  destruct (N.ltb_spec (n_NowMs c) readyAt) as [Hr|Hr]; destruct Hbt as [-> | ->]; cbn [app]; rows_in;
    split_and!; try done; try (by lk); try lia; try (intros; by lk).
  all: simpl; rewrite ?decr_eq, ?(incr64_le n) by lia; lia.
Qed.

(** C32: a nack that buries.  A terminal nack, or a retry that reaches the
    attempt limit, answers OK and dead: the message moves to the dead-letter
    table with its reason, attempt count and the failure's metadata; its lease
    and deadline timer are gone; the group's counters drop it. *)
Theorem applyNack_dead_letters `{PC : PayloadCodec} n c db ls m :
  Inv n db → n + 1 < two64 → u64 c.(n_LeaseID) → GetProto (LeaseKey c.(n_LeaseID)) db = Some ls →
  let l := ls.(ls_Lane) in let g := ls.(ls_GroupId) in let i := ls.(ls_MsgId) in
  GetProto (MessageKey l g i) db = Some m →
  let retry := c.(n_Mode) =? NackRetry in
  let m1 := if retry then m_set_Attempt (incr32 m.(m_Attempt)) m else m in
  (c.(n_Mode) = NackDeadLetter ∨ c.(n_Mode) = NackRetry ∧ max_attempts m ≤ m1.(m_Attempt)) →
  ∃ b gm gn, applyNack c db = Ok (RNack true true, b) ∧
    @GetProto Lease _ (LeaseKey c.(n_LeaseID)) (commit b db) = None ∧
    GetRaw (TimeIndexKey ls.(ls_DeadlineMs) TimerLeaseDeadline (LeaseDeadlineRef c.(n_LeaseID)))
      (commit b db) = None ∧
    @GetProto Message _ (MessageKey l g i) (commit b db) = None ∧
    GetProto (DLQKey l g c.(n_NowMs) i) (commit b db) =
      Some (mkDeadLetter m1 m1.(m_Attempt) (if retry then bs "max_attempts" else bs "terminal_nack")
              c.(n_FailureMeta) c.(n_NowMs)) ∧
    GetProto (GroupMetaKey l g) db = Some gm ∧ GetProto (GroupMetaKey l g) (commit b db) = Some gn ∧
    gn.(gm_TotalCount) + 1 = gm.(gm_TotalCount) ∧ gn.(gm_InflightCount) + 1 = gm.(gm_InflightCount) ∧
    gn.(gm_ReadyCount) = gm.(gm_ReadyCount) ∧ gn.(gm_DelayedCount) = gm.(gm_DelayedCount).
Proof.
  intros H Hn Hid Els l g i Em retry m1 Hmode.
  destruct (lease_facts n db _ ls H Hid Els) as (Hl & Hg & Hi & m0 & gm & Em0 & Hby & Hst & M1 & M2 &
    M3 & Eg & G1 & G2 & I1 & I2 & I3 & I4 & I5 & I6).
  destruct (applyNack_live n c db ls H Hid Els) as (m2 & gm2 & bt & Em2 & Eg2 & Hbt & Hrun).
  fold l g i in Em0, Em2, Eg, Eg2, Hrun, M1, M2, M3 |- *.
  rewrite Em in Em0, Em2. injection Em0 as <-. injection Em2 as <-.
  rewrite Eg in Eg2. injection Eg2 as <-.
  destruct (total_applyNack c db) as (r & b & E). apply Hrun in E as Hb. cbv zeta in Hb.
  destruct Hb as (bd & -> & Hcase).
  set (gn := gm_set_TotalCount _ _) in Hcase.
  set (reason := if retry then bs "max_attempts" else bs "terminal_nack").
  assert (Hgo : (deadLetter m1 reason c.(n_FailureMeta) c.(n_NowMs);; putProto (GroupMetaKey l g) gn;;
     mret (RNack true true)) db = Ok (r, bd)).
  { unfold reason, m1, retry in *.
    destruct Hcase as [(Hm & Hx & E')|[(Hm & Hx & E')|[(Hm & E')|(Hm & Hm' & _)]]];
      rewrite ?Hm in *; simpl in *; [done|naive_solver lia|done|by destruct Hmode as [?|[??]]]. }
  assert (Hk : m1.(m_Lane) = l ∧ m1.(m_GroupId) = g ∧ m1.(m_MsgId) = i).
  { unfold m1. by destruct retry. }
  destruct Hk as (L1 & L2 & L3). clearbody m1 reason. clear Hcase Hrun Hmode.
  apply bind_Ok in Hgo as ([] & bx & b8 & Ed & Hgo & ->).
  apply bind_Ok in Hgo as ([] & b2 & b9 & [_ ->]%putProto_Ok & [-> ->]%ret_Ok & ->).
  pose proof Ed as Ew. apply deadLetter_writes in Ew as (bp & -> & Hbp).
  eapply (deadLetter_core n) in Ed as (bp' & Ebp & _ & Hp & Hact); [|done].
  apply app_inv_head in Ebp as <-. rewrite L1, L2, L3 in *.
  assert (Hmsg : ∀ db', commit bp db' !! MessageKey l g i = db' !! MessageKey l g i).
  { apply (pub_core_frame db bp l g _ Hp Hact Hl Hg); [by right; exists i|].
    intros l' g' Hl' Hg'. destruct (loadGroupMeta_bound n db l' g' H Hl' Hg') as (_ & Hsq & _).
    unfold u64. lia. }
  eexists _, gm, gn. split; [exact E|]. rewrite app_nil_r.
  rewrite !commit_app. set (d0 := commit bt _).
  assert (Hd1 : @GetProto Lease _ (LeaseKey (n_LeaseID c)) d0 = None).
  { unfold d0. destruct Hbt as [-> | ->]; by lk. }
  clearbody d0. change (row_in gn) with (VGroupMeta gn). rows_in. unfold GetRaw.
  split_and!; try done.
  all: rewrite ?commit_cons, ?commit_nil; cbn [apply_bop]; repeat lk1; try done.
  all: try (erewrite GetProto_ext by (eapply wf_frame; [exact Hbp|reflexivity|]; set_solver)).
  all: try (rewrite (GetProto_ext _ _ _ (Hmsg _))); try (by lk).
  all: simpl; rewrite ?decr_eq; lia.
Qed.

(** ** Timers *)

Lemma bind_gets {A C : Type} (f : store → A) (k : A → M C) db : (gets f ≫= k) db = k (f db) db.
Proof. unfold mbind, M_bind, gets. by destruct (k (f db) db) as [[? ?]|]. Qed.
Lemma applyFireTimer_present `{PC : PayloadCodec} c db v :
  GetRaw (TimeIndexKey c.(f_DueTs) c.(f_Kind) c.(f_Ref)) db = Some v →
  applyFireTimer c db = (fireKind c (wrap32 (beU64 v));;
    bdel (TimeIndexKey c.(f_DueTs) c.(f_Kind) c.(f_Ref));; mret RNil) db.
Proof. intros E. unfold applyFireTimer. by rewrite bind_gets, E. Qed.

(** C34: reclaiming an expired lease.  A lease-deadline fire whose epoch matches
    the leased message returns it to READY at once, with its attempt count
    unchanged and a new epoch, and removes the lease; a fire with any other
    epoch only deletes the timer row. *)
Theorem lease_deadline_reclaims `{PC : PayloadCodec} n db id ls m due fireAt (v : bytes) :
  Inv n db → u64 id → GetProto (LeaseKey id) db = Some ls →
  let l := ls.(ls_Lane) in let g := ls.(ls_GroupId) in let i := ls.(ls_MsgId) in
  GetProto (MessageKey l g i) db = Some m →
  let c := mkFireTimerCmd TimerLeaseDeadline due (LeaseDeadlineRef id) fireAt in
  let tkey := TimeIndexKey due TimerLeaseDeadline (LeaseDeadlineRef id) in
  GetRaw tkey db = Some v →
  (m.(m_Epoch) ≠ wrap32 (beU64 v) → applyFireTimer c db = Ok (RNil, [BDel tkey])) ∧
  (m.(m_Epoch) = wrap32 (beU64 v) →
   ∃ b gm gn, applyFireTimer c db = Ok (RNil, b) ∧
     @GetProto Lease _ (LeaseKey id) (commit b db) = None ∧ GetRaw tkey (commit b db) = None ∧
     GetProto (MessageKey l g i) (commit b db) = Some (requeued m fireAt fireAt) ∧
     (requeued m fireAt fireAt).(m_State) = READY ∧
     (requeued m fireAt fireAt).(m_Attempt) = m.(m_Attempt) ∧
     GetProto (GroupMetaKey l g) db = Some gm ∧ GetProto (GroupMetaKey l g) (commit b db) = Some gn ∧
     gn.(gm_TotalCount) = gm.(gm_TotalCount) ∧ gn.(gm_InflightCount) + 1 = gm.(gm_InflightCount) ∧
     gn.(gm_ReadyCount) = gm.(gm_ReadyCount) + 1 ∧ gn.(gm_DelayedCount) = gm.(gm_DelayedCount)).
Proof.
  intros H Hid Els l g i Em c tkey Ev.
  destruct (lease_facts n db _ ls H Hid Els) as (Hl & Hg & Hi & m0 & gm & Em0 & Hby & Hst & M1 & M2 &
    M3 & Eg & G1 & G2 & I1 & I2 & I3 & I4 & I5 & I6). fold l g i in Em0, Eg, M1, M2, M3.
  rewrite Em in Em0. injection Em0 as <-. pose proof (inv_n n db H).
  pose proof (applyFireTimer_present c db v Ev) as Hrun.
  change (fireKind c _) with (fireLeaseDeadline (LeaseDeadlineRef id) (wrap32 (beU64 v)) fireAt) in Hrun.
  unfold fireLeaseDeadline in Hrun. rewrite ParseLeaseDeadlineRef_LeaseDeadlineRef in Hrun by done.
  rewrite Hrun. clear Hrun. unfold mbind, M_bind, gets, deleteLeaseToken, when, bdel.
  rewrite Els. fold l g i. rewrite Em, Hby. split.
  - intros Hne%N.eqb_neq. by rewrite Hne.
  - intros ->. rewrite N.eqb_refl, Eg. cbn [andb or_zero default].
    unfold expireLease, penaliseExpiry. rewrite makeReady_eq, N.ltb_irrefl.
    set (gn := gm_set_ReadyCount _ _). unfold requeued. rewrite N.ltb_irrefl. set (m' := m_set_State _ _).
    rewrite bool_decide_eq_true_2 by (by eexists). rewrite M1, M2, M3. unfold GetRaw.
    destruct (nonempty _); eexists _, gm, gn; (split; [reflexivity|]); cbn [app]; rows_in;
      split_and!; try done; try (by lk); simpl; rewrite ?Eg; simpl;
        rewrite ?decr_eq, ?(incr64_le n) by lia; lia.
Qed.

(** A message's TTL bounds delivery, not processing: when its expiry fires,
    a message that waits (READY or DELAYED) moves to the dead-letter table with
    reason "ttl"; a leased one is left alone. *)
Theorem ttl_expires_waiting `{PC : PayloadCodec} n db (l g : bytes) i m due fireAt (v : bytes) :
  Inv n db → short l → short g → u64 i → GetProto (MessageKey l g i) db = Some m →
  let c := mkFireTimerCmd TimerMsgExpiry due (ReadyAtRef l g i) fireAt in
  let tkey := TimeIndexKey due TimerMsgExpiry (ReadyAtRef l g i) in
  GetRaw tkey db = Some v →
  (m.(m_State) = LEASED → applyFireTimer c db = Ok (RNil, [BDel tkey])) ∧
  (m.(m_State) ≠ LEASED →
   ∃ b gm gn, applyFireTimer c db = Ok (RNil, b) ∧
     @GetProto Message _ (MessageKey l g i) (commit b db) = None ∧
     GetProto (DLQKey l g fireAt i) (commit b db) =
       Some (mkDeadLetter m m.(m_Attempt) (bs "ttl") ∅ fireAt) ∧
     GetProto (GroupMetaKey l g) db = Some gm ∧ GetProto (GroupMetaKey l g) (commit b db) = Some gn ∧
     gn.(gm_TotalCount) + 1 = gm.(gm_TotalCount) ∧ gn.(gm_InflightCount) = gm.(gm_InflightCount) ∧
     gn.(gm_ReadyCount) + ind READY (Some m) = gm.(gm_ReadyCount) ∧
     gn.(gm_DelayedCount) + ind DELAYED (Some m) = gm.(gm_DelayedCount)).
Proof.
  intros H Hl Hg Hi Em c tkey Ev. pose proof (inv_n n db H) as Hn.
  destruct (group_info n _ _ _ db m (inv_group n db H _ _ Hl Hg) (inv_rows n db H) Hl Hg Hi Em)
    as (gm & Eg & I1 & I2 & I3 & I4 & I5 & I6 & I7 & I8).
  destruct (message_row _ _ _ _ _ (inv_rows n db H) Hl Hg Hi Em) as (M1 & M2 & M3 & Hlive).
  destruct (total_applyFireTimer c db) as (r & b & E). pose proof E as E0.
  unfold applyFireTimer, c in E. cbn [f_Kind f_DueTs f_Ref] in E. fold tkey in E.
  apply bind_Ok in E as (o & b1 & b2 & [-> ->]%gets_Ok & E & ->). rewrite Ev in E. cbv zeta in E.
  apply bind_Ok in E as ([] & bx & b3 & E & E' & ->).
  apply bind_Ok in E' as ([] & b4 & b5 & [_ ->]%bdel_Ok & [-> ->]%ret_Ok & ->).
  change (fireMsgExpiry (ReadyAtRef l g i) fireAt db = Ok ((), bx)) in E.
  unfold fireMsgExpiry in E. rewrite ParseReadyAtRef_ReadyAtRef in E by done.
  apply bind_Ok in E as (o & b1 & b2 & [-> ->]%gets_Ok & E & ->). rewrite Em in E.
  unfold leasable in E. simpl app in E0 |- *. split.
  - intros Hst. rewrite Hst in E. minv E. exact E0.
  - intros Hst. rewrite E0.
    assert (bool_decide (m_State m = READY) || bool_decide (m_State m = DELAYED) = true) as Hls
      by (destruct (m_State m); done).
    rewrite Hls in E. cbv zeta in E.
    apply bind_Ok in E as (o & b1 & b4 & [-> ->]%gets_Ok & E & ->).
    rewrite Eg in E. cbn [or_zero default] in E.
    apply bind_Ok in E as ([] & bd & b5 & Ed & E & ->).
    rewrite (bool_decide_eq_true_2 (is_Some (Some gm))) in E by eauto. cbn [when] in E. unfold when in E.
    apply putProto_Ok in E as [_ ->].
    match goal with |- context [row_in (gm_set_TotalCount ?x ?y)] => set (gn := gm_set_TotalCount x y) in * end.
    pose proof Ed as Ew. apply deadLetter_writes in Ew as (bp & -> & Hbp).
    eapply (deadLetter_core n) in Ed as (bp' & Ebp & _ & Hp & Hact); [|done].
    apply app_inv_head in Ebp as <-. rewrite M1, M2, M3 in *.
    assert (Hmsg : ∀ db', commit bp db' !! MessageKey l g i = db' !! MessageKey l g i).
    { apply (pub_core_frame db bp l g _ Hp Hact Hl Hg); [by right; exists i|].
      intros l' g' Hl' Hg'. destruct (loadGroupMeta_bound n db l' g' H Hl' Hg') as (_ & Hsq & _).
      unfold u64. lia. }
    eexists _, gm, gn. split; [reflexivity|]. cbn [app]. rewrite <-!app_assoc.
    rewrite !commit_cons, !commit_app. rows_in. cbn [apply_bop].
    rewrite !ind_Some. subst gn.
    split_and!; try done.
    all: rewrite ?commit_cons, ?commit_nil; cbn [apply_bop]; repeat lk1; try done.
    all: try (erewrite GetProto_ext by (eapply wf_frame; [exact Hbp|reflexivity|]; set_solver)).
    all: try (rewrite (GetProto_ext _ _ _ (Hmsg _))); try (by lk).
    all: rewrite ind_Some in *; destruct (m_State m); simpl in *; rewrite ?decr_eq; try done; lia.
Qed.

(** ** Purging *)

Lemma dropRows_total l g rows acc db :
  Forall (λ kv : bytes * value, ∃ m, kv.2 = VMessage m) rows →
  ∃ d b, dropRows l g rows acc db = Ok (d, b) ∧
    (∀ o, o ∈ b → ∃ k m, (k, VMessage m) ∈ rows ∧ leasable m = true ∧ o = BDel (MessageKey l g m.(m_MsgId))).
Proof.
  intros Hrows. revert acc. induction rows as [|[k v] rows IH]; intros acc; cbn [dropRows].
  { eexists _, _. split; [done|]. intros o Ho. by apply elem_of_nil in Ho. }
  apply Forall_cons in Hrows as [[m Hv] Hrows]. simpl in Hv. subst v. cbn [row_out Row_Message].
  destruct (leasable m) eqn:Els.
  - destruct (IH Hrows (incr64 acc)) as (d & b & E & Hb).
    unfold bdel, mbind, M_bind. rewrite E. eexists _, _. split; [done|].
    intros o [->|Ho]%elem_of_cons; [exists k, m; split_and!; [by left|done|done]|].
    destruct (Hb o Ho) as (k1 & m1 & Hin & ? & ?). exists k1, m1. by split_and!; [right|..].
  - destruct (IH Hrows acc) as (d & b & E & Hb). rewrite E. eexists _, _. split; [done|].
    intros o Ho. destruct (Hb o Ho) as (k1 & m1 & Hin & ? & ?). exists k1, m1. by split_and!; [right|..].
Qed.

(** Purging (or cancelling) a group drops exactly its waiting messages: the
    answer is the number of READY and DELAYED ones, none of them remains, and
    every leased message stays as it was. *)
Theorem purge_drops_waiting n c db gm :
  Inv n db → short c.(gl_Lane) → short c.(gl_GroupID) →
  c.(gl_Op) = GroupPurge ∨ c.(gl_Op) = GroupCancel →
  GetProto (GroupMetaKey c.(gl_Lane) c.(gl_GroupID)) db = Some gm →
  ∃ b, applyGroupLifecycle c db = Ok (RGroupOp (gm.(gm_ReadyCount) + gm.(gm_DelayedCount)), b) ∧
    ∀ i, u64 i → GetProto (MessageKey c.(gl_Lane) c.(gl_GroupID) i) (commit b db) =
      match GetProto (MessageKey c.(gl_Lane) c.(gl_GroupID) i) db with
      | Some m => if bool_decide (m.(m_State) = LEASED) then Some m else None
      | None => None
      end.
Proof.
  destruct c as [l g op]. cbn [gl_Lane gl_GroupID gl_Op]. intros H Hl Hg Hop Eg.
  pose proof (inv_rows n db H) as Hwf.
  set (rows := NewIter (MessagePrefix l g) (PrefixEnd (MessagePrefix l g)) db).
  destruct (dropRows_total l g rows 0 db) as (d & b & E & Hb).
  { apply Forall_forall. intros [k v] Hin.
    apply scan_message in Hin as (i & m & _ & _ & -> & _); [by exists m|done..]. }
  assert (Ed : ∃ gn : GroupMeta, dropLeasable l g gm db = Ok (d, b ++ [BSet (GroupMetaKey l g) (row_in gn)])).
  { unfold dropLeasable. eexists. rewrite bind_gets. fold rows. unfold mbind, M_bind. rewrite E.
    cbv zeta. reflexivity. }
  destruct Ed as (gn & Ed).
  destruct (dropLeasable_spec n l g gm db _ _ H Hl Hg Eg Ed) as (_ & -> & Hback).
  exists (b ++ [BSet (GroupMetaKey l g) (row_in gn)]). split.
  { unfold applyGroupLifecycle. rewrite bind_gets. cbn [gl_Lane gl_GroupID gl_Op]. rewrite Eg.
    destruct Hop as [-> | ->]; simpl; unfold mbind, M_bind; rewrite Ed; cbv zeta;
      cbn -[commit]; by rewrite app_nil_r. }
  intros i Hi. set (db' := commit _ db) in *.
  destruct (GetProto (MessageKey l g i) db') as [m'|] eqn:Em'.
  - apply Hback in Em' as [Hst ->]; [|done]. by rewrite bool_decide_eq_true_2.
  - destruct (GetProto (MessageKey l g i) db) as [m|] eqn:Em; [|done].
    case_bool_decide as Hst; [|done]. exfalso.
    assert (Hsame : db' !! MessageKey l g i = db !! MessageKey l g i).
    { apply commit_frame. rewrite fmap_app, not_elem_of_app. split; [|by apply not_elem_of_cons; split; [key_ne|apply not_elem_of_nil]].
      intros Hin. apply list_elem_of_fmap in Hin as (o & Ek & Ho).
      destruct (Hb o Ho) as (k & m1 & Hin & Hls & ->). cbn [bop_key] in Ek.
      apply scan_message in Hin as (j & m2 & Hj & _ & [= ->] & <- & Em2); [|done..].
      apply MessageKey_inj in Ek as (_ & _ & ->); [|done..]. simplify_eq.
      apply leasable_spec in Hls as [?|?]; congruence. }
    erewrite GetProto_ext in Em' by exact Hsame. congruence.
Qed.

(** ** Producer idempotency *)

Lemma parse_dedupVal id expiry : u64 id → u64 expiry → parseDedupVal (dedupVal id expiry) = Some (id, expiry).
Proof.
  intros Hi He. unfold parseDedupVal, dedupVal.
  rewrite length_app, !length_be_bytes. cbn [Nat.ltb Nat.leb Nat.add].
  rewrite take_app_length', drop_app_length' by (by rewrite length_be_bytes).
  rewrite firstn_all2 by (by rewrite length_be_bytes).
  by rewrite !be_val_bytes_small.
Qed.

(** C33: producer idempotency.  On the state right after a publish with a dedup
    key and a window, a publish on the same lane with the same key (whatever its
    group and payload) answers the original id, marked duplicate, and writes
    nothing when it is made before the window ends; from the window's end on the
    duplicate check answers none. *)
Theorem publish_deduplicates n c c' db id dup b :
  Inv n db → n + 1 < two64 → short c.(p_Lane) → short c.(p_GroupID) →
  nonempty c.(p_DedupKey) = true → checkDedup c db = None →
  c.(p_NowMs) < c.(p_DedupExpiryMs) → u64 c.(p_DedupExpiryMs) →
  applyPublish c db = Ok (RPublish id dup, b) →
  c'.(p_Lane) = c.(p_Lane) → c'.(p_DedupKey) = c.(p_DedupKey) →
  dup = false ∧
  (c'.(p_NowMs) < c.(p_DedupExpiryMs) →
   applyPublish c' (commit b db) = Ok (RPublish id true, [])) ∧
  (c.(p_DedupExpiryMs) ≤ c'.(p_NowMs) → checkDedup c' (commit b db) = None).
Proof.
  intros H Hn Hl Hg Hk Hfree Hwin He E EL EK. unfold applyPublish in E. rewrite Hk in E.
  rewrite bind_gets, Hfree in E. rewrite bind_gets in E.
  destruct (loadGroupMeta_bound n db _ _ H Hl Hg) as (_ & Hsq & _).
  destruct (publishOne_eq c (loadGroupMeta (p_Lane c) (p_GroupID c) db) db) as (gn & E1 & _).
  apply bind_Ok in E as ([id' gm'] & b1 & b2 & E2 & E & ->). rewrite E1 in E2. injection E2 as <- <- Eb.
  apply bind_Ok in E as ([] & b3 & b4 & [_ ->]%putProto_Ok & E & ->).
  unfold when, recordDedup in E. apply N.leb_gt in Hwin as Hwin'. rewrite Hwin' in E.
  minv E. set (id := gm_NextSeq _) in *. split; [done|].
  set (db' := commit _ db).
  assert (Ev : GetRaw (DedupKey (p_Lane c') (p_DedupKey c')) db' =
               Some (dedupVal id (p_DedupExpiryMs c))).
  { unfold db', GetRaw. rewrite EL, EK. cbn [app]. rewrite commit_app. rows_in. by lk. }
  assert (Hc : checkDedup c' db' = if p_DedupExpiryMs c <=? p_NowMs c' then None else Some id).
  { unfold checkDedup. rewrite Ev, parse_dedupVal; [done|unfold u64; lia|done]. }
  split.
  - intros Hlt%N.leb_gt. unfold applyPublish. rewrite EK, Hk, bind_gets, Hc, Hlt. done.
  - intros Hle%N.leb_le. by rewrite Hc, Hle.
Qed.

(** ** Witnesses *)
Example applyAck_settles_witness :
  ∃ b, applyAck (mkAckCmd 1) demo_leased = Ok (RAck true, b) ∧
       applyAck (mkAckCmd 1) (commit b demo_leased) = Ok (RAck false, []).
Proof.
  edestruct (applyAck_settles 4 (mkAckCmd 1) demo_leased) as
    (b & gm & gn & E & _ & _ & _ & _ & _ & _ & _ & _ & _ & _ & _ & E');
    [exact demo_leased_Inv|done|vm_compute; reflexivity|].
  exists b. by split.
Defined.

Example applyExtend_moves_deadline_witness :
  ∃ b, applyExtend (mkExtendCmd 1 200) demo_leased = Ok (RExtend true, b).
Proof.
  edestruct (applyExtend_moves_deadline (PC:=demo_codec) 4 (mkExtendCmd 1 200) demo_leased)
    as (b & m & E & _); [exact demo_leased_Inv|done|vm_compute; reflexivity|done..|].
  exists b. exact E.
Defined.

Example applyFireTimer_idempotent_witness :
  let c := mkFireTimerCmd TimerLeaseDeadline 100 (LeaseDeadlineRef 1) 100 in
  ∃ b, b ≠ [] ∧ applyFireTimer c demo_leased = Ok (RNil, b) ∧
       applyFireTimer c (commit b demo_leased) = Ok (RNil, []).
Proof.
  intros c. eexists. split; [|split; [|eapply (applyFireTimer_idempotent c demo_leased)]];
    [|vm_compute; reflexivity|vm_compute; reflexivity]. done.
Defined.

Example applyNack_requeues_witness :
  ∃ b, applyNack (mkNackCmd 1 NackRetry 5 ∅ 50) demo_leased = Ok (RNack true false, b).
Proof.
  edestruct (applyNack_requeues 4 (mkNackCmd 1 NackRetry 5 ∅ 50) demo_leased) as (b & gm & gn & E & _);
    [exact demo_leased_Inv|done|vm_compute; reflexivity|vm_compute; reflexivity|done|by vm_compute|].
  exists b. exact E.
Defined.

Example applyNack_dead_letters_witness :
  ∃ b, applyNack (mkNackCmd 1 NackDeadLetter 5 ∅ 50) demo_leased = Ok (RNack true true, b).
Proof.
  edestruct (applyNack_dead_letters 4 (mkNackCmd 1 NackDeadLetter 5 ∅ 50) demo_leased)
    as (b & gm & gn & E & _);
    [exact demo_leased_Inv|done|done|vm_compute; reflexivity|vm_compute; reflexivity|by left|].
  exists b. exact E.
Defined.

Example lease_deadline_reclaims_witness :
  let c := mkFireTimerCmd TimerLeaseDeadline 100 (LeaseDeadlineRef 1) 120 in
  ∃ b, applyFireTimer c demo_leased = Ok (RNil, b) ∧
       @GetProto Lease _ (LeaseKey 1) (commit b demo_leased) = None.
Proof.
  edestruct lease_deadline_reclaims with (n := 4) (db := demo_leased) (id := 1) (due := 100) (fireAt := 120) as [_ (b & gm & gn & E & Els & _)];
    [exact demo_leased_Inv|done|vm_compute; reflexivity|vm_compute; reflexivity|
     vm_compute; reflexivity|by vm_compute|].
  exists b. split; [exact E|exact Els].
Defined.

(** A publish with an expiry, a dedup key and a window. *)
Definition demo_ttl : PublishCmd :=
  mkPublishCmd (bs "l") (bs "g") (bs "x") ∅ f64_zero false 0 false 3 0 90 10 false [] (bs "k") 60.
Definition demo_ttl_state : store :=
  match applyPublish demo_ttl demo_leased with Ok (_, b) => commit b demo_leased | Err _ => ∅ end.
Lemma demo_ttl_Inv : Inv 5 demo_ttl_state.
Proof.
  unfold demo_ttl_state. destruct (total_applyPublish demo_ttl demo_leased) as (r & b & E).
  rewrite E. by apply (Inv_applyPublish 4 _ demo_ttl r); [exact demo_leased_Inv|..].
Qed.

Example ttl_expires_waiting_witness :
  let c := mkFireTimerCmd TimerMsgExpiry 90 (ReadyAtRef (bs "l") (bs "g") 3) 95 in
  ∃ b, applyFireTimer c demo_ttl_state = Ok (RNil, b) ∧
       @GetProto Message _ (MessageKey (bs "l") (bs "g") 3) (commit b demo_ttl_state) = None.
Proof.
  edestruct ttl_expires_waiting with (n := 5) (db := demo_ttl_state) (l := bs "l") (g := bs "g") (i := 3) (due := 90) (fireAt := 95) as [_ (b & gm & gn & E & Em & _)];
    [exact demo_ttl_Inv|done|done|done|vm_compute; reflexivity|vm_compute; reflexivity|done|].
  exists b. split; [exact E|exact Em].
Defined.

Example purge_drops_waiting_witness :
  ∃ b, applyGroupLifecycle (mkGroupLifecycleCmd (bs "l") (bs "g") GroupPurge) demo_leased
       = Ok (RGroupOp 1, b).
Proof.
  edestruct (purge_drops_waiting 4 (mkGroupLifecycleCmd (bs "l") (bs "g") GroupPurge) demo_leased)
    as (b & E & _); [exact demo_leased_Inv|done|done|by left|vm_compute; reflexivity|].
  exists b. exact E.
Defined.

Example publish_deduplicates_witness :
  ∃ b, applyPublish demo_ttl demo_leased = Ok (RPublish 3 false, b) ∧
       applyPublish demo_ttl (commit b demo_leased) = Ok (RPublish 3 true, []).
Proof.
  eexists. split; [vm_compute; reflexivity|].
  eapply (publish_deduplicates 4 demo_ttl demo_ttl demo_leased 3 false);
    [exact demo_leased_Inv|done|done|done|done|by vm_compute|done|done|vm_compute; reflexivity|done..].
Defined.
