(* ===== verification/Conservation.v ===== *)
(** * Message conservation

    No command loses a message silently.  Two facts on the writes of a handler
    give it.  [buries]: which rows it deletes, in every state.  [kept]: what it
    writes over a stored message, and what it puts into a dead letter, are the
    message's own contents; new messages go to fresh ids, by the accounting
    invariant. *)

From S2P Require Import Prelude Keys Data Store Backoff Publish Workflow Broker Control Auth Timers Fsm Demo Reason Structure Accounting AccountingOps AccountingLog BrokerProps.

Implicit Types (db : store) (n : N) (m : Message) (b : batch).

(** ** Batches that bury what they delete *)

(** The batch deletes no message and touches no dead letter. *)
Definition quiet_op (o : bop) : Prop :=
  match o with
  | BSet k _ => tag k ≠ Some tagDLQ
  | BDel k => tag k ≠ Some tagDLQ ∧ tag k ≠ Some tagMessage
  end.
Definition quiet (b : batch) : Prop := Forall quiet_op b.

(** [dl], at key [kd], is the dead letter of the message at key [k]. *)
Definition buried_at (k kd : bytes) (dl : DeadLetter) : Prop :=
  let m := dl.(dl_Original) in
  k = MessageKey m.(m_Lane) m.(m_GroupId) m.(m_MsgId) ∧
  kd = DLQKey m.(m_Lane) m.(m_GroupId) dl.(dl_DeadAtMs) m.(m_MsgId).

(** The batch deletes no message, or one, whose dead letter it writes. *)
Definition buries (b : batch) : Prop :=
  quiet b ∨
  ∃ (k kd : bytes) dl b1 b2, buried_at k kd dl ∧ quiet b1 ∧ quiet b2 ∧
    b = b1 ++ [BSet kd (VDeadLetter dl); BDel k] ++ b2.

Abbreviation quiet_M := (each_M quiet_op).
Definition buries_M {A} (m : M A) : Prop := ∀ db x b, m db = Ok (x, b) → buries b.

Lemma buries_quiet {A} (m : M A) : quiet_M m → buries_M m.
Proof. intros Hm db x b E. left. by eapply Hm. Qed.
Lemma buries_bind_r {A B : Type} (m : M A) (f : A → M B) :
  quiet_M m → (∀ x, buries_M (f x)) → buries_M (m ≫= f).
Proof.
  intros Hm Hf db y b (x & b1 & b2 & E1 & E2 & ->)%bind_Ok.
  apply Hm in E1. apply Hf in E2 as [E2|(k & kd & dl & c1 & c2 & Hk & H1 & H2 & ->)].
  - left. by apply Forall_app.
  - right. exists k, kd, dl, (b1 ++ c1), c2. rewrite <-app_assoc. split_and!; try done. by apply Forall_app.
Qed.
Lemma buries_bind_l {A B : Type} (m : M A) (f : A → M B) :
  buries_M m → (∀ x, quiet_M (f x)) → buries_M (m ≫= f).
Proof.
  intros Hm Hf db y b (x & b1 & b2 & E1 & E2 & ->)%bind_Ok.
  apply Hf in E2. apply Hm in E1 as [E1|(k & kd & dl & c1 & c2 & Hk & H1 & H2 & ->)].
  - left. by apply Forall_app.
  - right. exists k, kd, dl, c1, (c2 ++ b2). rewrite <-!app_assoc. split_and!; try done. by apply Forall_app.
Qed.

Create HintDb rota_bury discriminated.

Ltac burying :=
  repeat first
    [ solve [auto 2 with rota_bury]
    | solve [apply buries_quiet; each]
    | apply buries_bind_l; [solve [auto 2 with rota_bury]|intros ?; solve [each]]
    | apply buries_bind_r; [solve [each]|intros ?]
    | apply buries_bind_l; [|intros ?; solve [each]]
    | match goal with
      | |- buries_M (match ?x with _ => _ end) => destruct x
      | |- buries_M (when _ _) => unfold when
      | |- buries_M (let _ := _ in _) => cbv zeta
      end ].

Section handlers.
Context {PC : PayloadCodec}.

(** ** Publishing and workflows *)
Lemma quiet_publishOne c gm : quiet_M (publishOne c gm).
Proof. unfold publishOne. each. Qed.
Lemma quiet_publishReady l g p h now : quiet_M (publishReady l g p h now).
Proof. unfold publishReady. each. Qed.
Lemma quiet_recordDedup c id : quiet_M (recordDedup c id).
Proof. unfold recordDedup. each. Qed.
#[local] Hint Resolve quiet_publishOne quiet_publishReady quiet_recordDedup : rota_each.
Lemma quiet_applyPublish c : quiet_M (applyPublish c).
Proof. unfold applyPublish. each. Qed.
Lemma quiet_publishItem a i st : quiet_M (publishItem a i st).
Proof. unfold publishItem. each. Qed.
Lemma quiet_publishItems a items st : quiet_M (publishItems a items st).
Proof.
  revert st. induction items as [|i items IH]; intros st; simpl; [each|].
  apply each_bind; [|done]. unfold publishItem. each.
Qed.
Lemma quiet_putGroups order cache : quiet_M (putGroups order cache).
Proof. induction order; simpl; each. Qed.
#[local] Hint Resolve quiet_publishItems quiet_putGroups : rota_each.
Lemma quiet_applyPublishBatch c : quiet_M (applyPublishBatch c).
Proof. unfold applyPublishBatch. each. Qed.
Lemma quiet_applyLease c : quiet_M (applyLease c).
Proof. unfold applyLease, nextLeaseID. each. Qed.

Lemma quiet_dispatchWorkflowTask run : quiet_M (dispatchWorkflowTask run).
Proof. unfold dispatchWorkflowTask. each. Qed.
#[local] Hint Resolve quiet_dispatchWorkflowTask : rota_each.
Lemma quiet_advanceRun r s now run : quiet_M (advanceRun r s now run).
Proof. unfold advanceRun. each. Qed.
Lemma quiet_createRun w t i p now : quiet_M (createRun w t i p now).
Proof. unfold createRun, nextRunID. each. Qed.
#[local] Hint Resolve quiet_advanceRun quiet_createRun : rota_each.
Lemma quiet_recordActivityTerminal r s f res now : quiet_M (recordActivityTerminal r s f res now).
Proof. unfold recordActivityTerminal. each. Qed.
Lemma quiet_appendExternalEvent r t a now : quiet_M (appendExternalEvent r t a now).
Proof. unfold appendExternalEvent. each. Qed.
#[local] Hint Resolve quiet_recordActivityTerminal quiet_appendExternalEvent : rota_each.
Lemma quiet_appendEvents c evs n run : quiet_M (appendEvents c evs n run).
Proof.
  revert n run. induction evs as [|e evs IH]; intros n run; simpl; [each|].
  unfold appendEffect, dispatchActivity, armWFTimer. each.
Qed.
#[local] Hint Resolve quiet_appendEvents : rota_each.
Lemma quiet_workflow :
  (∀ c, quiet_M (applyWFStartRun c)) ∧ (∀ c, quiet_M (applyWFAppendEvents c)) ∧
  (∀ c, quiet_M (applyWFCompleteActivity c)) ∧ (∀ c, quiet_M (applyWFSignal c)) ∧
  (∀ c, quiet_M (applyWFCancel c)).
Proof.
  unfold applyWFStartRun, applyWFAppendEvents, applyWFCompleteActivity, applyWFSignal, applyWFCancel.
  split_and!; intros c; each.
Qed.

Lemma quiet_appendEffect c n e run : quiet_M (appendEffect c n e run).
Proof. unfold appendEffect, dispatchActivity, armWFTimer. each. Qed.

(** ** Settling and timers *)
Lemma buries_deadLetter m reason meta ts : buries_M (deadLetter m reason meta ts).
Proof.
  intros db x b E. unfold deadLetter in E.
  apply bind_Ok in E as ([] & b1 & b2 & [_ ->]%putProto_Ok & E & ->).
  apply bind_Ok in E as ([] & b3 & b4 & [_ ->]%bdel_Ok & E & ->).
  assert (Hb : quiet b4).
  { revert E. match goal with |- ?h db = _ → _ => assert (Hm : quiet_M h) by each end. apply Hm. }
  right. set (dl := mkDeadLetter m m.(m_Attempt) reason meta ts).
  exists (MessageKey m.(m_Lane) m.(m_GroupId) m.(m_MsgId)),
    (DLQKey m.(m_Lane) m.(m_GroupId) ts m.(m_MsgId)), dl, [], b4. by split_and!; [|constructor|..].
Qed.
Lemma quiet_makeReady m gm r now : quiet_M (makeReady m gm r now).
Proof. unfold makeReady. each. Qed.
Lemma quiet_deleteLeaseToken l : quiet_M (deleteLeaseToken l).
Proof. unfold deleteLeaseToken. each. Qed.
#[local] Hint Resolve buries_deadLetter : rota_bury.
#[local] Hint Resolve quiet_makeReady quiet_deleteLeaseToken : rota_each.
Lemma buries_applyNack c : buries_M (applyNack c).
Proof. unfold applyNack. burying. Qed.
Lemma quiet_applyExtend c : quiet_M (applyExtend c).
Proof. unfold applyExtend. each. Qed.
Lemma buries_applyFireTimer c : buries_M (applyFireTimer c).
Proof.
  unfold applyFireTimer, fireKind, fireReadyAt, fireLeaseDeadline, expireLease, fireLeaseMaxLife,
    fireWFTimer, recordTimerFired, fireMsgExpiry, fireDedupExpiry. burying.
Qed.

(** ** Control plane *)
Lemma quiet_control :
  (∀ c, quiet_M (applySetPolicy c)) ∧ (∀ c, quiet_M (applyGroupConfig c)) ∧
  (∀ c, quiet_M (applyCron c)) ∧ (∀ c, quiet_M (applyFireCron c)) ∧
  (∀ c, quiet_M (applyIssueToken c)) ∧ (∀ c, quiet_M (applySingleton c)) ∧
  (∀ c, quiet_M (applySetLaneConfig c)) ∧ (∀ c, quiet_M (applyReapGroup c)) ∧
  (∀ c, quiet_M (applyAuthPrincipal c)).
Proof.
  unfold applySetPolicy, applyGroupConfig, applyCron, applyFireCron, applyIssueToken,
    applySingleton, applySetLaneConfig, applyReapGroup, applyAuthPrincipal,
    applyAuthCreatePrincipal, applyAuthRotatePrincipalToken, applyAuthSetPrincipalDisabled,
    applyAuthGrantPrincipal, applyAuthRevokePrincipalGrant, loadAuthPrincipal.
  split_and!; intros c; each.
Qed.
End handlers.

(** A redrive deletes a dead letter, and no message. *)
Lemma applyRedrive_keeps c db x b :
  applyRedrive c db = Ok (x, b) → Forall (λ o, ∀ k : bytes, o = BDel k → tag k ≠ Some tagMessage) b.
Proof.
  intros E. unfold applyRedrive in E.
  apply bind_Ok in E as (rows & b1 & b2 & [-> ->]%gets_Ok & E & ->). simpl app.
  destruct (findDead _ _) as [[dk dl]|] eqn:Ef; [|minv E; constructor].
  assert (Hk : tag dk ≠ Some tagMessage).
  { assert (Hin : ∃ v, (dk, v) ∈ NewIter (DLQGroupPrefix (rd_Lane c) (rd_GroupID c))
      (PrefixEnd (DLQGroupPrefix (rd_Lane c) (rd_GroupID c))) db).
    { exists (VDeadLetter dl). by apply findDead_in in Ef as [? _]. }
    destruct Hin as [v Hin]. apply elem_of_NewIter in Hin as [_ Hr].
    apply PrefixEnd_range in Hr as [y ->]. by intros [=]. }
  apply bind_Ok in E as (gm & b1 & b3 & [-> ->]%gets_Ok & E & ->).
  apply bind_Ok in E as ([id gm'] & b1 & b4 & E1 & E & ->).
  apply quiet_publishOne in E1.
  apply bind_Ok in E as ([] & b5 & b6 & [_ ->]%putProto_Ok & E & ->).
  apply bind_Ok in E as ([] & b7 & b8 & [_ ->]%bdel_Ok & [_ ->]%ret_Ok & ->).
  simpl app. apply Forall_app. split.
  - eapply Forall_impl; [exact E1|]. intros o Ho k ->. by destruct Ho.
  - repeat constructor; intros k [= <-]. exact Hk.
Qed.

(** A row that a batch removes, the batch deletes. *)
Lemma commit_removed b db (k : bytes) :
  db !! k ≠ None → commit b db !! k = None → BDel k ∈ b.
Proof.
  revert db. induction b as [|o b IH]; intros db Hin Hout; [done|].
  rewrite commit_cons in Hout. destruct (decide (apply_bop db o !! k = None)) as [E|E].
  - destruct o as [k' v|k']; simpl in E.
    + apply lookup_insert_None in E as [? _]. done.
    + apply lookup_delete_None in E as [->|?]; [by left|done].
  - right. by eapply IH.
Qed.

(** ** The commands that may remove a message *)
Definition removes (cmd : Command) : Prop :=
  cmd.(c_Type) = CmdAck ∨ cmd.(c_Type) = CmdTeardownGroup ∨
  (cmd.(c_Type) = CmdComplete ∧ ∃ c, cmd.(c_Complete) = Some c ∧ c.(cp_Success) = true) ∨
  (cmd.(c_Type) = CmdGroupLifecycle ∧
   ∃ c, cmd.(c_GroupLifecycle) = Some c ∧ (c.(gl_Op) = GroupCancel ∨ c.(gl_Op) = GroupPurge)).

Section failures.
Context {PC : PayloadCodec}.
#[local] Hint Resolve buries_applyNack : rota_bury.
Lemma buries_complete_failed c : c.(cp_Success) = false → buries_M (applyComplete c).
Proof. intros Hs. unfold applyComplete. rewrite Hs. burying. Qed.
Lemma quiet_lifecycle_kept c : c.(gl_Op) ≠ GroupCancel → c.(gl_Op) ≠ GroupPurge → quiet_M (applyGroupLifecycle c).
Proof.
  intros Hc Hp. unfold applyGroupLifecycle.
  rewrite (proj2 (N.eqb_neq _ _) Hc), (proj2 (N.eqb_neq _ _) Hp). cbn [orb]. each.
Qed.
End failures.

Lemma dispatch_buries `{PC : PayloadCodec} cmd db r b :
  ¬ removes cmd → dispatch cmd db = Some (Ok (r, b)) →
  buries b ∨ Forall (λ o, ∀ k : bytes, o = BDel k → tag k ≠ Some tagMessage) b.
Proof.
  intros Hr E.
  assert (Hb : ∀ {C} (h : C → M ApplyResult) o, (∀ c, buries_M (h c)) →
    deref h o db = Some (Ok (r, b)) → buries b).
  { intros C h [c|] Hh; [|done]. intros [= E']. by eapply Hh. }
  assert (Hq : ∀ {C} (h : C → M ApplyResult) o, (∀ c, quiet_M (h c)) →
    deref h o db = Some (Ok (r, b)) → buries b).
  { intros C h o Hh. apply Hb. intros c. by apply buries_quiet. }
  destruct quiet_workflow as (W1 & W2 & W3 & W4 & W5).
  destruct quiet_control as (K1 & K2 & K3 & K4 & K5 & K6 & K7 & K8 & K9).
  unfold dispatch in E. cbv zeta in E. unfold removes in Hr.
  repeat match type of E with (if ?t =? ?v then _ else _) _ = _ => destruct (N.eqb_spec t v) end;
    try (left; first
      [ eapply Hq; [|exact E]; first [exact quiet_applyPublish|exact quiet_applyPublishBatch|
          exact quiet_applyLease|exact quiet_applyExtend|done]
      | eapply Hb; [|exact E]; first [exact buries_applyNack|exact buries_applyFireTimer] ]).
  - tauto.
  - destruct (c_GroupLifecycle cmd) as [c|] eqn:Ec; [|done]. injection E as E.
    left. eapply buries_quiet, E. apply quiet_lifecycle_kept; intros Hc; apply Hr; eauto 10.
  - destruct (c_Complete cmd) as [c|] eqn:Ec; [|done]. injection E as E.
    destruct (cp_Success c) eqn:Es; [destruct Hr; eauto 10|]. left. by eapply buries_complete_failed.
  - tauto.
  - right. destruct (c_Redrive cmd); [|done]. injection E as E. by eapply applyRedrive_keeps.
  - left. injection E as E. by eapply (buries_quiet _ (K9 _)).
  - done.
Qed.

(** ** What is written over a message *)

(** Everything of a message but what settling it changes. *)
Definition contents (m : Message) : Message :=
  m_set_Attempt 0 (m_set_State MESSAGE_STATE_UNSPECIFIED (m_set_Epoch 0 (m_set_CurLease 0 m))).
Definition own_key (m : Message) : bytes := MessageKey m.(m_Lane) m.(m_GroupId) m.(m_MsgId).

(** A write over a stored message, or of a dead letter, has the contents of the
    message stored. *)
Definition matches db (k : bytes) (m : Message) : Prop :=
  ∀ m0, GetProto k db = Some m0 → contents m = contents m0.
Definition kept_op db (o : bop) : Prop :=
  match o with
  | BSet k v =>
      (tag k = Some tagMessage → ∃ m, v = VMessage m ∧ matches db k m) ∧
      (tag k = Some tagDLQ → ∃ dl, v = VDeadLetter dl ∧ matches db (own_key dl.(dl_Original)) dl.(dl_Original))
  | BDel _ => True
  end.
Definition kept {A} db (m : M A) : Prop := ∀ x b, m db = Ok (x, b) → Forall (kept_op db) b.

(** Writes of other tables. *)
Definition plain_op (o : bop) : Prop :=
  match o with
  | BSet k _ => tag k ≠ Some tagMessage ∧ tag k ≠ Some tagDLQ
  | BDel _ => True
  end.
Lemma kept_plain {A} (m : M A) db : each_M plain_op m → kept db m.
Proof.
  intros Hm x b E. eapply Forall_impl; [by eapply Hm|]. intros [k v|k]; [|done]. by intros [? ?].
Qed.
Lemma kept_bind {A B : Type} (m : M A) (f : A → M B) db :
  kept db m → (∀ x, kept db (f x)) → kept db (m ≫= f).
Proof.
  intros Hm Hf y b (x & b1 & b2 & E1 & E2 & ->)%bind_Ok. apply Forall_app. split; [by eapply Hm|by eapply Hf].
Qed.
Lemma kept_gets {A B : Type} (f : store → A) (g : A → M B) db : kept db (g (f db)) → kept db (gets f ≫= g).
Proof. intros Hg y b (x & b1 & b2 & [-> ->]%gets_Ok & E2 & ->)%bind_Ok. by apply Hg in E2. Qed.
Lemma kept_put_message (k : bytes) (m : Message) db : tag k ≠ Some tagDLQ → matches db k m → kept db (putProto k m).
Proof. intros Hk Hm x b [_ ->]%putProto_Ok. constructor; [|done]. split; [eauto|done]. Qed.

(** Only the broker rows of a batch without dead letters matter. *)
Lemma kept_core db b : quiet b → Forall (kept_op db) (core b) → Forall (kept_op db) b.
Proof.
  induction 1 as [|o b Ho Hb IH]; intros Hc; [constructor|]. cbn [core] in Hc.
  destruct (is_broker (bop_key o)) eqn:Ek; [apply Forall_cons in Hc as [? ?]; constructor; auto|].
  constructor; [|auto]. destruct o as [k v|k]; [|done]. split; [|done]. intros Ht.
  assert (is_broker k = true) by (apply is_broker_spec; by left; left). simpl in Ek. congruence.
Qed.

Lemma kept_group db (l g : bytes) gm : kept_op db (BSet (GroupMetaKey l g) (VGroupMeta gm)).
Proof. by split; intros [=]. Qed.

Create HintDb rota_kept discriminated.
Ltac keeping :=
  repeat first
    [ solve [auto 2 with rota_kept]
    | solve [apply kept_plain; each]
    | apply kept_gets
    | apply kept_bind; [|intros ?]
    | match goal with
      | |- kept _ (match ?x with _ => _ end) => destruct x eqn:?
      | |- kept _ (when _ _) => unfold when
      | |- kept _ (let _ := _ in _) => cbv zeta
      end ].

Section kept_handlers.
Context {PC : PayloadCodec} (n : N) (db : store).
Hypothesis H : Inv n db.

(** A stored message sits under its own key. *)
Lemma stored_matches (k : bytes) m : GetProto k db = Some m → matches db (own_key m) m.
Proof using H.
  intros E m0 E0. pose proof E as Er. apply GetProto_row, (inv_rows n db H) in Er as (_ & -> & _).
  unfold own_key in E0. rewrite E in E0. by injection E0 as ->.
Qed.
Lemma key_matches (k : bytes) m m' : GetProto k db = Some m → contents m' = contents m → matches db k m'.
Proof using Type. intros E Hc m0 E0. rewrite E in E0. injection E0 as <-. exact Hc. Qed.

(** No message is stored under a group's next id. *)
Lemma fresh_matches l g m : short l → short g →
  matches db (MessageKey l g (loadGroupMeta l g db).(gm_NextSeq)) m.
Proof using H.
  intros Hl Hg m0. destruct (loadGroupMeta_bound n db l g H Hl Hg) as (_ & Hs & _).
  pose proof (inv_n n db H). rewrite (fresh_message n db l g); [done|done|done|done|unfold u64; lia|lia].
Qed.

Lemma kept_pub_core P b : pub_core P db b → quiet b → Forall (kept_op db) b.
Proof using H.
  intros Hp Hq. apply kept_core; [done|]. destruct Hp as [->|(l & g & m & gn & _ & Hl & Hg & _ & _ & ->)]; [constructor|].
  repeat constructor; try by intros [=].
  intros _. exists m. split; [done|]. by apply fresh_matches.
Qed.

(** ** Publishing *)
Lemma kept_publishOne c gm :
  short c.(p_Lane) → short c.(p_GroupID) → u64 gm.(gm_NextSeq) →
  (∀ m, matches db (MessageKey c.(p_Lane) c.(p_GroupID) gm.(gm_NextSeq)) m) → kept db (publishOne c gm).
Proof using Type.
  intros Hl Hg Hu Hm [id gn] b E. apply quiet_publishOne in E as Hq.
  apply publishOne_core in E as (_ & -> & m & Hc & _); [|done..].
  apply kept_core; [done|]. rewrite Hc. repeat constructor; [|by intros [=]]. eauto.
Qed.
Lemma kept_publishOne_stored c :
  short c.(p_Lane) → short c.(p_GroupID) →
  kept db (publishOne c (loadGroupMeta c.(p_Lane) c.(p_GroupID) db)).
Proof using H.
  intros Hl Hg. destruct (loadGroupMeta_bound n db _ _ H Hl Hg) as (_ & Hs & _). pose proof (inv_n n db H).
  apply kept_publishOne; [done|done|unfold u64; lia|]. intros m. by apply fresh_matches.
Qed.
Lemma kept_applyPublish c : short c.(p_Lane) → short c.(p_GroupID) → kept db (applyPublish c).
Proof using H.
  intros Hl Hg. pose proof (kept_publishOne_stored c Hl Hg) as Hp. unfold applyPublish.
  apply kept_bind; [keeping|]. intros [id|]; [keeping|]. apply kept_gets. apply kept_bind; [done|].
  unfold recordDedup. intros [id gm]. keeping.
Qed.
Lemma kept_applyRedrive c : short c.(rd_Lane) → short c.(rd_GroupID) → kept db (applyRedrive c).
Proof using H.
  intros Hl Hg. unfold applyRedrive. cbv zeta. apply kept_gets.
  destruct (findDead _ _) as [[k dl]|]; [|keeping]. apply kept_gets. apply kept_bind; [|intros [id gm]; keeping].
  by apply (kept_publishOne_stored (redrive_publish c dl.(dl_Original))).
Qed.
Lemma kept_applyFireCron c : kept db (applyFireCron c).
Proof using H.
  unfold applyFireCron. apply kept_gets. destruct (loadCron _ db) as [spec|] eqn:Es; [|keeping].
  destruct (cron_row n db _ _ H Es) as [Hl Hg]. cbv zeta. apply kept_gets.
  destruct (GetRaw _ db); [|keeping]. apply kept_bind; [|intros ?; keeping].
  intros x b E. apply quiet_publishReady in E as Hq.
  eapply (publishReady_pub n (λ _, True)) in E as [_ Hp]; [|done..]. by eapply kept_pub_core.
Qed.
Lemma kept_applyLease c : n + 1 < two64 → short c.(l_Lane) → short c.(l_GroupID) → kept db (applyLease c).
Proof using H.
  intros Hn Hl Hg r b E. apply quiet_applyLease in E as Hq.
  apply (applyLease_core n) in E as [(_ & -> & _)|(m & gm & E)]; [constructor| |done..].
  cbv zeta in E. destruct E as (_ & _ & _ & Em & _ & _ & _ & _ & Hc). apply kept_core; [done|]. rewrite Hc.
  repeat constructor; try by intros [=]. intros _. eexists. split; [done|]. by eapply key_matches.
Qed.

(** The batch: an item's group meta is the cached one, whose next id is fresh in
    the store the batch would leave, hence in the committed one. *)
Lemma kept_publishItem nb b st V at_ item st' b' :
  batch_inv nb db b st V → quiet b → nb + 1 < two64 → item_ok item →
  publishItem at_ item st db = Ok (st', b') → Forall (kept_op db) b'.
Proof using Type.
  intros HB Hq Hn (Hl & Hg & Hnul) E. pose proof (bi_inv _ _ _ _ _ HB) as HV.
  unfold publishItem in E. apply bind_Ok in E as (dup & b1 & b2 & E1 & E & ->).
  assert (b1 = []) as -> by (by minv E1). clear E1. simpl app.
  destruct dup as [id|]; [by minv E|].
  cbv zeta in E. apply bind_Ok in E as ([gm order] & b1 & b3 & E1 & E & ->).
  set (l := p_Lane item) in *. set (g := p_GroupID item) in *.
  assert (Hload : b1 = [] ∧ gm = loadGroupMeta l g V).
  { destruct (st.(pbs_cache) !! nulkey l g) as [g0|] eqn:Ec; minv E1; (split; [done|]).
    - destruct (bi_cache _ _ _ _ _ HB _ _ Ec) as (Ek & Hn0 & Eg & _).
      apply nulkey_inj in Ek as [El Eg0]; [|done..]. unfold loadGroupMeta. by rewrite El, Eg0, Eg.
    - unfold loadGroupMeta. erewrite GetProto_ext; [done|]. symmetry.
      apply (bi_rest _ _ _ _ _ HB); [done..|]. by rewrite Ec. }
  destruct Hload as [-> ->]. clear E1. simpl app.
  destruct (loadGroupMeta_bound nb V l g HV Hl Hg) as (_ & Hsq & _). pose proof (inv_n nb V HV).
  assert (Hu : u64 (loadGroupMeta l g V).(gm_NextSeq)) by (unfold u64; lia).
  assert (Hfresh : ∀ m, matches db (MessageKey l g (loadGroupMeta l g V).(gm_NextSeq)) m).
  { intros m m0 E0. exfalso. set (k := MessageKey l g _) in *.
    assert (HVk : GetProto (A:=Message) k V = None) by (apply (fresh_message nb V l g); [done..|lia]).
    assert (Hin : commit b db !! k ≠ None).
    { intros Hout. assert (Hd : BDel k ∈ b).
      { apply (commit_removed b db k); [|done]. apply GetProto_row in E0. by rewrite E0. }
      unfold quiet in Hq. rewrite Forall_forall in Hq. apply Hq in Hd as [_ Hd]. by apply Hd. }
    assert (Hk : V !! k = commit b db !! k) by (apply (bi_other _ _ _ _ _ HB); [by left; left|by intros [=]]).
    destruct (V !! k) as [v|] eqn:Ev; [|by rewrite <-Hk in Hin].
    pose proof Ev as Hty. apply (inv_rows nb V HV) in Hty as [Hty _].
    unfold GetProto in HVk. rewrite Ev in HVk. by destruct v. }
  apply bind_Ok in E as (r & b4 & b5 & E1 & E & ->). apply Forall_app. split.
  - destruct (publishOne_total item (loadGroupMeta l g V) db) as (x & b6 & E6).
    destruct (try_Ok _ _ _ _ _ _ E6 E1) as [_ ->]. eapply kept_publishOne, E6; done.
  - revert E. match goal with |- ?m db = _ → _ => assert (Hm : kept db m); [|apply Hm] end.
    unfold recordDedup. keeping.
Qed.
Lemma kept_publishItems nb b st V at_ items st' b' :
  batch_inv nb db b st V → quiet b → nb + N.of_nat (length items) < two64 → Forall item_ok items →
  publishItems at_ items st db = Ok (st', b') → Forall (kept_op db) b'.
Proof using Type.
  intros HB Hq Hn Hok. revert nb b st V b' HB Hq Hn.
  induction Hok as [|item items Hi Hok IH]; intros nb b st V b' HB Hq Hn E; cbn [publishItems] in E.
  { by minv E. }
  cbn [length] in Hn. apply bind_Ok in E as (st1 & b1 & b2 & E1 & E & ->). apply Forall_app. split.
  - eapply kept_publishItem; [done|done| |done|done]. lia.
  - apply quiet_publishItem in E1 as Hq1.
    destruct (publishItem_spec nb db b st V at_ item st1 b1) as (V1 & HB1); [done|lia|done|done|].
    eapply (IH (nb + 1)); [exact HB1|by apply Forall_app|lia|exact E].
Qed.
Lemma kept_applyPublishBatch c :
  n + N.of_nat (length c.(pb_Items)) < two64 → Forall item_ok c.(pb_Items) → kept db (applyPublishBatch c).
Proof using H.
  intros Hn Hok x b E. unfold applyPublishBatch in E. apply bind_Ok in E as (st & b1 & b2 & E1 & E & ->).
  apply Forall_app. split.
  - eapply kept_publishItems, E1; [|constructor|exact Hn|exact Hok].
    constructor; [done|constructor|constructor|done|..]; simpl; [|done].
    intros key gm Ec. by rewrite lookup_empty in Ec.
  - revert E. match goal with |- ?m db = _ → _ => assert (Hm : kept db m); [|apply Hm] end.
    apply kept_bind; [|intros ?; keeping]. apply kept_plain.
    generalize (pbs_order st). intros order. induction order as [|k order IH]; cbn [putGroups]; each.
Qed.

(** ** Workflows *)
Lemma kept_recordActivityTerminal r s f res now : kept db (recordActivityTerminal r s f res now).
Proof using H.
  intros x b E. apply quiet_recordActivityTerminal in E as Hq.
  eapply recordActivityTerminal_pub in E as [_ Hp]; [|done]. by eapply kept_pub_core.
Qed.
Lemma kept_appendExternalEvent r t a now : kept db (appendExternalEvent r t a now).
Proof using H.
  intros x b E. apply quiet_appendExternalEvent in E as Hq.
  eapply appendExternalEvent_pub in E as [_ Hp]; [|done]. by eapply kept_pub_core.
Qed.
Lemma kept_applyWFStartRun c : type_ok c.(wst_WorkflowType) → kept db (applyWFStartRun c).
Proof using H.
  intros Ht x b E. destruct quiet_workflow as [Hw _]. apply Hw in E as Hq. unfold applyWFStartRun in E.
  apply bind_Ok in E as (id & b1 & b2 & E & [-> ->]%ret_Ok & ->). rewrite app_nil_r in *.
  eapply createRun_pub in E as [_ Hp]; [|done..]. by eapply kept_pub_core.
Qed.
Lemma kept_appendEvents c evs next run : Forall event_ok evs → run_wf run → kept db (appendEvents c evs next run).
Proof using H.
  intros Hevs. revert next run. induction Hevs as [|e evs He _ IH]; intros next run Hr x b E; cbn [appendEvents] in E.
  { by minv E. }
  cbv zeta in E. apply bind_Ok in E as ([] & b1 & b2 & [_ ->]%putProto_Ok & E & ->).
  apply bind_Ok in E as (run' & b3 & b4 & E1 & E & ->).
  constructor; [by split; intros [=]|]. apply Forall_app. split.
  - apply quiet_appendEffect in E1 as Hq. eapply appendEffect_pub in E1 as (_ & Hp & _); [|done..].
    by eapply kept_pub_core.
  - eapply appendEffect_pub in E1 as (_ & _ & Hr'); [|done..]. by eapply IH.
Qed.
Lemma kept_applyWFAppendEvents c : Forall event_ok c.(wac_Events) → kept db (applyWFAppendEvents c).
Proof using H.
  intros He. unfold applyWFAppendEvents. apply kept_gets.
  destruct (GetProto (WFRunKey _) db) as [run|] eqn:Er; [|keeping].
  pose proof (run_row n db _ run H Er) as Hr. destruct (negb _); [keeping|]. destruct (_ || _); [keeping|].
  apply kept_bind; [by apply kept_appendEvents|]. intros [next run']. keeping.
Qed.
#[local] Hint Resolve kept_recordActivityTerminal kept_appendExternalEvent : rota_kept.

(** ** Settling and timers *)
Lemma kept_deadLetter m reason meta ts : matches db (own_key m) m → kept db (deadLetter m reason meta ts).
Proof using H.
  intros Hm. unfold deadLetter. apply kept_bind; [|intros ?; keeping].
  intros x b [_ ->]%putProto_Ok. constructor; [|done]. split; [by intros [=]|]. intros _.
  eexists. split; [reflexivity|]. exact Hm.
Qed.
Lemma kept_makeReady m gm at_ now : matches db (own_key m) m → kept db (makeReady m gm at_ now).
Proof using Type.
  intros Hm x b E. unfold makeReady in E.
  minv E; repeat constructor; try (by intros [=]); intros _; (eexists; split; [reflexivity|exact Hm]).
Qed.
Lemma kept_applyNack c : kept db (applyNack c).
Proof using H.
  unfold applyNack, deleteLeaseToken. apply kept_gets. destruct (GetProto (LeaseKey _) db) as [ls|]; [|keeping].
  apply kept_bind; [keeping|intros _]. apply kept_bind; [keeping|intros _]. apply kept_bind; [keeping|intros _].
  apply kept_gets, kept_gets. cbv zeta. destruct (GetProto (MessageKey _ _ _) db) as [m|] eqn:Em; [|keeping].
  apply stored_matches in Em. destruct (negb _); [keeping|].
  repeat match goal with |- kept _ (if ?x then _ else _) => destruct x end;
    (apply kept_bind; [first [by apply kept_deadLetter|by apply kept_makeReady]|intros ?; keeping]).
Qed.
Lemma kept_applyExtend c : kept db (applyExtend c).
Proof using Type.
  unfold applyExtend. apply kept_gets. destruct (GetProto (LeaseKey _) db) as [ls|]; [|keeping].
  apply kept_gets. destruct (GetProto (MessageKey _ _ _) db) as [m|] eqn:Em; [|keeping].
  destruct (negb _); [keeping|]. cbv zeta. apply kept_bind; [keeping|intros _].
  apply kept_bind; [keeping|intros _]. apply kept_bind; [|intros _; keeping].
  apply kept_put_message; [by intros [=]|]. by eapply key_matches.
Qed.
Lemma kept_applyComplete c : kept db (applyComplete c).
Proof using H.
  pose proof kept_applyNack. unfold applyComplete. apply kept_gets. destruct (GetRaw _ db) as [raw|]; [|keeping].
  cbv zeta. apply kept_bind; [keeping|intros _]. destruct (cp_Success c).
  - apply kept_bind; [|intros ?; keeping]. unfold applyAck, deleteLeaseToken. keeping.
  - apply kept_bind; [done|intros ?; keeping].
Qed.
Lemma kept_expireLease m gm at_ : matches db (own_key m) m → kept db (expireLease m gm at_).
Proof using H.
  intros Hm. unfold expireLease. destruct penaliseExpiry; [|by apply kept_makeReady].
  cbv zeta. destruct (_ <=? _); [|by apply kept_makeReady].
  apply kept_bind; [by apply kept_deadLetter|intros ?; keeping].
Qed.
Lemma kept_fireKind c e : kept db (fireKind c e).
Proof using H.
  unfold fireKind, fireReadyAt, fireLeaseDeadline, fireLeaseMaxLife, fireWFTimer, recordTimerFired, fireMsgExpiry,
    fireDedupExpiry, deleteLeaseToken.
  repeat match goal with |- kept _ (if ?x then _ else _) => destruct x end; try solve [keeping].
  all: destruct (_ (f_Ref c)) as [x|] eqn:Ep; [|keeping].
  - destruct x as [[l g] i]. apply kept_gets. destruct (GetProto _ db) as [m|] eqn:Em; [|keeping].
    destruct (_ && _); [|keeping]. cbv zeta. apply kept_gets. apply kept_bind; [keeping|intros _].
    apply kept_put_message; [by intros [=]|]. by eapply key_matches.
  - apply kept_gets. destruct (GetProto (LeaseKey _) db) as [ls|]; [|keeping]. apply kept_gets.
    destruct (GetProto (MessageKey _ _ _) db) as [m|] eqn:Em; [|keeping]. apply stored_matches in Em.
    destruct (_ && _); [|keeping]. apply kept_bind; [keeping|intros _]. apply kept_bind; [keeping|intros _].
    cbv zeta. apply kept_gets. apply kept_bind; [by apply kept_expireLease|intros ?; keeping].
  - apply kept_gets. destruct (GetProto (LeaseKey _) db) as [ls|]; [|keeping]. apply kept_gets.
    destruct (GetProto (MessageKey _ _ _) db) as [m|] eqn:Em; [|keeping]. apply stored_matches in Em.
    destruct (leased_by _ _); [|keeping]. do 3 (apply kept_bind; [keeping|intros _]).
    cbv zeta. apply kept_gets. apply kept_bind; [by apply kept_deadLetter|intros ?; keeping].
  - destruct x as [[l g] i]. apply kept_gets. destruct (GetProto _ db) as [m|] eqn:Em; [|keeping].
    apply stored_matches in Em. destruct (leasable m); [|keeping]. cbv zeta. apply kept_gets.
    apply kept_bind; [by apply kept_deadLetter|intros ?; keeping].
Qed.
Lemma kept_applyFireTimer c : kept db (applyFireTimer c).
Proof using H.
  pose proof (kept_fireKind c). unfold applyFireTimer. cbv zeta. apply kept_gets.
  destruct (GetRaw _ db) as [val|]; [|keeping]. apply kept_bind; [done|intros _; keeping].
Qed.

(** ** Every command *)
Lemma plain_control :
  (∀ c, each_M plain_op (applySetPolicy c)) ∧ (∀ c, each_M plain_op (applyGroupConfig c)) ∧
  (∀ c, each_M plain_op (applyCron c)) ∧ (∀ c, each_M plain_op (applyIssueToken c)) ∧
  (∀ c, each_M plain_op (applySingleton c)) ∧ (∀ c, each_M plain_op (applySetLaneConfig c)) ∧
  (∀ c, each_M plain_op (applyReapGroup c)) ∧ (∀ c, each_M plain_op (applyAuthPrincipal c)) ∧
  (∀ c, each_M plain_op (applyAck c)) ∧ (∀ c, each_M plain_op (applyWFCancel c)).
Proof using Type.
  unfold applySetPolicy, applyGroupConfig, applyCron, applyIssueToken,
    applySingleton, applySetLaneConfig, applyReapGroup, applyAuthPrincipal,
    applyAuthCreatePrincipal, applyAuthRotatePrincipalToken, applyAuthSetPrincipalDisabled,
    applyAuthGrantPrincipal, applyAuthRevokePrincipalGrant, loadAuthPrincipal, applyAck, deleteLeaseToken,
    applyWFCancel.
  split_and!; intros c; each.
Qed.
Lemma plain_lifecycle c : each_M plain_op (applyGroupLifecycle c).
Proof using Type.
  unfold applyGroupLifecycle, dropLeasable.
  assert (Hd : ∀ rows d, each_M plain_op (dropRows (gl_Lane c) (gl_GroupID c) rows d)).
  { induction rows as [|[k v] rows IH]; intros d; cbn [dropRows]; each. }
  each.
Qed.

Lemma kept_dispatch cmd r b :
  n + weight cmd < two64 → cmd_ok cmd → dispatch cmd db = Some (Ok (r, b)) → Forall (kept_op db) b.
Proof using H.
  intros Hn Hok E. pose proof (weight_ge cmd) as Hw. assert (Hn1 : n + 1 < two64) by lia.
  assert (Hp : ∀ {C} (h : C → M ApplyResult) o, (∀ c, each_M plain_op (h c)) →
    deref h o db = Some (Ok (r, b)) → Forall (kept_op db) b).
  { intros C h o Hh (c & _ & E')%deref_Ok. by eapply kept_plain. }
  destruct plain_control as (K1 & K2 & K3 & K4 & K5 & K6 & K7 & K8 & K9 & K10).
  destruct Hok as [O1 O2 O3 O4 O5 O6 O7 O8 O9 O10 O11 O12 O13 O14 O15].
  unfold dispatch in E. cbv zeta in E.
  repeat match type of E with (if ?t =? ?v then _ else _) _ = _ => destruct (N.eqb_spec t v) end;
    try (eapply Hp; [|exact E]; first [done|exact plain_lifecycle]); try done;
    try (apply deref_Ok in E as (c & Ec & E)).
  - destruct (O2 c Ec). by eapply kept_applyPublish.
  - eapply kept_applyPublishBatch, E; [|by apply O3]. unfold weight in Hn. rewrite Ec in Hn. lia.
  - destruct (O4 c Ec). by eapply kept_applyLease.
  - by eapply kept_applyNack.
  - by eapply kept_applyExtend.
  - by eapply kept_applyFireTimer.
  - by eapply kept_applyFireCron.
  - by eapply kept_applyComplete.
  - destruct (O13 c Ec). by eapply kept_applyRedrive.
  - eapply kept_applyWFStartRun, E. by apply O14.
  - eapply kept_applyWFAppendEvents, E. by apply O15.
  - revert E. apply kept_bind; [apply kept_recordActivityTerminal|intros ?; keeping].
  - revert E. unfold applyWFSignal. cbv zeta. apply kept_bind; [apply kept_appendExternalEvent|intros ?; keeping].
  - injection E as E. by eapply (kept_plain _ _ (K8 _)).
Qed.
End kept_handlers.

(** ** The store after a command *)
Lemma commit_written b db (k : bytes) v : commit b db !! k = Some v → db !! k = Some v ∨ BSet k v ∈ b.
Proof.
  revert db. induction b as [|o b IH]; intros db E; [by left|]. rewrite commit_cons in E.
  apply IH in E as [E|Hin]; [|right; by right]. destruct o as [k' v'|k']; simpl in E.
  - apply lookup_insert_Some in E as [[-> ->]|[_ ?]]; [right; by left|by left].
  - apply lookup_delete_Some in E as [_ ?]. by left.
Qed.

(** What the batch buries is stored as a dead letter afterwards. *)
Lemma buries_stored b db (k : bytes) :
  buries b → BDel k ∈ b → tag k = Some tagMessage →
  ∃ (kd : bytes) dl, buried_at k kd dl ∧ BSet kd (VDeadLetter dl) ∈ b ∧ GetProto kd (commit b db) = Some dl.
Proof.
  assert (Hquiet : ∀ b, quiet b → BDel k ∈ b → tag k = Some tagMessage → False).
  { intros b' Hq Hin Ht. unfold quiet in Hq. rewrite Forall_forall in Hq. by apply Hq in Hin as [_ Hm]. }
  intros [Hq|(k' & kd & dl & b1 & b2 & Hbur & H1 & H2 & ->)] Hdel Ht; [by destruct (Hquiet b)|].
  assert (k = k') as ->.
  { apply elem_of_app in Hdel as [Hdel|Hdel]; [by destruct (Hquiet b1)|].
    apply elem_of_app in Hdel as [Hdel|Hdel]; [|by destruct (Hquiet b2)].
    apply elem_of_cons in Hdel as [?|Hdel]; [done|]. apply list_elem_of_singleton in Hdel. congruence. }
  exists kd, dl. split; [done|]. split.
  { apply elem_of_app. right. by left. }
  apply GetProto_row. destruct Hbur as [Ek Ekd].
  assert (Htd : tag kd = Some tagDLQ) by by rewrite Ekd.
  rewrite commit_app, commit_app, commit_frame_tag.
  - unfold commit at 1. cbn [foldl apply_bop].
    rewrite lookup_delete_ne by (rewrite Ek, Ekd; key_ne). by rewrite lookup_insert_eq.
  - eapply Forall_impl; [exact H2|]. intros [k1 v|k1] Ho; rewrite Htd; simpl in *; [done|by destruct Ho].
Qed.

(** The message, after a batch, is stored or buried. *)
Definition survives (k : bytes) (m : Message) db : Prop :=
  (∃ m', GetProto k db = Some m' ∧ contents m' = contents m) ∨
  (db !! k = None ∧ ∃ (kd : bytes) dl, buried_at k kd dl ∧ GetProto kd db = Some dl ∧
     contents dl.(dl_Original) = contents m).

Lemma survives_commit b db (k : bytes) m :
  tag k = Some tagMessage → GetProto k db = Some m → Forall (kept_op db) b →
  buries b ∨ Forall (λ o, ∀ k : bytes, o = BDel k → tag k ≠ Some tagMessage) b →
  survives k m (commit b db).
Proof.
  intros Ht Em Hk Hb. rewrite Forall_forall in Hk. pose proof Em as Er. apply GetProto_row in Er.
  destruct (commit b db !! k) as [v|] eqn:Ev.
  - left. destruct (commit_written _ _ _ _ Ev) as [Eo|Hin].
    + exists m. split; [|done]. apply GetProto_row. congruence.
    + apply Hk in Hin as [Hm _]. destruct (Hm Ht) as (m' & -> & Hc). exists m'.
      split; [by apply GetProto_row|by apply Hc].
  - right. split; [done|].
    assert (Hdel : BDel k ∈ b) by (apply (commit_removed b db k); [by rewrite Er|done]).
    destruct Hb as [Hb|Hno]; [|rewrite Forall_forall in Hno; by destruct (Hno _ Hdel _ eq_refl)].
    destruct (buries_stored b db k Hb Hdel Ht) as (kd & dl & Hbur & Hin & Es).
    exists kd, dl. split; [done|]. split; [done|]. apply Hk in Hin as [_ Hd]. destruct Hbur as [Ek Ekd].
    destruct Hd as (dl' & [= <-] & Hc); [by rewrite Ekd|]. apply Hc. unfold own_key. by rewrite <-Ek.
Qed.

Lemma Apply_survives `{PC : PayloadCodec} (um : bytes → option Command) n f l r f' (k : bytes) m :
  Inv n f.(fsm_s) → n + weights um [l] < two64 → on (um l.(log_Data)) cmd_ok →
  on (um l.(log_Data)) (λ cmd, ¬ removes cmd) → Apply um f l = Some (r, f') →
  tag k = Some tagMessage → GetProto k f.(fsm_s) = Some m → survives k m f'.(fsm_s).
Proof.
  intros H Hn Hok Hr E Ht Em. assert (Hsame : survives k m f.(fsm_s)) by (left; eauto).
  unfold Apply in E. destruct (negb _); [by injection E as _ <-|]. destruct (_ <=? _); [by injection E as _ <-|].
  unfold weights in Hn. cbn [foldr] in Hn.
  destruct (um (log_Data l)) as [cmd|] eqn:Eu; [|by injection E as _ <-].
  destruct (dispatch cmd (fsm_s f)) as [[[res b]|e]|] eqn:Ed; [|by injection E as _ <-|done].
  injection E as _ <-. cbn [fsm_s]. specialize (Hok cmd eq_refl). specialize (Hr cmd eq_refl). cbv beta in Hr.
  assert (Hk : Forall (kept_op (fsm_s f)) b) by (eapply (kept_dispatch n), Ed; [done|lia|done]).
  destruct (survives_commit b _ k m Ht Em Hk (dispatch_buries cmd _ res b Hr Ed)) as [(m' & Em' & Hc)|(Hout & kd & dl & Hb & Es & Hc)];
    rewrite commit_app.
  - left. exists m'. split; [|done]. rewrite <-Em'. apply GetProto_ext, commit_frame_tag. repeat constructor. by rewrite Ht.
  - right. split.
    { rewrite <-Hout. apply commit_frame_tag. repeat constructor. by rewrite Ht. }
    exists kd, dl. split; [done|]. split; [|done]. rewrite <-Es. apply GetProto_ext, commit_frame_tag.
    destruct Hb as [_ ->]. by repeat constructor.
Qed.

Lemma weights_app (um : bytes → option Command) log1 log2 :
  weights um (log1 ++ log2) = weights um log1 + weights um log2.
Proof.
  unfold weights. induction log1 as [|l log1 IH]; [done|]. cbn [foldr app]. rewrite IH.
  destruct (um (log_Data l)); [by rewrite N.add_assoc|done].
Qed.

(** C27: no silent loss.  Take any state a log of commands reaches from an empty
    store (within the bounds of the accounting invariant: no group teardown,
    names fit their length prefix, fewer than 2^64 ids), and a next command that
    is not an ack, a successful completion, or a purge or cancel of a group.
    Applying it keeps every stored message: it is stored under the same id with
    the same payload, headers, tokens, limits and times -- only its state,
    attempt count, epoch and current lease may differ -- or it is gone from its
    table and a dead letter of it, with those same contents, is stored. *)
Theorem no_silent_loss {PC : PayloadCodec} (um : bytes → option Command) log rs f l r f' lane g i m :
  log_ok um (log ++ [l]) → 1 + weights um (log ++ [l]) < two64 →
  applyLog um (New ∅) log = Some (rs, f) →
  (∀ cmd, um l.(log_Data) = Some cmd → ¬ removes cmd) →
  Apply um f l = Some (r, f') → GetProto (MessageKey lane g i) f.(fsm_s) = Some m →
  (∃ m', GetProto (MessageKey lane g i) f'.(fsm_s) = Some m' ∧ contents m' = contents m) ∨
  (f'.(fsm_s) !! MessageKey lane g i = None ∧
   ∃ (kd : bytes) dl, buried_at (MessageKey lane g i) kd dl ∧ GetProto kd f'.(fsm_s) = Some dl ∧
     contents dl.(dl_Original) = contents m).
Proof.
  rewrite weights_app. intros [Hok Hl]%Forall_app Hw E Hr Ea Em.
  apply Forall_cons in Hl as [Hl _].
  apply (Apply_survives um (1 + weights um log) f l r); [|lia|exact Hl|exact Hr|exact Ea|done|exact Em].
  apply (Inv_applyLog um 1 (New ∅) log rs); [apply Inv_empty|lia|done|done].
Qed.

(** ** Witness *)
(** Message 1 is leased and nacked for good. *)
Definition nack_unmarshal (x : bytes) : option Command :=
  match x with
  | "n"%char :: _ => Some (cmd_Nack (mkNackCmd 1 NackDeadLetter 0 ∅ 50))
  | _ => demo_unmarshal x
  end.
Definition nack_run : list response * FSM := runs_to nack_unmarshal demo_fsm0 (demo_log [bs "pa"; bs "l"]).

Lemma nack_cmd_ok (x : bytes) cmd : nack_unmarshal x = Some cmd → cmd_ok cmd.
Proof.
  destruct x as [|a x]; [apply demo_cmd_ok|]. destruct (decide (a = "n"%char)) as [->|Ha].
  - intros [= <-]. constructor; try done. intros y [= <-]. by vm_compute.
  - intros E. apply (demo_cmd_ok (a :: x)). rewrite <-E.
    destruct a as [[] [] [] [] [] [] [] []]; try done; by destruct Ha.
Qed.

Example no_silent_loss_witness :
  ∃ r f' (kd : bytes) (dl : DeadLetter), Apply nack_unmarshal nack_run.2 (mkLog true 3 (bs "n")) = Some (r, f') ∧
    GetProto kd f'.(fsm_s) = Some dl ∧ dl.(dl_Original).(m_Payload) = bs "a".
Proof.
  destruct (Apply nack_unmarshal nack_run.2 (mkLog true 3 (bs "n"))) as [[r f']|] eqn:E;
    [|by vm_compute in E].
  assert (∃ m, GetProto (MessageKey (bs "l") (bs "g") 1) nack_run.2.(fsm_s) = Some m ∧ m.(m_Payload) = bs "a")
    as (m & Em & Hp) by (eexists; split; vm_compute; reflexivity).
  destruct (no_silent_loss nack_unmarshal (demo_log [bs "pa"; bs "l"]) nack_run.1 nack_run.2
    (mkLog true 3 (bs "n")) r f' (bs "l") (bs "g") 1 m) as [(m' & Em' & _)|(_ & kd & dl & _ & Hk & Hc)].
  - apply Forall_forall. intros l _ cmd. apply nack_cmd_ok.
  - by vm_compute.
  - apply (runs_to_eq nack_unmarshal demo_fsm0). by vm_compute.
  - intros cmd [= <-] [[=]|[[=]|[[[=] _]|[[=] _]]]].
  - exact E.
  - exact Em.
  - exfalso. apply GetProto_row in Em'.
    apply (f_equal (λ o, match o with Some (_, f) => f.(fsm_s) !! MessageKey (bs "l") (bs "g") 1 | None => None end)) in E.
    rewrite Em' in E. vm_compute in E. discriminate E.
  - exists r, f', kd, dl. split; [reflexivity|]. split; [exact Hk|].
    apply (f_equal m_Payload) in Hc. etransitivity; [exact Hc|exact Hp].
Defined.
