(* ===== verification/RaftStore.v ===== *)
(** * Raft's log and stable store on the same database ([internal/raftpebble/store.go])

    The log is one row per entry under [RaftLogKey], the stable store one row
    per key under [RaftKVKey].  [raft.Log] and its JSON encoding are third-party
    code: [RaftLogCodec] is that code, a parameter of the model.  The contract
    Raft relies on is [log_is]: the store holds a contiguous sequence of
    entries. *)

From S2P Require Import Prelude Keys Data Store Snapshot.

Class RaftLogCodec := {
  RLog : Type;
  rlog_Index : RLog → N;
  marshal_rlog : RLog → option bytes;
  unmarshal_rlog : bytes → option RLog;
}.
(** Documented behaviour: a log entry can be encoded, and decodes to itself. *)
Class RaftLogCodecLaws (C : RaftLogCodec) : Prop :=
  rlog_roundtrip : ∀ l, ∃ b, marshal_rlog l = Some b ∧ unmarshal_rlog b = Some l.

Definition ErrLogNotFound : bytes := bs "log not found".

(** ** [raft.LogStore] *)
(** [binary.BigEndian.Uint64(k[1:9])] of an iterator's key. *)
Definition keyIndex (k : bytes) : N :=
  if (length k <? 9)%nat then 0 else be_val (take 8 (drop 1 k)).

Definition edgeIndex (is_last : bool) (db : rawstore) : N :=
  let rows := NewIter RaftLogPrefix (PrefixEnd RaftLogPrefix) db in
  match (if is_last then last rows else head rows) with
  | None => 0
  | Some (k, _) => keyIndex k
  end.
Definition FirstIndex (db : rawstore) : N := edgeIndex false db.
Definition LastIndex (db : rawstore) : N := edgeIndex true db.

(** [p.s.DB.DeleteRange(RaftLogKey(min), RaftLogKey(max+1))] *)
Definition RaftDeleteRange (min max : N) (db : rawstore) : rawstore :=
  DeleteRange (RaftLogKey min) (RaftLogKey (incr64 max)) db.

Section logstore.
Context {C : RaftLogCodec}.

Definition GetLog (index : N) (db : rawstore) : result RLog :=
  match db !! RaftLogKey index with
  | None => Err ErrLogNotFound
  | Some v => match unmarshal_rlog v with Some l => Ok l | None => Err (bs "unmarshal") end
  end.

(** The batch of [StoreLogs]: an entry that does not encode aborts it. *)
Fixpoint logBatch (logs : list RLog) : result (list (bytes * bytes)) :=
  match logs with
  | [] => Ok []
  | l :: logs' =>
      match marshal_rlog l with
      | None => Err (bs "marshal")
      | Some data =>
          match logBatch logs' with
          | Ok b => Ok ((RaftLogKey (rlog_Index l), data) :: b)
          | Err e => Err e
          end
      end
  end.

Definition StoreLogs (logs : list RLog) (db : rawstore) : option bytes * rawstore :=
  match logBatch logs with
  | Err e => (Some e, db)
  | Ok b => (None, commitRows b db)
  end.
Definition StoreLog (log : RLog) : rawstore → option bytes * rawstore := StoreLogs [log].
End logstore.

(** ** [raft.StableStore] *)
Definition RaftSet (key val : bytes) (db : rawstore) : rawstore := <[RaftKVKey key := val]> db.
(** An unset key reads as an empty value. *)
Definition RaftGet (key : bytes) (db : rawstore) : bytes :=
  match db !! RaftKVKey key with Some v => v | None => [] end.
Definition SetUint64 (key : bytes) (val : N) (db : rawstore) : rawstore :=
  RaftSet key (be_bytes 8 val) db.
Definition GetUint64 (key : bytes) (db : rawstore) : N :=
  let v := RaftGet key db in
  if (length v <? 8)%nat then 0 else be_val (take 8 v).

(** ** Rows of the log table *)
Lemma RaftLogKey_lt_iff i j : u64 i → u64 j → bytes_lt (RaftLogKey i) (RaftLogKey j) ↔ i < j.
Proof.
  intros Hi Hj. split; [|intros; by apply RaftLogKey_lt].
  intros Hlt. destruct (N.lt_trichotomy i j) as [?|[->|Hgt]]; [done| |].
  - unfold bytes_lt in Hlt. by rewrite bytes_ltb_irrefl in Hlt.
  - apply (RaftLogKey_lt j i) in Hgt; [|done]. apply (bytes_lt_trans _ _ _ Hlt) in Hgt.
    unfold bytes_lt in Hgt. by rewrite bytes_ltb_irrefl in Hgt.
Qed.
Lemma RaftLogKey_le_iff i j : u64 i → u64 j → bytes_le (RaftLogKey i) (RaftLogKey j) ↔ i ≤ j.
Proof.
  intros Hi Hj. rewrite bytes_le_lteq, RaftLogKey_lt_iff by done. split.
  - intros [?|E]; [lia|]. apply key_tail, u64be_inj in E as ->; done.
  - intros Hle. destruct (decide (i = j)) as [->|]; [by right|left; lia].
Qed.
Lemma RaftLogKey_inj i j : u64 i → u64 j → RaftLogKey i = RaftLogKey j → i = j.
Proof. intros ?? E. by apply key_tail, u64be_inj in E. Qed.
Lemma RaftLogKey_row_inj {A} i j (v w : A) :
  u64 i → u64 j → Some (RaftLogKey i, v) = Some (RaftLogKey j, w) → i = j.
Proof.
  intros ?? E. apply RaftLogKey_inj; [done..|]. apply Some_inj in E. by apply (f_equal fst) in E.
Qed.
Lemma keyIndex_RaftLogKey i : u64 i → keyIndex (RaftLogKey i) = i.
Proof.
  intros Hi. unfold keyIndex, RaftLogKey. rewrite length_cons, length_u64be.
  cbn [Nat.ltb Nat.leb]. change (drop 1 (tagRaftLog :: u64be i)) with (u64be i).
  rewrite firstn_all2 by (by rewrite length_u64be).
  by apply be_val_u64be.
Qed.

Lemma raft_range_tag k :
  in_range RaftLogPrefix (PrefixEnd RaftLogPrefix) k ↔ head k = Some tagRaftLog.
Proof.
  rewrite PrefixEnd_range. unfold RaftLogPrefix. destruct k as [|t k]; simpl; split.
  - by intros [? ?].
  - done.
  - intros [r [= -> _]]. done.
  - intros [= ->]. by exists k.
Qed.

(** A range deletion of the log removes the indices of the range, and only
    rows of the log table. *)
Lemma RaftDeleteRange_log min max db i :
  u64 min → max + 1 < two64 → u64 i →
  RaftDeleteRange min max db !! RaftLogKey i =
  if bool_decide (min ≤ i ∧ i ≤ max) then None else db !! RaftLogKey i.
Proof.
  intros Hmin Hmax Hi. unfold RaftDeleteRange, DeleteRange. rewrite incr64_small by done.
  rewrite map_lookup_filter.
  assert (Hr : in_range (RaftLogKey min) (Some (RaftLogKey (max + 1))) (RaftLogKey i) ↔ min ≤ i ∧ i ≤ max).
  { unfold in_range. rewrite RaftLogKey_le_iff, RaftLogKey_lt_iff by (done || unfold u64; lia). lia. }
  case_bool_decide as Hd; destruct (db !! RaftLogKey i); simpl; [|done| |done].
  - rewrite option_guard_False; [done|]. simpl. tauto.
  - rewrite option_guard_True; [done|]. simpl. tauto.
Qed.
Lemma RaftDeleteRange_other min max db k :
  head k ≠ Some tagRaftLog → RaftDeleteRange min max db !! k = db !! k.
Proof.
  intros Hk. unfold RaftDeleteRange, DeleteRange. rewrite map_lookup_filter.
  destruct (db !! k); simpl; [|done]. rewrite option_guard_True; [done|]. simpl.
  intros [Hlo Hhi]. unfold RaftLogKey in *.
  destruct (bytes_between [tagRaftLog] _ _ k Hlo Hhi) as (r & -> & _). done.
Qed.

Section contract.
Context {C : RaftLogCodec} {L : RaftLogCodecLaws C}.
#[local] Set Default Proof Using "C L".

(** ** The contract: a contiguous log *)
Record log_is (f : N) (ls : list RLog) (db : rawstore) : Prop := {
  log_bound : f + N.of_nat (length ls) < two64;
  log_positive : 1 ≤ f;
  log_index k l : ls !! k = Some l → rlog_Index l = f + N.of_nat k;
  log_rows i : u64 i → db !! RaftLogKey i =
    if bool_decide (f ≤ i) then ls !! N.to_nat (i - f) ≫= marshal_rlog else None;
  log_keys k : head k = Some tagRaftLog → db !! k ≠ None → ∃ i, u64 i ∧ k = RaftLogKey i;
}.

Lemma log_is_present f ls db i :
  log_is f ls db → u64 i →
  db !! RaftLogKey i ≠ None ↔ f ≤ i ∧ i < f + N.of_nat (length ls).
Proof.
  intros H Hi. rewrite (log_rows f ls db H i Hi). case_bool_decide as Hf; [|split; [done|lia]].
  destruct (ls !! N.to_nat (i - f)) as [l|] eqn:E; simpl.
  - apply lookup_lt_Some in E. destruct (rlog_roundtrip l) as (b & -> & _). split; [lia|done].
  - apply lookup_ge_None in E. split; [done|lia].
Qed.

Lemma log_iter f ls db k v :
  log_is f ls db → (k, v) ∈ NewIter RaftLogPrefix (PrefixEnd RaftLogPrefix) db →
  ∃ i, u64 i ∧ k = RaftLogKey i ∧ f ≤ i ∧ i < f + N.of_nat (length ls).
Proof.
  intros H [E Hr]%elem_of_NewIter. apply raft_range_tag in Hr.
  destruct (log_keys f ls db H k Hr) as (i & Hi & ->); [by rewrite E|].
  exists i. split_and!; try done; apply (log_is_present f ls db i H Hi); by rewrite E.
Qed.
Lemma log_iter_in f ls db i :
  log_is f ls db → f ≤ i → i < f + N.of_nat (length ls) →
  ∃ v, (RaftLogKey i, v) ∈ NewIter RaftLogPrefix (PrefixEnd RaftLogPrefix) db.
Proof.
  intros H H1 H2. pose proof (log_bound f ls db H).
  assert (Hi : u64 i) by (unfold u64; lia).
  destruct (db !! RaftLogKey i) as [v|] eqn:E.
  - exists v. apply elem_of_NewIter. split; [done|]. by apply raft_range_tag.
  - apply (log_is_present f ls db i H Hi) in E; [done|lia].
Qed.

Lemma head_last_lookup {A} (l : list A) :
  head l = l !! 0%nat ∧ last l = l !! pred (length l).
Proof. split; [by destruct l|apply last_lookup]. Qed.

Lemma log_edges f ls db :
  log_is f ls db →
  FirstIndex db = (if bool_decide (ls = []) then 0 else f) ∧
  LastIndex db = (if bool_decide (ls = []) then 0 else f + N.of_nat (length ls) - 1).
Proof.
  intros H. unfold FirstIndex, LastIndex, edgeIndex.
  set (rows := NewIter RaftLogPrefix (PrefixEnd RaftLogPrefix) db).
  destruct (head_last_lookup rows) as [-> ->]. pose proof (log_bound f ls db H) as Hb.
  case_bool_decide as Hls.
  - subst ls. assert (rows = []) as ->; [|done]. apply elem_of_nil_inv. intros [k v] Hin.
    destruct (log_iter _ _ _ _ _ H Hin) as (i & _ & _ & ? & ?). simpl in *. lia.
  - assert (Hlen : (0 < length ls)%nat) by (destruct ls; [done|simpl; lia]).
    assert (Hpos : ∀ i, f ≤ i → i < f + N.of_nat (length ls) →
      ∃ p v, rows !! p = Some (RaftLogKey i, v)).
    { intros i H1 H2. destruct (log_iter_in _ _ _ i H H1 H2) as [v Hin].
      apply list_elem_of_lookup_1 in Hin as [p Hp]. eauto. }
    assert (Hrow : ∀ p k v, rows !! p = Some (k, v) →
      ∃ i, u64 i ∧ k = RaftLogKey i ∧ f ≤ i ∧ i < f + N.of_nat (length ls)).
    { intros p k v Hp. eapply log_iter; [done|]. by eapply list_elem_of_lookup_2. }
    assert (Hlt : ∀ p q i j v w, rows !! p = Some (RaftLogKey i, v) → rows !! q = Some (RaftLogKey j, w) →
      u64 i → u64 j → (p < q)%nat → i < j).
    { intros p q i j v w Hp Hq Hi Hj Hpq. apply RaftLogKey_lt_iff; [done..|].
      by apply (NewIter_strict _ _ _ _ _ _ _ _ _ Hp Hq). }
    split.
    + destruct (Hpos f) as (p & v & Hp); [lia..|].
      destruct (rows !! 0%nat) as [[k w]|] eqn:E0.
      2:{ apply lookup_ge_None in E0. apply lookup_lt_Some in Hp. lia. }
      destruct (Hrow _ _ _ E0) as (i & Hi & -> & H1 & H2). rewrite keyIndex_RaftLogKey by done.
      assert (Hf : u64 f) by (unfold u64; lia).
      destruct p as [|p]; [rewrite E0 in Hp; by apply (RaftLogKey_row_inj i f w v)|].
      specialize (Hlt 0%nat (S p) i f w v E0 Hp Hi Hf ltac:(lia)). lia.
    + destruct (Hpos (f + N.of_nat (length ls) - 1)) as (p & v & Hp); [lia..|].
      apply lookup_lt_Some in Hp as Hpl.
      destruct (rows !! pred (length rows)) as [[k w]|] eqn:E0.
      2:{ apply lookup_ge_None in E0. lia. }
      destruct (Hrow _ _ _ E0) as (i & Hi & -> & H1 & H2). rewrite keyIndex_RaftLogKey by done.
      destruct (decide (p = pred (length rows))) as [->|Hne].
      { rewrite E0 in Hp. apply RaftLogKey_row_inj in Hp; [lia|done|unfold u64; lia]. }
      specialize (Hlt p _ _ i v w Hp E0 ltac:(unfold u64; lia) Hi ltac:(lia)). lia.
Qed.

Lemma log_get f ls db i :
  log_is f ls db → u64 i →
  GetLog i db = match (if bool_decide (f ≤ i) then ls !! N.to_nat (i - f) else None) with
                | Some l => Ok l
                | None => Err ErrLogNotFound
                end.
Proof.
  intros H Hi. unfold GetLog. rewrite (log_rows f ls db H i Hi). case_bool_decide; [|done].
  destruct (ls !! N.to_nat (i - f)) as [l|]; simpl; [|done].
  destruct (rlog_roundtrip l) as (b & -> & Hu). simpl. by rewrite Hu.
Qed.

(** ** Appending *)
Lemma logBatch_ok ls :
  ∃ b, logBatch ls = Ok b ∧ length b = length ls ∧
    ∀ k l, ls !! k = Some l → ∃ v, marshal_rlog l = Some v ∧ b !! k = Some (RaftLogKey (rlog_Index l), v).
Proof.
  induction ls as [|l ls (b & E & Hlen & Hb)]; [exists []; split_and!; [done..|intros k l E; by rewrite lookup_nil in E]|].
  destruct (rlog_roundtrip l) as (v & Hv & _). exists ((RaftLogKey (rlog_Index l), v) :: b).
  simpl. rewrite Hv, E. split_and!; [done|simpl; lia|]. intros [|k] l' El; simpl in El |- *.
  - injection El as <-. eauto.
  - by apply Hb.
Qed.

Lemma commitRows_other (b : list (bytes * bytes)) db k :
  k ∉ b.*1 → commitRows b db !! k = db !! k.
Proof.
  revert db. induction b as [|[k' v] b IH]; intros db Hk; [done|].
  rewrite fmap_cons, not_elem_of_cons in Hk. destruct Hk as [Hne Hk].
  change (commitRows ((k', v) :: b) db) with (commitRows b (<[k' := v]> db)).
  rewrite IH by done. by rewrite lookup_insert_ne.
Qed.

Lemma commitRows_nth (b : list (bytes * bytes)) db k v p :
  NoDup b.*1 → b !! p = Some (k, v) → commitRows b db !! k = Some v.
Proof.
  revert db p. induction b as [|[k' v'] b IH]; intros db p Hnd Hp; [by rewrite lookup_nil in Hp|].
  rewrite fmap_cons, NoDup_cons in Hnd. destruct Hnd as [Hnin Hnd].
  change (commitRows ((k', v') :: b) db) with (commitRows b (<[k' := v']> db)).
  destruct p as [|p]; simpl in Hp.
  - injection Hp as -> ->. rewrite commitRows_other by done. by rewrite lookup_insert_eq.
  - by eapply IH.
Qed.

(** The rows a batch of consecutive entries stores. *)
Lemma logBatch_rows f es b :
  logBatch es = Ok b → f + N.of_nat (length es) < two64 →
  (∀ k l, es !! k = Some l → rlog_Index l = f + N.of_nat k) →
  NoDup b.*1 ∧ (∀ k, k ∈ b.*1 → ∃ j, f ≤ j ∧ j < f + N.of_nat (length es) ∧ k = RaftLogKey j) ∧
  ∀ p l, es !! p = Some l → ∃ v, marshal_rlog l = Some v ∧ b !! p = Some (RaftLogKey (f + N.of_nat p), v).
Proof.
  intros E Hb Hidx. destruct (logBatch_ok es) as (b' & E' & Hlen & Hnth).
  rewrite E in E'. injection E' as <-.
  assert (Hp : ∀ p l, es !! p = Some l →
    ∃ v, marshal_rlog l = Some v ∧ b !! p = Some (RaftLogKey (f + N.of_nat p), v)).
  { intros p l El. destruct (Hnth p l El) as (v & ? & Ev). rewrite (Hidx p l El) in Ev. eauto. }
  assert (Hkey : ∀ p k, b.*1 !! p = Some k → k = RaftLogKey (f + N.of_nat p) ∧ (p < length es)%nat).
  { intros p k Hk. apply list_lookup_fmap_Some in Hk as ([k' v'] & Ek & Hk). simpl in Ek. subst k'.
    apply lookup_lt_Some in Hk as Hpl. rewrite Hlen in Hpl.
    destruct (es !! p) as [l|] eqn:El; [|apply lookup_ge_None in El; lia].
    destruct (Hp p l El) as (v & _ & Ev). rewrite Ev in Hk. apply Some_inj in Hk.
    split; [by apply (f_equal fst) in Hk|done]. }
  split_and!; [|intros k [p Hk]%list_elem_of_lookup_1|done].
  - apply NoDup_alt. intros p q k [-> Hpl]%Hkey [E2 Hql]%Hkey.
    apply RaftLogKey_inj in E2; unfold u64; lia.
  - apply Hkey in Hk as [-> Hpl]. exists (f + N.of_nat p). split_and!; [lia|lia|done].
Qed.

Lemma log_append f ls es db :
  log_is f ls db → f + N.of_nat (length (ls ++ es)) < two64 →
  (∀ k l, es !! k = Some l → rlog_Index l = f + N.of_nat (length ls) + N.of_nat k) →
  ∃ db', StoreLogs es db = (None, db') ∧ log_is f (ls ++ es) db' ∧
         (∀ k, head k ≠ Some tagRaftLog → db' !! k = db !! k).
Proof.
  intros H Hb Hidx. rewrite length_app in Hb. destruct (logBatch_ok es) as (b & E & _).
  destruct (logBatch_rows (f + N.of_nat (length ls)) es b E) as (Hnd & Hkeys & Hp); [lia|done|].
  exists (commitRows b db). unfold StoreLogs. rewrite E.
  assert (Hother : ∀ k, head k ≠ Some tagRaftLog → commitRows b db !! k = db !! k).
  { intros k Hk. apply commitRows_other. intros (j & _ & _ & ->)%Hkeys. done. }
  split_and!; [done| |done]. split.
  - rewrite length_app. lia.
  - apply (log_positive _ _ _ H).
  - intros k l [El|[Hk El]]%lookup_app_Some; [by apply (log_index _ _ _ H)|].
    rewrite (Hidx _ _ El). lia.
  - intros i Hi. destruct (decide (f + N.of_nat (length ls) ≤ i)) as [Hge|Hlt].
    + rewrite bool_decide_eq_true_2 by lia. rewrite lookup_app_r by lia.
      destruct (es !! (N.to_nat (i - f) - length ls)%nat) as [l|] eqn:El; simpl.
      * destruct (Hp _ _ El) as (v & -> & Ev).
        replace (f + N.of_nat (length ls) + N.of_nat (N.to_nat (i - f) - length ls)) with i in Ev by lia.
        by eapply commitRows_nth.
      * apply lookup_ge_None in El. rewrite commitRows_other.
        { rewrite (log_rows _ _ _ H i Hi). case_bool_decide; [|done]. by rewrite lookup_ge_None_2 by lia. }
        intros (j & Hj1 & Hj2 & Ek)%Hkeys. apply RaftLogKey_inj in Ek; [lia|done|unfold u64; lia].
    + rewrite commitRows_other.
      { rewrite (log_rows _ _ _ H i Hi). case_bool_decide; [|done]. by rewrite lookup_app_l by lia. }
      intros (j & Hj1 & Hj2 & Ek)%Hkeys. apply RaftLogKey_inj in Ek; [lia|done|unfold u64; lia].
  - intros k Hk Hin. destruct (decide (k ∈ b.*1)) as [Hkb|Hkb].
    + destruct (Hkeys k Hkb) as (j & ? & ? & ->). exists j. split; [unfold u64; lia|done].
    + rewrite commitRows_other in Hin by done. by apply (log_keys _ _ _ H).
Qed.

(** the log refines the sequence Raft works with.  On a contiguous log, the
    first and last indices are its bounds (0 when it is empty), and an index
    reads the entry at its position, or "not found" outside. *)
Theorem raft_log_reads f ls db i :
  log_is f ls db → u64 i →
  FirstIndex db = (if bool_decide (ls = []) then 0 else f) ∧
  LastIndex db = (if bool_decide (ls = []) then 0 else f + N.of_nat (length ls) - 1) ∧
  (∀ l, ls !! N.to_nat (i - f) = Some l → f ≤ i → GetLog i db = Ok l) ∧
  (i < f ∨ f + N.of_nat (length ls) ≤ i → GetLog i db = Err ErrLogNotFound).
Proof.
  intros H Hi. destruct (log_edges f ls db H) as [-> ->]. split_and!; [done..| |].
  - intros l El Hf. by rewrite (log_get f ls db i), bool_decide_eq_true_2, El.
  - intros Hout. rewrite (log_get f ls db i) by done. case_bool_decide; [|done].
    rewrite lookup_ge_None_2 by lia. done.
Qed.

(** Deleting a range at either end truncates the contiguous log: compaction
    drops a prefix, a conflict drops a suffix; the other entries and every row
    outside the log table stay. *)
Lemma log_truncate f ls db mn mx :
  log_is f ls db → u64 mn → mx + 1 < two64 → mn ≤ mx + 1 →
  let db' := RaftDeleteRange mn mx db in
  let last := f + N.of_nat (length ls) - 1 in
  (∀ k, head k ≠ Some tagRaftLog → db' !! k = db !! k) ∧
  (mn ≤ f → f ≤ mx + 1 → mx ≤ last → log_is (mx + 1) (drop (N.to_nat (mx + 1 - f)) ls) db') ∧
  (last ≤ mx → f ≤ mn → log_is f (take (N.to_nat (mn - f)) ls) db').
Proof.
  intros H Hmn Hmx Hle db' last. pose proof (log_bound f ls db H). pose proof (log_positive f ls db H).
  assert (Hkeys : ∀ k, head k = Some tagRaftLog → db' !! k ≠ None → ∃ i, u64 i ∧ k = RaftLogKey i).
  { intros k Hk Hin. apply (log_keys _ _ _ H k Hk). intros E. apply Hin. unfold db', RaftDeleteRange, DeleteRange.
    apply map_lookup_filter_None. by left. }
  assert (Hrow : ∀ i, u64 i → db' !! RaftLogKey i =
    if bool_decide (mn ≤ i ∧ i ≤ mx) then None
    else if bool_decide (f ≤ i) then ls !! N.to_nat (i - f) ≫= marshal_rlog else None).
  { intros i Hi. unfold db'. rewrite RaftDeleteRange_log by done. by rewrite (log_rows _ _ _ H i Hi). }
  split_and!; [intros; by apply RaftDeleteRange_other| |].
  - intros Hx Hy Hz. split; [rewrite length_drop; lia|lia| | |done].
    + intros k l El. rewrite lookup_drop in El. rewrite (log_index _ _ _ H _ _ El). lia.
    + intros i Hi. rewrite Hrow by done. repeat case_bool_decide; try lia; try done.
      * rewrite lookup_drop. do 2 f_equal. lia.
  - intros Hx Hy. split; [rewrite length_take; lia|done| | |done].
    + intros k l [El _]%lookup_take_Some. by apply (log_index _ _ _ H).
    + intros i Hi. rewrite Hrow by done. repeat case_bool_decide; try lia; try done.
      * by rewrite lookup_take_ge by lia.
      * destruct (decide (i < mn)) as [Hlt|Hge]; [by rewrite lookup_take_lt by lia|].
        rewrite lookup_take_ge by lia. by rewrite lookup_ge_None_2 by lia.
Qed.

(** C39: the Raft log is a window of consecutive entries.  Storing the next ones
    extends it by them; deleting a range at either end truncates it (compaction
    drops a prefix, a conflict a suffix); and neither changes a row outside the log
    table. *)
Theorem raft_log_window f ls db : log_is f ls db →
  (∀ es, f + N.of_nat (length (ls ++ es)) < two64 →
     (∀ k l, es !! k = Some l → rlog_Index l = f + N.of_nat (length ls) + N.of_nat k) →
     ∃ db', StoreLogs es db = (None, db') ∧ log_is f (ls ++ es) db' ∧
            (∀ k, head k ≠ Some tagRaftLog → db' !! k = db !! k)) ∧
  (∀ mn mx, u64 mn → mx + 1 < two64 → mn ≤ mx + 1 →
     let db' := RaftDeleteRange mn mx db in
     let last := f + N.of_nat (length ls) - 1 in
     (∀ k, head k ≠ Some tagRaftLog → db' !! k = db !! k) ∧
     (mn ≤ f → f ≤ mx + 1 → mx ≤ last → log_is (mx + 1) (drop (N.to_nat (mx + 1 - f)) ls) db') ∧
     (last ≤ mx → f ≤ mn → log_is f (take (N.to_nat (mn - f)) ls) db')).
Proof. intros H. split; [intros es; by apply log_append|intros mn mx; by apply log_truncate]. Qed.
End contract.

(** The stable store: a stored value is read back, as bytes or as a
    [uint64], without disturbing any other key, the log or the application
    tables. *)
Theorem raft_stable_store key (val : bytes) v db :
  u64 v →
  RaftGet key (RaftSet key val db) = val ∧ GetUint64 key (SetUint64 key v db) = v ∧
  (∀ k, k ≠ RaftKVKey key → RaftSet key val db !! k = db !! k) ∧
  (∀ key', key' ≠ key → RaftGet key' (RaftSet key val db) = RaftGet key' db).
Proof.
  intros Hv. unfold GetUint64, SetUint64, RaftGet, RaftSet. rewrite !lookup_insert_eq. split_and!.
  - done.
  - rewrite length_be_bytes. cbn [Nat.ltb Nat.leb]. rewrite firstn_all2 by (by rewrite length_be_bytes).
    by apply be_val_bytes_small.
  - intros k Hk. by rewrite lookup_insert_ne.
  - intros key' Hk. rewrite lookup_insert_ne; [done|]. intros E. by apply key_tail in E.
Qed.

(** ** Witnesses *)
(** Entries whose index is their length. *)
#[export] Instance demo_raft : RaftLogCodec := {|
  RLog := bytes; rlog_Index l := N.of_nat (length l);
  marshal_rlog l := Some l; unmarshal_rlog b := Some b |}.
#[export] Instance demo_raft_laws : RaftLogCodecLaws demo_raft.
Proof. intros l. by exists l. Qed.

Lemma raft_log_empty `{RaftLogCodecLaws} : log_is 1 [] ∅.
Proof.
  split; try done. intros i _. case_bool_decide; [|done]. by rewrite lookup_nil.
Qed.
Definition demo_raft_log : list RLog := [bs "x"; bs "yy"; bs "zzz"].
Definition demo_raft_db : rawstore := (StoreLogs demo_raft_log ∅).2.
Lemma demo_raft_log_is : log_is 1 demo_raft_log demo_raft_db.
Proof.
  destruct (log_append 1 [] demo_raft_log ∅ raft_log_empty) as (db & E & H & _).
  - done.
  - by intros [|[|[|k]]] l [= <-].
  - unfold demo_raft_db. rewrite E. exact H.
Qed.

Example raft_log_reads_witness :
  FirstIndex demo_raft_db = 1 ∧ LastIndex demo_raft_db = 3 ∧
  GetLog 2 demo_raft_db = Ok (bs "yy") ∧ GetLog 4 demo_raft_db = Err ErrLogNotFound.
Proof.
  destruct (raft_log_reads 1 demo_raft_log demo_raft_db 2) as (H1 & H2 & H3 & _);
    [exact demo_raft_log_is|done|].
  destruct (raft_log_reads 1 demo_raft_log demo_raft_db 4) as (_ & _ & _ & H4);
    [exact demo_raft_log_is|done|].
  split_and!; [exact H1|exact H2|by apply H3|apply H4; by right].
Defined.

Example raft_log_window_witness :
  (∃ db', StoreLogs [bs "wwww"] demo_raft_db = (None, db') ∧ log_is 1 (demo_raft_log ++ [bs "wwww"]) db') ∧
  log_is 3 [bs "zzz"] (RaftDeleteRange 1 2 demo_raft_db) ∧ log_is 1 [bs "x"] (RaftDeleteRange 2 3 demo_raft_db).
Proof.
  destruct (raft_log_window 1 demo_raft_log demo_raft_db demo_raft_log_is) as [Happ Hcut]. split; [|split].
  - destruct (Happ [bs "wwww"]) as (db' & E & H & _); [done|by intros [|k] l [= <-]|]. exists db'. by split.
  - destruct (Hcut 1 2) as (_ & H & _); [done|done|done|]. by apply H.
  - destruct (Hcut 2 3) as (_ & _ & H); [done|done|done|]. by apply H.
Defined.

Example raft_stable_store_witness :
  GetUint64 (bs "CurrentTerm") (SetUint64 (bs "CurrentTerm") 7 demo_raft_db) = 7.
Proof. destruct (raft_stable_store (bs "CurrentTerm") [] 7 demo_raft_db) as (_ & H & _); [done|exact H]. Defined.
