(* ===== verification/Fairness.v ===== *)
(** * The leader's served-order projection ([internal/node/fairness.go])

    A ring of the last [ringCap] served (lane, group) events with rolling counts
    per lane and group, and the subscribers to notify.  The clock reading is an
    argument; the mutex is not modelled (each operation holds it throughout).
    A subscriber's channel of capacity 1 is a flag: full or empty. *)

From Stdlib Require Import ZifyNat.
From S2P Require Import Prelude.

#[local] Open Scope nat_scope.
#[local] Ltac Zify.zify_post_hook ::= Z.to_euclidean_division_equations.

Definition ringCap : nat := 512.
Definition maxRibbon : nat := 200.

Record fairnessEvent := mkfairnessEvent {
  fe_lane : bytes;
  fe_group : bytes;
  fe_servedAt : Z
}.

Record fairnessSub := mkfairnessSub {
  sub_lane : bytes;
  sub_ch : bool
}.

Record fairnessProjection := mkfairnessProjection {
  fp_ring : list fairnessEvent;
  fp_head : nat;
  fp_count : nat;
  fp_total : N;
  fp_served : gmap bytes (gmap bytes N);
  fp_subs : gmap nat fairnessSub;
  fp_next : nat
}.

Definition newFairnessProjection : fairnessProjection :=
  mkfairnessProjection (replicate ringCap (mkfairnessEvent [] [] 0%Z)) 0 0 0 ∅ ∅ 0.

(** [m[k]] of a Go map of integers. *)
Definition mapget (m : gmap bytes N) (k : bytes) : N := default 0%N (m !! k).

(** The eviction of the oldest event from the rolling counts. *)
Definition evict (old : fairnessEvent) (served : gmap bytes (gmap bytes N)) :
    gmap bytes (gmap bytes N) :=
  match served !! old.(fe_lane) with
  | None => served
  | Some gm =>
      let gm := if (0 <? mapget gm old.(fe_group))%N
                then <[old.(fe_group) := (mapget gm old.(fe_group) - 1)%N]> gm else gm in
      let gm := if (mapget gm old.(fe_group) =? 0)%N then delete old.(fe_group) gm else gm in
      if bool_decide (gm = ∅) then delete old.(fe_lane) served
      else <[old.(fe_lane) := gm]> served
  end.

(** [gm[group]++] on the lane's counts, created on demand. *)
Definition bump (lane group : bytes) (served : gmap bytes (gmap bytes N)) :
    gmap bytes (gmap bytes N) :=
  let gm := default ∅ (served !! lane) in
  <[lane := <[group := incr64 (mapget gm group)]> gm]> served.

Definition notify (lane : bytes) (s : fairnessSub) : fairnessSub :=
  if bool_decide (s.(sub_lane) = lane) then mkfairnessSub s.(sub_lane) true else s.

Definition record (lane group : bytes) (now : Z) (p : fairnessProjection) : fairnessProjection :=
  let '(served, count) :=
    if p.(fp_count) =? ringCap
    then (match p.(fp_ring) !! p.(fp_head) with
          | Some old => evict old p.(fp_served)
          | None => p.(fp_served)
          end, p.(fp_count))
    else (p.(fp_served), p.(fp_count) + 1) in
  mkfairnessProjection
    (<[p.(fp_head) := mkfairnessEvent lane group now]> p.(fp_ring))
    ((p.(fp_head) + 1) mod ringCap) count (incr64 p.(fp_total))
    (bump lane group served) (notify lane <$> p.(fp_subs)) p.(fp_next).

Record LaneFairnessSnapshot := mkLaneFairnessSnapshot {
  fs_Lane : bytes;
  fs_Ribbon : list bytes;
  fs_Served : gmap bytes N;
  fs_Total : N
}.

(** The sum of the counts, in any order. *)
Definition sumCounts (m : gmap bytes N) : N :=
  map_fold (λ _ c t, add64 t c) 0%N m.

(** The events of the ring from oldest to newest. *)
Definition ringEvents (p : fairnessProjection) : list fairnessEvent :=
  let start := (p.(fp_head) + ringCap - p.(fp_count)) mod ringCap in
  omap (λ i, p.(fp_ring) !! ((start + i) mod ringCap)) (seq 0 p.(fp_count)).

Definition laneGroups (lane : bytes) (es : list fairnessEvent) : list bytes :=
  fe_group <$> filter (λ e, e.(fe_lane) = lane) es.

(** [r[len(r)-maxRibbon:]] when longer than [maxRibbon]. *)
Definition tailRibbon (r : list bytes) : list bytes :=
  if maxRibbon <? length r then drop (length r - maxRibbon) r else r.

Definition snapshot (lane : bytes) (p : fairnessProjection) : LaneFairnessSnapshot :=
  let gm := default ∅ (p.(fp_served) !! lane) in
  mkLaneFairnessSnapshot lane (tailRibbon (laneGroups lane (ringEvents p))) gm (sumCounts gm).

Definition subscribe (lane : bytes) (p : fairnessProjection) : nat * fairnessProjection :=
  (p.(fp_next), mkfairnessProjection p.(fp_ring) p.(fp_head) p.(fp_count) p.(fp_total)
     p.(fp_served) (<[p.(fp_next) := mkfairnessSub lane false]> p.(fp_subs)) (p.(fp_next) + 1)).
Definition unsubscribe (id : nat) (p : fairnessProjection) : fairnessProjection :=
  mkfairnessProjection p.(fp_ring) p.(fp_head) p.(fp_count) p.(fp_total)
    p.(fp_served) (delete id p.(fp_subs)) p.(fp_next).

(** ** The specification: the last [ringCap] served events *)
Definition window (h : list fairnessEvent) : list fairnessEvent := drop (length h - ringCap) h.

Definition occ (l g : bytes) (es : list fairnessEvent) : nat :=
  length (filter (λ e, e.(fe_lane) = l ∧ e.(fe_group) = g) es).

Definition recordAll (h : list fairnessEvent) (p : fairnessProjection) : fairnessProjection :=
  foldl (λ p e, record e.(fe_lane) e.(fe_group) e.(fe_servedAt) p) p h.

(** The projection [p] shows the window [w]. *)
Record shows (w : list fairnessEvent) (p : fairnessProjection) : Prop := {
  sh_ring : length p.(fp_ring) = ringCap;
  sh_head : p.(fp_head) < ringCap;
  sh_count : p.(fp_count) = length w;
  sh_cap : length w ≤ ringCap;
  sh_slot j e : w !! j = Some e →
    p.(fp_ring) !! ((p.(fp_head) + ringCap - length w + j) mod ringCap) = Some e;
  sh_served l g : mapget (default ∅ (p.(fp_served) !! l)) g = N.of_nat (occ l g w);
  sh_live l g : default ∅ (p.(fp_served) !! l) !! g ≠ Some 0%N;
}.

(** ** Lemmas *)
Lemma occ_cons l g e es :
  occ l g (e :: es) = (if decide (e.(fe_lane) = l ∧ e.(fe_group) = g) then 1 else 0) + occ l g es.
Proof. unfold occ. rewrite filter_cons. by case_decide. Qed.
Lemma occ_app l g es es' : occ l g (es ++ es') = occ l g es + occ l g es'.
Proof. unfold occ. by rewrite filter_app, length_app. Qed.
Lemma occ_le l g es : occ l g es ≤ length es.
Proof. apply length_filter. Qed.

Lemma mapget_insert m k v k' : mapget (<[k := v]> m) k' = if decide (k = k') then v else mapget m k'.
Proof. unfold mapget. rewrite lookup_insert. by case_decide. Qed.
Lemma mapget_delete m k k' : mapget (delete k m) k' = if decide (k = k') then 0%N else mapget m k'.
Proof. unfold mapget. rewrite lookup_delete. by case_decide. Qed.

Definition counts (l g : bytes) (served : gmap bytes (gmap bytes N)) : N :=
  mapget (default ∅ (served !! l)) g.
Definition live (served : gmap bytes (gmap bytes N)) : Prop :=
  ∀ l g, default ∅ (served !! l) !! g ≠ Some 0%N.

Lemma counts_evict old served l g :
  live served → (0 < counts old.(fe_lane) old.(fe_group) served)%N →
  counts l g (evict old served) =
    (counts l g served - if decide (old.(fe_lane) = l ∧ old.(fe_group) = g) then 1 else 0)%N ∧
  live (evict old served).
Proof.
  intros Hlive Hpos. unfold evict, counts in *.
  destruct (served !! fe_lane old) as [gm|] eqn:E; [|done]. cbn [default from_option id] in Hpos.
  set (c := mapget gm (fe_group old)) in *. apply N.ltb_lt in Hpos as Hpos'. rewrite Hpos'.
  cbv zeta. rewrite !mapget_insert, !decide_True by done.
  set (gm2 := if (c - 1 =? 0)%N then _ else _).
  assert (Hs : ∀ l', default ∅ ((if bool_decide (gm2 = ∅) then delete (fe_lane old) served
      else <[fe_lane old := gm2]> served) !! l') =
    if decide (fe_lane old = l') then gm2 else default ∅ (served !! l')).
  { intros l'. case_bool_decide as He; destruct (decide (fe_lane old = l')) as [<-|Hl].
    - rewrite lookup_delete_eq. by rewrite He.
    - by rewrite lookup_delete_ne.
    - by rewrite lookup_insert_eq.
    - by rewrite lookup_insert_ne. }
  assert (Hm : ∀ g', mapget gm2 g' = if decide (fe_group old = g') then (c - 1)%N else mapget gm g').
  { intros g'. unfold gm2. destruct (N.eqb_spec (c - 1) 0) as [Hz|Hz].
    - rewrite mapget_delete, mapget_insert. destruct (decide (fe_group old = g')); [by rewrite Hz|done].
    - by rewrite mapget_insert. }
  assert (Hl : ∀ g', gm2 !! g' ≠ Some 0%N).
  { intros g'. assert (Hg : gm !! g' ≠ Some 0%N) by (specialize (Hlive (fe_lane old) g'); by rewrite E in Hlive).
    unfold gm2. destruct (N.eqb_spec (c - 1) 0) as [Hz|Hz].
    - rewrite lookup_delete, lookup_insert. by destruct (decide (fe_group old = g')).
    - rewrite lookup_insert. destruct (decide (fe_group old = g')); [|done]. by intros [= ?]. }
  split.
  - rewrite Hs. destruct (decide (fe_lane old = l)) as [<-|Hne].
    + rewrite Hm, E. cbn [default from_option id]. destruct (decide (fe_group old = g)) as [<-|Hg].
      * rewrite decide_True by done. fold c. lia.
      * rewrite decide_False by tauto. lia.
    + rewrite decide_False by tauto. lia.
  - intros l' g'. rewrite Hs. destruct (decide (fe_lane old = l')); [done|]. apply Hlive.
Qed.

Lemma counts_bump l0 g0 served l g :
  live served → (counts l0 g0 served + 1 < two64)%N →
  counts l g (bump l0 g0 served) =
    (counts l g served + if decide (l0 = l ∧ g0 = g) then 1 else 0)%N ∧
  live (bump l0 g0 served).
Proof.
  intros Hlive Hb. unfold bump, counts in *.
  set (gm := default ∅ (served !! l0)) in *. rewrite incr64_small by done.
  assert (Hs : ∀ l', default ∅ (<[l0:=<[g0:=(mapget gm g0 + 1)%N]> gm]> served !! l') =
    if decide (l0 = l') then <[g0:=(mapget gm g0 + 1)%N]> gm else default ∅ (served !! l')).
  { intros l'. rewrite lookup_insert. by case_decide. }
  split.
  - rewrite Hs. destruct (decide (l0 = l)) as [<-|Hne].
    + rewrite mapget_insert. fold gm. destruct (decide (g0 = g)) as [<-|Hg].
      * by rewrite decide_True.
      * rewrite decide_False by tauto. lia.
    + rewrite decide_False by tauto. lia.
  - intros l' g'. rewrite Hs. case_decide; [|apply Hlive].
    rewrite lookup_insert. case_decide; [intros [= ?]; lia|].
    specialize (Hlive l0 g'). by fold gm in Hlive.
Qed.

(** One record moves the window by one event. *)
Lemma shows_record w p l g now :
  shows w p →
  shows (drop (length w + 1 - ringCap) (w ++ [mkfairnessEvent l g now])) (record l g now p).
Proof.
  intros [Hring Hhead Hcount Hcap Hslot Hserved Hlive]. set (e := mkfairnessEvent l g now).
  assert (Hw64 : ∀ l' g', (counts l' g' p.(fp_served) + 1 < two64)%N).
  { intros l' g'. unfold counts. rewrite Hserved. pose proof (occ_le l' g' w).
    unfold ringCap, two64 in *. lia. }
  assert (Hlast : p.(fp_head) < length p.(fp_ring)) by lia.
  unfold record. rewrite Hcount. destruct (Nat.eqb_spec (length w) ringCap) as [Hfull|Hfull].
  - (* the ring is full: the oldest event leaves *)
    destruct w as [|old w]; [done|]. cbn [length] in *.
    assert (Hold : p.(fp_ring) !! p.(fp_head) = Some old).
    { rewrite <-(Hslot 0 old eq_refl). f_equal. unfold ringCap in *. lia. }
    rewrite Hold. replace (S (length w) + 1 - ringCap) with 1 by lia. cbn [drop app].
    change (drop 0 ?x) with x.
    assert (Hpos : (0 < counts old.(fe_lane) old.(fe_group) p.(fp_served))%N).
    { unfold counts. rewrite Hserved, occ_cons, decide_True by done. lia. }
    destruct (counts_evict old p.(fp_served) l g Hlive Hpos) as [_ Hlive'].
    assert (Hce : ∀ l' g', counts l' g' (evict old p.(fp_served)) = N.of_nat (occ l' g' w)).
    { intros l' g'. destruct (counts_evict old p.(fp_served) l' g' Hlive Hpos) as [-> _].
      unfold counts. rewrite Hserved, occ_cons. case_decide; lia. }
    assert (Hb : (counts l g (evict old p.(fp_served)) + 1 < two64)%N).
    { rewrite Hce. pose proof (occ_le l g w). unfold ringCap, two64 in *. lia. }
    split; cbn [fp_ring fp_head fp_count fp_served].
    + by rewrite length_insert.
    + unfold ringCap. lia.
    + rewrite length_app. simpl. lia.
    + rewrite length_app. simpl. lia.
    + intros j e' Hj. rewrite length_app in *. cbn [length] in *.
      apply lookup_app_Some in Hj as [Hj|[Hge Hj]].
      * apply lookup_lt_Some in Hj as Hlt. specialize (Hslot (S j) e' Hj).
        rewrite list_lookup_insert_ne; [|unfold ringCap in *; lia].
        rewrite <-Hslot. f_equal. unfold ringCap in *. lia.
      * apply list_lookup_singleton_Some in Hj as [Hj <-].
        replace (((fp_head p + 1) mod ringCap + ringCap - (length w + 1) + j) mod ringCap)
          with (fp_head p) by (unfold ringCap in *; lia).
        by apply list_lookup_insert_eq.
    + intros l' g'. rewrite occ_app. destruct (counts_bump l g _ l' g' Hlive' Hb) as [Hc _].
      unfold counts in Hc at 1. rewrite Hc, Hce. rewrite occ_cons. unfold e. cbn [fe_lane fe_group].
      change (occ l' g' []) with 0. case_decide; lia.
    + by destruct (counts_bump l g _ l g Hlive' Hb) as [_ Hl].
  - replace (length w + 1 - ringCap) with 0 by lia. change (drop 0 ?x) with x.
    destruct (counts_bump l g _ l g Hlive (Hw64 l g)) as [_ Hl].
    split; cbn [fp_ring fp_head fp_count fp_served].
    + by rewrite length_insert.
    + unfold ringCap. lia.
    + rewrite length_app. simpl. lia.
    + rewrite length_app. simpl. lia.
    + intros j e' Hj. rewrite length_app in *. cbn [length] in *.
      apply lookup_app_Some in Hj as [Hj|[Hge Hj]].
      * apply lookup_lt_Some in Hj as Hlt. specialize (Hslot j e' Hj).
        rewrite list_lookup_insert_ne; [|unfold ringCap in *; lia].
        rewrite <-Hslot. f_equal. unfold ringCap in *. lia.
      * apply list_lookup_singleton_Some in Hj as [Hj <-].
        replace (((fp_head p + 1) mod ringCap + ringCap - (length w + 1) + j) mod ringCap)
          with (fp_head p) by (unfold ringCap in *; lia).
        by apply list_lookup_insert_eq.
    + intros l' g'. rewrite occ_app. destruct (counts_bump l g _ l' g' Hlive (Hw64 l g)) as [Hc _].
      unfold counts in Hc. rewrite Hc, Hserved. rewrite occ_cons. unfold e. cbn [fe_lane fe_group].
      change (occ l' g' []) with 0. case_decide; lia.
    + exact Hl.
Qed.

Lemma ringEvents_shows w p : shows w p → ringEvents p = w.
Proof.
  intros [_ Hhead Hcount Hcap Hslot _ _]. unfold ringEvents. rewrite Hcount. cbv zeta.
  assert (H : ∀ n s, s + n = length w →
    omap (λ i, fp_ring p !! (((fp_head p + ringCap - length w) mod ringCap + i) mod ringCap)) (seq s n) =
    drop s w).
  { induction n as [|n IH]; intros s Hs; cbn [seq omap list_omap].
    - by rewrite drop_ge by lia.
    - destruct (w !! s) as [e|] eqn:Ee; [|apply lookup_ge_None in Ee; lia].
      replace (((fp_head p + ringCap - length w) mod ringCap + s) mod ringCap)
        with ((fp_head p + ringCap - length w + s) mod ringCap) by (unfold ringCap in *; lia).
      rewrite (Hslot s e Ee), IH by lia. by rewrite (drop_S w e s). }
  by rewrite H.
Qed.

Lemma occ_lane l g w : occ l g w = length (filter (λ x, x = g) (laneGroups l w)).
Proof.
  unfold occ, laneGroups. induction w as [|e w IH]; [done|]. rewrite !filter_cons.
  destruct (decide (fe_lane e = l)) as [Hl|Hl].
  - rewrite fmap_cons, filter_cons. destruct (decide (fe_group e = g)).
    + rewrite decide_True by done. simpl. by rewrite IH.
    + rewrite decide_False by tauto. by rewrite IH.
  - rewrite decide_False by tauto. done.
Qed.

(** Summing the counts of distinct groups that cover a list counts the list. *)
Lemma sum_counts_list (ks gs : list bytes) :
  NoDup ks → (∀ g, g ∈ gs → g ∈ ks) →
  foldr (λ k t, length (filter (λ x, x = k) gs) + t) 0 ks = length gs.
Proof.
  intros Hnd. induction gs as [|g gs IH]; intros Hin.
  - clear. induction ks as [|k ks IH]; [done|]. cbn [foldr]. exact IH.
  - assert (Hone : ∀ ks', NoDup ks' →
      foldr (λ k t, length (filter (λ x, x = k) (g :: gs)) + t) 0 ks' =
      foldr (λ k t, length (filter (λ x, x = k) gs) + t) 0 ks' + (if decide (g ∈ ks') then 1 else 0)).
    { clear. induction 1 as [|k ks' Hk Hnd IH]; [done|]. cbn [foldr]. rewrite IH, filter_cons.
      destruct (decide (g = k)) as [<-|Hne].
      - rewrite (decide_False (P:=g ∈ ks')) by done.
        rewrite (decide_True (P:=g ∈ g :: ks')) by left. simpl. lia.
      - destruct (decide (g ∈ ks')) as [Hg|Hg].
        + rewrite decide_True by (by right). lia.
        + rewrite decide_False by (rewrite elem_of_cons; tauto). lia. }
    rewrite Hone, IH, decide_True by (done || (intros; apply Hin; by right) || (apply Hin; by left)).
    simpl. lia.
Qed.

Lemma sumCounts_spec (m : gmap bytes N) (gs : list bytes) :
  (∀ g, mapget m g = N.of_nat (length (filter (λ x, x = g) gs))) →
  (∀ g, m !! g ≠ Some 0%N) → (N.of_nat (length gs) < two64)%N →
  sumCounts m = N.of_nat (length gs).
Proof.
  intros Hm Hz Hb. set (ks := (map_to_list m).*1).
  assert (Hsum : foldr (λ k t, length (filter (λ x, x = k) gs) + t) 0 ks = length gs).
  { apply sum_counts_list; [apply NoDup_fst_map_to_list|]. intros g Hg.
    destruct (m !! g) as [c|] eqn:E.
    - apply list_elem_of_fmap. exists (g, c). split; [done|]. by apply elem_of_map_to_list.
    - specialize (Hm g). unfold mapget in Hm. rewrite E in Hm. simpl in Hm.
      assert (Hin : g ∈ filter (λ x, x = g) gs) by (by apply list_elem_of_filter).
      destruct (filter (λ x, x = g) gs); [by apply elem_of_nil in Hin|simpl in Hm; lia]. }
  unfold sumCounts. rewrite map_fold_foldr, <-Hsum. unfold ks.
  assert (Hall : ∀ k c, (k, c) ∈ map_to_list m → c = N.of_nat (length (filter (λ x, x = k) gs))).
  { intros k c Hin%elem_of_map_to_list. rewrite <-Hm. unfold mapget. by rewrite Hin. }
  assert (Hle : foldr (λ k t, length (filter (λ x, x = k) gs) + t) 0 (map_to_list m).*1 ≤ length gs)
    by (fold ks; lia).
  revert Hall Hle. generalize (map_to_list m) as l. clear ks Hsum.
  induction l as [|[k c] l IH]; intros Hall Hle; [done|]. cbn [fmap list_fmap foldr uncurry fst] in *.
  rewrite IH; [|intros; apply Hall; by right|lia].
  rewrite (Hall k c) by left. rewrite add64_small by lia. lia.
Qed.

Lemma window_snoc h e :
  drop (length (window h) + 1 - ringCap) (window h ++ [e]) = window (h ++ [e]).
Proof.
  unfold window. rewrite length_drop, length_app. cbn [length].
  destruct (decide (length h < ringCap)) as [Hlt|Hge].
  - replace (length h - ringCap) with 0 by lia. rewrite drop_0.
    by replace (length h - 0 + 1 - ringCap) with (length h + 1 - ringCap) by lia.
  - replace (length h - (length h - ringCap) + 1 - ringCap) with 1 by lia.
    rewrite <-drop_app_le by lia. rewrite drop_drop. f_equal. lia.
Qed.

Lemma shows_new : shows [] newFairnessProjection.
Proof.
  split; try done; simpl; unfold ringCap; lia.
Qed.

Lemma recordAll_shows h : shows (window h) (recordAll h newFairnessProjection).
Proof.
  induction h as [|e h IH] using rev_ind; [apply shows_new|].
  unfold recordAll. rewrite foldl_snoc. fold (recordAll h newFairnessProjection).
  rewrite <-window_snoc. destruct e as [l g ts]. by apply shows_record.
Qed.

Lemma recordAll_total h : fp_total (recordAll h newFairnessProjection) = wrap64 (N.of_nat (length h)).
Proof.
  induction h as [|e h IH] using rev_ind; [done|].
  unfold recordAll. rewrite foldl_snoc. fold (recordAll h newFairnessProjection).
  assert (Ht : ∀ p l g ts, fp_total (record l g ts p) = incr64 (fp_total p)).
  { intros. unfold record. by destruct (_ =? _). }
  rewrite Ht, IH, length_app. unfold incr64, add64, wrap64. cbn [length].
  rewrite N.Div0.add_mod_idemp_l. f_equal. lia.
Qed.

(** ** Theorems *)

(** C40: the fairness projection refines its specification.  After any sequence
    of served events, a lane's snapshot is computed from the last 512 events:
    the ribbon is the lane's last 200 served groups in order, each group's count
    is its number of events in the window (no entry for none), the total their
    sum, and the running total counts every event. *)
Theorem fairness_projection_refines (h : list fairnessEvent) (lane : bytes) :
  let p := recordAll h newFairnessProjection in
  let s := snapshot lane p in
  s.(fs_Ribbon) = tailRibbon (laneGroups lane (window h)) ∧
  (∀ g, mapget s.(fs_Served) g = N.of_nat (occ lane g (window h)) ∧ s.(fs_Served) !! g ≠ Some 0%N) ∧
  s.(fs_Total) = N.of_nat (length (laneGroups lane (window h))) ∧
  p.(fp_total) = wrap64 (N.of_nat (length h)).
Proof.
  intros p s. pose proof (recordAll_shows h) as H. fold p in H.
  split_and!.
  - unfold s, snapshot. cbn [fs_Ribbon]. by rewrite (ringEvents_shows _ _ H).
  - intros g. split; [apply (sh_served _ _ H)|apply (sh_live _ _ H)].
  - unfold s, snapshot. cbn [fs_Total]. apply sumCounts_spec.
    + intros g. rewrite <-occ_lane. apply (sh_served _ _ H).
    + apply (sh_live _ _ H).
    + pose proof (sh_cap _ _ H). unfold laneGroups. rewrite length_fmap.
      pose proof (length_filter (λ e, fe_lane e = lane) (window h)). unfold ringCap, two64 in *. lia.
  - apply recordAll_total.
Qed.

(** Notification.  A served event flags exactly the subscribers of its lane
    (a pending flag stays), subscribing takes a fresh id with no flag, and
    unsubscribing removes only that subscriber. *)
Theorem fairness_notifies lane group now p (id : nat) :
  (record lane group now p).(fp_subs) !! id =
    (λ s, mkfairnessSub s.(sub_lane) (s.(sub_ch) || bool_decide (s.(sub_lane) = lane))) <$> p.(fp_subs) !! id ∧
  ((subscribe lane p).2.(fp_subs) !! id =
     if decide (id = p.(fp_next)) then Some (mkfairnessSub lane false) else p.(fp_subs) !! id) ∧
  (∀ id', (unsubscribe id' p).(fp_subs) !! id = if decide (id = id') then None else p.(fp_subs) !! id).
Proof.
  split_and!.
  - assert (Hs : fp_subs (record lane group now p) = notify lane <$> fp_subs p)
      by (unfold record; by destruct (_ =? _)).
    rewrite Hs, lookup_fmap. destruct (fp_subs p !! id) as [[l c]|]; [|done]. simpl.
    unfold notify. cbn [sub_lane sub_ch]. case_bool_decide; simpl; by rewrite ?orb_true_r, ?orb_false_r.
  - cbn [subscribe snd fp_subs]. rewrite lookup_insert. by repeat case_decide.
  - intros id'. cbn [unsubscribe fp_subs]. rewrite lookup_delete. by repeat case_decide.
Qed.
