(* ===== verification/Float.v ===== *)
(** * [float64] arithmetic and its order

    Go's [float64] operations as IEEE 754 binary64, on the Standard Library's
    specification ([SpecFloat]), rounding to nearest even after every operation
    (no fused multiply-add, as on amd64), and the facts the schedulers rely on:
    comparison is a total preorder on the non-NaN values, and sums, products and
    quotients of non-negative values stay non-negative and are never NaN. *)

From S2P Require Import Prelude Data.

#[local] Open Scope Z_scope.

(** ** Operations *)
Definition f64_add (x y : float64) : float64 := SFadd 53 1024 x y.
Definition f64_sub (x y : float64) : float64 := SFsub 53 1024 x y.
Definition f64_mul (x y : float64) : float64 := SFmul 53 1024 x y.
Definition f64_div (x y : float64) : float64 := SFdiv 53 1024 x y.
(** [x < y], [x > y], [x <= y] *)
Definition f64_ltb (x y : float64) : bool := SFltb x y.
Definition f64_gtb (x y : float64) : bool := SFltb y x.
Definition f64_leb (x y : float64) : bool := SFleb x y.
(** The conversion [float64(i)] of an integer. *)
Definition f64_of_Z (z : Z) : float64 := binary_normalize 53 1024 z 0 false.
Definition f64_of_N (n : N) : float64 := f64_of_Z (Z.of_N n).

Definition f64_inf : float64 := S754_infinity false.
(** [math.IsNaN], [math.IsInf(x, 0)], [math.IsInf(x, 1)] *)
Definition IsNaN (x : float64) : bool := match x with S754_nan => true | _ => false end.
Definition IsInf (x : float64) : bool := match x with S754_infinity _ => true | _ => false end.
Definition IsPosInf (x : float64) : bool := match x with S754_infinity false => true | _ => false end.

(** ** Signed integers of 64 bits ([int], [int64]) *)
Definition wrap_i64 (z : Z) : Z := (z + 2 ^ 63) mod 2 ^ 64 - 2 ^ 63.
(** [int(u)] of a [uint64]. *)
Definition int_of_u64 (n : N) : Z := wrap_i64 (Z.of_N n).
(** [uint64(i)] of an [int64]. *)
Definition u64_of_int (z : Z) : N := Z.to_N (z mod 2 ^ 64).

Lemma wrap_i64_small z : - 2 ^ 63 ≤ z < 2 ^ 63 → wrap_i64 z = z.
Proof. intros Hz. unfold wrap_i64. rewrite Z.mod_small by lia. lia. Qed.
Lemma int_of_u64_small n : (Z.of_N n < 2 ^ 63) → int_of_u64 n = Z.of_N n.
Proof. intros Hn. apply wrap_i64_small. lia. Qed.

(** ** The order

    Comparison is lexicographic on (class and sign, exponent, mantissa). *)
Definition f64_rank (x : float64) : Z * Z * Z :=
  match x with
  | S754_infinity true => (-2, 0, 0)
  | S754_finite true m e => (-1, - e, Z.neg m)
  | S754_zero _ | S754_nan => (0, 0, 0)
  | S754_finite false m e => (1, e, Z.pos m)
  | S754_infinity false => (2, 0, 0)
  end.

Definition rank_lt (a b : Z * Z * Z) : Prop :=
  a.1.1 < b.1.1 ∨ (a.1.1 = b.1.1 ∧ (a.1.2 < b.1.2 ∨ (a.1.2 = b.1.2 ∧ a.2 < b.2))).

Lemma f64_compare_rank x y :
  IsNaN x = false → IsNaN y = false →
  match SFcompare x y with
  | Some Lt => rank_lt (f64_rank x) (f64_rank y)
  | Some Eq => f64_rank x = f64_rank y
  | Some Gt => rank_lt (f64_rank y) (f64_rank x)
  | None => False
  end.
Proof.
  unfold rank_lt.
  destruct x as [s|s| |s m e], y as [s'|s'| |s' m' e']; intros Hx Hy; try discriminate;
    destruct s, s'; simpl; try done; try lia;
    destruct (Z.compare_spec e e') as [E|E|E]; subst; simpl; try lia;
    change (Pos.compare_cont Eq m m') with (m ?= m')%positive;
    destruct (Pos.compare_spec m m') as [M|M|M]; subst; simpl; try lia; done.
Qed.

Lemma rank_lt_trans a b c : rank_lt a b → rank_lt b c → rank_lt a c.
Proof. unfold rank_lt. lia. Qed.
Lemma rank_lt_irrefl a : ¬ rank_lt a a.
Proof. unfold rank_lt. lia. Qed.

Lemma f64_ltb_rank x y :
  f64_ltb x y = true ↔ IsNaN x = false ∧ IsNaN y = false ∧ rank_lt (f64_rank x) (f64_rank y).
Proof.
  unfold f64_ltb, SFltb. split.
  - intros Hc. assert (IsNaN x = false ∧ IsNaN y = false) as [Hx Hy].
    { destruct x, y; try done; simpl in Hc; destruct s; done. }
    pose proof (f64_compare_rank x y Hx Hy) as Hr. destruct (SFcompare x y) as [[]|]; done.
  - intros (Hx & Hy & Hlt). pose proof (f64_compare_rank x y Hx Hy) as Hr.
    destruct (SFcompare x y) as [[]|]; [|done| |done].
    + rewrite Hr in Hlt. by apply rank_lt_irrefl in Hlt.
    + destruct (rank_lt_irrefl (f64_rank x)). by eapply rank_lt_trans.
Qed.

Lemma f64_eqb_rank x y :
  f64_eqb x y = true ↔ IsNaN x = false ∧ IsNaN y = false ∧ f64_rank x = f64_rank y.
Proof.
  unfold f64_eqb, SFeqb. split.
  - intros Hc. assert (IsNaN x = false ∧ IsNaN y = false) as [Hx Hy].
    { destruct x, y; try done; simpl in Hc; destruct s; done. }
    pose proof (f64_compare_rank x y Hx Hy) as Hr. destruct (SFcompare x y) as [[]|]; done.
  - intros (Hx & Hy & He). pose proof (f64_compare_rank x y Hx Hy) as Hr.
    destruct (SFcompare x y) as [[]|]; [done| | |done];
      rewrite He in Hr; by apply rank_lt_irrefl in Hr.
Qed.

Lemma f64_leb_rank x y :
  f64_leb x y = true ↔ IsNaN x = false ∧ IsNaN y = false ∧ ¬ rank_lt (f64_rank y) (f64_rank x).
Proof.
  unfold f64_leb, SFleb. split.
  - intros Hc. assert (IsNaN x = false ∧ IsNaN y = false) as [Hx Hy].
    { destruct x, y; try done; simpl in Hc; destruct s; done. }
    pose proof (f64_compare_rank x y Hx Hy) as Hr. destruct (SFcompare x y) as [[]|]; try done.
    + rewrite Hr. auto using rank_lt_irrefl.
    + repeat split; try done. intros Hlt. eapply rank_lt_irrefl. by eapply rank_lt_trans.
  - intros (Hx & Hy & Hlt). pose proof (f64_compare_rank x y Hx Hy) as Hr.
    destruct (SFcompare x y) as [[]|]; done.
Qed.

Lemma f64_ltb_trans x y z : f64_ltb x y = true → f64_ltb y z = true → f64_ltb x z = true.
Proof. rewrite !f64_ltb_rank. naive_solver eauto using rank_lt_trans. Qed.
Lemma f64_ltb_irrefl x : f64_ltb x x = false.
Proof.
  apply not_true_is_false. rewrite f64_ltb_rank. intros (_ & _ & Hx). by apply rank_lt_irrefl in Hx.
Qed.
Lemma f64_leb_refl x : IsNaN x = false → f64_leb x x = true.
Proof. intros Hx. apply f64_leb_rank. auto using rank_lt_irrefl. Qed.
Lemma f64_leb_trans x y z : f64_leb x y = true → f64_leb y z = true → f64_leb x z = true.
Proof. rewrite !f64_leb_rank. unfold rank_lt. intros (?&?&?) (?&?&?). repeat split; [done..|]. lia. Qed.
Lemma f64_ltb_leb x y : f64_ltb x y = true → f64_leb x y = true.
Proof. rewrite f64_ltb_rank, f64_leb_rank. unfold rank_lt. intros (?&?&?). repeat split; [done..|]. lia. Qed.
(** On non-NaN values, [x <= y] is the negation of [y < x]. *)
Lemma f64_leb_ltb x y :
  IsNaN x = false → IsNaN y = false → f64_leb x y = negb (f64_ltb y x).
Proof.
  intros Hx Hy. apply eq_bool_prop_intro. split; intros H; apply Is_true_true in H; apply Is_true_true.
  - apply negb_true_iff, not_true_is_false. rewrite f64_ltb_rank. apply f64_leb_rank in H. tauto.
  - apply f64_leb_rank. repeat split; [done..|]. intros Hr.
    assert (f64_ltb y x = true) as E by (apply f64_ltb_rank; auto). by rewrite E in H.
Qed.

Lemma f64_rank_opp x : f64_rank (SFopp x) = (- (f64_rank x).1.1, - (f64_rank x).1.2, - (f64_rank x).2).
Proof. destruct x as [s|s| |s m e]; [| |done|]; destruct s; simpl; rewrite ?Z.opp_involutive; done. Qed.
Lemma IsNaN_opp x : IsNaN (SFopp x) = IsNaN x.
Proof. by destruct x. Qed.
(** Negation reverses the order. *)
Lemma f64_ltb_opp x y : f64_ltb (SFopp x) (SFopp y) = f64_ltb y x.
Proof.
  apply eq_bool_prop_intro. rewrite !Is_true_true, !f64_ltb_rank, !IsNaN_opp, !f64_rank_opp.
  unfold rank_lt. simpl. split; intros (?&?&?); repeat split; try done; lia.
Qed.
Lemma f64_eqb_opp x y : f64_eqb (SFopp x) (SFopp y) = f64_eqb y x.
Proof.
  apply eq_bool_prop_intro. rewrite !Is_true_true, !f64_eqb_rank, !IsNaN_opp, !f64_rank_opp.
  split; intros (?&?&E); repeat split; try done.
  - destruct (f64_rank x) as [[??]?], (f64_rank y) as [[??]?]. simpl in E. injection E as ???.
    f_equal; [f_equal|]; lia.
  - by rewrite E.
Qed.

(** ** Signs

    A value that is zero or positive and not NaN. *)
Definition f64_nonneg (x : float64) : bool :=
  match x with
  | S754_zero _ | S754_infinity false | S754_finite false _ _ => true
  | _ => false
  end.

Lemma f64_nonneg_not_nan x : f64_nonneg x = true → IsNaN x = false.
Proof. by destruct x. Qed.

Section rounding.
Implicit Types (mrs : shr_record) (m e : Z).

Lemma shr_1_nonneg mrs : 0 ≤ shr_m mrs → 0 ≤ shr_m (shr_1 mrs).
Proof. destruct mrs as [[|[]|[]] r s]; simpl; lia. Qed.

Lemma iter_pos_shr_nonneg p mrs : 0 ≤ shr_m mrs → 0 ≤ shr_m (iter_pos shr_1 p mrs).
Proof. revert mrs. induction p; simpl; auto using shr_1_nonneg. Qed.

Lemma shr_fexp_nonneg m e l : 0 ≤ m → 0 ≤ shr_m (shr_fexp 53 1024 m e l).1.
Proof.
  intros Hm. unfold shr_fexp, shr.
  assert (0 ≤ shr_m (shr_record_of_loc m l)) by (destruct l as [|[]]; done).
  destruct (_ - e) as [|p|p]; simpl; auto using iter_pos_shr_nonneg.
Qed.

Lemma binary_round_aux_nonneg m e l :
  0 ≤ m → f64_nonneg (binary_round_aux 53 1024 false m e l) = true.
Proof.
  intros Hm. unfold binary_round_aux.
  pose proof (shr_fexp_nonneg m e l Hm) as H1. destruct (shr_fexp 53 1024 m e l) as [mrs e1]. simpl in H1.
  assert (0 ≤ round_nearest_even (shr_m mrs) (loc_of_shr_record mrs)) as H2.
  { unfold round_nearest_even. destruct (loc_of_shr_record mrs) as [|[]]; try destruct (Z.even _); lia. }
  pose proof (shr_fexp_nonneg _ e1 loc_Exact H2) as H3.
  destruct (shr_fexp 53 1024 _ e1 loc_Exact) as [mrs2 e2]. simpl in H3.
  destruct (shr_m mrs2); [done|by destruct (e2 <=? _)|done].
Qed.

Lemma binary_normalize_nonneg m e : 0 ≤ m → f64_nonneg (binary_normalize 53 1024 m e false) = true.
Proof.
  intros Hm. destruct m as [|m|m]; [done| |done]. simpl. unfold binary_round.
  destruct (shl_align m e _) as [mz ez]. by apply binary_round_aux_nonneg.
Qed.
End rounding.

Lemma f64_of_N_nonneg n : f64_nonneg (f64_of_N n) = true.
Proof. apply binary_normalize_nonneg. lia. Qed.

Lemma f64_add_nonneg x y :
  f64_nonneg x = true → f64_nonneg y = true → f64_nonneg (f64_add x y) = true.
Proof.
  unfold f64_add. destruct x as [s|s| |s m e], y as [s'|s'| |s' m' e'];
    try destruct s; try destruct s'; try done. intros _ _. cbn [SFadd].
  apply binary_normalize_nonneg. simpl. lia.
Qed.

(** A quotient of non-negative values is non-negative, [0/0] and [inf/inf]
    apart. *)
Lemma f64_div_nonneg x y :
  f64_nonneg x = true → IsInf x = false →
  f64_ltb f64_zero y = true → f64_nonneg (f64_div x y) = true.
Proof.
  unfold f64_div. destruct x as [s|s| |s m e], y as [s'|s'| |s' m' e'];
    try destruct s; try destruct s'; try done; intros _ _ _; cbn [SFdiv].
  unfold SFdiv_core_binary. cbn zeta. set (e0 := Z.min _ _).
  assert (0 ≤ match e - e' - e0 with
              | Z0 => Z.pos m | Z.pos _ => Z.shiftl (Z.pos m) (e - e' - e0) | Z.neg _ => 0
              end) as Hm0.
  { destruct (e - e' - e0) as [|p|p]; [done| |done]. by apply Z.shiftl_nonneg. }
  pose proof (Z.div_pos _ (Z.pos m') Hm0 eq_refl) as Hq. unfold Z.div in Hq.
  destruct (Z.div_eucl _ (Z.pos m')) as [q r]. by apply binary_round_aux_nonneg.
Qed.

(** A positive constant times a non-negative value. *)
Lemma f64_mul_pos m e y :
  f64_nonneg y = true → f64_nonneg (f64_mul (S754_finite false m e) y) = true.
Proof.
  unfold f64_mul. destruct y as [s|s| |s m' e']; try destruct s; try done.
  intros _. by apply binary_round_aux_nonneg.
Qed.

(** ** Integers below 2^53 are exact *)
Section exact.

Lemma digits2_log2 p : Z.pos (digits2_pos p) = Z.log2 (Z.pos p) + 1.
Proof.
  induction p as [p IH|p IH|]; cbn [digits2_pos]; [| |done]; rewrite Pos2Z.inj_succ, IH.
  - rewrite (Pos2Z.inj_xI p), Z.log2_succ_double by lia. lia.
  - rewrite (Pos2Z.inj_xO p), Z.log2_double by lia. lia.
Qed.
Lemma Zdigits2_log2 z : 0 < z → Zdigits2 z = Z.log2 z + 1.
Proof. destruct z; try done. intros _. apply digits2_log2. Qed.

Lemma iter_xO_mul q k : Z.pos (Pos.iter xO q k) = Z.pos q * 2 ^ Z.pos k.
Proof.
  induction k as [|k IH] using Pos.peano_ind; [simpl; lia|].
  rewrite Pos.iter_succ, Pos2Z.inj_succ, Z.pow_succ_r, Pos2Z.inj_xO, IH by lia. lia.
Qed.

Lemma iter_pos_succ {A} (f : A → A) k x : iter_pos f (Pos.succ k) x = f (iter_pos f k x).
Proof.
  assert (∀ k x, iter_pos f k (f x) = f (iter_pos f k x)) as Hc.
  { clear. induction k as [k IH|k IH|]; intros x; simpl; [| |done]; by rewrite !IH. }
  revert x. induction k as [k IH|k IH|]; intros x; simpl; [| |done].
  - by rewrite !IH, !Hc.
  - by rewrite !Hc.
Qed.

(** Shifting out zeroes loses nothing. *)
Lemma iter_shr_exact q k :
  iter_pos shr_1 k (Build_shr_record (Z.pos q * 2 ^ Z.pos k) false false) =
  Build_shr_record (Z.pos q) false false.
Proof.
  rewrite <-iter_xO_mul. revert q.
  induction k as [|k IH] using Pos.peano_ind; intros q; [done|].
  rewrite iter_pos_succ, Pos.iter_succ_r, (IH (q~0)%positive). done.
Qed.

Lemma round_exact q k e :
  digits2_pos q = 53%positive → 0 ≤ k → -1074 ≤ e + k ≤ 971 →
  binary_round_aux 53 1024 false (Z.pos q * 2 ^ k) e loc_Exact = S754_finite false q (e + k).
Proof.
  intros Hd Hk He. unfold binary_round_aux.
  assert (shr_fexp 53 1024 (Z.pos q * 2 ^ k) e loc_Exact =
          (Build_shr_record (Z.pos q) false false, e + k)) as ->.
  { unfold shr_fexp. rewrite Zdigits2_log2 by (apply Z.mul_pos_pos; [lia|apply Z.pow_pos_nonneg; lia]).
    rewrite Z.log2_mul_pow2 by lia. pose proof (digits2_log2 q) as Hl. rewrite Hd in Hl.
    unfold fexp, emin. rewrite Z.max_l by lia.
    replace (_ - 53 - e) with k by lia. destruct k as [|k|k]; [|simpl|lia].
    - simpl. rewrite Z.mul_1_r. f_equal. lia.
    - by rewrite iter_shr_exact. }
  cbn [shr_m loc_of_shr_record round_nearest_even].
  assert (shr_fexp 53 1024 (Z.pos q) (e + k) loc_Exact =
          (Build_shr_record (Z.pos q) false false, e + k)) as ->.
  { unfold shr_fexp. cbn [Zdigits2]. rewrite Hd. unfold fexp, emin. rewrite Z.max_l by lia.
    by replace (_ - 53 - _) with 0 by lia. }
  cbn [shr_m]. destruct (Z.leb_spec (e + k) (1024 - 53)); [done|lia].
Qed.

(** The normal form of a positive integer below 2^53, at any scale. *)
Definition scaled (n : Z) : positive := Z.to_pos (n * 2 ^ (52 - Z.log2 n)).

Lemma log2_bound n : 0 < n < 2 ^ 53 → 0 ≤ Z.log2 n ≤ 52.
Proof. intros Hn. pose proof (Z.log2_nonneg n). pose proof (Z.log2_lt_pow2 n 53). lia. Qed.

Lemma scaled_eq n : 0 < n < 2 ^ 53 → Z.pos (scaled n) = n * 2 ^ (52 - Z.log2 n).
Proof.
  intros Hn. pose proof (log2_bound n Hn). unfold scaled. rewrite Z2Pos.id; [done|].
  apply Z.mul_pos_pos; [lia|apply Z.pow_pos_nonneg; lia].
Qed.
Lemma scaled_digits n : 0 < n < 2 ^ 53 → digits2_pos (scaled n) = 53%positive.
Proof.
  intros Hn. pose proof (log2_bound n Hn). apply Pos2Z.inj. rewrite digits2_log2, scaled_eq by done.
  rewrite Z.log2_mul_pow2 by lia. lia.
Qed.

Lemma normalize_exact n j :
  0 < n < 2 ^ 53 → 0 ≤ j ≤ 1000 →
  binary_normalize 53 1024 (n * 2 ^ j) (- j) false = S754_finite false (scaled n) (Z.log2 n - 52).
Proof.
  intros Hn Hj. pose proof (log2_bound n Hn) as Hl.
  assert (Hpow : 0 < 2 ^ j) by (apply Z.pow_pos_nonneg; lia).
  destruct (n * 2 ^ j) as [|p|p] eqn:Ep; [nia| |nia]. cbn [binary_normalize]. unfold binary_round.
  assert (Hlog : Z.pos (digits2_pos p) = Z.log2 n + j + 1).
  { rewrite digits2_log2, <-Ep, Z.log2_mul_pow2 by lia. lia. }
  unfold shl_align, fexp, emin. rewrite Hlog, Z.max_l by lia.
  replace (Z.log2 n + j + 1 + - j - 53 - - j) with (Z.log2 n + j - 52) by lia.
  destruct (Z.log2 n + j - 52) as [|d|d] eqn:Ed.
  - rewrite <-Ep. replace j with (52 - Z.log2 n) by lia. rewrite <-scaled_eq by done.
    rewrite <-(Z.mul_1_r (Z.pos (scaled n))). change 1 with (2 ^ 0) at 1.
    rewrite round_exact; [f_equal; lia|by apply scaled_digits|lia|lia].
  - rewrite <-Ep. replace (n * 2 ^ j) with (Z.pos (scaled n) * 2 ^ Z.pos d).
    + rewrite round_exact; [f_equal; lia|by apply scaled_digits|lia|lia].
    + rewrite scaled_eq by done. rewrite <-Z.mul_assoc, <-Z.pow_add_r by lia. do 2 f_equal. lia.
  - rewrite iter_xO_mul, <-Ep, <-Z.mul_assoc, <-Z.pow_add_r by lia.
    replace (j + Z.pos d) with (52 - Z.log2 n) by lia. rewrite <-scaled_eq by done.
    rewrite <-(Z.mul_1_r (Z.pos (scaled n))). change 1 with (2 ^ 0) at 1.
    rewrite round_exact; [f_equal; lia|by apply scaled_digits|lia|lia].
Qed.

Lemma f64_of_Z_exact n : 0 < n < 2 ^ 53 → f64_of_Z n = S754_finite false (scaled n) (Z.log2 n - 52).
Proof.
  intros Hn. unfold f64_of_Z. rewrite <-(normalize_exact n 0 Hn) by lia. by rewrite Z.mul_1_r.
Qed.

Lemma f64_succ n : 0 ≤ n → n + 1 < 2 ^ 53 → f64_add (f64_of_Z n) f64_one = f64_of_Z (n + 1).
Proof.
  intros H0 Hn. destruct (decide (n = 0)) as [->|Hz]; [by vm_compute|].
  rewrite !f64_of_Z_exact by lia. pose proof (log2_bound n ltac:(lia)) as Hl.
  unfold f64_add, f64_one. cbn [SFadd]. rewrite (Z.min_r _ (-52)) by lia.
  rewrite <-(normalize_exact (n + 1) 52) by lia. f_equal. simpl cond_Zopp.
  assert (∀ q (e : Z), -52 ≤ e → Z.pos (shl_align q e (-52)).1 = Z.pos q * 2 ^ (e + 52)) as Hshl.
  { intros q e He. unfold shl_align. destruct (-52 - e) as [|d|d] eqn:Ed; [| lia |].
    - replace (e + 52) with 0 by lia. simpl. lia.
    - simpl. rewrite iter_xO_mul. do 2 f_equal. lia. }
  change (Z.pos 4503599627370496) with (2 ^ 52). rewrite Z.mul_add_distr_r, Z.mul_1_l.
  f_equal. rewrite Hshl by lia. rewrite scaled_eq by lia.
  rewrite <-Z.mul_assoc, <-Z.pow_add_r by lia. do 2 f_equal. lia.
Qed.

Lemma f64_of_Z_rank_lt n m :
  0 ≤ n → n < m → m < 2 ^ 53 → rank_lt (f64_rank (f64_of_Z n)) (f64_rank (f64_of_Z m)).
Proof.
  intros H0 Hnm Hm. rewrite (f64_of_Z_exact m) by lia. unfold rank_lt.
  destruct (decide (n = 0)) as [->|Hz]; [simpl; lia|]. rewrite f64_of_Z_exact by lia. simpl.
  rewrite !scaled_eq by lia. right. split; [done|].
  pose proof (Z.log2_le_mono n m ltac:(lia)) as Hle.
  destruct (decide (Z.log2 n = Z.log2 m)) as [E|E]; [right|left; lia].
  rewrite E. split; [done|]. apply Z.mul_lt_mono_pos_r; [|done].
  pose proof (log2_bound m ltac:(lia)). apply Z.pow_pos_nonneg; lia.
Qed.

Lemma f64_of_Z_nonneg n : 0 ≤ n → f64_nonneg (f64_of_Z n) = true.
Proof. apply binary_normalize_nonneg. Qed.

(** The order of exact integers. *)
Lemma f64_of_Z_ltb n m :
  0 ≤ n < 2 ^ 53 → 0 ≤ m < 2 ^ 53 → f64_ltb (f64_of_Z n) (f64_of_Z m) = (n <? m).
Proof.
  intros Hn Hm. apply eq_bool_prop_intro. rewrite !Is_true_true, f64_ltb_rank, Z.ltb_lt.
  split.
  - intros (_ & _ & Hr). destruct (decide (n < m)); [done|].
    destruct (rank_lt_irrefl (f64_rank (f64_of_Z n))).
    destruct (decide (n = m)) as [->|]; [done|]. eapply rank_lt_trans; [exact Hr|].
    apply f64_of_Z_rank_lt; lia.
  - intros. repeat split; [apply f64_nonneg_not_nan, f64_of_Z_nonneg; lia..|].
    apply f64_of_Z_rank_lt; lia.
Qed.
Lemma f64_of_Z_eqb n m :
  0 ≤ n < 2 ^ 53 → 0 ≤ m < 2 ^ 53 → f64_eqb (f64_of_Z n) (f64_of_Z m) = true → n = m.
Proof.
  intros Hn Hm He. apply f64_eqb_rank in He as (_ & _ & Hr).
  destruct (decide (n = m)) as [|Hne]; [done|]. exfalso.
  apply (rank_lt_irrefl (f64_rank (f64_of_Z n))). destruct (decide (n < m)).
  - rewrite Hr at 2. apply f64_of_Z_rank_lt; lia.
  - rewrite Hr at 1. apply f64_of_Z_rank_lt; lia.
Qed.
End exact.
