(* ===== verification/GoNumbers.v ===== *)
(** * Numbers, booleans and durations as text ([strconv], [time], [fmt])

    How the Go standard library reads them (the command line) and prints them (the
    reports), on byte strings.  A reader answers [None] where Go returns an
    error.  A duration is a number of nanoseconds, an [int64]. *)

From S2P Require Import Prelude GoStrings Data Float.

(** ** Characters *)
Definition chr (n : N) : ascii := ascii_of_N n.
Definition isDigit (c : ascii) : bool := (48 <=? N_of_ascii c) && (N_of_ascii c <=? 57).
(** [lower(c)]: an ASCII letter in lower case ([c | 32]). *)
Definition lowerc (c : ascii) : ascii := chr (N.lor (N_of_ascii c) 32).
Definition hexLetter (c : ascii) : bool := (97 <=? N_of_ascii (lowerc c)) && (N_of_ascii (lowerc c) <=? 102).
(** The value of a digit in a base up to 36; 255 for none. *)
Definition digitValue (c : ascii) : N :=
  let v := N_of_ascii c in
  let l := N_of_ascii (lowerc c) in
  if isDigit c then v - 48 else if (97 <=? l) && (l <=? 122) then l - 97 + 10 else 255.

(** ** Underscores ([underscoreOK])

    [saw]: nothing, a digit, an underscore, something else. *)
Inductive sawChar := Saw_None | Saw_Digit | Saw_Underscore | Saw_Other.
Fixpoint underscoresFrom (hex : bool) (saw : sawChar) (x : bytes) : bool :=
  match x with
  | [] => match saw with Saw_Underscore => false | _ => true end
  | c :: x' =>
      if isDigit c || (hex && hexLetter c) then underscoresFrom hex Saw_Digit x'
      else if bool_decide (c = "_"%char) then
        match saw with Saw_Digit => underscoresFrom hex Saw_Underscore x' | _ => false end
      else match saw with Saw_Underscore => false | _ => underscoresFrom hex Saw_Other x' end
  end.
Definition stripSign (x : bytes) : bytes :=
  match x with c :: x' => if bool_decide (c = "-"%char ∨ c = "+"%char) then x' else x | [] => [] end.
Definition underscoreOK (x : bytes) : bool :=
  match stripSign x with
  | "0"%char :: p :: x' =>
      let l := lowerc p in
      if bool_decide (l = "b"%char ∨ l = "o"%char ∨ l = "x"%char)
      then underscoresFrom (bool_decide (l = "x"%char)) Saw_Digit x'
      else underscoresFrom false Saw_None (stripSign x)
  | y => underscoresFrom false Saw_None y
  end.

(** ** Integers: [ParseUint(x, 0, 64)], [ParseInt(x, 0, 64)] *)
Fixpoint digitsIn (base acc : N) (x : bytes) : option N :=
  match x with
  | [] => Some acc
  | c :: x' =>
      if bool_decide (c = "_"%char) then digitsIn base acc x'
      else let d := digitValue c in if d <? base then digitsIn base (acc * base + d) x' else None
  end.
(** The base and the digits after its prefix. *)
Definition basePrefix (x : bytes) : N * bytes :=
  match x with
  | "0"%char :: p :: c :: x' =>
      let l := lowerc p in
      if bool_decide (l = "b"%char) then (2, c :: x')
      else if bool_decide (l = "o"%char) then (8, c :: x')
      else if bool_decide (l = "x"%char) then (16, c :: x')
      else (8, p :: c :: x')
  | "0"%char :: x' => (8, x')
  | _ => (10, x)
  end.
Definition ParseUint0 (x : bytes) : option N :=
  if nonempty x then
    let '(base, ds) := basePrefix x in
    n ← digitsIn base 0 ds;
    if (n <? two64) && (negb (bool_decide ("_"%char ∈ ds)) || underscoreOK x) then Some n else None
  else None.
Definition ParseInt0 (x : bytes) : option Z :=
  match x with
  | "-"%char :: x' => n ← ParseUint0 x'; if n <=? 2 ^ 63 then Some (- Z.of_N n)%Z else None
  | "+"%char :: x' => n ← ParseUint0 x'; if n <? 2 ^ 63 then Some (Z.of_N n) else None
  | _ => n ← ParseUint0 x; if n <? 2 ^ 63 then Some (Z.of_N n) else None
  end.
Definition ParseBool (x : bytes) : option bool :=
  if bool_decide (x ∈ [bs "1"; bs "t"; bs "T"; bs "TRUE"; bs "true"; bs "True"]) then Some true
  else if bool_decide (x ∈ [bs "0"; bs "f"; bs "F"; bs "FALSE"; bs "false"; bs "False"]) then Some false
  else None.

(** ** Floating point: [ParseFloat(x, 64)] *)
(** [m * 2^-s / d] to the nearest double: the quotient with at least 60 bits and a
    sticky bit below them. *)
Definition f64_of_ratio (neg : bool) (m d : N) : float64 :=
  if m =? 0 then S754_zero neg
  else
    let s := (Z.max 0 (Z.of_N (N.log2 d) - Z.of_N (N.log2 m) + 60))%Z in
    let num := (Z.of_N m * 2 ^ s)%Z in
    let q := (num / Z.of_N d)%Z in
    let sticky := if (num mod Z.of_N d =? 0)%Z then 0%Z else 1%Z in
    let v := (2 * q + sticky)%Z in
    binary_normalize 53 1024 (if neg then - v else v)%Z (- s - 1)%Z neg.
Definition f64_dec (neg : bool) (m : N) (e : Z) : float64 :=
  if (0 <=? e)%Z then f64_of_ratio neg (m * 10 ^ Z.to_N e) 1 else f64_of_ratio neg m (10 ^ Z.to_N (- e)).
Definition f64_bin (neg : bool) (m : N) (e : Z) : float64 :=
  if m =? 0 then S754_zero neg
  else binary_normalize 53 1024 (if neg then - Z.of_N m else Z.of_N m)%Z e neg.
(** The mantissa: its digits and how many follow the point; the rest. *)
Fixpoint mantissaIn (hex sawdot sawdigit : bool) (m : N) (frac : Z) (x : bytes) : option (N * Z * bytes) :=
  let stop := if sawdigit then Some (m, frac, x) else None in
  let base := if hex then 16 else 10 in
  match x with
  | [] => stop
  | c :: x' =>
      if bool_decide (c = "_"%char) then mantissaIn hex sawdot sawdigit m frac x'
      else if bool_decide (c = "."%char) then if sawdot then stop else mantissaIn hex true sawdigit m frac x'
      else if isDigit c || (hex && hexLetter c)
      then mantissaIn hex sawdot true (m * base + digitValue c) (if sawdot then frac + 1 else frac)%Z x'
      else stop
  end.
(** The digits of an exponent, capped as Go caps them. *)
Fixpoint exponentIn (e : Z) (x : bytes) : option Z :=
  match x with
  | [] => Some e
  | c :: x' =>
      if bool_decide (c = "_"%char) then exponentIn e x'
      else if isDigit c then exponentIn (if e <? 10000 then e * 10 + Z.of_N (digitValue c) else e)%Z x'
      else None
  end.
Definition exponentOf (x : bytes) : option Z :=
  let digits y := match y with c :: _ => if isDigit c then exponentIn 0 y else None | [] => None end in
  match x with
  | "-"%char :: x' => Z.opp <$> digits x'
  | "+"%char :: x' => digits x'
  | _ => digits x
  end.
Definition lowered (x : bytes) : bytes := (λ c, if isDigit c then c else lowerc c) <$> x.
Definition specialFloat (x : bytes) : option float64 :=
  let inf y := bool_decide (y = bs "inf" ∨ y = bs "infinity") in
  match x with
  | "-"%char :: x' => if inf (lowered x') then Some (S754_infinity true) else None
  | "+"%char :: x' => if inf (lowered x') then Some (S754_infinity false) else None
  | _ => if inf (lowered x) then Some (S754_infinity false)
         else if bool_decide (lowered x = bs "nan") then Some S754_nan else None
  end.
Definition readFloat (x : bytes) : option float64 :=
  let neg := match x with "-"%char :: _ => true | _ => false end in
  let y := stripSign x in
  let '(hex, y) :=
    match y with
    | "0"%char :: p :: c :: y' => if bool_decide (lowerc p = "x"%char) then (true, c :: y') else (false, y)
    | _ => (false, y)
    end in
  '(m, frac, rest) ← mantissaIn hex false false 0 0 y;
  let expChar := if hex then "p"%char else "e"%char in
  e ← match rest with
      | [] => if hex then None else Some 0%Z
      | c :: rest' => if bool_decide (lowerc c = expChar) then exponentOf rest' else None
      end;
  if negb (bool_decide ("_"%char ∈ x)) || underscoreOK x
  then Some (if (hex : bool) then f64_bin neg m (e - 4 * frac)%Z else f64_dec neg m (e - frac)%Z)
  else None.
(** A finite number out of range is an error. *)
Definition ParseFloat (x : bytes) : option float64 :=
  match specialFloat x with
  | Some v => Some v
  | None => v ← readFloat x; if IsInf v then None else Some v
  end.

(** ** Durations: [time.ParseDuration] *)
Definition microSign : bytes := [chr 194; chr 181] ++ bs "s".
Definition greekMu : bytes := [chr 206; chr 188] ++ bs "s".
Definition unitOf (u : bytes) : option N :=
  if bool_decide (u = bs "ns") then Some 1
  else if bool_decide (u = bs "us" ∨ u = microSign ∨ u = greekMu) then Some 1000
  else if bool_decide (u = bs "ms") then Some 1000000
  else if bool_decide (u = bs "s") then Some 1000000000
  else if bool_decide (u = bs "m") then Some 60000000000
  else if bool_decide (u = bs "h") then Some 3600000000000
  else None.
(** [leadingInt]: the digits and the rest; [None] past [2^63]. *)
Fixpoint leadingInt (v : N) (x : bytes) : option (N * bytes) :=
  match x with
  | c :: x' =>
      if isDigit c then
        if 2 ^ 63 / 10 <? v then None
        else let v' := v * 10 + digitValue c in if 2 ^ 63 <? v' then None else leadingInt v' x'
      else Some (v, x)
  | [] => Some (v, [])
  end.
(** [leadingFraction]: digits beyond what fits are skipped. *)
Fixpoint leadingFraction (over : bool) (f : N) (scale : float64) (x : bytes) : N * float64 * bytes :=
  match x with
  | c :: x' =>
      if isDigit c then
        if over || ((2 ^ 63 - 1) / 10 <? f) then leadingFraction true f scale x'
        else
          let y := f * 10 + digitValue c in
          if 2 ^ 63 <? y then leadingFraction true f scale x'
          else leadingFraction false y (f64_mul scale (f64_of_Z 10)) x'
      else (f, scale, x)
  | [] => (f, scale, [])
  end.
Fixpoint unitSpan (x : bytes) : bytes * bytes :=
  match x with
  | c :: x' =>
      if bool_decide (c = "."%char) || isDigit c then ([], x)
      else let '(u, r) := unitSpan x' in (c :: u, r)
  | [] => ([], [])
  end.
(** [uint64(x)] of a float that is a small non-negative number *)
Definition trunc_f64 (x : float64) : N :=
  match x with
  | S754_finite false m e => if (0 <=? e)%Z then N.pos m * 2 ^ Z.to_N e else N.pos m / 2 ^ Z.to_N (- e)
  | _ => 0
  end.
(** One component: its nanoseconds and the rest. *)
Definition durationPart (x : bytes) : option (N * bytes) :=
  match x with
  | [] => None
  | c :: _ =>
      if negb (bool_decide (c = "."%char) || isDigit c) then None
      else
        '(v, y) ← leadingInt 0 x;
        let pre := negb (length y =? length x)%nat in
        let '(f, scale, z, post) :=
          match y with
          | "."%char :: y' =>
              let '(f, scale, z) := leadingFraction false 0 (f64_of_Z 1) y' in
              (f, scale, z, negb (length z =? length y')%nat)
          | _ => (0, f64_of_Z 1, y, false)
          end in
        if negb pre && negb post then None
        else
          let '(u, rest) := unitSpan z in
          unit ← unitOf u;
          if 2 ^ 63 / unit <? v then None
          else
            let v := v * unit in
            let v := if 0 <? f then wrap64 (v + trunc_f64 (f64_mul (f64_of_N f) (f64_div (f64_of_N unit) scale)))
                     else v in
            if (0 <? f) && (2 ^ 63 <? v) then None else Some (v, rest)
  end.
(** Every component takes at least one byte. *)
Fixpoint durationParts (fuel : nat) (d : N) (x : bytes) : option N :=
  match x, fuel with
  | [], _ => Some d
  | _, O => None
  | _, S fuel' =>
      '(v, rest) ← durationPart x;
      let d := wrap64 (d + v) in
      if 2 ^ 63 <? d then None else durationParts fuel' d rest
  end.
Definition ParseDuration (x : bytes) : option Z :=
  let neg := match x with "-"%char :: _ => true | _ => false end in
  let y := stripSign x in
  if bool_decide (y = bs "0") then Some 0%Z
  else if bool_decide (y = []) then None
  else
    d ← durationParts (length y) 0 y;
    if (neg : bool) then Some (- Z.of_N d)%Z else if 2 ^ 63 - 1 <? d then None else Some (Z.of_N d).

(** ** Printing *)
(** The digits of a number in a base up to 16; [k] bounds their number. *)
Definition digitChar (d : N) : ascii := if d <? 10 then chr (48 + d) else chr (87 + d).
Fixpoint digitsFrom (base : N) (k : nat) (n : N) (acc : bytes) : bytes :=
  match k with
  | O => acc
  | S k' =>
      let acc := digitChar (n mod base) :: acc in
      if n <? base then acc else digitsFrom base k' (n / base) acc
  end.
Definition formatUint (base n : N) : bytes := digitsFrom base (S (N.to_nat (N.log2 n))) n [].
(** [%d] *)
Definition utoa (n : N) : bytes := formatUint 10 n.
Definition itoa (z : Z) : bytes := if (z <? 0)%Z then "-"%char :: utoa (Z.to_N (- z)) else utoa (Z.to_N z).
(** [%t] *)
Definition btoa (b : bool) : bytes := if b then bs "true" else bs "false".
(** [%.Nf]: the nearest decimal, a tie to the even one. *)
Definition roundHalfEven (num den : N) : N :=
  let q := num / den in
  let r := num mod den in
  if (2 * r <? den) || ((2 * r =? den) && N.even q) then q else q + 1.
Definition padLeft (w : nat) (c : ascii) (x : bytes) : bytes := replicate (w - length x) c ++ x.
Definition padRight (w : nat) (c : ascii) (x : bytes) : bytes := x ++ replicate (w - length x) c.
Definition fixedPoint (prec : nat) (q : N) : bytes :=
  let ten := 10 ^ N.of_nat prec in
  utoa (q / ten) ++ (if (prec =? 0)%nat then [] else "."%char :: padLeft prec "0"%char (utoa (q mod ten))).
Definition ftoa (prec : nat) (x : float64) : bytes :=
  let sign (neg : bool) y := if neg then "-"%char :: y else y in
  match x with
  | S754_nan => bs "NaN"
  | S754_infinity neg => if neg then bs "-Inf" else bs "+Inf"
  | S754_zero neg => sign neg (fixedPoint prec 0)
  | S754_finite neg m e =>
      let n := N.pos m * 10 ^ N.of_nat prec in
      sign neg (fixedPoint prec (if (0 <=? e)%Z then n * 2 ^ Z.to_N e else roundHalfEven n (2 ^ Z.to_N (- e))))
  end.
(** [Duration.String] *)
Fixpoint trimZeros (x : bytes) : bytes :=
  match x with c :: x' => if bool_decide (c = "0"%char) then trimZeros x' else x | [] => [] end.
(** [fmtFrac]: [v / 10^prec] without trailing zeros, nothing for a whole number. *)
Definition fmtFrac (v : N) (prec : nat) : bytes :=
  let ds := reverse (trimZeros (reverse (padLeft prec "0"%char (utoa (v mod 10 ^ N.of_nat prec))))) in
  if nonempty ds then "."%char :: ds else [].
Definition durationText (u : N) : bytes :=
  let part prec suffix := utoa (u / 10 ^ N.of_nat prec) ++ (if (prec =? 0)%nat then [] else fmtFrac u prec) ++ suffix in
  if u =? 0 then bs "0s"
  else if u <? 1000 then part 0%nat (bs "ns")
  else if u <? 1000000 then part 3%nat microSign
  else if u <? 1000000000 then part 6%nat (bs "ms")
  else
    let secs := u / 1000000000 in
    let mins := secs / 60 in
    let hours := mins / 60 in
    (if 0 <? hours then utoa hours ++ bs "h" else []) ++
    (if 0 <? mins then utoa (mins mod 60) ++ bs "m" else []) ++
    utoa (secs mod 60) ++ fmtFrac u 9 ++ bs "s".
Definition durationString (d : Z) : bytes :=
  if (d <? 0)%Z then "-"%char :: durationText (Z.to_N (- d)) else durationText (Z.to_N d).
(** [Duration.Milliseconds]: a duration is in nanoseconds; division truncates. *)
Definition milliseconds (d : Z) : Z := Z.quot d 1000000.
