(* ===== verification/Flags.v ===== *)
(** * Command-line flags (package [flag])

    What the commands use of it: a flag set with typed variables, and [Parse]
    with [ContinueOnError].  Parsing stops at the first word that is not a flag,
    at a lone dash, and after a double dash. *)

From Stdlib Require Import SpecFloat.
From S2P Require Import Prelude GoStrings Data Float GoNumbers.

(** A variable and its value; setting it keeps its type, a [FV_Multi] (a
    [flag.Value] that appends) collects. *)
Inductive flagValue :=
  | FV_String (x : bytes)
  | FV_Bool (b : bool)
  | FV_Int (z : Z)
  | FV_Uint (n : N)
  | FV_Float (x : float64)
  | FV_Duration (d : Z)
  | FV_Multi (xs : list bytes).
Definition setFlag (old : flagValue) (x : bytes) : option flagValue :=
  match old with
  | FV_String _ => Some (FV_String x)
  | FV_Bool _ => FV_Bool <$> ParseBool x
  | FV_Int _ => FV_Int <$> ParseInt0 x
  | FV_Uint _ => FV_Uint <$> ParseUint0 x
  | FV_Float _ => FV_Float <$> ParseFloat x
  | FV_Duration _ => FV_Duration <$> ParseDuration x
  | FV_Multi xs => Some (FV_Multi (xs ++ [x]))
  end.
Definition IsBoolFlag (v : flagValue) : bool := match v with FV_Bool _ => true | _ => false end.

Abbreviation FlagSet := (gmap bytes flagValue).
Definition NewFlagSet (decls : list (bytes * flagValue)) : FlagSet := list_to_map decls.

(** ** One word of the command line *)
Inductive flagWord := W_Positional | W_End | W_Bad | W_Flag (name : bytes) (value : option bytes).
Fixpoint cutEq (x : bytes) : bytes * option bytes :=
  match x with
  | [] => ([], None)
  | c :: x' => if bool_decide (c = "="%char) then ([], Some x') else let '(n, v) := cutEq x' in (c :: n, v)
  end.
Definition namedWord (x : bytes) : flagWord :=
  match x with
  | [] => W_Bad
  | c :: _ =>
      if bool_decide (c = "-"%char ∨ c = "="%char) then W_Bad else let '(n, v) := cutEq x in W_Flag n v
  end.
Definition flagWordOf (s : bytes) : flagWord :=
  match s with
  | d :: c :: r =>
      if negb (bool_decide (d = "-"%char)) then W_Positional
      else if bool_decide (c = "-"%char) then match r with [] => W_End | _ => namedWord r end
      else namedWord (c :: r)
  | _ => W_Positional
  end.

(** ** [Parse]: the variables, and the words left *)
Definition flagErr (what name : bytes) : bytes := what ++ bs ": -" ++ name.
Fixpoint Parse (fs : FlagSet) (args : list bytes) : result (FlagSet * list bytes) :=
  match args with
  | [] => Ok (fs, [])
  | s :: args' =>
      match flagWordOf s with
      | W_Positional => Ok (fs, args)
      | W_End => Ok (fs, args')
      | W_Bad => Err (bs "bad flag syntax: " ++ s)
      | W_Flag name value =>
          match fs !! name with
          | None =>
              Err (if bool_decide (name = bs "help" ∨ name = bs "h") then bs "flag: help requested"
                   else flagErr (bs "flag provided but not defined") name)
          | Some old =>
              if IsBoolFlag old then
                match setFlag old (default (bs "true") value) with
                | Some v => Parse (<[name := v]> fs) args'
                | None => Err (flagErr (bs "invalid boolean value") name)
                end
              else
                match value, args' with
                | Some x, _ =>
                    match setFlag old x with
                    | Some v => Parse (<[name := v]> fs) args'
                    | None => Err (flagErr (bs "invalid value") name)
                    end
                | None, x :: args'' =>
                    match setFlag old x with
                    | Some v => Parse (<[name := v]> fs) args''
                    | None => Err (flagErr (bs "invalid value") name)
                    end
                | None, [] => Err (flagErr (bs "flag needs an argument") name)
                end
          end
      end
  end.
(** A command looks at its variables and ignores the words left. *)
Definition parseFlags (decls : list (bytes * flagValue)) (args : list bytes) : result FlagSet :=
  match Parse (NewFlagSet decls) args with Ok (fs, _) => Ok fs | Err e => Err e end.

(** The variables, by type. *)
Definition strFlag (fs : FlagSet) (k : bytes) : bytes := match fs !! k with Some (FV_String x) => x | _ => [] end.
Definition boolFlag (fs : FlagSet) (k : bytes) : bool := match fs !! k with Some (FV_Bool b) => b | _ => false end.
Definition intFlag (fs : FlagSet) (k : bytes) : Z := match fs !! k with Some (FV_Int z) => z | _ => 0%Z end.
Definition uintFlag (fs : FlagSet) (k : bytes) : N := match fs !! k with Some (FV_Uint n) => n | _ => 0 end.
Definition floatFlag (fs : FlagSet) (k : bytes) : float64 :=
  match fs !! k with Some (FV_Float x) => x | _ => f64_zero end.
Definition durFlag (fs : FlagSet) (k : bytes) : Z := match fs !! k with Some (FV_Duration d) => d | _ => 0%Z end.
Definition multiFlag (fs : FlagSet) (k : bytes) : list bytes :=
  match fs !! k with Some (FV_Multi xs) => xs | _ => [] end.

(** * Flags parse back

    Printed numbers read back ([ParseUint0_utoa], [ParseInt0_itoa],
    [ParseDuration_durText], [ParseFloat_floatText]), and [Parse] against a
    declarative reading of a command line ([Parse_exact]). *)

(** Comparisons of [N] as booleans. *)
Ltac nlia := rewrite ?andb_true_iff, ?N.ltb_lt, ?N.leb_le, ?N.ltb_ge, ?N.leb_gt; lia.

(** ** Digits *)
Definition baseDigit (b : N) (c : ascii) : Prop :=
  digitValue c < b ∧ c ≠ "_"%char ∧ c ≠ "."%char ∧ (isDigit c || hexLetter c = true).
Lemma digitChar_spec d : d < 16 →
  digitValue (digitChar d) = d ∧ digitChar d ≠ "_"%char ∧ digitChar d ≠ "."%char ∧
  isDigit (digitChar d) || hexLetter (digitChar d) = true ∧ (d ≠ 0 → digitChar d ≠ "0"%char) ∧
  (d < 10 → isDigit (digitChar d) = true).
Proof.
  intros Hd. assert (Hall : Forall (λ d, digitValue (digitChar d) = d ∧ digitChar d ≠ "_"%char ∧ digitChar d ≠ "."%char ∧
    isDigit (digitChar d) || hexLetter (digitChar d) = true ∧ (d ≠ 0 → digitChar d ≠ "0"%char) ∧
    (d < 10 → isDigit (digitChar d) = true)) (N.of_nat <$> seq 0 16)).
  { repeat (apply Forall_cons; split; [vm_compute; repeat split; congruence|]). by apply Forall_nil. }
  rewrite Forall_forall in Hall. apply Hall. apply list_elem_of_fmap. exists (N.to_nat d).
  split; [lia|]. apply elem_of_seq. lia.
Qed.
Lemma baseDigit_char b d : 2 <= b → b <= 16 → d < b → baseDigit b (digitChar d).
Proof. intros Hb Hb' Hd. destruct (digitChar_spec d) as (H1 & H2 & H3 & H4 & _); [lia|]. unfold baseDigit. by rewrite H1. Qed.

Lemma digitsIn_cons b acc d x : d < b → b <= 16 → digitsIn b acc (digitChar d :: x) = digitsIn b (acc * b + d) x.
Proof.
  intros Hd Hb. cbn [digitsIn]. destruct (digitChar_spec d) as (Hv & Hu & _); [lia|].
  rewrite bool_decide_eq_false_2, Hv by done. by apply N.ltb_lt in Hd as ->.
Qed.
Lemma digitsFrom_value b k n x : 2 <= b → b <= 16 → n < b ^ N.of_nat k → k ≠ O →
  digitsIn b 0 (digitsFrom b k n x) = digitsIn b n x.
Proof.
  intros Hb Hb'. revert n x. induction k as [|k IH]; intros n x Hn Hk; [done|]. cbn [digitsFrom].
  assert (Hm : n mod b < b) by (apply N.mod_lt; lia).
  destruct (n <? b) eqn:E.
  - apply N.ltb_lt in E. rewrite digitsIn_cons, N.mod_small by done. f_equal.
  - apply N.ltb_ge in E. assert (Hpow : b ^ N.of_nat (S k) = b * b ^ N.of_nat k) by (rewrite Nat2N.inj_succ; apply N.pow_succ_r').
    rewrite IH, digitsIn_cons by (done || (apply N.Div0.div_lt_upper_bound; lia) || (intros ->; cbn in Hn; lia)).
    f_equal. pose proof (N.Div0.div_mod n b). lia.
Qed.
Lemma digitsFrom_digits b k n x : 2 <= b → b <= 16 → Forall (baseDigit b) x → Forall (baseDigit b) (digitsFrom b k n x).
Proof.
  intros Hb Hb'. revert n x. induction k as [|k IH]; intros n x Hx; [done|]. cbn [digitsFrom].
  assert (Hc : Forall (baseDigit b) (digitChar (n mod b) :: x)).
  { apply Forall_cons. split; [|done]. apply baseDigit_char; [done..|]. apply N.mod_lt. lia. }
  destruct (_ <? _); [done|]. by apply IH.
Qed.
Lemma digitsFrom_head b k n x : 2 <= b → b <= 16 → n < b ^ N.of_nat k → n ≠ 0 →
  ∃ c y, digitsFrom b k n x = c :: y ∧ c ≠ "0"%char.
Proof.
  intros Hb Hb'. revert n x. induction k as [|k IH]; intros n x Hn Hz; [cbn in Hn; lia|]. cbn [digitsFrom].
  destruct (n <? b) eqn:E.
  - apply N.ltb_lt in E. eexists _, _. split; [done|]. rewrite N.mod_small by done. apply digitChar_spec; lia.
  - apply N.ltb_ge in E. assert (Hpow : b ^ N.of_nat (S k) = b * b ^ N.of_nat k) by (rewrite Nat2N.inj_succ; apply N.pow_succ_r').
    apply IH; [apply N.Div0.div_lt_upper_bound; lia|]. assert (n / b <> 0); [|done]. intros H. apply N.div_small_iff in H; lia.
Qed.
Lemma format_fuel b n : 2 <= b → n < b ^ N.of_nat (S (N.to_nat (N.log2 n))).
Proof.
  intros Hb. destruct (decide (n = 0)) as [->|Hn]; [apply N.neq_0_lt_0, N.pow_nonzero; lia|].
  eapply N.lt_le_trans; [apply N.log2_spec; lia|]. rewrite Nat2N.inj_succ, N2Nat.id. apply N.pow_le_mono_l. lia.
Qed.
Lemma formatUint_spec b n : 2 <= b → b <= 16 →
  Forall (baseDigit b) (formatUint b n) ∧ digitsIn b 0 (formatUint b n) = Some n ∧
  ∃ c y, formatUint b n = c :: y ∧ (n ≠ 0 → c ≠ "0"%char).
Proof.
  intros Hb Hb'. pose proof (format_fuel b n Hb) as Hf. unfold formatUint. split; [by apply digitsFrom_digits|]. split.
  - by rewrite digitsFrom_value by done.
  - destruct (decide (n = 0)) as [->|Hn].
    + cbn [digitsFrom N.log2 N.to_nat]. assert ((0 <? b) = true) as -> by nlia. eexists _, _. split; [done|]. done.
    + destruct (digitsFrom_head b (S (N.to_nat (N.log2 n))) n [] Hb Hb' Hf Hn) as (c & y & E & Hc). eauto.
Qed.
(** Decimal. *)
Lemma decDigit_isDigit c : baseDigit 10 c → isDigit c = true.
Proof.
  intros (Hv & _ & _ & Hd). destruct (isDigit c) eqn:E; [done|]. cbn [orb] in Hd. exfalso. unfold digitValue in Hv.
  rewrite E in Hv. unfold hexLetter in Hd. apply andb_true_iff in Hd as [H1%N.leb_le H2%N.leb_le].
  assert ((97 <=? N_of_ascii (lowerc c)) && (N_of_ascii (lowerc c) <=? 122) = true) as Hl by nlia.
  rewrite Hl in Hv. lia.
Qed.
Lemma utoa_spec n : Forall (λ c, isDigit c = true) (utoa n) ∧ digitsIn 10 0 (utoa n) = Some n ∧ ¬ ("_"%char ∈ utoa n) ∧
  ∃ c y, utoa n = c :: y ∧ isDigit c = true ∧ (n ≠ 0 → c ≠ "0"%char).
Proof.
  destruct (formatUint_spec 10 n) as (Hd & Hv & c & y & E & Hc); [done..|]. fold (utoa n) in *.
  assert (Hds : Forall (λ c, isDigit c = true) (utoa n)) by (eapply Forall_impl; [exact Hd|apply decDigit_isDigit]).
  split; [done|]. split; [done|]. split.
  - intros Hu. rewrite Forall_forall in Hd. by destruct (Hd _ Hu) as (_ & ? & _).
  - exists c, y. split; [done|]. split; [|done]. rewrite E in Hds. by apply Forall_cons in Hds as [? _].
Qed.

(** ** Integers *)
Lemma basePrefix_dec c x : c ≠ "0"%char → basePrefix (c :: x) = (10, c :: x).
Proof. intros Hc. destruct c as [[] [] [] [] [] [] [] []]; try done. Qed.
Theorem ParseUint0_utoa n : n < two64 → ParseUint0 (utoa n) = Some n.
Proof.
  intros Hn. destruct (decide (n = 0)) as [->|Hz]; [reflexivity|].
  destruct (utoa_spec n) as (_ & Hv & Hu & c & y & E & _ & Hc). unfold ParseUint0. rewrite E in *. cbn [nonempty].
  rewrite basePrefix_dec, Hv by auto. cbn [mbind option_bind]. rewrite (bool_decide_eq_false_2 _ Hu).
  by apply N.ltb_lt in Hn as ->.
Qed.
Lemma isDigit_sign c : isDigit c = true → c ≠ "-"%char ∧ c ≠ "+"%char.
Proof. intros H. split; intros ->; by vm_compute in H. Qed.
(** Reading past a sign: the first byte decides. *)
Ltac byte_cases c := destruct c as [[] [] [] [] [] [] [] []]; try reflexivity; try done.
Lemma ParseInt0_unsigned c x : isDigit c = true →
  ParseInt0 (c :: x) = (n ← ParseUint0 (c :: x); if n <? 2 ^ 63 then Some (Z.of_N n) else None).
Proof. intros Hc%isDigit_sign. destruct Hc. byte_cases c. Qed.
Theorem ParseInt0_itoa z : (- 2 ^ 63 <= z < 2 ^ 63)%Z → ParseInt0 (itoa z) = Some z.
Proof.
  intros Hz. unfold itoa. destruct (z <? 0)%Z eqn:E.
  - cbn [ParseInt0]. rewrite ParseUint0_utoa by (unfold two64; lia). cbn [mbind option_bind].
    assert ((Z.to_N (- z) <=? 2 ^ 63) = true) as -> by nlia. f_equal. lia.
  - destruct (utoa_spec (Z.to_N z)) as (_ & _ & _ & c & y & Ey & Hc & _). rewrite Ey, ParseInt0_unsigned, <-Ey by done.
    rewrite ParseUint0_utoa by (unfold two64; lia). cbn [mbind option_bind].
    assert ((Z.to_N z <? 2 ^ 63) = true) as -> by nlia. f_equal. lia.
Qed.
Lemma ParseBool_btoa b : ParseBool (btoa b) = Some b.
Proof. by destruct b. Qed.

(** ** Durations *)
Definition durText (d : Z) : bytes := itoa d ++ bs "ns".
Lemma digitsIn_ge b acc x n : 1 <= b → digitsIn b acc x = Some n → acc <= n.
Proof.
  intros Hb. revert acc. induction x as [|c x IH]; intros acc; cbn [digitsIn]; [intros [= ->]; lia|].
  case_bool_decide as Hu; [apply IH|]. destruct (_ <? _); [|done]. intros Hn%IH. nia.
Qed.
Lemma leadingInt_digits acc ds r n : Forall (λ c, isDigit c = true) ds → digitsIn 10 acc ds = Some n → n <= 2 ^ 63 →
  leadingInt 0 r = Some (0, r) → match r with c :: _ => isDigit c = false | [] => True end →
  leadingInt acc (ds ++ r) = Some (n, r).
Proof.
  intros Hds. revert acc. induction Hds as [|c ds Hc Hds IH]; intros acc Hv Hn Hr Hr'.
  - cbn in Hv. injection Hv as ->. cbn [app]. destruct r as [|c r]; [done|]. cbn [leadingInt]. by rewrite Hr'.
  - cbn [digitsIn] in Hv. destruct (bool_decide (c = "_"%char)) eqn:Eu; [apply bool_decide_eq_true in Eu as ->; by vm_compute in Hc|].
    destruct (_ <? 10) eqn:Ed; [|done]. pose proof (digitsIn_ge 10 _ _ n ltac:(lia) Hv) as Hge.
    cbn [app leadingInt]. rewrite Hc. assert ((2 ^ 63 / 10 <? acc) = false) as ->.
    { apply N.ltb_ge. apply N.div_le_lower_bound; lia. }
    assert ((2 ^ 63 <? acc * 10 + digitValue c) = false) as -> by nlia. by apply IH.
Qed.
Lemma durationPart_ns n : n <= 2 ^ 63 → durationPart (utoa n ++ bs "ns") = Some (n, []).
Proof.
  intros Hn. destruct (utoa_spec n) as (Hds & Hv & _ & c & y & E & Hc & _).
  assert (Hl : leadingInt 0 (utoa n ++ bs "ns") = Some (n, bs "ns")) by by apply leadingInt_digits.
  unfold durationPart. rewrite E in *. cbn [app] in *. rewrite Hc, orb_true_r. cbn [negb]. rewrite Hl.
  cbn [mbind option_bind]. assert ((length (bs "ns") =? length (c :: y ++ bs "ns"))%nat = false) as ->.
  { cbn [length]. rewrite length_app. apply Nat.eqb_neq. lia. }
  cbn -[N.mul N.div N.pow N.ltb wrap64 unitSpan]. change (unitSpan _) with (bs "ns", []:bytes).
  cbn -[N.mul N.div N.pow N.ltb wrap64 unitOf]. change (unitOf _) with (Some 1).
  cbn -[N.mul N.div N.pow N.ltb wrap64]. rewrite N.mul_1_r. assert ((2 ^ 63 / 1 <? n) = false) as ->; [|done].
  rewrite N.div_1_r. nlia.
Qed.
Theorem ParseDuration_durText d : (- 2 ^ 63 <= d < 2 ^ 63)%Z → ParseDuration (durText d) = Some d.
Proof.
  intros Hd. set (n := Z.to_N (Z.abs d)). destruct (utoa_spec n) as (_ & _ & _ & c & y & E & Hc & _).
  pose proof (isDigit_sign c Hc) as [Hm Hp].
  assert (Hparts : ∀ k, durationParts (S k) 0 (utoa n ++ bs "ns") = Some n).
  { intros k. pose proof (durationPart_ns n ltac:(lia)) as Hpart. cbn [durationParts]. rewrite E in *. cbn [app] in *.
    rewrite Hpart. cbn [mbind option_bind]. rewrite N.add_0_l, wrap64_small by (unfold two64; lia).
    assert ((2 ^ 63 <? n) = false) as -> by nlia. by destruct k. }
  assert (Hnot : utoa n ++ bs "ns" ≠ bs "0" ∧ utoa n ++ bs "ns" ≠ []).
  { rewrite E. split; [|done]. intros H%(f_equal length). cbn in H. rewrite length_app in H. cbn in H. lia. }
  assert (Hlen : ∃ k, length (utoa n ++ bs "ns") = S k) by (rewrite E; cbn; eauto). destruct Hlen as [k Hk].
  unfold ParseDuration, durText, itoa. destruct (d <? 0)%Z eqn:Ed.
  - replace (Z.to_N (- d)) with n by lia. change (stripSign _) with (utoa n ++ bs "ns").
    rewrite !bool_decide_eq_false_2, Hk, Hparts by apply Hnot. cbn. f_equal. lia.
  - replace (Z.to_N d) with n by lia.
    assert (Hstrip : stripSign (utoa n ++ bs "ns") = utoa n ++ bs "ns").
    { rewrite E. cbn [app stripSign]. rewrite bool_decide_eq_false_2; [done|]. naive_solver. }
    rewrite Hstrip, !bool_decide_eq_false_2, Hk, Hparts by apply Hnot. cbn [mbind option_bind].
    assert (match utoa n ++ bs "ns" with "-"%char :: _ => true | _ => false end = false) as ->.
    { rewrite E. cbn [app]. clear -Hm. byte_cases c. }
    assert ((2 ^ 63 - 1 <? n) = false) as -> by nlia. f_equal. lia.
Qed.

(** ** Floating point

    A text that names a double exactly: hexadecimal mantissa, binary exponent. *)
Definition signed (neg : bool) (x : bytes) : bytes := if neg then "-"%char :: x else x.
Definition floatText (x : float64) : bytes :=
  match x with
  | S754_nan => bs "nan"
  | S754_infinity neg => signed neg (bs "inf")
  | S754_zero neg => signed neg (bs "0")
  | S754_finite neg m e => signed neg (bs "0x" ++ formatUint 16 (N.pos m) ++ "p"%char :: itoa e)
  end.
Lemma f64_bin_exact neg m e : valid_binary 53 1024 (S754_finite neg m e) = true →
  f64_bin neg (N.pos m) e = S754_finite neg m e ∧ (- 1074 <= e <= 971)%Z.
Proof.
  intros Hv. cbn [valid_binary] in Hv. unfold bounded in Hv. apply andb_true_iff in Hv as [Hc He].
  unfold canonical_mantissa in Hc. apply Z.eqb_eq in Hc.
  assert (Hshr : ∀ mz, mz = Zpos m → shr_fexp 53 1024 mz e loc_Exact = (Build_shr_record mz false false, e)).
  { intros mz ->. unfold shr_fexp. change (Zdigits2 (Z.pos m)) with (Z.pos (digits2_pos m)). by rewrite Hc, Z.sub_diag. }
  assert (Hround : binary_round 53 1024 neg m e = S754_finite neg m e).
  { unfold binary_round, shl_align. rewrite Hc, Z.sub_diag. unfold binary_round_aux. rewrite Hshr by done.
    cbn [shr_m loc_of_shr_record shr_r shr_s round_nearest_even]. rewrite Hshr by done. cbn [shr_m]. by rewrite He. }
  split; [unfold f64_bin; cbn [N.eqb]; by destruct neg|]. apply Z.leb_le in He. unfold fexp, emin in *. lia.
Qed.
Lemma mantissa_digits saw ds m m' f r : Forall (baseDigit 16) ds → digitsIn 16 m ds = Some m' →
  mantissaIn true false saw m f (ds ++ r) = mantissaIn true false (saw || nonempty ds) m' f r.
Proof.
  intros Hds. revert saw m. induction Hds as [|c ds (Hv & Hu & Hp & Hd) Hds IH]; intros saw m; cbn [digitsIn app].
  - intros [= ->]. by rewrite orb_false_r.
  - rewrite bool_decide_eq_false_2 by done. apply N.ltb_lt in Hv as Hv'. rewrite Hv'. intros Hm.
    cbn [mantissaIn]. rewrite !(bool_decide_eq_false_2 (c = _)), andb_true_l, Hd by done.
    rewrite IH by done. cbn [nonempty]. by rewrite orb_true_r, orb_true_l.
Qed.
Lemma exponent_digits acc ds n : Forall (λ c, isDigit c = true) ds → digitsIn 10 acc ds = Some n → n < 10000 →
  exponentIn (Z.of_N acc) ds = Some (Z.of_N n).
Proof.
  intros Hds. revert acc. induction Hds as [|c ds Hc Hds IH]; intros acc Hv Hn; [by injection Hv as ->|].
  cbn [digitsIn] in Hv. destruct (bool_decide (c = "_"%char)) eqn:Eu; [apply bool_decide_eq_true in Eu as ->; by vm_compute in Hc|].
  destruct (_ <? 10) eqn:Ed; [|done]. pose proof (digitsIn_ge 10 _ _ n ltac:(lia) Hv) as Hge.
  cbn [exponentIn]. rewrite Eu, Hc. assert ((Z.of_N acc <? 10000)%Z = true) as -> by lia.
  rewrite <-(IH (acc * 10 + digitValue c)) by done. f_equal. lia.
Qed.
Lemma exponentOf_itoa e : (- 10000 < e < 10000)%Z → exponentOf (itoa e) = Some e.
Proof.
  intros He. assert (Hds : ∀ n, n < 10000 →
    match utoa n with c :: _ => if isDigit c then exponentIn 0 (utoa n) else None | [] => None end = Some (Z.of_N n)).
  { intros n Hn. destruct (utoa_spec n) as (Hd & Hv & _ & c & y & E & Hc & _). rewrite E in *. rewrite Hc.
    by apply (exponent_digits 0). }
  unfold itoa. destruct (e <? 0)%Z eqn:E.
  - cbn [exponentOf]. rewrite Hds by lia. cbn. f_equal. lia.
  - specialize (Hds (Z.to_N e) ltac:(lia)). destruct (utoa_spec (Z.to_N e)) as (_ & _ & _ & c & y & Ey & Hc%isDigit_sign & _).
    rewrite Ey in *. destruct Hc as [Hm Hp]. rewrite <-(Z2N.id e) by lia. rewrite <-Hds. clear -Hm Hp. byte_cases c.
Qed.
Theorem ParseFloat_floatText x : valid_binary 53 1024 x = true → ParseFloat (floatText x) = Some x.
Proof.
  destruct x as [[]|[]| |neg m e]; intros Hv; try reflexivity.
  destruct (f64_bin_exact _ _ _ Hv) as [Hbin He].
  destruct (formatUint_spec 16 (N.pos m)) as (Hds & Hval & c & y & E & _); [done..|].
  set (t := formatUint 16 (N.pos m) ++ "p"%char :: itoa e) in *.
  assert (Hread : ∃ c', ∃ z', t = c' :: z' ∧ mantissaIn true false false 0 0 t = Some (N.pos m, 0%Z, "p"%char :: itoa e)).
  { exists c, (y ++ "p"%char :: itoa e). split; [subst t; by rewrite E|]. subst t.
    rewrite (mantissa_digits _ _ _ (N.pos m)) by done. rewrite E. reflexivity. }
  assert (Hund : "_"%char ∉ floatText (S754_finite neg m e)).
  { assert (Hbody : floatText (S754_finite neg m e) = signed neg (bs "0x") ++ t) by by destruct neg.
    rewrite Hbody. clear Hbody. intros [Hbody|Hbody]%elem_of_app.
    { revert Hbody. change (¬ ("_"%char ∈ signed neg (bs "0x"))). destruct neg; apply (bool_decide_unpack _); vm_compute; exact I. }
    subst t. apply elem_of_app in Hbody as [H|[H|H]%elem_of_cons]; [|done|].
    - rewrite Forall_forall in Hds. by destruct (Hds _ H) as (_ & ? & _).
    - unfold itoa in H. destruct (e <? 0)%Z; [apply elem_of_cons in H as [H|H]; [done|]|]; by apply utoa_spec in H. }
  destruct Hread as (c' & z' & Et & Hread). 
  assert (Hfin : readFloat (floatText (S754_finite neg m e)) = Some (S754_finite neg m e)).
  { unfold readFloat. rewrite (bool_decide_eq_false_2 _ Hund). cbn [negb orb].
    assert (stripSign (floatText (S754_finite neg m e)) = "0"%char :: "x"%char :: t) as -> by by destruct neg.
    rewrite Et. rewrite bool_decide_eq_true_2 by done. rewrite <-Et, Hread. cbn [mbind option_bind].
    change (bool_decide (lowerc "p"%char = _)) with true. cbv iota. rewrite exponentOf_itoa by lia. cbn [mbind option_bind].
    assert (match floatText (S754_finite neg m e) with "-"%char :: _ => true | _ => false end = neg) as -> by by destruct neg.
    by rewrite Z.mul_0_r, Z.sub_0_r, Hbin. }
  unfold ParseFloat. rewrite Hfin. cbn [mbind option_bind IsInf].
  assert (specialFloat (floatText (S754_finite neg m e)) = None) as ->; [|done].
  by destruct neg.
Qed.

(** ** [Parse]

    A word that sets a flag: with an equals sign, with the next word, or alone for
    a boolean; one dash or two. *)
Inductive form := F_Eq (value : bytes) | F_Next (value : bytes) | F_On.
Record item := mkitem { it_double : bool; it_name : bytes; it_form : form }.
Definition dashes (double : bool) : bytes := if double then bs "--" else bs "-".
Definition words (it : item) : list bytes :=
  let w := dashes it.(it_double) ++ it.(it_name) in
  match it.(it_form) with F_Eq v => [w ++ "="%char :: v] | F_Next v => [w; v] | F_On => [w] end.
Definition wordName (name : bytes) : Prop := ("="%char ∉ name) ∧ match name with c :: _ => c ≠ "-"%char | [] => False end.
(** What the words do to the variables. *)
Definition assign (fs : FlagSet) (it : item) : option FlagSet :=
  old ← fs !! it.(it_name);
  match it.(it_form), IsBoolFlag old with
  | F_Eq v, _ | F_Next v, false => x ← setFlag old v; Some (<[it.(it_name) := x]> fs)
  | F_On, true => Some (<[it.(it_name) := FV_Bool true]> fs)
  | _, _ => None
  end.
Fixpoint assigns (fs : FlagSet) (its : list item) : option FlagSet :=
  match its with [] => Some fs | it :: its' => fs' ← assign fs it; assigns fs' its' end.
(** What follows the flags: a word that is not one, or a double dash and anything. *)
Inductive ending (rest : list bytes) : list bytes → Prop :=
  | E_Stop : match rest with w :: _ => flagWordOf w = W_Positional | [] => True end → ending rest rest
  | E_Dash : ending rest (bs "--" :: rest).

Lemma cutEq_name n : "="%char ∉ n → cutEq n = (n, None).
Proof.
  induction n as [|c n IH]; [done|]. intros [Hc Hn]%not_elem_of_cons. cbn [cutEq].
  by rewrite bool_decide_eq_false_2, IH by done.
Qed.
Lemma cutEq_app n v : "="%char ∉ n → cutEq (n ++ "="%char :: v) = (n, Some v).
Proof.
  induction n as [|c n IH]; [done|]. intros [Hc Hn]%not_elem_of_cons. cbn [cutEq app].
  by rewrite bool_decide_eq_false_2, IH by done.
Qed.
Lemma cutEq_inv x : let '(n, v) := cutEq x in
  ("="%char ∉ n) ∧ x = n ++ match v with Some v => "="%char :: v | None => [] end.
Proof.
  induction x as [|c x IH]; cbn [cutEq]; [split; [apply not_elem_of_nil|done]|].
  case_bool_decide as Hc; [by subst; split; [apply not_elem_of_nil|]|]. destruct (cutEq x) as [n v]. destruct IH as [Hn ->].
  split; [|done]. apply not_elem_of_cons. split; [congruence|done].
Qed.
Lemma namedWord_spec x n v : namedWord x = W_Flag n v ↔
  wordName n ∧ x = n ++ match v with Some v => "="%char :: v | None => [] end.
Proof.
  split.
  - unfold namedWord. destruct x as [|c x]; [done|]. case_bool_decide as Hc; [done|]. pose proof (cutEq_inv (c :: x)) as Hi.
    destruct (cutEq (c :: x)) as [n' v']. destruct Hi as [Hn E]. intros [= <- <-]. split; [|done]. split; [done|].
    destruct n' as [|c' n']; [|naive_solver]. destruct v'; naive_solver.
  - intros [[Hn Hh] ->]. destruct n as [|c n]; [done|]. unfold namedWord. cbn [app].
    rewrite bool_decide_eq_false_2 by (apply not_elem_of_cons in Hn; naive_solver).
    destruct v as [v|]; [by rewrite app_comm_cons, cutEq_app|by rewrite app_nil_r, cutEq_name].
Qed.
Lemma namedWord_other x : namedWord x = W_Bad ∨ ∃ n v, namedWord x = W_Flag n v.
Proof. unfold namedWord. destruct x; [eauto|]. case_bool_decide; [eauto|]. destruct (cutEq _). eauto. Qed.
Lemma flagWord_dashes d n v : wordName n →
  flagWordOf ((dashes d ++ n) ++ match v with Some v => "="%char :: v | None => [] end) = W_Flag n v.
Proof.
  intros Hn. assert (Hw : namedWord (n ++ match v with Some v => "="%char :: v | None => [] end) = W_Flag n v)
    by by apply namedWord_spec.
  rewrite <-app_assoc. destruct Hn as [_ Hh], n as [|c n]; [done|]. destruct d; cbn [dashes app bs String.list_ascii_of_string].
  - exact Hw.
  - cbn [flagWordOf]. rewrite bool_decide_eq_true_2 by done. cbn [negb]. by rewrite bool_decide_eq_false_2.
Qed.
Lemma flagWord_inv s n v : flagWordOf s = W_Flag n v →
  wordName n ∧ ∃ d, s = (dashes d ++ n) ++ match v with Some v => "="%char :: v | None => [] end.
Proof.
  unfold flagWordOf. destruct s as [|d [|c r]]; [done..|]. case_bool_decide as Hd; cbn [negb]; [|done].
  case_bool_decide as Hc.
  - destruct r as [|a r]; [done|]. intros [Hn E]%namedWord_spec. split; [done|]. exists true. subst. by rewrite E.
  - intros [Hn E]%namedWord_spec. split; [done|]. exists false. subst. by rewrite E.
Qed.
Lemma flagWord_end s : flagWordOf s = W_End → s = bs "--".
Proof.
  unfold flagWordOf. destruct s as [|d [|c r]]; [done..|]. case_bool_decide as Hd; cbn [negb]; [|done].
  case_bool_decide as Hc; [|by destruct (namedWord_other (c :: r)) as [-> | (? & ? & ->)]].
  destruct r as [|a r]; [by subst|]. by destruct (namedWord_other (a :: r)) as [-> | (? & ? & ->)].
Qed.
Lemma Parse_item fs it fs' args : wordName it.(it_name) → assign fs it = Some fs' →
  Parse fs (words it ++ args) = Parse fs' args.
Proof.
  destruct it as [d n f]. intros Hn. unfold assign, words. cbn [it_name it_form it_double].
  destruct (fs !! n) as [old|] eqn:El; [|done]. cbn [mbind option_bind].
  pose proof (flagWord_dashes d n None Hn) as Hw. rewrite app_nil_r in Hw.
  destruct f as [v|v|]; cbn [app Parse].
  - pose proof (flagWord_dashes d n (Some v) Hn) as He. cbv iota in He. rewrite He, El. cbn [from_option id]. destruct (IsBoolFlag old); (destruct (setFlag old v); cbn; [by intros [= <-]|done]).
  - destruct (IsBoolFlag old) eqn:Eb; [done|]. rewrite Hw, El, Eb. destruct (setFlag old v); cbn; [by intros [= <-]|done].
  - destruct (IsBoolFlag old) eqn:Eb; [|done]. rewrite Hw, El, Eb. destruct old; try done. by intros [= <-].
Qed.
Lemma Parse_ending fs rest tail : ending rest tail → Parse fs tail = Ok (fs, rest).
Proof. intros [H|]; [|done]. destruct rest as [|w rest]; [done|]. cbn [Parse]. by rewrite H. Qed.

(** A command line parses exactly when it is a sequence of words that set declared
    flags, then something that is not a flag; the later word of a flag wins. *)
Theorem Parse_exact fs args fs' rest : Parse fs args = Ok (fs', rest) ↔
  ∃ its tail, args = (its ≫= words) ++ tail ∧ ending rest tail ∧
    Forall (λ it, wordName it.(it_name)) its ∧ assigns fs its = Some fs'.
Proof.
  split.
  - remember (length args) as k eqn:Hk. assert (length args <= k)%nat as Hle by lia. clear Hk. revert fs args Hle.
    induction k as [|k IH]; intros fs args Hle.
    { destruct args; [|simpl in Hle; lia]. intros [= <- <-]. exists [], []. by repeat constructor. }
    destruct args as [|s args]; [intros [= <- <-]; exists [], []; by repeat constructor|].
    assert (Hstep : ∀ d n f args' fs1, wordName n → s :: args = words (mkitem d n f) ++ args' →
      assign fs (mkitem d n f) = Some fs1 → Parse fs1 args' = Ok (fs', rest) → ∃ its tail,
      s :: args = (its ≫= words) ++ tail ∧ ending rest tail ∧ Forall (λ it, wordName it.(it_name)) its ∧ assigns fs its = Some fs').
    { intros d n f args' fs1 Hn E Ha Hp. destruct (IH fs1 args') as (its & tail & -> & He & Hf & Hs).
      { apply (f_equal length) in E. rewrite length_app in E. cbn in E, Hle. destruct f; cbn in E; lia. }
      { done. }
      exists (mkitem d n f :: its), tail. split; [by rewrite E; cbn; rewrite app_assoc|]. split; [done|].
      split; [by apply Forall_cons|]. cbn [assigns]. by rewrite Ha. }
    cbn [Parse]. destruct (flagWordOf s) as [| | |n v] eqn:Ew; [| |done|].
    + intros [= <- <-]. exists [], (s :: args). split; [done|]. split; [by apply E_Stop|]. done.
    + intros [= <- <-]. exists [], (s :: args). split; [done|]. split; [|done]. rewrite (flagWord_end _ Ew). apply E_Dash.
    + apply flagWord_inv in Ew as (Hn & d & ->). destruct (fs !! n) as [old|] eqn:El; [|done].
      destruct (IsBoolFlag old) eqn:Eb.
      * destruct (setFlag old (default (bs "true") v)) as [x|] eqn:Es; [|done]. intros Hp.
        destruct v as [v|]; [apply (Hstep d n (F_Eq v) args (<[n:=x]> fs))|apply (Hstep d n F_On args (<[n:=x]> fs))]; try done;
          unfold words, assign; cbn; rewrite ?app_nil_r, ?El; cbn; rewrite ?Eb; try done.
        { cbn in Es. by rewrite Es. }
        { destruct old; try done. vm_compute in Es. by injection Es as <-. }
      * destruct v as [v|].
        -- destruct (setFlag old v) as [x|] eqn:Es; [|done]. intros Hp. apply (Hstep d n (F_Eq v) args (<[n:=x]> fs)); try done.
           unfold assign. cbn. rewrite El. cbn. by rewrite Es.
        -- destruct args as [|v args]; [done|]. destruct (setFlag old v) as [x|] eqn:Es; [|done]. intros Hp.
           apply (Hstep d n (F_Next v) args (<[n:=x]> fs)); try done; [by unfold words; cbn; rewrite app_nil_r|].
           unfold assign. cbn. rewrite El. cbn. by rewrite Eb, Es.
  - intros (its & tail & -> & He & Hf & Hs). revert fs Hs. induction Hf as [|it its Hn Hf IH]; intros fs Hs.
    + injection Hs as ->. by apply Parse_ending.
    + cbn [assigns] in Hs. destruct (assign fs it) as [fs1|] eqn:Ea; [|done].
      change ((it :: its) ≫= words) with (words it ++ (its ≫= words)). rewrite <-app_assoc, (Parse_item _ _ _ _ Hn Ea). by apply IH.
Qed.

(** ** Printing a flag *)
Definition printableFlag (v : flagValue) : Prop :=
  match v with
  | FV_Int z => (- 2 ^ 63 <= z < 2 ^ 63)%Z
  | FV_Uint n => n < two64
  | FV_Float x => valid_binary 53 1024 x = true
  | FV_Duration d => (- 2 ^ 63 <= d < 2 ^ 63)%Z
  | FV_String _ | FV_Bool _ | FV_Multi _ => True
  end.
Definition flagTexts (v : flagValue) : list bytes :=
  match v with
  | FV_String x => [x]
  | FV_Bool b => [btoa b]
  | FV_Int z => [itoa z]
  | FV_Uint n => [utoa n]
  | FV_Float x => [floatText x]
  | FV_Duration d => [durText d]
  | FV_Multi xs => xs
  end.
(** The words for a variable: one per value, [--name=text]. *)
Definition flagItems (p : bytes * flagValue) : list item := (λ x, mkitem true p.1 (F_Eq x)) <$> flagTexts p.2.
Definition flagLine (pairs : list (bytes * flagValue)) : list bytes := (pairs ≫= flagItems) ≫= words.
(** A variable as declared, of the same type. *)
Definition declares (old v : flagValue) : Prop :=
  match old, v with
  | FV_String _, FV_String _ | FV_Bool _, FV_Bool _ | FV_Int _, FV_Int _ | FV_Uint _, FV_Uint _
  | FV_Float _, FV_Float _ | FV_Duration _, FV_Duration _ => True
  | FV_Multi old, FV_Multi _ => old = []
  | _, _ => False
  end.
Lemma assigns_multi fs n old xs : fs !! n = Some (FV_Multi old) →
  assigns fs ((λ x, mkitem true n (F_Eq x)) <$> xs) = Some (<[n := FV_Multi (old ++ xs)]> fs).
Proof.
  revert fs old. induction xs as [|x xs IH]; intros fs old Hl; cbn [fmap list_fmap assigns].
  - by rewrite app_nil_r, insert_id.
  - unfold assign. cbn [it_name it_form]. rewrite Hl. cbn [mbind option_bind setFlag IsBoolFlag].
    rewrite (IH _ (old ++ [x])) by apply lookup_insert_eq. by rewrite insert_insert_eq, <-app_assoc.
Qed.
Lemma assigns_flag fs n old v : fs !! n = Some old → declares old v → printableFlag v →
  assigns fs (flagItems (n, v)) = Some (<[n := v]> fs).
Proof.
  intros Hl Hd Hp. unfold flagItems.
  destruct old, v; try done; cbn [declares printableFlag flagTexts fst snd fmap list_fmap assigns] in *;
    try (unfold assign; cbn [it_name it_form]; rewrite Hl; cbn [mbind option_bind setFlag IsBoolFlag]).
  - done.
  - by rewrite ParseBool_btoa.
  - by rewrite ParseInt0_itoa.
  - by rewrite ParseUint0_utoa.
  - by rewrite ParseFloat_floatText.
  - by rewrite ParseDuration_durText.
  - subst. by rewrite (assigns_multi fs n []).
Qed.
Lemma assigns_app fs a b : assigns fs (a ++ b) = (fs' ← assigns fs a; assigns fs' b).
Proof. revert fs. induction a as [|it a IH]; intros fs; [done|]. cbn [app assigns]. destruct (assign fs it); [apply IH|done]. Qed.
(** Flags printed in turn set their variables. *)
Definition settable (fs : FlagSet) (p : bytes * flagValue) : Prop :=
  wordName p.1 ∧ printableFlag p.2 ∧ match fs !! p.1 with Some old => declares old p.2 | None => False end.
Definition setFlags (fs : FlagSet) (pairs : list (bytes * flagValue)) : FlagSet :=
  foldl (λ fs p, <[p.1 := p.2]> fs) fs pairs.
Lemma assigns_flags fs pairs : NoDup pairs.*1 → Forall (settable fs) pairs →
  assigns fs (pairs ≫= flagItems) = Some (setFlags fs pairs).
Proof.
  revert fs. induction pairs as [|[n v] pairs IH]; intros fs Hnd Hs; [done|]. apply Forall_cons in Hs as [(Hn & Hp & Hl) Hs].
  apply NoDup_cons in Hnd as [Hnew Hnd]. cbn [fst snd] in *. destruct (fs !! n) as [old|] eqn:El; [|done].
  change (((n, v) :: pairs) ≫= flagItems) with (flagItems (n, v) ++ (pairs ≫= flagItems)).
  rewrite assigns_app, (assigns_flag _ _ old) by done. apply IH; [done|]. rewrite Forall_forall in Hs |- *.
  intros p Hin. specialize (Hs p Hin). unfold settable in *. rewrite lookup_insert_ne; [done|].
  intros ->. apply Hnew. by apply list_elem_of_fmap_2.
Qed.
Lemma flagItems_names pairs : Forall (λ p, wordName p.1) pairs → Forall (λ it, wordName it.(it_name)) (pairs ≫= flagItems).
Proof.
  intros H. apply Forall_forall. intros it (p & Hit & Hp)%list_elem_of_bind. rewrite Forall_forall in H.
  apply list_elem_of_fmap in Hit as (x & -> & _). by apply H.
Qed.
Theorem Parse_flagLine fs pairs rest : NoDup pairs.*1 → Forall (settable fs) pairs →
  match rest with w :: _ => flagWordOf w = W_Positional | [] => True end →
  Parse fs (flagLine pairs ++ rest) = Ok (setFlags fs pairs, rest).
Proof.
  intros Hnd Hs Hrest. apply Parse_exact. exists (pairs ≫= flagItems), rest. split; [done|].
  split; [by apply E_Stop|]. split; [|by apply assigns_flags]. apply flagItems_names.
  eapply Forall_impl; [exact Hs|]. by intros p (? & _).
Qed.
