(* ===== verification/Policy.v ===== *)
(** * Scheduling policies ([internal/policy])

    A policy scores the groups of a lane.  The views handed to it are [abi.go],
    the builtin policies [builtin.go], the CEL and WASM adapters [cel.go] and
    [wasm.go] (their engines, cel-go and wazero, are parameters), compilation
    and validation [policy.go].  [Score] threads the compiled policy because a
    WASM module keeps its memory between calls; [None] is a panic. *)

From S2P Require Import Prelude Data Backoff Float.

#[local] Open Scope Z_scope.

(** ** Views ([abi.go]) *)
Record GroupView := mkGroupView {
  gv_ID : bytes;
  gv_Weight : float64;
  gv_BatchSize : N;
  gv_Backlog : Z;
  gv_InFlight : Z;
  gv_Deficit : float64;
  gv_VirtualTime : float64;
  gv_AgeMs : Z
}.

Record LaneView := mkLaneView {
  lv_Lane : bytes;
  lv_Groups : list GroupView;
  lv_NowMs : Z;
  lv_Turn : Z
}.

Record ConsumerView := mkConsumerView { cv_Credit : Z }.

(** ** Bindings ([policy.go]) *)
Definition KindDRR : bytes := bs "drr".
Definition KindWFQ : bytes := bs "wfq".
Definition KindStrictPriority : bytes := bs "strict_priority".
Definition KindLottery : bytes := bs "lottery".
Definition KindCompletionAware : bytes := bs "completion_aware".
Definition KindCEL : bytes := bs "cel".
Definition KindWASM : bytes := bs "wasm".

Record Binding := mkBinding {
  bi_Kind : bytes;
  bi_Source : bytes;
  bi_Version : N;
  bi_Hash : bytes
}.

(** ** The engines

    cel-go: an environment declares variables, compiles a source to a program,
    and a program evaluates to a dynamically typed value. *)
Inductive celType := DoubleType | IntType.
Inductive celVar := CelDouble (x : float64) | CelInt (z : Z).
Inductive celValue := CelFloat64 (x : float64) | CelInt64 (z : Z) | CelOther.

(** wazero: an instantiated module with its memory; calls take and return raw
    64-bit words. *)
Class PolicyEngines := {
  celProgram : Type;
  cel_Program : list (bytes * celType) → bytes → N → result celProgram;
  cel_Eval : celProgram → list (bytes * celVar) → result celValue;
  wasmModule : Type;
  wasm_Instantiate : N → bytes → bytes → result wasmModule;
  wasm_Exported : wasmModule → bytes → bool;
  wasm_Call : wasmModule → bytes → N → list N → result (list N) * wasmModule;
  EncodeF64 : float64 → N;
  DecodeF64 : N → float64;
}.

(** ** Compiled policies *)
Section policy.
Context {PE : PolicyEngines}.

Inductive Compiled :=
  | builtinWFQ
  | builtinStrict
  | builtinCompletionAware
  | builtinLottery
  | celPolicy (prg : celProgram)
  | wasmPolicy (md : wasmModule).

Definition WFQScores (gv : list GroupView) : list float64 :=
  (λ g, SFopp g.(gv_VirtualTime)) <$> gv.

(** [1e6], [1000.0] *)
Definition f64_1e6 : float64 := f64_of_Z 1000000.
Definition f64_1000 : float64 := f64_of_Z 1000.

Definition strictScore (g : GroupView) : float64 :=
  f64_sub (f64_mul g.(gv_Weight) f64_1e6) g.(gv_VirtualTime).

Definition lotteryScore (turn : Z) (g : GroupView) : float64 :=
  let h := fnv64a (g.(gv_ID) ++ le_bytes 8 (u64_of_int turn)) in
  let jitter := f64_div (f64_of_N (h mod 1000)) f64_1000 in
  f64_mul g.(gv_Weight) (f64_add f64_one jitter).

(** [cel.go] *)
Definition celEnv : list (bytes * celType) :=
  [(bs "weight", DoubleType); (bs "backlog", IntType); (bs "inflight", IntType);
   (bs "deficit", DoubleType); (bs "virtual_time", DoubleType); (bs "age_ms", IntType)].

Definition celVars (g : GroupView) : list (bytes * celVar) :=
  [(bs "weight", CelDouble g.(gv_Weight)); (bs "backlog", CelInt g.(gv_Backlog));
   (bs "inflight", CelInt g.(gv_InFlight)); (bs "deficit", CelDouble g.(gv_Deficit));
   (bs "virtual_time", CelDouble g.(gv_VirtualTime)); (bs "age_ms", CelInt g.(gv_AgeMs))].

Definition compileCEL (src : bytes) : result Compiled :=
  match cel_Program celEnv src 1000000 with
  | Ok prg => Ok (celPolicy prg)
  | Err e => Err (bs "cel: " ++ e)
  end.

Fixpoint celScore (prg : celProgram) (gs : list GroupView) : result (list float64) :=
  match gs with
  | [] => Ok []
  | g :: gs' =>
      match cel_Eval prg (celVars g) with
      | Err e => Err e
      | Ok CelOther => Err (bs "policy expression must yield a number")
      | Ok (CelFloat64 x) =>
          match celScore prg gs' with Ok xs => Ok (x :: xs) | Err e => Err e end
      | Ok (CelInt64 z) =>
          match celScore prg gs' with Ok xs => Ok (f64_of_Z z :: xs) | Err e => Err e end
      end
  end.

(** [wasm.go] *)
Definition compileWASM (code : bytes) : result Compiled :=
  match wasm_Instantiate 4096 (bs "_initialize") code with
  | Err e => Err (bs "wasm instantiate: " ++ e)
  | Ok md =>
      if wasm_Exported md (bs "score") then Ok (wasmPolicy md)
      else Err (bs "wasm module is missing the exported 'score' function")
  end.

Definition wasmArgs (g : GroupView) : list N :=
  [EncodeF64 g.(gv_Weight); u64_of_int g.(gv_Backlog); u64_of_int g.(gv_InFlight);
   EncodeF64 g.(gv_Deficit); EncodeF64 g.(gv_VirtualTime); u64_of_int g.(gv_AgeMs)].

(** One call per group with a 50 ms deadline; [res[0]] panics on a function
    that returns nothing. *)
Fixpoint wasmScore (md : wasmModule) (gs : list GroupView) :
    option (result (list float64) * wasmModule) :=
  match gs with
  | [] => Some (Ok [], md)
  | g :: gs' =>
      match wasm_Call md (bs "score") 50 (wasmArgs g) with
      | (Err e, md1) => Some (Err e, md1)
      | (Ok [], _) => None
      | (Ok (w :: _), md1) =>
          match wasmScore md1 gs' with
          | None => None
          | Some (Err e, md2) => Some (Err e, md2)
          | Some (Ok xs, md2) => Some (Ok (DecodeF64 w :: xs), md2)
          end
      end
  end.

(** The [Score] methods. *)
Definition Score (c : Compiled) (l : LaneView) (cv : ConsumerView) :
    option (result (list float64) * Compiled) :=
  match c with
  | builtinWFQ | builtinCompletionAware => Some (Ok (WFQScores l.(lv_Groups)), c)
  | builtinStrict => Some (Ok (strictScore <$> l.(lv_Groups)), c)
  | builtinLottery => Some (Ok (lotteryScore l.(lv_Turn) <$> l.(lv_Groups)), c)
  | celPolicy prg => Some (celScore prg l.(lv_Groups), c)
  | wasmPolicy md =>
      match wasmScore md l.(lv_Groups) with
      | Some (r, md') => Some (r, wasmPolicy md')
      | None => None
      end
  end.

(** [c.(ServeCoster)]: only [builtinCompletionAware] implements it. *)
Definition ServeCost (c : Compiled) : option (GroupView → float64) :=
  match c with
  | builtinCompletionAware => Some (λ g,
      let w := if f64_leb g.(gv_Weight) f64_zero then f64_one else g.(gv_Weight) in
      f64_div (f64_add f64_one (f64_of_Z g.(gv_InFlight))) w)
  | _ => None
  end.

(** ** Compilation and validation *)
Definition Compile (b : Binding) : result Compiled :=
  let k := b.(bi_Kind) in
  if bool_decide (k = KindDRR ∨ k = KindWFQ ∨ k = []) then Ok builtinWFQ
  else if bool_decide (k = KindStrictPriority) then Ok builtinStrict
  else if bool_decide (k = KindLottery) then Ok builtinLottery
  else if bool_decide (k = KindCompletionAware) then Ok builtinCompletionAware
  else if bool_decide (k = KindCEL) then compileCEL b.(bi_Source)
  else if bool_decide (k = KindWASM) then compileWASM b.(bi_Source)
  else Err (bs "unknown policy kind").

(** [fmt.Sprintf("g%d", i)] for the one-digit [i] of the fixtures. *)
Definition smokeGroup (i : nat) : GroupView :=
  mkGroupView (bs "g" ++ [ascii_of_N (48 + N.of_nat i)]) f64_one 0 (Z.of_nat i + 1) 0
    f64_zero (f64_of_Z (Z.of_nat i)) 0.
Definition smokeFixtures : list LaneView :=
  (λ n, mkLaneView (bs "smoke") (smokeGroup <$> seq 0 n) 1 0) <$> [0%nat; 1%nat; 5%nat].

Definition hasNonFinite (s : list float64) : bool := existsb (λ x, IsNaN x || IsInf x) s.

(** The smoke evaluation of [Validate]: the first error, if any. *)
Fixpoint smokeEval (c : Compiled) (vs : list LaneView) : option (result unit) :=
  match vs with
  | [] => Some (Ok tt)
  | v :: vs' =>
      match Score c v (mkConsumerView 1) with
      | None => None
      | Some (Err e, _) => Some (Err (bs "smoke eval failed: " ++ e))
      | Some (Ok sc, c') =>
          if negb (length sc =? length v.(lv_Groups))%nat
          then Some (Err (bs "policy returned the wrong number of scores"))
          else if hasNonFinite sc then Some (Err (bs "policy produced a non-finite score"))
          else smokeEval c' vs'
      end
  end.

Definition Validate (b : Binding) : option (result unit) :=
  match Compile b with
  | Err e => Some (Err e)
  | Ok c => smokeEval c smokeFixtures
  end.

(** ** Properties of scoring *)
Lemma celScore_length prg gs xs : celScore prg gs = Ok xs → length xs = length gs.
Proof.
  revert xs. induction gs as [|g gs IH]; simpl; intros xs E; [by simplify_eq|].
  destruct (cel_Eval prg (celVars g)) as [[x|z|]|]; try done;
    destruct (celScore prg gs); simplify_eq; simpl; auto.
Qed.
Lemma wasmScore_length md gs xs md' :
  wasmScore md gs = Some (Ok xs, md') → length xs = length gs.
Proof.
  revert md xs. induction gs as [|g gs IH]; simpl; intros md xs E; [by simplify_eq|].
  destruct (wasm_Call md _ 50 _) as [[[|w ws]|e] md1]; try done.
  destruct (wasmScore md1 gs) as [[[ys|e] md2]|] eqn:Es; simplify_eq. simpl. eauto.
Qed.

(** Every engine returns one score per group. *)
Lemma Score_length c l cv xs c' :
  Score c l cv = Some (Ok xs, c') → length xs = length l.(lv_Groups).
Proof.
  destruct c as [| | | |prg|md]; cbn [Score]; unfold WFQScores; intros E;
    try (injection E as <- _; by rewrite length_fmap).
  - injection E as E _. by eapply celScore_length.
  - destruct (wasmScore md (lv_Groups l)) as [[r md']|] eqn:Es; [|done].
    injection E as -> _. by eapply wasmScore_length.
Qed.

(** The builtin policies never fail and never panic. *)
Definition is_builtin (c : Compiled) : bool :=
  match c with celPolicy _ | wasmPolicy _ => false | _ => true end.
Lemma Score_builtin c l cv :
  is_builtin c = true → ∃ xs, Score c l cv = Some (Ok xs, c).
Proof. destruct c; try done; eexists; reflexivity. Qed.

(** The one way a policy panics: the calls of a pass over the groups reach one
    that succeeds without a value. *)
Inductive silent : wasmModule → list GroupView → Prop :=
  | silent_here md g gs md1 :
      wasm_Call md (bs "score") 50 (wasmArgs g) = (Ok [], md1) → silent md (g :: gs)
  | silent_later md g gs w ws md1 :
      wasm_Call md (bs "score") 50 (wasmArgs g) = (Ok (w :: ws), md1) →
      silent md1 gs → silent md (g :: gs).

Lemma wasmScore_None md gs : wasmScore md gs = None ↔ silent md gs.
Proof.
  split.
  - revert md. induction gs as [|g gs IH]; simpl; intros md; [done|].
    destruct (wasm_Call md _ 50 _) as [[[|w ws]|e] md1] eqn:E; [eauto using silent| |done].
    intros Hn. eapply silent_later; [done|]. apply IH.
    by destruct (wasmScore md1 gs) as [[[ys|e] md2]|].
  - induction 1 as [md g gs md1 E|md g gs w ws md1 E _ IH]; cbn [wasmScore]; rewrite E; [done|].
    by rewrite IH.
Qed.

(** A policy panics exactly when it is a module silent on the groups. *)
Definition silent_policy (c : Compiled) (gs : list GroupView) : Prop :=
  match c with wasmPolicy md => silent md gs | _ => False end.
Lemma Score_None c l cv : Score c l cv = None ↔ silent_policy c l.(lv_Groups).
Proof.
  destruct c; try done. simpl. rewrite <- wasmScore_None.
  by destruct (wasmScore _ _) as [[r md']|].
Qed.

(** A policy that can never be silent: its module, and every state its calls
    lead it to, answers a value or an error. *)
Definition answers (c : Compiled) : Prop :=
  match c with
  | wasmPolicy md => ∃ P : wasmModule → Prop, P md ∧ ∀ md1 args r md2,
      P md1 → wasm_Call md1 (bs "score") 50 args = (r, md2) → r ≠ Ok [] ∧ P md2
  | _ => True
  end.
Lemma answers_not_silent c gs : answers c → ¬ silent_policy c gs.
Proof.
  destruct c as [| | | | |md]; simpl; try tauto. intros (P & HP & Hc) Hs.
  induction Hs as [md g gs md1 E|md g gs w ws md1 E _ IH]; destruct (Hc _ _ _ _ HP E); auto.
Qed.
Lemma wasmScore_reaches (P : wasmModule → Prop) md gs r md' :
  (∀ md1 args r md2, P md1 → wasm_Call md1 (bs "score") 50 args = (r, md2) → r ≠ Ok [] ∧ P md2) →
  P md → wasmScore md gs = Some (r, md') → P md'.
Proof.
  intros Hc. revert md r. induction gs as [|g gs IH]; simpl; intros md r HP E; [by simplify_eq|].
  destruct (wasm_Call md _ 50 _) as [[[|w ws]|e] md1] eqn:Ec; [done| |].
  - destruct (Hc _ _ _ _ HP Ec) as [_ HP1].
    destruct (wasmScore md1 gs) as [[[ys|e] md2]|] eqn:Es; simplify_eq; by eapply IH.
  - simplify_eq. by destruct (Hc _ _ _ _ HP Ec).
Qed.
Lemma Score_answers c l cv r c' : answers c → Score c l cv = Some (r, c') → answers c'.
Proof.
  destruct c as [| | | | |md]; simpl; try (intros _ E; by simplify_eq).
  intros (P & HP & Hc). destruct (wasmScore md _) as [[r1 md1]|] eqn:E; [|done].
  intros [= <- <-]. exists P. split; [|done]. by eapply wasmScore_reaches.
Qed.
End policy.
