(* ===== verification/Scheduler.v ===== *)
(** * The fair scheduler ([internal/scheduler/scheduler.go])

    Each lane keeps a weighted virtual time per group, its compiled policy and
    the policy's fault bookkeeping.  [Pick] chooses the next group to serve; a
    policy that faults is replaced by weighted fair queueing for that pick and
    quarantined after [quarantineThreshold] faults in one window.  The mutex is
    not modelled (each operation holds it throughout); [None] is a panic. *)

From S2P Require Import Prelude Data Float Policy.

#[local] Open Scope Z_scope.

Definition quarantineThreshold : Z := 5.
Definition quarantineWindowMs : Z := 10000.

Record GroupStat := mkGroupStat {
  gs_ID : bytes;
  gs_Backlog : Z;
  gs_InFlight : Z;
  gs_Weight : float64
}.

Section scheduler.
Context {PE : PolicyEngines}.

Record laneState := mklaneState {
  ls_vt : gmap bytes float64;
  ls_turn : Z;
  ls_pol : option Compiled;
  ls_faults : Z;
  ls_windowStart : Z;
  ls_quarantined : bool
}.
Definition ls_set_vt (vt : gmap bytes float64) (ls : laneState) : laneState :=
  mklaneState vt ls.(ls_turn) ls.(ls_pol) ls.(ls_faults) ls.(ls_windowStart) ls.(ls_quarantined).
Definition ls_set_pol (p : option Compiled) (ls : laneState) : laneState :=
  mklaneState ls.(ls_vt) ls.(ls_turn) p ls.(ls_faults) ls.(ls_windowStart) ls.(ls_quarantined).

Definition newLane : laneState := mklaneState ∅ 0 None 0 0 false.

Abbreviation Scheduler := (gmap bytes laneState).
Definition NewScheduler : Scheduler := ∅.

(** [s.lane(name)], created on demand. *)
Definition lane_of (name : bytes) (s : Scheduler) : laneState := default newLane (s !! name).

Definition SetPolicy (lane : bytes) (c : Compiled) (s : Scheduler) : Scheduler :=
  let ls := lane_of lane s in
  <[lane := mklaneState ls.(ls_vt) ls.(ls_turn) (Some c) 0 ls.(ls_windowStart) false]> s.
Definition ClearPolicy (lane : bytes) (s : Scheduler) : Scheduler :=
  let ls := lane_of lane s in
  <[lane := mklaneState ls.(ls_vt) ls.(ls_turn) None 0 ls.(ls_windowStart) false]> s.
Definition HasPolicy (lane : bytes) (s : Scheduler) : bool :=
  match s !! lane with Some ls => bool_decide (is_Some ls.(ls_pol)) | None => false end.
Definition Quarantined (lane : bytes) (s : Scheduler) : bool :=
  match s !! lane with Some ls => ls.(ls_quarantined) | None => false end.
Definition Faults (lane : bytes) (s : Scheduler) : Z :=
  match s !! lane with Some ls => ls.(ls_faults) | None => 0 end.

Definition recordFault (nowMs : Z) (ls : laneState) : laneState :=
  let fresh := (ls.(ls_windowStart) =? 0)
               || (quarantineWindowMs <? wrap_i64 (nowMs - ls.(ls_windowStart))) in
  let start := if fresh then nowMs else ls.(ls_windowStart) in
  let faults := (if fresh then 0 else ls.(ls_faults)) + 1 in
  mklaneState ls.(ls_vt) ls.(ls_turn) ls.(ls_pol) faults start
    (if quarantineThreshold <=? faults then true else ls.(ls_quarantined)).

(** ** [Pick] *)

(** The minimum virtual time of the known active groups, 0 when it is +inf. *)
Definition minVirtualTime (vt : gmap bytes float64) (active : list GroupStat) : float64 :=
  let m := foldl (λ m g, match vt !! g.(gs_ID) with
                         | Some v => if f64_ltb v m then v else m
                         | None => m
                         end) f64_inf active in
  if IsPosInf m then f64_zero else m.

(** New groups join at the minimum. *)
Definition joinGroups (minVt : float64) (active : list GroupStat) (vt : gmap bytes float64) :
    gmap bytes float64 :=
  foldl (λ vt g, match vt !! g.(gs_ID) with
                 | Some _ => vt
                 | None => <[g.(gs_ID) := minVt]> vt
                 end) vt active.

Definition vtOf (vt : gmap bytes float64) (id : bytes) : float64 := default f64_zero (vt !! id).

Definition maxVirtualTime (vt : gmap bytes float64) (minVt : float64) (active : list GroupStat) :
    float64 :=
  foldl (λ m g, if f64_gtb (vtOf vt g.(gs_ID)) m then vtOf vt g.(gs_ID) else m) minVt active.

Definition viewOf (vt : gmap bytes float64) (maxVt : float64) (g : GroupStat) : GroupView :=
  let v := vtOf vt g.(gs_ID) in
  mkGroupView g.(gs_ID) g.(gs_Weight) 0 g.(gs_Backlog) g.(gs_InFlight) (f64_sub maxVt v) v 0.

(** The policy's scores, or WFQ's when there is none, it is quarantined, or it
    faults (the flag). *)
Definition scoreGroups (view : LaneView) (nowMs : Z) (ls : laneState) :
    option (list float64 * bool * laneState) :=
  let wfq := WFQScores view.(lv_Groups) in
  match ls.(ls_pol), ls.(ls_quarantined) with
  | Some c, false =>
      match Score c view (mkConsumerView 1) with
      | None => None
      | Some (r, c') =>
          let ls := ls_set_pol (Some c') ls in
          match r with
          | Err _ => Some (wfq, true, recordFault nowMs ls)
          | Ok sc =>
              if negb (length sc =? length view.(lv_Groups))%nat || hasNonFinite sc
              then Some (wfq, true, recordFault nowMs ls)
              else Some (sc, false, ls)
          end
      end
  | _, _ => Some (wfq, false, ls)
  end.

(** The scan for the best group with backlog: highest score, ties by id. *)
Definition better (g : GroupStat) (x : float64) (best : GroupStat * GroupView * float64) : bool :=
  f64_gtb x best.2 || (f64_eqb x best.2 && bytes_ltb g.(gs_ID) best.1.1.(gs_ID)).

Fixpoint chooseBest (best : option (GroupStat * GroupView * float64))
    (l : list (GroupStat * GroupView * float64)) : option (GroupStat * GroupView * float64) :=
  match l with
  | [] => best
  | c :: l' =>
      let '(g, v, x) := c in
      if g.(gs_Backlog) <=? 0 then chooseBest best l'
      else match best with
           | None => chooseBest (Some c) l'
           | Some b => if better g x b then chooseBest (Some c) l' else chooseBest best l'
           end
  end.

(** The virtual time charged for a serve: [1/weight], or more if the policy
    says so. *)
Definition serveCharge (usedFallback : bool) (ls : laneState) (g : GroupStat) (v : GroupView) :
    float64 :=
  let w := if f64_leb g.(gs_Weight) f64_zero then f64_one else g.(gs_Weight) in
  let inc := f64_div f64_one w in
  if negb usedFallback && negb ls.(ls_quarantined) then
    match ls.(ls_pol) with
    | Some c =>
        match ServeCost c with
        | Some cost => if f64_gtb (cost v) inc then cost v else inc
        | None => inc
        end
    | None => inc
    end
  else inc.

Definition Pick (lane : bytes) (active : list GroupStat) (nowMs : Z) (s : Scheduler) :
    option (bytes * bool * bool * Scheduler) :=
  if (length active =? 0)%nat then Some ([], false, false, s)
  else
    let ls := lane_of lane s in
    let minVt := minVirtualTime ls.(ls_vt) active in
    let vt := joinGroups minVt active ls.(ls_vt) in
    let maxVt := maxVirtualTime vt minVt active in
    let gv := viewOf vt maxVt <$> active in
    let ls := ls_set_vt vt ls in
    match scoreGroups (mkLaneView lane gv nowMs ls.(ls_turn)) nowMs ls with
    | None => None
    | Some (scores, usedFallback, ls) =>
        match chooseBest None (zip (zip active gv) scores) with
        | None => Some ([], usedFallback, false, <[lane := ls]> s)
        | Some (g, v, _) =>
            let inc := serveCharge usedFallback ls g v in
            let ls := mklaneState
              (<[g.(gs_ID) := f64_add (vtOf ls.(ls_vt) g.(gs_ID)) inc]> ls.(ls_vt))
              (wrap_i64 (ls.(ls_turn) + 1)) ls.(ls_pol) ls.(ls_faults) ls.(ls_windowStart)
              ls.(ls_quarantined) in
            Some (g.(gs_ID), usedFallback, true, <[lane := ls]> s)
        end
    end.
End scheduler.
