(* ===== verification/SchedulerProps.v ===== *)
(** * Properties of the fair scheduler

    Work conservation (whatever the policy does), the weighted-fair choice, the
    virtual-time invariant, quarantine, and round-robin service at equal
    weights. *)

From S2P Require Import Prelude Data Float Policy Scheduler.

#[local] Open Scope Z_scope.

(** ** The best candidate *)
Section choose.
Context {PE : PolicyEngines}.
Implicit Types (c : GroupStat * GroupView * float64) (l : list (GroupStat * GroupView * float64)).

Definition eligible (g : GroupStat) : Prop := 0 < g.(gs_Backlog).
#[global] Instance eligible_dec g : Decision (eligible g).
Proof. unfold eligible. apply _. Defined.

(** [c] is at least as good as [c']: a higher score, or the same and a smaller
    or equal id. *)
Definition at_least (c c' : GroupStat * GroupView * float64) : Prop :=
  rank_lt (f64_rank c'.2) (f64_rank c.2) ∨
  (f64_rank c'.2 = f64_rank c.2 ∧ bytes_le c.1.1.(gs_ID) c'.1.1.(gs_ID)).

Lemma at_least_refl c : at_least c c.
Proof. right. split; [done|]. reflexivity. Qed.
Lemma at_least_trans c1 c2 c3 : at_least c1 c2 → at_least c2 c3 → at_least c1 c3.
Proof.
  unfold at_least. intros [H1|[E1 L1]] [H2|[E2 L2]].
  - left. by eapply rank_lt_trans.
  - left. by rewrite E2.
  - left. by rewrite <-E1.
  - right. split; [congruence|]. by etransitivity.
Qed.

Lemma better_true g v x b :
  IsNaN x = false → IsNaN b.2 = false → better g x b = true → at_least (g, v, x) b.
Proof.
  unfold better. intros Hx Hb. rewrite orb_true_iff, andb_true_iff.
  change (f64_gtb x b.2) with (f64_ltb b.2 x). rewrite f64_ltb_rank, f64_eqb_rank.
  unfold at_least. simpl. intros [(_&_&?)|[(_&_&E) Hlt]]; [by left|right]. split; [done|].
  apply bytes_le_lteq. by left.
Qed.
Lemma better_false g v x b :
  IsNaN x = false → IsNaN b.2 = false → better g x b = false → at_least b (g, v, x).
Proof.
  unfold better. intros Hx Hb. rewrite orb_false_iff, andb_false_iff.
  change (f64_gtb x b.2) with (f64_ltb b.2 x). intros [Hlt Heq].
  assert (¬ rank_lt (f64_rank b.2) (f64_rank x)) as Hn.
  { intros Hr. assert (f64_ltb b.2 x = true) as E by (apply f64_ltb_rank; auto). congruence. }
  unfold at_least. simpl. destruct (decide (f64_rank x = f64_rank b.2)) as [E|E].
  - right. split; [done|]. destruct Heq as [Heq|Heq]; [|done].
    assert (f64_eqb x b.2 = true) as Ht by (apply f64_eqb_rank; auto). congruence.
  - left. destruct (f64_rank x) as [[a1 a2] a3], (f64_rank b.2) as [[b1 b2] b3].
    unfold rank_lt in *. simpl in *.
    destruct (decide (a1 = b1)), (decide (a2 = b2)), (decide (a3 = b3)); subst; try lia. done.
Qed.

Lemma chooseBest_in best l c :
  chooseBest best l = Some c → best = Some c ∨ (c ∈ l ∧ eligible c.1.1).
Proof.
  revert best. induction l as [|[[g v] x] l IH]; intros best; cbn [chooseBest]; [by left|].
  destruct (Z.leb_spec (gs_Backlog g) 0) as [Hb|Hb].
  - intros H. apply IH in H as [?|[? ?]]; [by left|right; split; [by right|done]].
  - destruct best as [b|].
    + destruct (better g x b); intros H; apply IH in H as [H|[? ?]]; simplify_eq; auto;
        right; split; [by left|done|by right|done|by right|done].
    + intros H; apply IH in H as [H|[? ?]]; simplify_eq; right; split; [by left|done|by right|done].
Qed.

Lemma chooseBest_some b l : is_Some (chooseBest (Some b) l).
Proof.
  revert b. induction l as [|[[g v] x] l IH]; intros b; cbn [chooseBest]; [eauto|].
  destruct (_ <=? _); [auto|]. destruct (better g x b); auto.
Qed.
Lemma chooseBest_is_Some l :
  is_Some (chooseBest None l) ↔ ∃ c, c ∈ l ∧ eligible c.1.1.
Proof.
  split.
  - intros [c H]. apply chooseBest_in in H as [|]; [done|eauto].
  - intros (c & Hin & He). induction l as [|[[g v] x] l IH]; [by apply elem_of_nil in Hin|].
    cbn [chooseBest]. destruct (Z.leb_spec (gs_Backlog g) 0) as [Hb|Hb]; [|apply chooseBest_some].
    apply elem_of_cons in Hin as [->|Hin]; [|auto]. unfold eligible in He. simpl in He. lia.
Qed.

Lemma chooseBest_best best l c :
  (∀ c', best = Some c' ∨ (c' ∈ l ∧ eligible c'.1.1) → IsNaN c'.2 = false) →
  chooseBest best l = Some c →
  ∀ c', best = Some c' ∨ (c' ∈ l ∧ eligible c'.1.1) → at_least c c'.
Proof.
  revert best. induction l as [|[[g v] x] l IH]; intros best Hn; cbn [chooseBest].
  - intros -> c' [[= ->]|[H _]]; [apply at_least_refl|by apply elem_of_nil in H].
  - destruct (Z.leb_spec (gs_Backlog g) 0) as [Hb|Hb].
    + intros H c' [Hc|[Hc He]].
      * eapply IH; [|exact H|by left]. intros c2 [?|[? ?]]; apply Hn; [by left|right].
        split; [by right|done].
      * apply elem_of_cons in Hc as [->|Hc]; [unfold eligible in He; simpl in He; lia|].
        eapply IH; [|exact H|by right]. intros c2 [?|[? ?]]; apply Hn; [by left|right].
        split; [by right|done].
    + assert (Hx : IsNaN x = false) by (apply (Hn (g, v, x)); right; split; [by left|done]).
      assert (Hstep : ∀ b', (b' = (g, v, x) ∨ best = Some b') →
                at_least b' (g, v, x) → (∀ b, best = Some b → at_least b' b) →
                chooseBest (Some b') l = Some c →
                ∀ c', best = Some c' ∨ (c' ∈ (g, v, x) :: l ∧ eligible c'.1.1) → at_least c c').
      { intros b' Hb' H1 H2 H.
        assert (Hn' : ∀ c2, Some b' = Some c2 ∨ (c2 ∈ l ∧ eligible c2.1.1) → IsNaN c2.2 = false).
        { intros c2 [[= <-]|[? ?]].
          - destruct Hb' as [->|Hb']; [done|]. apply Hn. by left.
          - apply Hn. right. split; [by right|done]. }
        assert (Hcb : at_least c b') by (eapply IH; [exact Hn'|exact H|by left]).
        intros c' [Hc|[Hc He]]; [eauto using at_least_trans|].
        apply elem_of_cons in Hc as [->|Hc]; [by eapply at_least_trans|].
        eapply IH; [exact Hn'|exact H|by right]. }
      destruct best as [b|].
      * assert (Hbn : IsNaN b.2 = false) by (apply Hn; by left).
        destruct (better g x b) eqn:Eb; intros H; eapply Hstep; try exact H; auto using at_least_refl.
        -- intros ? [= <-]. by apply better_true.
        -- by apply better_false.
        -- intros ? [= <-]. apply at_least_refl.
      * intros H; eapply Hstep; try exact H; auto using at_least_refl. done.
Qed.
End choose.

(** ** Virtual times *)
Section vtimes.
Implicit Types (vt : gmap bytes float64) (active : list GroupStat) (g : GroupStat).

(** Every virtual time is non-negative and not NaN. *)
Definition vts_ok vt : Prop := ∀ (id : bytes) v, vt !! id = Some v → f64_nonneg v = true.

Lemma vtOf_nonneg vt id : vts_ok vt → f64_nonneg (vtOf vt id) = true.
Proof. intros H. unfold vtOf. destruct (vt !! id) eqn:E; [by eapply H|done]. Qed.

Lemma min_fold vt active m0 :
  vts_ok vt → f64_nonneg m0 = true →
  let m := foldl (λ m g, match vt !! g.(gs_ID) with
                         | Some v => if f64_ltb v m then v else m
                         | None => m
                         end) m0 active in
  f64_nonneg m = true ∧ f64_leb m m0 = true ∧
  (m = m0 ∨ ∃ g, g ∈ active ∧ vt !! g.(gs_ID) = Some m) ∧
  ∀ g v, g ∈ active → vt !! g.(gs_ID) = Some v → f64_leb m v = true.
Proof.
  intros Hok. revert m0. induction active as [|g active IH]; intros m0 H0 m; subst m; cbn [foldl].
  - repeat split; [done|by apply f64_leb_refl, f64_nonneg_not_nan|by left|].
    intros g v Hin. by apply elem_of_nil in Hin.
  - set (m1 := match vt !! g.(gs_ID) with Some v => _ | None => _ end).
    assert (f64_nonneg m1 = true ∧ f64_leb m1 m0 = true ∧
            (m1 = m0 ∨ vt !! g.(gs_ID) = Some m1) ∧
            ∀ v, vt !! g.(gs_ID) = Some v → f64_leb m1 v = true) as (H1 & L1 & E1 & G1).
    { subst m1. destruct (vt !! g.(gs_ID)) as [v|] eqn:Ev.
      - pose proof (Hok _ _ Ev) as Hv. destruct (f64_ltb v m0) eqn:El.
        + repeat split; [done|by apply f64_ltb_leb|by right|].
          intros ? [= <-]. by apply f64_leb_refl, f64_nonneg_not_nan.
        + repeat split; [done|by apply f64_leb_refl, f64_nonneg_not_nan|by left|].
          intros ? [= <-]. rewrite f64_leb_ltb by (by apply f64_nonneg_not_nan). by rewrite El.
      - repeat split; [done|by apply f64_leb_refl, f64_nonneg_not_nan|by left|done]. }
    destruct (IH m1 H1) as (H2 & L2 & E2 & G2). clearbody m1.
    repeat split; [done|by eapply f64_leb_trans| |].
    + destruct E2 as [->|(g' & ? & ?)]; [|right; exists g'; split; [by right|done]].
      destruct E1 as [->|?]; [by left|]. right. exists g. split; [by left|done].
    + intros g' v Hin Hv. apply elem_of_cons in Hin as [->|Hin]; [|eauto].
      eapply f64_leb_trans; [exact L2|]. eauto.
Qed.

(** The minimum is a lower bound of the known active groups, attained by one
    of them unless none has a finite virtual time. *)
Lemma minVirtualTime_spec vt active :
  vts_ok vt →
  let m := minVirtualTime vt active in
  f64_nonneg m = true ∧
  (∀ g v, g ∈ active → vt !! g.(gs_ID) = Some v → f64_leb m v = true) ∧
  (m = f64_zero ∨ ∃ g, g ∈ active ∧ vt !! g.(gs_ID) = Some m).
Proof.
  intros Hok m. destruct (min_fold vt active f64_inf Hok eq_refl) as (H1 & _ & E1 & G1).
  subst m. unfold minVirtualTime. revert H1 E1 G1. generalize (foldl (λ m g,
    match vt !! g.(gs_ID) with Some v => if f64_ltb v m then v else m | None => m end) f64_inf active).
  intros m H1 E1 G1. destruct (IsPosInf m) eqn:Ei.
  - repeat split; [|by left]. intros g v Hin Hv. pose proof (Hok _ _ Hv) as Hn.
    destruct v as [[]|[]| |[]]; try done.
  - repeat split; [done|done|]. destruct E1 as [->|?]; [done|by right].
Qed.

Lemma joinGroups_lookup m active vt id :
  joinGroups m active vt !! id =
  match vt !! id with
  | Some v => Some v
  | None => if bool_decide (id ∈ gs_ID <$> active) then Some m else None
  end.
Proof.
  unfold joinGroups. revert vt. induction active as [|g active IH]; intros vt; cbn [foldl].
  - rewrite bool_decide_eq_false_2 by (simpl; apply not_elem_of_nil). by destruct (vt !! id).
  - rewrite IH, fmap_cons. destruct (vt !! g.(gs_ID)) eqn:Eg.
    + destruct (vt !! id) eqn:Ei; [done|]. assert (id ≠ g.(gs_ID)) by congruence.
      erewrite bool_decide_ext; [done|]. rewrite elem_of_cons. naive_solver.
    + destruct (decide (id = g.(gs_ID))) as [->|Hne].
      * rewrite lookup_insert_eq, Eg. by rewrite bool_decide_eq_true_2 by left.
      * rewrite lookup_insert_ne by done. destruct (vt !! id) eqn:Ei; [done|].
        erewrite bool_decide_ext; [done|]. rewrite elem_of_cons. naive_solver.
Qed.

Lemma joinGroups_ok m active vt : vts_ok vt → f64_nonneg m = true → vts_ok (joinGroups m active vt).
Proof.
  intros Hok Hm id v. rewrite joinGroups_lookup. destruct (vt !! id) eqn:E.
  - intros [= <-]. by eapply Hok.
  - case_bool_decide; naive_solver.
Qed.
End vtimes.

(** ** Scoring *)
Section scoring.
Context {PE : PolicyEngines}.
Implicit Types (ls : laneState) (view : LaneView).

(** Does this pick rank by WFQ? *)
Definition by_wfq (fb : bool) ls : Prop :=
  fb = true ∨ ls.(ls_pol) = None ∨ ls.(ls_quarantined) = true.

Lemma recordFault_frame now ls :
  ls_vt (recordFault now ls) = ls_vt ls ∧ ls_turn (recordFault now ls) = ls_turn ls ∧
  ls_pol (recordFault now ls) = ls_pol ls.
Proof. done. Qed.

Lemma scoreGroups_spec view now ls scores fb ls' :
  scoreGroups view now ls = Some (scores, fb, ls') →
  length scores = length view.(lv_Groups) ∧
  ls'.(ls_vt) = ls.(ls_vt) ∧ ls'.(ls_turn) = ls.(ls_turn) ∧
  (by_wfq fb ls → scores = WFQScores view.(lv_Groups)) ∧
  (¬ by_wfq fb ls → hasNonFinite scores = false).
Proof.
  unfold scoreGroups, by_wfq.
  assert (length (WFQScores view.(lv_Groups)) = length view.(lv_Groups)) as Hl.
  { unfold WFQScores. by rewrite length_fmap. }
  destruct (ls_pol ls) as [c|] eqn:Ep; [|intros [= <- <- <-]; naive_solver].
  destruct (ls_quarantined ls) eqn:Eq; [intros [= <- <- <-]; naive_solver|].
  destruct (Score c view _) as [[[sc|e] c']|]; [|intros [= <- <- <-]; naive_solver|done].
  destruct (negb _) eqn:En; [intros [= <- <- <-]; naive_solver|].
  destruct (hasNonFinite sc) eqn:Eh; [intros [= <- <- <-]; naive_solver|].
  apply negb_false_iff, Nat.eqb_eq in En. intros [= <- <- <-]. naive_solver.
Qed.

(** A non-finite-free score list has no NaN. *)
Lemma hasNonFinite_false (scores : list float64) x :
  hasNonFinite scores = false → x ∈ scores → IsNaN x = false.
Proof.
  unfold hasNonFinite. intros H Hin. destruct (IsNaN x) eqn:E; [|done].
  rewrite <-not_true_iff_false, existsb_exists in H. destruct H. exists x.
  split; [by apply list_elem_of_In|]. by rewrite E.
Qed.
End scoring.

(** ** Picks *)
Section pick.
Context {PE : PolicyEngines}.
Implicit Types (ls : laneState) (s : gmap bytes laneState) (active : list GroupStat).

Definition joined ls active : gmap bytes float64 :=
  joinGroups (minVirtualTime ls.(ls_vt) active) active ls.(ls_vt).
Definition views ls active : list GroupView :=
  let vt := joined ls active in
  viewOf vt (maxVirtualTime vt (minVirtualTime ls.(ls_vt) active) active) <$> active.
Definition candidates ls active (scores : list float64) :=
  zip (zip active (views ls active)) scores.

Lemma candidates_in ls active scores c :
  c ∈ candidates ls active scores →
  c.1.1 ∈ active ∧ c.1.2.(gv_VirtualTime) = vtOf (joined ls active) c.1.1.(gs_ID) ∧
  c.1.2.(gv_InFlight) = c.1.1.(gs_InFlight) ∧ c.2 ∈ scores.
Proof.
  destruct c as [[g v] x]. unfold candidates, views. intros Hin.
  apply list_elem_of_lookup in Hin as [i Hi]. rewrite !lookup_zip_with in Hi.
  rewrite list_lookup_fmap in Hi. destruct (active !! i) as [g'|] eqn:Eg; [|done].
  simpl in Hi. destruct (scores !! i) as [x'|] eqn:Ex; [|done]. simpl in Hi. simplify_eq. simpl.
  split; [by eapply list_elem_of_lookup_2|]. split; [done|]. split; [done|].
  by eapply list_elem_of_lookup_2.
Qed.
Lemma candidates_wfq ls active c :
  c ∈ candidates ls active (WFQScores (views ls active)) →
  c.2 = SFopp (vtOf (joined ls active) c.1.1.(gs_ID)).
Proof.
  destruct c as [[g v] x]. unfold candidates, views, WFQScores. intros Hin.
  apply list_elem_of_lookup in Hin as [i Hi]. rewrite !lookup_zip_with in Hi.
  rewrite !list_lookup_fmap in Hi. destruct (active !! i) as [g'|]; [|done].
  simpl in Hi. by simplify_eq.
Qed.
Lemma candidates_all ls active scores g :
  length scores = length active → g ∈ active →
  ∃ c, c ∈ candidates ls active scores ∧ c.1.1 = g.
Proof.
  intros Hl Hin. apply list_elem_of_lookup in Hin as [i Hi].
  assert (is_Some (scores !! i)) as [x Hx].
  { apply lookup_lt_is_Some. rewrite Hl. by eapply lookup_lt_Some. }
  eexists (g, _, x). split; [|done]. apply list_elem_of_lookup. exists i.
  unfold candidates, views. rewrite !lookup_zip_with, list_lookup_fmap, Hi. simpl. by rewrite Hx.
Qed.

(** What a pick does, in terms of its parts. *)
Lemma Pick_inv lane active now s gid fb ok s' :
  active ≠ [] → Pick lane active now s = Some (gid, fb, ok, s') →
  let ls0 := lane_of lane s in
  ∃ scores ls1,
    scoreGroups (mkLaneView lane (views ls0 active) now ls0.(ls_turn)) now
      (ls_set_vt (joined ls0 active) ls0) = Some (scores, fb, ls1) ∧
    match chooseBest None (candidates ls0 active scores) with
    | None => gid = [] ∧ ok = false ∧ s' = <[lane := ls1]> s
    | Some c =>
        gid = c.1.1.(gs_ID) ∧ ok = true ∧
        s' = <[lane := mklaneState
          (<[gid := f64_add (vtOf (joined ls0 active) gid) (serveCharge fb ls1 c.1.1 c.1.2)]>
             (joined ls0 active))
          (wrap_i64 (ls0.(ls_turn) + 1)) ls1.(ls_pol) ls1.(ls_faults) ls1.(ls_windowStart)
          ls1.(ls_quarantined)]> s
    end.
Proof.
  intros Hne. unfold Pick. destruct active as [|a active']; [done|].
  cbn [length Nat.eqb]. set (active := a :: active') in *. cbv zeta.
  fold (joined (lane_of lane s) active). fold (views (lane_of lane s) active).
  set (ls0 := lane_of lane s).
  destruct (scoreGroups _ _ _) as [[[scores fb1] ls1]|] eqn:Es; [|done].
  apply scoreGroups_spec in Es as Hs. destruct Hs as (_ & Hvt & Hturn & _).
  fold (candidates ls0 active scores).
  destruct (chooseBest None (candidates ls0 active scores)) as [[[g v] x]|] eqn:Ec.
  - intros [= <- <- <- <-]. exists scores, ls1. split; [done|]. rewrite Ec, Hvt, Hturn. done.
  - intros [= <- <- <- <-]. exists scores, ls1. split; [done|]. by rewrite Ec.
Qed.

(** ** Work conservation *)
Lemma pick_serves lane active now s gid fb ok s' :
  Pick lane active now s = Some (gid, fb, ok, s') →
  (ok = true ↔ ∃ g, g ∈ active ∧ eligible g) ∧
  (ok = true → ∃ g, g ∈ active ∧ eligible g ∧ g.(gs_ID) = gid).
Proof.
  intros H. destruct (decide (active = [])) as [->|Hne].
  { unfold Pick in H. simplify_eq/=. split; [|done].
    split; [done|]. intros (g & Hin & _). by apply elem_of_nil in Hin. }
  apply Pick_inv in H as (scores & ls1 & Hs & H); [|done]. simpl in H.
  apply scoreGroups_spec in Hs as (Hl & _). simpl in Hl. unfold views in Hl at 1.
  rewrite length_fmap in Hl.
  destruct (chooseBest None _) as [c|] eqn:Ec.
  - destruct H as (-> & -> & _). apply chooseBest_in in Ec as [|[Hin He]]; [done|].
    apply candidates_in in Hin as (Hin & _). split; [split; [|done]|]; eauto.
  - destruct H as (_ & -> & _). split; [|done]. split; [done|]. intros (g & Hin & He).
    destruct (candidates_all (lane_of lane s) active scores g Hl Hin) as (c & Hc & Eg).
    assert (is_Some (chooseBest None (candidates (lane_of lane s) active scores))) as [? E].
    { apply chooseBest_is_Some. exists c. rewrite Eg. auto. }
    by rewrite E in Ec.
Qed.

(** The views a pick shows the lane's policy, and the one way a pick panics. *)
Definition pick_views (lane : bytes) (active : list GroupStat) s : list GroupView :=
  let ls := lane_of lane s in
  let minVt := minVirtualTime ls.(ls_vt) active in
  let vt := joinGroups minVt active ls.(ls_vt) in
  viewOf vt (maxVirtualTime vt minVt active) <$> active.
Definition pick_silent (lane : bytes) (active : list GroupStat) s : Prop :=
  ∃ c, (lane_of lane s).(ls_pol) = Some c ∧ (lane_of lane s).(ls_quarantined) = false ∧
    silent_policy c (pick_views lane active s).

Lemma scoreGroups_None view now ls :
  scoreGroups view now ls = None ↔
  ∃ c, ls.(ls_pol) = Some c ∧ ls.(ls_quarantined) = false ∧ silent_policy c view.(lv_Groups).
Proof.
  unfold scoreGroups. destruct (ls_pol ls) as [c|].
  2: { split; [done|]. by intros (? & ? & _). }
  destruct (ls_quarantined ls); [split; [done|]; by intros (? & _ & ? & _)|].
  destruct (Score c view _) as [[[sc|e] c']|] eqn:E.
  - split; [by destruct (negb _ || _)|]. intros (? & [= <-] & _ & Hs).
    apply (Score_None c view (mkConsumerView 1)) in Hs. congruence.
  - split; [done|]. intros (? & [= <-] & _ & Hs).
    apply (Score_None c view (mkConsumerView 1)) in Hs. congruence.
  - split; [|done]. intros _. exists c. split; [done|]. split; [done|]. by eapply Score_None.
Qed.

Lemma Pick_None lane active now s : Pick lane active now s = None ↔ pick_silent lane active s.
Proof.
  unfold Pick, pick_silent. destruct active as [|g0 active]; [split; [done|]|].
  { intros (c & _ & _ & Hs). destruct c; try done. inversion Hs. }
  cbn [length Nat.eqb]. cbv zeta.
  match goal with |- context [scoreGroups ?v now ?ls] => pose proof (scoreGroups_None v now ls) as Hn;
    destruct (scoreGroups v now ls) as [[[scores fb1] ls1]|] end.
  - split; [by destruct (chooseBest _ _) as [[[g v] x]|]|]. intros H. by apply Hn in H.
  - split; [|done]. intros _. by apply Hn.
Qed.
End pick.

(** ** The weighted-fair choice *)
Section wfq.
Context {PE : PolicyEngines}.
Implicit Types (ls : laneState) (s : gmap bytes laneState) (active : list GroupStat).

Definition weight_of (g : GroupStat) : float64 :=
  if f64_leb g.(gs_Weight) f64_zero then f64_one else g.(gs_Weight).

Lemma weight_of_pos g : IsNaN g.(gs_Weight) = false → f64_ltb f64_zero (weight_of g) = true.
Proof.
  intros Hn. unfold weight_of. destruct (f64_leb _ _) eqn:E; [done|].
  rewrite f64_leb_ltb in E by done. by apply negb_false_iff in E.
Qed.

Lemma serveCharge_nonneg fb ls g v :
  IsNaN g.(gs_Weight) = false → f64_nonneg (serveCharge fb ls g v) = true.
Proof.
  intros Hn. unfold serveCharge. fold (weight_of g).
  assert (f64_nonneg (f64_div f64_one (weight_of g)) = true) as Hinc.
  { by apply f64_div_nonneg, weight_of_pos. }
  revert Hinc. generalize (f64_div f64_one (weight_of g)). intros inc Hinc.
  destruct (negb fb && _); [|done]. destruct (ls_pol ls) as [c|]; [|done].
  destruct (ServeCost c) as [cost|]; [|done]. destruct (f64_gtb (cost v) inc) eqn:E; [|done].
  change (f64_ltb inc (cost v) = true) in E. revert E. generalize (cost v). intros x E.
  apply f64_ltb_rank in E as (_ & Hx & Hr).
  destruct inc as [[]|[]| |[]], x as [[]|[]| |[]]; try done; unfold rank_lt in Hr; simpl in Hr; lia.
Qed.

(** The virtual times of every lane are non-negative. *)
Definition sched_ok s : Prop := ∀ (lane : bytes) ls, s !! lane = Some ls → vts_ok ls.(ls_vt).

Lemma sched_ok_lane s lane : sched_ok s → vts_ok (lane_of lane s).(ls_vt).
Proof.
  intros H. unfold lane_of. destruct (s !! lane) eqn:E; [by eapply H|].
  intros id v Hv. cbn in Hv. by rewrite lookup_empty in Hv.
Qed.
Lemma sched_ok_insert s lane ls : sched_ok s → vts_ok ls.(ls_vt) → sched_ok (<[lane := ls]> s).
Proof.
  intros Hs Hl lane' ls'. destruct (decide (lane' = lane)) as [->|].
  - rewrite lookup_insert_eq. by intros [= <-].
  - rewrite lookup_insert_ne by done. apply Hs.
Qed.

Lemma joined_ok ls active : vts_ok ls.(ls_vt) → vts_ok (joined ls active).
Proof. intros H. apply joinGroups_ok; [done|]. by apply minVirtualTime_spec. Qed.

Lemma sched_ok_Pick lane active now s gid fb ok s' :
  sched_ok s → Forall (λ g, IsNaN g.(gs_Weight) = false) active →
  Pick lane active now s = Some (gid, fb, ok, s') → sched_ok s'.
Proof.
  intros Hs Hw H. destruct (decide (active = [])) as [->|Hne].
  { unfold Pick in H. by simplify_eq/=. }
  apply Pick_inv in H as (scores & ls1 & Hsc & H); [|done]. simpl in H.
  pose proof (joined_ok (lane_of lane s) active (sched_ok_lane s lane Hs)) as Hj.
  apply scoreGroups_spec in Hsc as (_ & Hvt & _).
  destruct (chooseBest None _) as [c|] eqn:Ec.
  - destruct H as (_ & _ & ->). apply sched_ok_insert; [done|]. simpl.
    apply chooseBest_in in Ec as [|[Hin He]]; [done|]. apply candidates_in in Hin as (Hin & _).
    intros id v. destruct (decide (id = gid)) as [->|].
    + rewrite lookup_insert_eq. intros [= <-]. apply f64_add_nonneg; [by apply vtOf_nonneg|].
      apply serveCharge_nonneg. rewrite Forall_forall in Hw. auto.
    + rewrite lookup_insert_ne by done. apply Hj.
  - destruct H as (_ & _ & ->). apply sched_ok_insert; [done|]. by rewrite Hvt.
Qed.

Lemma wfq_choice lane active now s gid fb s' :
  sched_ok s → by_wfq fb (lane_of lane s) →
  Pick lane active now s = Some (gid, fb, true, s') →
  let vt := joined (lane_of lane s) active in
  ∃ g, g ∈ active ∧ eligible g ∧ g.(gs_ID) = gid ∧
    (∀ g', g' ∈ active → eligible g' →
       f64_ltb (vtOf vt gid) (vtOf vt g'.(gs_ID)) = true ∨
       (f64_eqb (vtOf vt gid) (vtOf vt g'.(gs_ID)) = true ∧ bytes_le gid g'.(gs_ID))) ∧
    (lane_of lane s').(ls_vt) = <[gid := f64_add (vtOf vt gid) (f64_div f64_one (weight_of g))]> vt.
Proof.
  intros Hs Hby H vt. destruct (decide (active = [])) as [->|Hne].
  { unfold Pick in H. by simplify_eq/=. }
  apply Pick_inv in H as (scores & ls1 & Hsc & H); [|done]. simpl in H. fold vt in H.
  pose proof (joined_ok (lane_of lane s) active (sched_ok_lane s lane Hs)) as Hj. fold vt in Hj.
  pose proof Hsc as Hsc0. apply scoreGroups_spec in Hsc as (Hl & Hvt & _ & Hwfq & _).
  simpl in Hl, Hwfq. specialize (Hwfq Hby). subst scores.
  unfold views in Hl. unfold WFQScores in Hl. rewrite !length_fmap in Hl. clear Hl.
  destruct (chooseBest None _) as [c|] eqn:Ec; [|naive_solver]. destruct H as (-> & _ & ->).
  pose proof (chooseBest_in _ _ _ Ec) as [|[Hin He]]; [done|].
  pose proof (candidates_in _ _ _ _ Hin) as (Hact & _).
  assert (Hscore : ∀ c', c' ∈ candidates (lane_of lane s) active
                     (WFQScores (views (lane_of lane s) active)) →
            c'.2 = SFopp (vtOf vt c'.1.1.(gs_ID))).
  { intros c' Hc'. by apply candidates_wfq. }
  exists c.1.1. split; [done|]. split; [done|]. split; [done|]. split.
  - intros g' Hg' He'.
    destruct (candidates_all (lane_of lane s) active (WFQScores (views (lane_of lane s) active)) g')
      as (c' & Hc' & <-); [unfold WFQScores, views; by rewrite !length_fmap|done|].
    assert (at_least c c') as Hle.
    { eapply chooseBest_best; [|exact Ec|by right].
      intros c2 [|[Hc2 _]]; [done|]. rewrite (Hscore c2) by done. rewrite IsNaN_opp.
      by apply f64_nonneg_not_nan, vtOf_nonneg. }
    unfold at_least in Hle. rewrite (Hscore c), (Hscore c') in Hle by done.
    destruct Hle as [Hlt|[Heq Hle]]; [left|right; split; [|done]].
    + rewrite <-f64_ltb_opp. apply f64_ltb_rank. rewrite !IsNaN_opp.
      repeat split; [by apply f64_nonneg_not_nan, vtOf_nonneg..|done].
    + rewrite <-f64_eqb_opp. apply f64_eqb_rank. rewrite !IsNaN_opp.
      repeat split; [by apply f64_nonneg_not_nan, vtOf_nonneg..|done].
  - unfold lane_of at 1. rewrite lookup_insert_eq. simpl. do 2 f_equal.
    unfold serveCharge. fold (weight_of c.1.1).
    assert (negb fb && negb ls1.(ls_quarantined) = false ∨ ls1.(ls_pol) = None) as Hno.
    { destruct fb; [by left|]. destruct Hby as [|Hby]; [done|].
      unfold scoreGroups in Hsc0. simpl in Hsc0.
      destruct (ls_pol (lane_of lane s)) as [p|] eqn:Ep; [|injection Hsc0 as <-; by right].
      destruct Hby as [|Hq]; [done|]. rewrite Hq in Hsc0. injection Hsc0 as <-. left.
      simpl. by rewrite Hq. }
    destruct Hno as [E|E]; rewrite E; [done|]. by destruct (_ && _).
Qed.

(** A group the lane has not seen joins at the minimum virtual time of the
    active ones. *)
Lemma newcomer_joins ls active g :
  vts_ok ls.(ls_vt) → g ∈ active → ls.(ls_vt) !! g.(gs_ID) = None →
  let v := vtOf (joined ls active) g.(gs_ID) in
  (∀ g' v', g' ∈ active → ls.(ls_vt) !! g'.(gs_ID) = Some v' → f64_leb v v' = true) ∧
  (v = f64_zero ∨ ∃ g', g' ∈ active ∧ ls.(ls_vt) !! g'.(gs_ID) = Some v).
Proof.
  intros Hok Hin Hnew v. pose proof (minVirtualTime_spec ls.(ls_vt) active Hok) as (_ & Hlb & Hatt).
  assert (v = minVirtualTime ls.(ls_vt) active) as ->; [|auto].
  subst v. unfold vtOf, joined. rewrite joinGroups_lookup, Hnew.
  by rewrite bool_decide_eq_true_2 by by apply list_elem_of_fmap_2.
Qed.
End wfq.

(** ** Equal weights: round robin *)
Section round_robin.
Context {PE : PolicyEngines}.
Implicit Types (ls : laneState) (s : gmap bytes laneState).

(** Serve once at each of the given instants; the served groups, in order. *)
Fixpoint serve (lane : bytes) (active : list GroupStat) (times : list Z) s :
    option (list bytes * gmap bytes laneState) :=
  match times with
  | [] => Some ([], s)
  | now :: times' =>
      match Pick lane active now s with
      | Some (gid, _, true, s1) =>
          match serve lane active times' s1 with
          | Some (gids, s2) => Some (gid :: gids, s2)
          | None => None
          end
      | _ => None
      end
  end.

Definition times_served (id : bytes) (gids : list bytes) : Z :=
  Z.of_nat (length (filter (λ x, x = id) gids)).

Lemma times_served_snoc id gids gid :
  times_served id (gids ++ [gid]) = times_served id gids + (if bool_decide (gid = id) then 1 else 0).
Proof.
  unfold times_served. rewrite filter_app, length_app, filter_cons. case_decide; case_bool_decide; try done; simpl; lia.
Qed.
Lemma times_served_bound id gids : 0 ≤ times_served id gids ≤ Z.of_nat (length gids).
Proof. unfold times_served. pose proof (length_filter (λ x, x = id) gids). lia. Qed.

Variables (lane : bytes) (active : list GroupStat).
Hypothesis (Hne : active ≠ []).
Hypothesis (Hbusy : Forall eligible active).
Hypothesis (Hone : Forall (λ g, g.(gs_Weight) = f64_one) active).

Record rr_inv s (gids : list bytes) : Prop := {
  rr_ok : sched_ok s;
  rr_pol : (lane_of lane s).(ls_pol) = None;
  rr_vt g : g ∈ active →
    vtOf (joined (lane_of lane s) active) g.(gs_ID) = f64_of_Z (times_served g.(gs_ID) gids);
  rr_spread g h : g ∈ active → h ∈ active →
    times_served g.(gs_ID) gids ≤ times_served h.(gs_ID) gids + 1
}.

Lemma joined_known ls g : g ∈ active → is_Some (joined ls active !! g.(gs_ID)).
Proof.
  intros Hin. unfold joined. rewrite joinGroups_lookup. destruct (ls_vt ls !! g.(gs_ID)); [eauto|].
  rewrite bool_decide_eq_true_2 by by apply list_elem_of_fmap_2. eauto.
Qed.

Lemma Pick_unpoliced now s :
  (lane_of lane s).(ls_pol) = None → is_Some (Pick lane active now s).
Proof.
  intros Hp. unfold Pick. destruct (_ =? _)%nat; [eauto|]. cbv zeta. unfold scoreGroups. cbn [ls_pol ls_set_vt].
  rewrite Hp. destruct (chooseBest _ _) as [[[g v] x]|]; eauto.
Qed.

Lemma rr_step now s gids :
  rr_inv s gids → Z.of_nat (length gids) + 1 < 2 ^ 53 →
  ∃ gid fb s', Pick lane active now s = Some (gid, fb, true, s') ∧ rr_inv s' (gids ++ [gid]).
Proof using Hne Hbusy Hone.
  intros [Hok Hpol Hvt Hspread] Hlen.
  destruct (Pick_unpoliced now s Hpol) as [[[[gid fb] ok] s'] Hp]. pose proof Hp as Hp0.
  apply pick_serves in Hp0 as [Hserve _].
  assert (ok = true) as ->.
  { apply Hserve. destruct active as [|a l]; [done|]. exists a. rewrite Forall_cons in Hbusy. split; [by left|naive_solver]. }
  exists gid, fb, s'. split; [done|].
  destruct (wfq_choice lane active now s gid fb s') as (g & Hg & He & Hid & Hmin & Hnew);
    [done|by right; left|done|].
  subst gid.
  assert (Hw : f64_div f64_one (weight_of g) = f64_one).
  { rewrite Forall_forall in Hone. unfold weight_of. rewrite (Hone g Hg). by vm_compute. }
  pose proof (λ id, times_served_bound id gids) as Hbd.
  assert (Hle : ∀ h, h ∈ active → times_served g.(gs_ID) gids ≤ times_served h.(gs_ID) gids).
  { intros h Hh. pose proof (Hbd g.(gs_ID)). pose proof (Hbd h.(gs_ID)).
    rewrite Forall_forall in Hbusy.
    destruct (Hmin h Hh (Hbusy h Hh)) as [Hl|[Hq _]]; rewrite (Hvt g), (Hvt h) in * by done.
    - rewrite f64_of_Z_ltb in Hl by lia. lia.
    - apply f64_of_Z_eqb in Hq; lia. }
  pose proof (Hbd g.(gs_ID)). rewrite Hw, (Hvt g) in Hnew by done.
  rewrite f64_succ in Hnew by lia.
  split.
  - eapply sched_ok_Pick; [done| |exact Hp]. eapply Forall_impl; [exact Hone|]. by intros ? ->.
  - destruct (Pick_inv _ _ _ _ _ _ _ _ Hne Hp) as (scores & ls1 & Hsc & Hs'). simpl in Hs'.
    unfold scoreGroups in Hsc. cbn [ls_pol ls_set_vt] in Hsc. rewrite Hpol in Hsc.
    injection Hsc as _ _ <-. destruct (chooseBest _ _) as [c|]; [|naive_solver].
    destruct Hs' as (_ & _ & ->). unfold lane_of. by rewrite lookup_insert_eq.
  - intros h Hh. assert (Hk : vtOf (joined (lane_of lane s') active) h.(gs_ID) =
                              vtOf (ls_vt (lane_of lane s')) h.(gs_ID)).
    { unfold vtOf, joined. rewrite joinGroups_lookup.
      assert (is_Some (ls_vt (lane_of lane s') !! h.(gs_ID))) as [v ->]; [|done].
      rewrite Hnew. destruct (decide (h.(gs_ID) = g.(gs_ID))) as [->|]; [rewrite lookup_insert_eq; eauto|].
      rewrite lookup_insert_ne by done. by apply joined_known. }
    rewrite Hk, Hnew, times_served_snoc. unfold vtOf.
    destruct (decide (h.(gs_ID) = g.(gs_ID))) as [E|E].
    + rewrite E, lookup_insert_eq, bool_decide_eq_true_2 by done. done.
    + rewrite lookup_insert_ne, bool_decide_eq_false_2 by done.
      rewrite Z.add_0_r, <-(Hvt h) by done. done.
  - intros h h' Hh Hh'. rewrite !times_served_snoc.
    pose proof (Hle h Hh). pose proof (Hle h' Hh'). pose proof (Hspread h h' Hh Hh').
    pose proof (Hspread h g Hh Hg).
    destruct (decide (g.(gs_ID) = h.(gs_ID))) as [E|E], (decide (g.(gs_ID) = h'.(gs_ID))) as [E'|E'];
      rewrite <-?E, <-?E' in *; repeat case_bool_decide; try done; lia.
Qed.

Lemma rr_run times s gids :
  rr_inv s gids → Z.of_nat (length gids + length times) < 2 ^ 53 →
  ∃ gids' s', serve lane active times s = Some (gids', s') ∧
    length gids' = length times ∧ rr_inv s' (gids ++ gids').
Proof using Hne Hbusy Hone.
  revert s gids. induction times as [|now times IH]; intros s gids Hinv Hlen; cbn [serve].
  - exists [], s. by rewrite app_nil_r.
  - cbn [length] in Hlen. destruct (rr_step now s gids Hinv) as (gid & fb & s1 & -> & Hinv1); [lia|].
    destruct (IH s1 (gids ++ [gid]) Hinv1) as (gids' & s2 & -> & Hl & Hinv2).
    { rewrite length_app. simpl. lia. }
    exists (gid :: gids'), s2. rewrite <-app_assoc in Hinv2. simpl in *. auto with lia.
Qed.

Lemma rr_init : rr_inv NewScheduler [].
Proof.
  split.
  - intros l ls Hl. unfold NewScheduler in Hl. by rewrite lookup_empty in Hl.
  - done.
  - intros g Hg. unfold vtOf, joined. rewrite joinGroups_lookup. cbn [lane_of NewScheduler].
    unfold lane_of, NewScheduler. rewrite lookup_empty. cbn [default newLane ls_vt].
    rewrite lookup_empty. rewrite bool_decide_eq_true_2 by by apply list_elem_of_fmap_2.
    assert (∀ l m, foldl (λ m g, match (∅ : gmap bytes float64) !! g.(gs_ID) with
                         | Some v => if f64_ltb v m then v else m
                         | None => m
                         end) m l = m) as Hf.
    { induction l as [|a l IH]; intros m; [done|]. cbn [foldl]. by rewrite lookup_empty. }
    unfold minVirtualTime. by rewrite Hf.
  - intros. done.
Qed.
End round_robin.

(** ** Quarantine *)
Section quarantine.
Context {PE : PolicyEngines}.
Implicit Types (ls : laneState) (s : gmap bytes laneState).

(** The picks of one lane, with the instants of those on which the policy
    faulted. *)
Inductive picks (lane : bytes) : gmap bytes laneState → list Z → gmap bytes laneState → Prop :=
  | picks_nil s : picks lane s [] s
  | picks_fault s s1 s2 active now gid ok ts :
      Pick lane active now s = Some (gid, true, ok, s1) →
      picks lane s1 ts s2 → picks lane s (now :: ts) s2
  | picks_fine s s1 s2 active now gid ok ts :
      Pick lane active now s = Some (gid, false, ok, s1) →
      picks lane s1 ts s2 → picks lane s ts s2.

(** How a pick touches the fault bookkeeping. *)
Lemma Pick_faults lane active now s gid fb ok s' :
  Pick lane active now s = Some (gid, fb, ok, s') →
  let ls := lane_of lane s in let ls' := lane_of lane s' in
  if fb then
    ls.(ls_quarantined) = false ∧ is_Some ls.(ls_pol) ∧
    ls'.(ls_faults) = (recordFault now ls).(ls_faults) ∧
    ls'.(ls_windowStart) = (recordFault now ls).(ls_windowStart) ∧
    ls'.(ls_quarantined) = (recordFault now ls).(ls_quarantined)
  else
    ls'.(ls_faults) = ls.(ls_faults) ∧ ls'.(ls_windowStart) = ls.(ls_windowStart) ∧
    ls'.(ls_quarantined) = ls.(ls_quarantined).
Proof.
  intros H. destruct (decide (active = [])) as [->|Hne].
  { unfold Pick in H. by simplify_eq/=. }
  apply Pick_inv in H as (scores & ls1 & Hsc & H); [|done]. cbv zeta in *.
  assert (Hls1 : let ls := lane_of lane s in if fb then
      ls.(ls_quarantined) = false ∧ is_Some ls.(ls_pol) ∧
      ls1.(ls_faults) = (recordFault now ls).(ls_faults) ∧
      ls1.(ls_windowStart) = (recordFault now ls).(ls_windowStart) ∧
      ls1.(ls_quarantined) = (recordFault now ls).(ls_quarantined)
    else ls1.(ls_faults) = ls.(ls_faults) ∧ ls1.(ls_windowStart) = ls.(ls_windowStart) ∧
      ls1.(ls_quarantined) = ls.(ls_quarantined)).
  { unfold scoreGroups in Hsc. cbn [ls_pol ls_set_vt ls_quarantined] in Hsc.
    destruct (ls_pol (lane_of lane s)) as [c|] eqn:Ep; [|by simplify_eq/=].
    destruct (ls_quarantined (lane_of lane s)) eqn:Eq; [by simplify_eq/=|].
    destruct (Score c _ _) as [[[sc|e] c']|]; [destruct (negb _ || _)| |done];
      simplify_eq; simpl; rewrite ?Eq, ?Ep; eauto 6. }
  cbv zeta in Hls1. clear Hsc.
  destruct (chooseBest None _) as [c|]; destruct H as (_ & _ & ->);
    destruct fb; unfold lane_of in *; rewrite !lookup_insert_eq; exact Hls1.
Qed.

(** Faults inside one window count up; the fifth quarantines. *)
Lemma picks_count lane s ts s' w n :
  picks lane s ts s' →
  (lane_of lane s).(ls_faults) = n → 0 ≤ n →
  ((lane_of lane s).(ls_quarantined) = true ↔ 5 ≤ n) →
  (lane_of lane s).(ls_windowStart) = w → 0 < w →
  Forall (λ t, w ≤ t ≤ w + quarantineWindowMs) ts → w < 2 ^ 62 →
  (lane_of lane s').(ls_faults) = n + Z.of_nat (length ts) ∧
  ((lane_of lane s').(ls_quarantined) = true ↔ 5 ≤ n + Z.of_nat (length ts)).
Proof.
  intros Hp. revert n. induction Hp as [s|s s1 s2 active now gid ok ts Hp _ IH|s s1 s2 active now gid ok ts Hp _ IH];
    intros n Hf Hn Hq Hw Hpos Hts Hbig.
  - simpl. rewrite Z.add_0_r. auto.
  - apply Forall_cons in Hts as [Hnow Hts]. unfold quarantineWindowMs in Hnow.
    apply Pick_faults in Hp. cbv zeta in Hp. destruct Hp as (Hnq & _ & Hf1 & Hw1 & Hq1).
    unfold recordFault in *. cbn [ls_faults ls_windowStart ls_quarantined] in *.
    rewrite Hw, (proj2 (Z.eqb_neq w 0)) in * by lia.
    rewrite wrap_i64_small in * by lia.
    destruct (Z.ltb_spec quarantineWindowMs (now - w)) as [?|_]; [unfold quarantineWindowMs in *; lia|].
    cbn [orb] in *. rewrite Hf in *. cbn [length]. rewrite Nat2Z.inj_succ.
    replace (n + Z.succ (Z.of_nat (length ts))) with (n + 1 + Z.of_nat (length ts)) by lia.
    apply IH; [done|lia| |done|done|done|done].
    rewrite Hq1, Hnq. unfold quarantineThreshold. destruct (Z.leb_spec 5 (n + 1)); split; try done; lia.
  - apply Pick_faults in Hp. cbv zeta in Hp. destruct Hp as (Hf1 & Hw1 & Hq1).
    apply IH; [congruence|done|by rewrite Hq1|congruence|done|done|done].
Qed.

(** The first fault of a fresh lane opens the window. *)
Lemma picks_quarantine lane s ts s' t0 :
  picks lane s ts s' →
  (lane_of lane s).(ls_windowStart) = 0 → (lane_of lane s).(ls_faults) = 0 →
  (lane_of lane s).(ls_quarantined) = false →
  head ts = Some t0 → 0 < t0 < 2 ^ 62 → Forall (λ t, t0 ≤ t ≤ t0 + quarantineWindowMs) ts →
  (lane_of lane s').(ls_faults) = Z.of_nat (length ts) ∧
  ((lane_of lane s').(ls_quarantined) = true ↔ (5 ≤ length ts)%nat).
Proof.
  intros Hp. induction Hp as [s|s s1 s2 active now gid ok ts Hp Hps _|s s1 s2 active now gid ok ts Hp _ IH];
    intros Hw Hf Hq Hhd Ht0 Hts; [done| |].
  - injection Hhd as ->. apply Forall_cons in Hts as [_ Hts].
    apply Pick_faults in Hp. cbv zeta in Hp. destruct Hp as (_ & _ & Hf1 & Hw1 & Hq1).
    unfold recordFault in *. cbn [ls_faults ls_windowStart ls_quarantined] in *.
    rewrite Hw in *. cbn [Z.eqb orb] in *.
    destruct (picks_count lane s1 ts s2 t0 1 Hps) as [Hfin Hqf]; try done; try lia.
    { rewrite Hq1, Hq. by vm_compute. }
    cbn [length]. split; [lia|]. rewrite Hqf. lia.
  - apply Pick_faults in Hp. cbv zeta in Hp. destruct Hp as (Hf1 & Hw1 & Hq1).
    apply IH; congruence || done.
Qed.
End quarantine.

(** ** The properties *)
Section properties.
Context {PE : PolicyEngines}.
Implicit Types (s : gmap bytes laneState).

(** C23: work conservation.  A pick panics exactly when the lane's policy is a
    WASM module, not quarantined, whose score function succeeds without a value
    on the groups shown.  In every other case, whatever the policy does --
    errors, wrong arity, NaN or infinite scores, quarantine -- it answers a
    group exactly when some active group has backlog, and the answered group
    is one of them. *)
Theorem Pick_work_conserving lane active now s :
  (Pick lane active now s = None ↔ pick_silent lane active s) ∧
  (¬ pick_silent lane active s →
   ∃ gid fb ok s', Pick lane active now s = Some (gid, fb, ok, s') ∧
    (ok = true ↔ ∃ g, g ∈ active ∧ eligible g) ∧
    (ok = true → ∃ g, g ∈ active ∧ eligible g ∧ g.(gs_ID) = gid)).
Proof.
  split; [apply Pick_None|]. intros Hw.
  destruct (Pick lane active now s) as [[[[gid fb] ok] s']|] eqn:Hp.
  - exists gid, fb, ok, s'. split; [done|]. by eapply pick_serves.
  - by apply Pick_None in Hp.
Qed.

(** C24: the weighted-fair choice.  When the pick ranks by WFQ (no policy,
    quarantined, or this pick's policy faulted), the served group has backlog
    and the least virtual time of the groups with backlog, ties going to the
    smallest id; it alone is charged, by [1/weight]; a group new to the lane
    joins at the minimum of the active ones; and virtual times stay
    non-negative numbers. *)
Theorem Pick_weighted_fair lane active now s gid fb s' :
  sched_ok s → Forall (λ g, IsNaN g.(gs_Weight) = false) active →
  by_wfq fb (lane_of lane s) →
  Pick lane active now s = Some (gid, fb, true, s') →
  let vt := joined (lane_of lane s) active in
  (∃ g, g ∈ active ∧ eligible g ∧ g.(gs_ID) = gid ∧
    (∀ g', g' ∈ active → eligible g' →
       f64_ltb (vtOf vt gid) (vtOf vt g'.(gs_ID)) = true ∨
       (f64_eqb (vtOf vt gid) (vtOf vt g'.(gs_ID)) = true ∧ bytes_le gid g'.(gs_ID))) ∧
    (lane_of lane s').(ls_vt) =
      <[gid := f64_add (vtOf vt gid) (f64_div f64_one (weight_of g))]> vt) ∧
  (∀ g, g ∈ active → (lane_of lane s).(ls_vt) !! g.(gs_ID) = None →
    (∀ g' v', g' ∈ active → (lane_of lane s).(ls_vt) !! g'.(gs_ID) = Some v' →
       f64_leb (vtOf vt g.(gs_ID)) v' = true) ∧
    (vtOf vt g.(gs_ID) = f64_zero ∨
     ∃ g', g' ∈ active ∧ (lane_of lane s).(ls_vt) !! g'.(gs_ID) = Some (vtOf vt g.(gs_ID)))) ∧
  sched_ok s'.
Proof.
  intros Hs Hw Hby Hp vt. split; [by eapply wfq_choice|]. split.
  - intros g Hg Hnew. by apply newcomer_joins; [apply sched_ok_lane| |].
  - by eapply sched_ok_Pick.
Qed.

(** C25: equal shares.  On a fresh scheduler and a lane without policy, take a
    constant list of groups that all stay busy and all have the default weight 1.
    They are served round robin: after any number of picks below 2^53, every pick
    served one of them and no group is more than one serve ahead of another -- so
    none starves. *)
Theorem wfq_equal_shares lane active times :
  active ≠ [] → Forall eligible active → Forall (λ g, g.(gs_Weight) = f64_one) active →
  Z.of_nat (length times) < 2 ^ 53 →
  ∃ gids s', serve lane active times NewScheduler = Some (gids, s') ∧
    length gids = length times ∧
    ∀ g h, g ∈ active → h ∈ active →
      times_served g.(gs_ID) gids ≤ times_served h.(gs_ID) gids + 1.
Proof.
  intros Hne Hb Hone Hlen.
  destruct (rr_run lane active Hne Hb Hone times NewScheduler []) as (gids & s' & Hs & Hl & Hinv).
  - apply rr_init.
  - done.
  - exists gids, s'. split; [done|]. split; [done|]. apply Hinv.
Qed.

Lemma Faults_lane lane s : Faults lane s = (lane_of lane s).(ls_faults).
Proof. unfold Faults, lane_of. by destruct (s !! lane). Qed.
Lemma Quarantined_lane lane s : Quarantined lane s = (lane_of lane s).(ls_quarantined).
Proof. unfold Quarantined, lane_of. by destruct (s !! lane). Qed.

(** C26: the quarantine breaker.  Starting from a lane without faults, the picks
    whose policy faulted within ten seconds of the first one are counted, the
    policy is quarantined exactly from the fifth on, a quarantined policy is
    never consulted again, and installing or clearing a policy lifts it. *)
Theorem policy_quarantine lane s ts s' t0 :
  picks lane s ts s' →
  (lane_of lane s).(ls_windowStart) = 0 → Faults lane s = 0 → Quarantined lane s = false →
  head ts = Some t0 → 0 < t0 < 2 ^ 62 → Forall (λ t, t0 ≤ t ≤ t0 + quarantineWindowMs) ts →
  Faults lane s' = Z.of_nat (length ts) ∧
  (Quarantined lane s' = true ↔ (5 ≤ length ts)%nat) ∧
  (∀ active now gid fb ok s2, Quarantined lane s' = true →
     Pick lane active now s' = Some (gid, fb, ok, s2) → fb = false ∧ Quarantined lane s2 = true) ∧
  (∀ c, Quarantined lane (SetPolicy lane c s') = false) ∧
  Quarantined lane (ClearPolicy lane s') = false.
Proof.
  rewrite !Faults_lane, !Quarantined_lane. intros Hp Hw Hf Hq Hhd Ht0 Hts.
  destruct (picks_quarantine lane s ts s' t0) as [H1 H2]; try done.
  split; [done|]. split; [done|]. split; [|split].
  - intros active now gid fb ok s2 Hq' Hp'. rewrite Quarantined_lane.
    apply Pick_faults in Hp'. cbv zeta in Hp'. destruct fb.
    + destruct Hp' as (Hn & _). congruence.
    + split; [done|]. destruct Hp' as (_ & _ & ->). done.
  - intros c. rewrite Quarantined_lane. unfold lane_of, SetPolicy. by rewrite lookup_insert_eq.
  - unfold lane_of, ClearPolicy. by rewrite lookup_insert_eq.
Qed.
End properties.

(** ** Witnesses *)

(** An engine whose CEL programs always fail and whose WASM functions answer
    zero. *)
#[export] Instance demo_engines : PolicyEngines := {|
  celProgram := unit; cel_Program _ _ _ := Ok tt; cel_Eval _ _ := Err (bs "no such overload");
  wasmModule := unit; wasm_Instantiate _ _ _ := Ok tt; wasm_Exported _ _ := true;
  wasm_Call _ _ _ _ := (Ok [0%N], tt); EncodeF64 _ := 0%N; DecodeF64 _ := f64_zero
|}.

Definition demo_policy : Compiled := celPolicy (PE:=demo_engines) tt.
Definition demo_active : list GroupStat :=
  [mkGroupStat (bs "a") 2 0 f64_one; mkGroupStat (bs "b") 1 0 f64_one].

Lemma Pick_work_conserving_witness :
  ∃ gid fb ok s', Pick (bs "l") demo_active 7 (SetPolicy (bs "l") demo_policy NewScheduler)
                    = Some (gid, fb, ok, s') ∧ ok = true.
Proof.
  destruct (Pick_work_conserving (bs "l") demo_active 7
              (SetPolicy (bs "l") demo_policy NewScheduler)) as (_ & Hp).
  destruct Hp as (gid & fb & ok & s' & Hp & Hok & _).
  { intros (c & Hc & _ & Hs). vm_compute in Hc. injection Hc as <-. exact Hs. }
  exists gid, fb, ok, s'. split; [exact Hp|]. apply Hok. exists (mkGroupStat (bs "a") 2 0 f64_one).
  split; [left|]. unfold eligible. simpl. lia.
Defined.

Lemma Pick_weighted_fair_witness :
  ∃ s', Pick (bs "l") demo_active 7 NewScheduler = Some (bs "a", false, true, s') ∧ sched_ok s'.
Proof.
  eexists. split; [vm_compute; reflexivity|].
  eapply (Pick_weighted_fair (bs "l") demo_active 7 NewScheduler (bs "a") false).
  - intros l ls Hl. discriminate Hl.
  - repeat constructor.
  - right. left. reflexivity.
  - vm_compute. reflexivity.
Defined.

Lemma wfq_equal_shares_witness :
  ∃ gids s', serve (bs "l") demo_active [1; 2; 3] NewScheduler = Some (gids, s') ∧
    times_served (bs "a") gids ≤ times_served (bs "b") gids + 1.
Proof.
  destruct (wfq_equal_shares (bs "l") demo_active [1; 2; 3]) as (gids & s' & Hs & _ & Hd).
  - discriminate.
  - repeat constructor.
  - repeat constructor.
  - simpl. lia.
  - exists gids, s'. split; [exact Hs|].
    apply (Hd (mkGroupStat (bs "a") 2 0 f64_one) (mkGroupStat (bs "b") 1 0 f64_one));
      [left|right; left].
Defined.

Definition demo_policed : gmap bytes laneState := SetPolicy (bs "l") demo_policy NewScheduler.
Definition demo_pick (s : gmap bytes laneState) (now : Z) : gmap bytes laneState :=
  match Pick (bs "l") demo_active now s with Some (_, _, _, s') => s' | None => s end.
Definition demo_faulted : gmap bytes laneState := foldl demo_pick demo_policed [1; 2; 3; 4; 5].

Lemma demo_pick_fault s now ts s2 :
  match Pick (bs "l") demo_active now s with Some (_, fb, _, _) => fb | None => false end = true →
  picks (bs "l") (demo_pick s now) ts s2 → picks (bs "l") s (now :: ts) s2.
Proof.
  unfold demo_pick. destruct (Pick (bs "l") demo_active now s) as [[[[gid fb] ok] s1]|] eqn:E; [|done].
  intros ->. by eapply picks_fault.
Qed.

Lemma demo_picks : picks (bs "l") demo_policed [1; 2; 3; 4; 5] demo_faulted.
Proof.
  unfold demo_faulted. cbn [foldl].
  do 5 (apply demo_pick_fault; [vm_compute; reflexivity|]). apply picks_nil.
Qed.

Lemma policy_quarantine_witness :
  picks (bs "l") demo_policed [1; 2; 3; 4; 5] demo_faulted ∧
  Quarantined (bs "l") demo_faulted = true.
Proof.
  split; [exact demo_picks|].
  destruct (policy_quarantine (bs "l") demo_policed [1; 2; 3; 4; 5] demo_faulted 1 demo_picks)
    as (_ & Hq & _).
  - vm_compute. reflexivity.
  - vm_compute. reflexivity.
  - vm_compute. reflexivity.
  - reflexivity.
  - lia.
  - repeat constructor; unfold quarantineWindowMs; lia.
  - apply Hq. simpl. lia.
Defined.
