(* ===== verification/Hash.v ===== *)
(** * The standard library's encodings and hash the node uses

    [crypto/sha256] (FIPS 180-4), [encoding/hex] and [encoding/base64]'s
    [RawURLEncoding], executable; and the whitespace trimming of [strings]. *)

From S2P Require Import Prelude.

(** ** SHA-256 *)
Definition sha_K : list N :=
  [1116352408; 1899447441; 3049323471; 3921009573; 961987163; 1508970993; 2453635748; 2870763221;
   3624381080; 310598401; 607225278; 1426881987; 1925078388; 2162078206; 2614888103; 3248222580;
   3835390401; 4022224774; 264347078; 604807628; 770255983; 1249150122; 1555081692; 1996064986;
   2554220882; 2821834349; 2952996808; 3210313671; 3336571891; 3584528711; 113926993; 338241895;
   666307205; 773529912; 1294757372; 1396182291; 1695183700; 1986661051; 2177026350; 2456956037;
   2730485921; 2820302411; 3259730800; 3345764771; 3516065817; 3600352804; 4094571909; 275423344;
   430227734; 506948616; 659060556; 883997877; 958139571; 1322822218; 1537002063; 1747873779;
   1955562222; 2024104815; 2227730452; 2361852424; 2428436474; 2756734187; 3204031479; 3329325298].

Definition sha_H0 : list N :=
  [1779033703; 3144134277; 1013904242; 2773480762; 1359893119; 2600822924; 528734635; 1541459225].

Definition rotr (n x : N) : N := wrap32 (N.lor (N.shiftr x n) (N.shiftl x (32 - n))).
Definition not32 (x : N) : N := N.lxor x 4294967295.

(** The padding: a one bit, zeroes, the bit length in 64 bits. *)
Definition sha_pad (m : bytes) : bytes :=
  let zeros := ((119 - length m mod 64) mod 64)%nat in
  m ++ [ascii_of_N 128] ++ replicate zeros (ascii_of_N 0)
    ++ be_bytes 8 (wrap64 (8 * N.of_nat (length m))).

Fixpoint chunks (fuel n : nat) (l : bytes) : list bytes :=
  match fuel, l with
  | S f, _ :: _ => take n l :: chunks f n (drop n l)
  | _, _ => []
  end.

(** The message schedule, newest word first. *)
Fixpoint sha_schedule (n : nat) (w : list N) : list N :=
  match n with
  | O => w
  | S n' =>
      let x := nth 14 w 0 in let y := nth 1 w 0 in
      let s0 := N.lxor (N.lxor (rotr 7 x) (rotr 18 x)) (N.shiftr x 3) in
      let s1 := N.lxor (N.lxor (rotr 17 y) (rotr 19 y)) (N.shiftr y 10) in
      sha_schedule n' (wrap32 (nth 15 w 0 + s0 + nth 6 w 0 + s1) :: w)
  end.

Definition sha_round (st : list N) (kw : N * N) : list N :=
  match st with
  | [a; b; c; d; e; f; g; h] =>
      let S1 := N.lxor (N.lxor (rotr 6 e) (rotr 11 e)) (rotr 25 e) in
      let ch := N.lxor (N.land e f) (N.land (not32 e) g) in
      let t1 := wrap32 (h + S1 + ch + kw.1 + kw.2) in
      let S0 := N.lxor (N.lxor (rotr 2 a) (rotr 13 a)) (rotr 22 a) in
      let maj := N.lxor (N.lxor (N.land a b) (N.land a c)) (N.land b c) in
      [wrap32 (t1 + wrap32 (S0 + maj)); a; b; c; wrap32 (d + t1); e; f; g]
  | _ => st
  end.

Definition sha_block (st : list N) (block : bytes) : list N :=
  let w0 := reverse (be_val <$> chunks 16 4 block) in
  let w := reverse (sha_schedule 48 w0) in
  zip_with add32 st (foldl sha_round st (zip sha_K w)).

Definition sha256 (m : bytes) : bytes :=
  let p := sha_pad m in
  foldl sha_block sha_H0 (chunks (length p) 64 p) ≫= be_bytes 4.

(** ** Hexadecimal *)
Definition hex_digit (n : N) : ascii := ascii_of_N (if n <? 10 then 48 + n else 87 + n).
Definition hex_encode (b : bytes) : bytes :=
  b ≫= λ c, [hex_digit (N_of_ascii c / 16); hex_digit (N_of_ascii c mod 16)].
Definition hex_value (c : ascii) : option N :=
  let n := N_of_ascii c in
  if (48 <=? n) && (n <=? 57) then Some (n - 48)
  else if (97 <=? n) && (n <=? 102) then Some (n - 87)
  else if (65 <=? n) && (n <=? 70) then Some (n - 55)
  else None.
(** [hex.DecodeString]: [None] is an error (a bad digit, an odd length). *)
Fixpoint hex_decode (s : bytes) : option bytes :=
  match s with
  | [] => Some []
  | a :: b :: s' =>
      match hex_value a, hex_value b with
      | Some x, Some y => r ← hex_decode s'; Some (ascii_of_N (16 * x + y) :: r)
      | _, _ => None
      end
  | [_] => None
  end.

(** ** Base64, URL alphabet, no padding *)
Definition b64_char (n : N) : ascii :=
  ascii_of_N (if n <? 26 then 65 + n else if n <? 52 then 71 + n
              else if n <? 62 then n - 4 else if n =? 62 then 45 else 95).
Fixpoint b64_encode (b : bytes) : bytes :=
  match b with
  | x :: y :: z :: b' =>
      let v := be_val [x; y; z] in
      b64_char (N.shiftr v 18) :: b64_char (N.land (N.shiftr v 12) 63)
        :: b64_char (N.land (N.shiftr v 6) 63) :: b64_char (N.land v 63) :: b64_encode b'
  | [x; y] =>
      let v := be_val [x; y] in
      [b64_char (N.shiftr v 10); b64_char (N.land (N.shiftr v 4) 63);
       b64_char (N.land (N.shiftl v 2) 63)]
  | [x] =>
      let v := be_val [x] in
      [b64_char (N.shiftr v 2); b64_char (N.land (N.shiftl v 4) 63)]
  | [] => []
  end.

(** ** Trimming ([strings.TrimSpace])

    The white space of [unicode.IsSpace] as UTF-8: six ASCII characters, then
    U+0085 and U+00A0, U+1680, U+2000 to U+200A, U+2028, U+2029, U+202F, U+205F
    and U+3000. *)
Definition spaces : list bytes :=
  ((λ n, [ascii_of_N n]) <$> [9; 10; 11; 12; 13; 32])
  ++ ((λ n, ascii_of_N 194 :: [ascii_of_N n]) <$> [133; 160])
  ++ [(ascii_of_N <$> [225; 154; 128])]
  ++ ((λ n, ascii_of_N <$> [226; 128; n]) <$>
        [128; 129; 130; 131; 132; 133; 134; 135; 136; 137; 138; 168; 169; 175])
  ++ [(ascii_of_N <$> [226; 129; 159]); (ascii_of_N <$> [227; 128; 128])].

Definition strip_one (ps : list bytes) (s : bytes) : option bytes :=
  match filter (λ p, has_prefix p s = true) ps with
  | p :: _ => Some (drop (length p) s)
  | [] => None
  end.
(** Strip from [ps] while one matches; a step removes at least a byte. *)
Fixpoint strip (fuel : nat) (ps : list bytes) (s : bytes) : bytes :=
  match fuel with
  | O => s
  | S f => match strip_one ps s with Some s' => strip f ps s' | None => s end
  end.
Definition trim_left (s : bytes) : bytes := strip (length s) spaces s.
Definition trim_right (s : bytes) : bytes :=
  reverse (strip (length s) (reverse <$> spaces) (reverse s)).
Definition TrimSpace (s : bytes) : bytes := trim_right (trim_left s).

(** ** Known answers *)
Example sha256_abc :
  hex_encode (sha256 (bs "abc")) =
  bs "ba7816bf8f01cfea414140de5dae2223b00361a396177a9cb410ff61f20015ad".
Proof. vm_compute. reflexivity. Qed.
Example sha256_two_blocks :
  hex_encode (sha256 (bs "abcdbcdecdefdefgefghfghighijhijkijkljklmklmnlmnomnopnopq")) =
  bs "248d6a61d20638b8e5c026930c3e6039a33ce45964ff2167f6ecedd419db06c1".
Proof. vm_compute. reflexivity. Qed.
Example sha256_empty :
  hex_encode (sha256 []) = bs "e3b0c44298fc1c149afbf4c8996fb92427ae41e4649b934ca495991b7852b855".
Proof. vm_compute. reflexivity. Qed.
Example base64_url : b64_encode (bs "subjects?_d") = bs "c3ViamVjdHM_X2Q".
Proof. vm_compute. reflexivity. Qed.
Example trim_spaces : TrimSpace (bs "  a b	") = bs "a b".
Proof. vm_compute. reflexivity. Qed.

(** ** Laws *)
Lemma hex_value_digit n : n < 16 → hex_value (hex_digit n) = Some n.
Proof.
  intros Hn. assert (∀ k, (k < 16)%nat → hex_value (hex_digit (N.of_nat k)) = Some (N.of_nat k)) as Hk.
  { intros k Hk. do 16 (destruct k as [|k]; [reflexivity|]). lia. }
  rewrite <-(N2Nat.id n). apply Hk. lia.
Qed.
Lemma hex_decode_encode b : hex_decode (hex_encode b) = Some b.
Proof.
  induction b as [|c b IH]; [done|]. unfold hex_encode in *. rewrite bind_cons.
  pose proof (N_of_ascii_lt c) as Hc. cbn [app hex_decode].
  rewrite !hex_value_digit, IH; [|by apply N.mod_lt|by apply N.Div0.div_lt_upper_bound].
  cbn. rewrite <-N.Div0.div_mod. by rewrite ascii_N_embedding.
Qed.

(** Trimming leaves nothing to trim. *)
Lemma strip_done fuel ps s :
  (∀ p, p ∈ ps → p ≠ []) → (length s <= fuel)%nat → strip_one ps (strip fuel ps s) = None.
Proof.
  intros Hps. revert s. induction fuel as [|f IH]; intros s Hl; cbn [strip].
  - destruct s; [|simpl in Hl; lia]. unfold strip_one.
    destruct (filter _ ps) as [|p l] eqn:E; [done|].
    assert (p ∈ filter (λ p, has_prefix p [] = true) ps) as Hin by (rewrite E; left).
    apply list_elem_of_filter in Hin as [Hp Hin]. apply Hps in Hin. by destruct p.
  - destruct (strip_one ps s) as [s'|] eqn:E; [|done]. apply IH.
    unfold strip_one in E. destruct (filter _ ps) as [|p l] eqn:Ef; [done|]. simplify_eq.
    assert (p ∈ filter (λ p, has_prefix p s = true) ps) as Hin by (rewrite Ef; left).
    apply list_elem_of_filter in Hin as [Hp Hin]. apply Hps in Hin. rewrite length_drop.
    destruct p; [done|]. simpl. lia.
Qed.
