(* ===== verification/Meter.v ===== *)
(** * The lane rate meter ([internal/node/meter.go])

    Cumulative publish, lease and ack counts per lane, and their smoothed rates,
    refreshed by the sampler.  The mutex is not modelled. *)

From S2P Require Import Prelude Data Float Fairness.

Record LaneRate := mkLaneRate { lr_Publish : float64; lr_Lease : float64; lr_Ack : float64 }.
Definition noRate : LaneRate := mkLaneRate f64_zero f64_zero f64_zero.

Record laneMeter := mklaneMeter {
  mt_pub : gmap bytes N;
  mt_lse : gmap bytes N;
  mt_ack : gmap bytes N;
  mt_last : gmap bytes (N * N * N);
  mt_rate : gmap bytes LaneRate
}.
Definition newLaneMeter : laneMeter := mklaneMeter ∅ ∅ ∅ ∅ ∅.

Definition incPublish (lane : bytes) (m : laneMeter) : laneMeter :=
  mklaneMeter (<[lane := incr64 (mapget m.(mt_pub) lane)]> m.(mt_pub)) m.(mt_lse) m.(mt_ack)
    m.(mt_last) m.(mt_rate).
Definition incLease (lane : bytes) (m : laneMeter) : laneMeter :=
  mklaneMeter m.(mt_pub) (<[lane := incr64 (mapget m.(mt_lse) lane)]> m.(mt_lse)) m.(mt_ack)
    m.(mt_last) m.(mt_rate).
Definition incAck (lane : bytes) (m : laneMeter) : laneMeter :=
  mklaneMeter m.(mt_pub) m.(mt_lse) (<[lane := incr64 (mapget m.(mt_ack) lane)]> m.(mt_ack))
    m.(mt_last) m.(mt_rate).

(** The constants [a = 0.45] and [1 - a], rounded to [float64]. *)
Definition ewma_a : float64 := S754_finite false 8106479329266893 (-54).
Definition ewma_1a : float64 := S754_finite false 4953959590107546 (-53).

Definition cumulative (m : laneMeter) (lane : bytes) : N * N * N :=
  (mapget m.(mt_pub) lane, mapget m.(mt_lse) lane, mapget m.(mt_ack) lane).

(** [a*(float64(cum-prev)/dt) + (1-a)*r] *)
Definition smooth (dt : float64) (cum prev : N) (r : float64) : float64 :=
  f64_add (f64_mul ewma_a (f64_div (f64_of_N (sub64 cum prev)) dt)) (f64_mul ewma_1a r).

Definition sampleLane (dt : float64) (m : laneMeter) (lane : bytes) : laneMeter :=
  let '(cp, cl, ca) := cumulative m lane in
  let '(pp, pl, pa) := default (0, 0, 0) (m.(mt_last) !! lane) in
  let r := default noRate (m.(mt_rate) !! lane) in
  mklaneMeter m.(mt_pub) m.(mt_lse) m.(mt_ack) (<[lane := (cp, cl, ca)]> m.(mt_last))
    (<[lane := mkLaneRate (smooth dt cp pp r.(lr_Publish)) (smooth dt cl pl r.(lr_Lease))
                 (smooth dt ca pa r.(lr_Ack))]> m.(mt_rate)).

(** The lanes seen, in some order: each iteration touches its own lane only. *)
Definition seenLanes (m : laneMeter) : list bytes :=
  elements (dom m.(mt_pub) ∪ dom m.(mt_lse) ∪ dom m.(mt_ack) : gset bytes).
Definition sample (dt : float64) (m : laneMeter) : laneMeter :=
  foldl (sampleLane dt) m (seenLanes m).

Definition rates (lane : bytes) (m : laneMeter) : LaneRate := default noRate (m.(mt_rate) !! lane).

(** One tick of [meterLoop], [dt] seconds after the previous one. *)
Definition meterTick (dt : float64) (m : laneMeter) : laneMeter :=
  if f64_gtb dt f64_zero then sample dt m else m.

(** ** Properties *)
Lemma sampleLane_counts dt m lane :
  (sampleLane dt m lane).(mt_pub) = m.(mt_pub) ∧ (sampleLane dt m lane).(mt_lse) = m.(mt_lse) ∧
  (sampleLane dt m lane).(mt_ack) = m.(mt_ack).
Proof. unfold sampleLane, cumulative. by destruct (default _ _) as [[??]?]. Qed.

Lemma sampleLane_cumulative dt m lane : cumulative (sampleLane dt m lane) = cumulative m.
Proof. unfold cumulative. destruct (sampleLane_counts dt m lane) as (-> & -> & ->). done. Qed.

(** The new rate of a lane. *)
Definition smoothed (dt : float64) (m : laneMeter) (lane : bytes) : LaneRate :=
  let '(cp, cl, ca) := cumulative m lane in
  let '(pp, pl, pa) := default (0, 0, 0) (m.(mt_last) !! lane) in
  let r := default noRate (m.(mt_rate) !! lane) in
  mkLaneRate (smooth dt cp pp r.(lr_Publish)) (smooth dt cl pl r.(lr_Lease))
    (smooth dt ca pa r.(lr_Ack)).

Lemma sampleLane_lookup dt m lane l :
  (sampleLane dt m lane).(mt_last) !! l =
    (if decide (l = lane) then Some (cumulative m l) else m.(mt_last) !! l) ∧
  (sampleLane dt m lane).(mt_rate) !! l =
    (if decide (l = lane) then Some (smoothed dt m l) else m.(mt_rate) !! l).
Proof.
  unfold sampleLane, smoothed, cumulative. destruct (decide (l = lane)) as [->|Hne].
  - destruct (default _ _) as [[??]?]. simpl. by rewrite !lookup_insert_eq.
  - destruct (default _ _) as [[??]?]. simpl. by rewrite !lookup_insert_ne.
Qed.

Lemma sample_fold dt lanes m l :
  NoDup lanes →
  let m' := foldl (sampleLane dt) m lanes in
  cumulative m' = cumulative m ∧
  m'.(mt_last) !! l =
    (if decide (l ∈ lanes) then Some (cumulative m l) else m.(mt_last) !! l) ∧
  m'.(mt_rate) !! l = (if decide (l ∈ lanes) then Some (smoothed dt m l) else m.(mt_rate) !! l).
Proof.
  intros Hnd. revert m. induction Hnd as [|a lanes Ha Hnd IH]; intros m; cbn [foldl].
  - destruct (decide (l ∈ [])) as [Hin|]; [by apply elem_of_nil in Hin|done].
  - destruct (IH (sampleLane dt m a)) as (Hc & Hl & Hr).
    destruct (sampleLane_lookup dt m a l) as [El Er].
    rewrite Hl, Hr, Hc, El, Er, sampleLane_cumulative. split; [done|].
    destruct (decide (l = a)) as [->|Hne].
    + rewrite !(decide_False (P := a ∈ lanes)) by done.
      rewrite !(decide_True (P := a ∈ a :: lanes)) by apply list_elem_of_here. auto.
    + unfold smoothed. rewrite sampleLane_cumulative, El, Er.
      destruct (decide (l ∈ lanes)).
      * by rewrite !decide_True by by right.
      * rewrite !decide_False; [done|..]; rewrite elem_of_cons; naive_solver.
Qed.

(** A sample brings every lane's reference point up to its counts and smooths
    its rates, whatever order the lanes are visited in. *)
Lemma sample_lookup dt m l :
  (sample dt m).(mt_last) !! l =
    (if decide (l ∈ seenLanes m) then Some (cumulative m l) else m.(mt_last) !! l) ∧
  (sample dt m).(mt_rate) !! l =
    (if decide (l ∈ seenLanes m) then Some (smoothed dt m l) else m.(mt_rate) !! l).
Proof. destruct (sample_fold dt (seenLanes m) m l) as (_ & ? & ?); [unfold seenLanes; apply NoDup_elements|done]. Qed.

Definition rate_ok (r : LaneRate) : Prop :=
  f64_nonneg r.(lr_Publish) = true ∧ f64_nonneg r.(lr_Lease) = true ∧ f64_nonneg r.(lr_Ack) = true.

Lemma smooth_nonneg dt cum prev r :
  f64_ltb f64_zero dt = true → f64_nonneg r = true → IsInf (f64_of_N (sub64 cum prev)) = false →
  f64_nonneg (smooth dt cum prev r) = true.
Proof.
  intros Hdt Hr Hf. unfold smooth. apply f64_add_nonneg.
  - apply f64_mul_pos, f64_div_nonneg; [apply f64_of_N_nonneg|done|done].
  - by apply f64_mul_pos.
Qed.
