(* ===== verification/Commands.v ===== *)
(** * Dispatching the node's commands

    What [dispatch] does with each command the node proposes: one payload under
    the tag that selects its handler. *)

From S2P Require Import Prelude Data Store Publish Workflow Broker Control Auth Timers Fsm.

Section dispatch.
Context {PC : PayloadCodec}.

Lemma dispatch_Publish c db : dispatch (cmd_Publish c) db = Some (applyPublish c db).
Proof. reflexivity. Qed.
Lemma dispatch_PublishBatch c db : dispatch (cmd_PublishBatch c) db = Some (applyPublishBatch c db).
Proof. reflexivity. Qed.
Lemma dispatch_Lease c db : dispatch (cmd_Lease c) db = Some (applyLease c db).
Proof. reflexivity. Qed.
Lemma dispatch_Ack c db : dispatch (cmd_Ack c) db = Some (applyAck c db).
Proof. reflexivity. Qed.
Lemma dispatch_Nack c db : dispatch (cmd_Nack c) db = Some (applyNack c db).
Proof. reflexivity. Qed.
Lemma dispatch_Extend c db : dispatch (cmd_Extend c) db = Some (applyExtend c db).
Proof. reflexivity. Qed.
Lemma dispatch_Fire c db : dispatch (cmd_Fire c) db = Some (applyFireTimer c db).
Proof. reflexivity. Qed.
Lemma dispatch_Policy c db : dispatch (cmd_Policy c) db = Some (applySetPolicy c db).
Proof. reflexivity. Qed.
Lemma dispatch_GroupConfig c db : dispatch (cmd_GroupConfig c) db = Some (applyGroupConfig c db).
Proof. reflexivity. Qed.
Lemma dispatch_GroupLifecycle c db : dispatch (cmd_GroupLifecycle c) db = Some (applyGroupLifecycle c db).
Proof. reflexivity. Qed.
Lemma dispatch_Cron c db : dispatch (cmd_Cron c) db = Some (applyCron c db).
Proof. reflexivity. Qed.
Lemma dispatch_FireCron c db : dispatch (cmd_FireCron c) db = Some (applyFireCron c db).
Proof. reflexivity. Qed.
Lemma dispatch_IssueToken c db : dispatch (cmd_IssueToken c) db = Some (applyIssueToken c db).
Proof. reflexivity. Qed.
Lemma dispatch_Complete c db : dispatch (cmd_Complete c) db = Some (applyComplete c db).
Proof. reflexivity. Qed.
Lemma dispatch_Singleton c db : dispatch (cmd_Singleton c) db = Some (applySingleton c db).
Proof. reflexivity. Qed.
Lemma dispatch_LaneConfig c db : dispatch (cmd_LaneConfig c) db = Some (applySetLaneConfig c db).
Proof. reflexivity. Qed.
Lemma dispatch_ReapGroup c db : dispatch (cmd_ReapGroup c) db = Some (applyReapGroup c db).
Proof. reflexivity. Qed.
Lemma dispatch_Teardown c db : dispatch (cmd_Teardown c) db = Some (applyTeardownGroup c db).
Proof. reflexivity. Qed.
Lemma dispatch_Redrive c db : dispatch (cmd_Redrive c) db = Some (applyRedrive c db).
Proof. reflexivity. Qed.
Lemma dispatch_WFStart c db : dispatch (cmd_WFStart c) db = Some (applyWFStartRun c db).
Proof. reflexivity. Qed.
Lemma dispatch_WFAppend c db : dispatch (cmd_WFAppend c) db = Some (applyWFAppendEvents c db).
Proof. reflexivity. Qed.
Lemma dispatch_WFCompleteActivity c db : dispatch (cmd_WFCompleteActivity c) db = Some (applyWFCompleteActivity c db).
Proof. reflexivity. Qed.
Lemma dispatch_WFSignal c db : dispatch (cmd_WFSignal c) db = Some (applyWFSignal c db).
Proof. reflexivity. Qed.
Lemma dispatch_WFCancel c db : dispatch (cmd_WFCancel c) db = Some (applyWFCancel c db).
Proof. reflexivity. Qed.
Lemma dispatch_AuthPrincipal c db : dispatch (cmd_AuthPrincipal c) db = Some (applyAuthPrincipal (Some c) db).
Proof. reflexivity. Qed.
End dispatch.

Create Rewrite HintDb rota_dispatch.
#[export] Hint Rewrite @dispatch_Publish @dispatch_PublishBatch @dispatch_Lease @dispatch_Ack @dispatch_Nack @dispatch_Extend @dispatch_Fire @dispatch_Policy @dispatch_GroupConfig @dispatch_GroupLifecycle @dispatch_Cron @dispatch_FireCron @dispatch_IssueToken @dispatch_Complete @dispatch_Singleton @dispatch_LaneConfig @dispatch_ReapGroup @dispatch_Teardown @dispatch_Redrive @dispatch_WFStart @dispatch_WFAppend @dispatch_WFCompleteActivity @dispatch_WFSignal @dispatch_WFCancel @dispatch_AuthPrincipal : rota_dispatch.
