(* ===== verification/Node.v ===== *)
(** * The broker node ([internal/node/node.go], [control.go])

    A node couples the state machine, the Raft log in front of it, the
    scheduler and the leader-local tables.  An operation is a function of the
    node in the monad [NM]: it may fail with an error, keeping the state changes
    made so far, or crash ([None]: a panic).

    Raft, the clock, the random source, cron parsing, the rate limiters and the
    JSON codecs are parameters ([World]).  A Raft proposal is answered by the
    world: other log entries may have been applied first, and the entry is then
    either committed at an index or refused.  Mutexes are not modelled: between
    two proposals an operation runs alone. *)

From S2P Require Import Prelude Keys Data Store Float Publish Workflow Broker Control Auth Timers Fsm Commands Fairness Meter Policy Scheduler.

(** ** The world outside the process *)
Record raftReply := mkraftReply {
  rr_before : list Log;
  rr_outcome : result N
}.

Class World := {
  world : Type;
  (** [uint64(time.Now().UnixMilli())] *)
  now_ms : world → N * world;
  (** [rand.Read] *)
  rand_Read : nat → world → result bytes * world;
  (** [raft.Apply] with its future, [raft.State() == Leader], [LeaderWithID] *)
  raft_Apply : bytes → world → raftReply * world;
  raft_IsLeader : world → bool;
  raft_LeaderWithID : world → bytes * bytes;
  (** [Stats()[term]] as a number, [GetConfiguration]: id, address, voter *)
  raft_term : world → option N;
  raft_GetConfiguration : world → result (list (bytes * bytes * bool));
  (** [rate.NewLimiter], [Allow] *)
  limiter : Type;
  NewLimiter : float64 → Z → limiter;
  limiter_Allow : limiter → world → bool * limiter * world;
  (** [cron.ParseStandard], [Next] (milliseconds) *)
  cron_schedule : Type;
  ParseStandard : bytes → result cron_schedule;
  cron_Next : cron_schedule → N → N;
  (** JSON of commands and policy bindings *)
  marshal_cmd : Command → result bytes;
  unmarshal_cmd : bytes → option Command;
  marshal_binding : Binding → result bytes;
  unmarshal_binding : bytes → option Binding;
}.

Record Peer := mkPeer { peer_ID : bytes; peer_Addr : bytes }.
Record Config := mkConfig {
  cfg_DataDir : bytes;
  cfg_NodeID : bytes;
  cfg_VisibilityMs : N;
  cfg_IdleReapMs : N;
  cfg_MaxLeaseLifetimeMs : N;
  cfg_RaftBind : bytes;
  cfg_RaftAdvertise : bytes;
  cfg_Bootstrap : bool;
  cfg_InitialPeers : list Peer;
  cfg_GRPCAddrs : gmap bytes bytes
}.

Definition maxFireBatch : nat := 256.
Definition dedupWindowMs : N := 300000.

Section node.
Context {PC : PayloadCodec} {PE : PolicyEngines} {W : World}.

Record Node := mkNode {
  n_cfg : Config;
  n_fsm : FSM;
  n_sched : gmap bytes laneState;
  n_loadedPolVer : gmap bytes N;
  n_limiters : gmap bytes limiter;
  n_loadedLaneCfg : gmap bytes LaneConfigRec;
  n_paused : gmap bytes Z;
  n_fairness : fairnessProjection;
  n_meter : laneMeter;
  n_observed : gmap bytes N;
  n_world : world
}.
Definition n_set_fsm (v : FSM) (n : Node) : Node :=
  mkNode n.(n_cfg) v n.(n_sched) n.(n_loadedPolVer) n.(n_limiters) n.(n_loadedLaneCfg) n.(n_paused) n.(n_fairness) n.(n_meter) n.(n_observed) n.(n_world).
Definition n_set_sched (v : gmap bytes laneState) (n : Node) : Node :=
  mkNode n.(n_cfg) n.(n_fsm) v n.(n_loadedPolVer) n.(n_limiters) n.(n_loadedLaneCfg) n.(n_paused) n.(n_fairness) n.(n_meter) n.(n_observed) n.(n_world).
Definition n_set_loadedPolVer (v : gmap bytes N) (n : Node) : Node :=
  mkNode n.(n_cfg) n.(n_fsm) n.(n_sched) v n.(n_limiters) n.(n_loadedLaneCfg) n.(n_paused) n.(n_fairness) n.(n_meter) n.(n_observed) n.(n_world).
Definition n_set_limiters (v : gmap bytes limiter) (n : Node) : Node :=
  mkNode n.(n_cfg) n.(n_fsm) n.(n_sched) n.(n_loadedPolVer) v n.(n_loadedLaneCfg) n.(n_paused) n.(n_fairness) n.(n_meter) n.(n_observed) n.(n_world).
Definition n_set_loadedLaneCfg (v : gmap bytes LaneConfigRec) (n : Node) : Node :=
  mkNode n.(n_cfg) n.(n_fsm) n.(n_sched) n.(n_loadedPolVer) n.(n_limiters) v n.(n_paused) n.(n_fairness) n.(n_meter) n.(n_observed) n.(n_world).
Definition n_set_paused (v : gmap bytes Z) (n : Node) : Node :=
  mkNode n.(n_cfg) n.(n_fsm) n.(n_sched) n.(n_loadedPolVer) n.(n_limiters) n.(n_loadedLaneCfg) v n.(n_fairness) n.(n_meter) n.(n_observed) n.(n_world).
Definition n_set_fairness (v : fairnessProjection) (n : Node) : Node :=
  mkNode n.(n_cfg) n.(n_fsm) n.(n_sched) n.(n_loadedPolVer) n.(n_limiters) n.(n_loadedLaneCfg) n.(n_paused) v n.(n_meter) n.(n_observed) n.(n_world).
Definition n_set_meter (v : laneMeter) (n : Node) : Node :=
  mkNode n.(n_cfg) n.(n_fsm) n.(n_sched) n.(n_loadedPolVer) n.(n_limiters) n.(n_loadedLaneCfg) n.(n_paused) n.(n_fairness) v n.(n_observed) n.(n_world).
Definition n_set_observed (v : gmap bytes N) (n : Node) : Node :=
  mkNode n.(n_cfg) n.(n_fsm) n.(n_sched) n.(n_loadedPolVer) n.(n_limiters) n.(n_loadedLaneCfg) n.(n_paused) n.(n_fairness) n.(n_meter) v n.(n_world).
Definition n_set_world (v : world) (n : Node) : Node :=
  mkNode n.(n_cfg) n.(n_fsm) n.(n_sched) n.(n_loadedPolVer) n.(n_limiters) n.(n_loadedLaneCfg) n.(n_paused) n.(n_fairness) n.(n_meter) n.(n_observed) v.


(** [Open]: the configuration's defaults, the state machine over the opened
    store, empty leader-local tables. *)
Definition Open (cfg : Config) (s : store) (w : world) : Node :=
  let cfg := mkConfig cfg.(cfg_DataDir)
    (if nonempty cfg.(cfg_NodeID) then cfg.(cfg_NodeID) else bs "node1")
    (if cfg.(cfg_VisibilityMs) =? 0 then 60000 else cfg.(cfg_VisibilityMs))
    cfg.(cfg_IdleReapMs) cfg.(cfg_MaxLeaseLifetimeMs) cfg.(cfg_RaftBind) cfg.(cfg_RaftAdvertise)
    cfg.(cfg_Bootstrap) cfg.(cfg_InitialPeers) cfg.(cfg_GRPCAddrs) in
  mkNode cfg (New s) NewScheduler ∅ ∅ ∅ ∅ newFairnessProjection newLaneMeter ∅ w.

(** ** The operation monad *)
Definition NM (A : Type) : Type := Node → option (result A * Node).
#[global] Instance NM_ret : MRet NM := λ A x n, Some (Ok x, n).
#[global] Instance NM_bind : MBind NM := λ A B f m n,
  match m n with
  | None => None
  | Some (Err e, n') => Some (Err e, n')
  | Some (Ok x, n') => f x n'
  end.
Definition nfail {A} (e : bytes) : NM A := λ n, Some (Err e, n).
Definition ncrash {A} : NM A := λ _, None.
Definition nget {A} (f : Node → A) : NM A := λ n, Some (Ok (f n), n).
Definition nmod (f : Node → Node) : NM unit := λ n, Some (Ok (), f n).
(** Read the replicated store. *)
Definition nstore {A} (f : store → A) : NM A := nget (λ n, f n.(n_fsm).(fsm_s)).
(** Keep an error as a value ([if err != nil], [_ =]). *)
Definition attempt {A} (m : NM A) : NM (result A) := λ n,
  match m n with
  | None => None
  | Some (r, n') => Some (Ok r, n')
  end.
Definition lift {A} (r : result A) : NM A := λ n, Some (r, n).
(** Step the world. *)
Definition nworld {A} (f : world → A * world) : NM A := λ n,
  let '(x, w) := f n.(n_world) in Some (Ok x, n_set_world w n).
Definition nwhen (c : bool) (m : NM unit) : NM unit := if c then m else mret ().

Definition nowMs : NM N := nworld now_ms.
(** [observe.X.Inc()] *)
Definition observe (name : bytes) : NM unit :=
  nmod (λ n, n_set_observed (<[name := incr64 (mapget n.(n_observed) name)]> n.(n_observed)) n).
Definition meter_inc (f : laneMeter → laneMeter) : NM unit :=
  nmod (λ n, n_set_meter (f n.(n_meter)) n).

Lemma nbind_ok {A B : Type} (m : NM A) (f : A → NM B) n x n' :
  m n = Some (Ok x, n') → (m ≫= f) n = f x n'.
Proof. intros E. unfold mbind, NM_bind. by rewrite E. Qed.
Lemma nbind_err {A B : Type} (m : NM A) (f : A → NM B) n e n' :
  m n = Some (Err e, n') → (m ≫= f) n = Some (Err e, n').
Proof. intros E. unfold mbind, NM_bind. by rewrite E. Qed.
Lemma nbind_get {A B : Type} (g : Node → A) (f : A → NM B) n : (nget g ≫= f) n = f (g n) n.
Proof. done. Qed.
Lemma nbind_store {A B : Type} (g : store → A) (f : A → NM B) n :
  (nstore g ≫= f) n = f (g n.(n_fsm).(fsm_s)) n.
Proof. done. Qed.
Lemma nbind_mod {B : Type} (g : Node → Node) (f : unit → NM B) n : (nmod g ≫= f) n = f () (g n).
Proof. done. Qed.
Lemma nbind_ret {A B : Type} (x : A) (f : A → NM B) n : ((mret x : NM A) ≫= f) n = f x n.
Proof. done. Qed.
Lemma attempt_eq {A} (m : NM A) n r n' : m n = Some (r, n') → attempt m n = Some (Ok r, n').
Proof. unfold attempt. by intros ->. Qed.

(** ** Proposals *)
Definition commitLogs (logs : list Log) : NM (list response) := λ n,
  match applyLog unmarshal_cmd n.(n_fsm) logs with
  | None => None
  | Some (rs, f) => Some (Ok rs, n_set_fsm f n)
  end.

Definition apply (cmd : Command) : NM ApplyResult :=
  data ← lift (marshal_cmd cmd);
  reply ← nworld (raft_Apply data);
  _ ← commitLogs reply.(rr_before);
  index ← lift reply.(rr_outcome);
  rs ← commitLogs [mkLog true index data];
  match rs with
  | [Failed e] => nfail e
  | [Applied r] => mret r
  | _ => mret RNil
  end.

Definition IsLeader : NM bool := nget (λ n, raft_IsLeader n.(n_world)).
Definition LeaderAddr : NM bytes := nget (λ n, (raft_LeaderWithID n.(n_world)).1).
Definition LeaderHint : NM (bytes * bytes) :=
  nget (λ n, let id := (raft_LeaderWithID n.(n_world)).2 in
             (default [] (n.(n_cfg).(cfg_GRPCAddrs) !! id), id)).

(** ** Publishing *)
Record PublishReq := mkPublishReq {
  pr_Lane : bytes;
  pr_GroupID : bytes;
  pr_Payload : bytes;
  pr_Headers : headers;
  pr_Weight : option float64;
  pr_BatchSize : option N;
  pr_NotBeforeMs : N;
  pr_MaxAttempts : N;
  pr_TtlMs : N;
  pr_IssueToken : bool;
  pr_ExternalToken : bytes;
  pr_DedupKey : bytes
}.

Definition publishCmd (r : PublishReq) : NM PublishCmd :=
  now ← nowMs;
  mret (mkPublishCmd r.(pr_Lane) r.(pr_GroupID) r.(pr_Payload) r.(pr_Headers)
    (default f64_zero r.(pr_Weight)) (bool_decide (is_Some r.(pr_Weight)))
    (default 0 r.(pr_BatchSize)) (bool_decide (is_Some r.(pr_BatchSize)))
    r.(pr_MaxAttempts) r.(pr_NotBeforeMs)
    (if 0 <? r.(pr_TtlMs) then add64 now r.(pr_TtlMs) else 0)
    now r.(pr_IssueToken) r.(pr_ExternalToken)
    r.(pr_DedupKey) (if nonempty r.(pr_DedupKey) then add64 now dedupWindowMs else 0)).

Definition Publish (r : PublishReq) : NM N :=
  pc ← publishCmd r;
  res ← apply (cmd_Publish pc);
  match res with
  | RPublish id dup =>
      nwhen (negb dup) (observe (bs "publishes");; meter_inc (incPublish r.(pr_Lane)));;
      mret id
  | _ => nfail (bs "publish: no result")
  end.

Fixpoint publishCmds (reqs : list PublishReq) : NM (list PublishCmd) :=
  match reqs with
  | [] => mret []
  | r :: reqs' => pc ← publishCmd r; pcs ← publishCmds reqs'; mret (pc :: pcs)
  end.

(** The metrics of a batch: [reqs[i]] panics when there are more results than
    requests. *)
Fixpoint countItems (items : list PublishItemResult) (reqs : list PublishReq) : NM unit :=
  match items, reqs with
  | [], _ => mret ()
  | it :: items', r :: reqs' =>
      nwhen (it.(pir_OK) && negb it.(pir_Duplicate))
        (observe (bs "publishes");; meter_inc (incPublish r.(pr_Lane)));;
      countItems items' reqs'
  | it :: items', [] =>
      if it.(pir_OK) && negb it.(pir_Duplicate) then ncrash else countItems items' []
  end.

Definition PublishBatch (reqs : list PublishReq) (atomic : bool) : NM (list PublishItemResult) :=
  items ← publishCmds reqs;
  res ← apply (cmd_PublishBatch (mkPublishBatchCmd items atomic));
  match res with
  | RPublishBatch its => countItems its reqs;; mret its
  | _ => nfail (bs "publish_batch: no result")
  end.
End node.
