(* ===== verification/NodeControl.v ===== *)
(** * The node's control plane ([internal/node/control.go])

    Group lifecycle, crons, completion tokens, singletons, lane rate limits and
    pauses, reaping and teardown: each operation reads the replicated or
    leader-local state, proposes a command and interprets its result. *)

From S2P Require Import Prelude Keys Data Store Float Publish Workflow Broker Control Fsm Commands Fairness Meter Policy Scheduler Hash Node.

Section control.
Context {PC : PayloadCodec} {PE : PolicyEngines} {W : World}.

(** ** Group lifecycle *)
Definition SetGroupConfig (lane group : bytes) (weight : option float64) (batch : option N) : NM unit :=
  apply (cmd_GroupConfig (mkGroupConfigCmd lane group weight batch));; mret ().

Definition groupOp (lane group : bytes) (op : N) : NM N :=
  res ← apply (cmd_GroupLifecycle (mkGroupLifecycleCmd lane group op));
  match res with RGroupOp a => mret a | _ => mret 0 end.

Definition PauseGroup (lane group : bytes) : NM unit := groupOp lane group GroupPause;; mret ().
Definition ResumeGroup (lane group : bytes) : NM unit := groupOp lane group GroupResume;; mret ().
Definition CancelGroup (lane group : bytes) : NM N := groupOp lane group GroupCancel.
Definition PurgeGroup (lane group : bytes) : NM N := groupOp lane group GroupPurge.

(** ** Crons *)
Definition loadCronSpec (id : bytes) : NM (option CronSpec) := nstore (GetProto (CronKey id)).
Definition GetCron (id : bytes) : NM (option CronSpec) := loadCronSpec id.

Definition ScheduleCron (cronID lane group payload : bytes) (hs : headers) (schedule : bytes) : NM unit :=
  sched ← lift (ParseStandard schedule);
  t ← nowMs;
  now ← nowMs;
  apply (cmd_Cron (mkCronCmd CronSchedule cronID lane group payload hs schedule
                     (cron_Next sched t) now));; mret ().

Definition cronOp (op : N) (cronID : bytes) (next now : N) : CronCmd :=
  mkCronCmd op cronID [] [] [] ∅ [] next now.
Definition DeleteCron (cronID : bytes) : NM unit :=
  apply (cmd_Cron (cronOp CronDelete cronID 0 0));; mret ().
Definition PauseCron (cronID : bytes) : NM unit :=
  apply (cmd_Cron (cronOp CronPause cronID 0 0));; mret ().
Definition ResumeCron (cronID : bytes) : NM unit :=
  spec ← loadCronSpec cronID;
  match spec with
  | None => nfail (bs "cron not found")
  | Some spec =>
      sched ← lift (ParseStandard spec.(cs_Schedule));
      t ← nowMs;
      now ← nowMs;
      apply (cmd_Cron (cronOp CronResume cronID (cron_Next sched t) now));; mret ()
  end.

(** The rows that decode. *)
Definition decodeRows {A} `{Row A} (rows : list (bytes * value)) : list A :=
  omap (λ kv, row_out kv.2) rows.
Definition ListCron : NM (list CronSpec) :=
  nstore (λ db, decodeRows (NewIter CronPrefix (PrefixEnd CronPrefix) db)).

Definition fireCron (cronID : bytes) (fireAt : N) : NM unit :=
  spec ← loadCronSpec cronID;
  match spec with
  | None => mret ()
  | Some spec =>
      match ParseStandard spec.(cs_Schedule) with
      | Err _ => mret ()
      | Ok sched =>
          attempt (apply (cmd_FireCron (mkFireCronCmd cronID fireAt (cron_Next sched fireAt))));;
          mret ()
      end
  end.

(** ** Completion by token *)
Definition bindToken (leaseID : N) (hash : bytes) : NM unit :=
  res ← apply (cmd_IssueToken (mkIssueTokenCmd leaseID hash));
  match res with RAck false => nfail (bs "lease not found") | _ => mret () end.

Definition IssueToken (leaseID : N) : NM bytes :=
  r ← nworld (rand_Read 16);
  tok ← lift r;
  bindToken leaseID (sha256 tok);;
  mret tok.
Definition registerToken (leaseID : N) (token : bytes) : NM unit :=
  bindToken leaseID (sha256 token).

Definition leaseLaneForMetrics (leaseID : N) : NM bytes :=
  l ← nstore (GetProto (A := Lease) (LeaseKey leaseID));
  mret match l with Some l => l.(ls_Lane) | None => [] end.
Definition leaseIDForTokenHash (hash : bytes) : NM N :=
  raw ← nstore (GetRaw (TokenKey hash));
  mret match raw with
       | Some raw => if (length raw <? 8)%nat then 0 else be_val (take 8 raw)
       | None => 0
       end.

Definition Complete (token : bytes) (success : bool) (meta : headers) (delayMs : N) : NM (bool * bool) :=
  let h := sha256 token in
  leaseID ← leaseIDForTokenHash h;
  lane ← (if negb (leaseID =? 0) then leaseLaneForMetrics leaseID else mret []);
  now ← nowMs;
  res ← apply (cmd_Complete (mkCompleteCmd h success meta delayMs now));
  match res with
  | RComplete ok dead unknown =>
      nwhen ok
        (if success
         then observe (bs "acks");; nwhen (nonempty lane) (meter_inc (incAck lane))
         else observe (bs "nacks/retry");;
              nwhen dead (observe (bs "dead_letters");;
                          observe (bs "dead_letters_by_reason/max_attempts")));;
      mret (dead, unknown)
  | _ => mret (false, false)
  end.

(** ** Singletons *)
Definition AcquireSingleton (name holder : bytes) (ttlMs : N) : NM (N * bool) :=
  now ← nowMs;
  res ← apply (cmd_Singleton (mkSingletonCmd SingletonAcquire name holder ttlMs 0 now));
  mret match res with RSingleton ok fence _ => (fence, ok) | _ => (0, false) end.
Definition RenewSingleton (name holder : bytes) (fence ttlMs : N) : NM bool :=
  now ← nowMs;
  res ← apply (cmd_Singleton (mkSingletonCmd SingletonRenew name holder ttlMs fence now));
  mret match res with RSingleton ok _ _ => ok | _ => false end.
Definition ReleaseSingleton (name holder : bytes) (fence : N) : NM bool :=
  now ← nowMs;
  res ← apply (cmd_Singleton (mkSingletonCmd SingletonRelease name holder 0 fence now));
  mret match res with RSingleton ok _ _ => ok | _ => false end.

(** ** Lane rate limits and pauses *)
Definition same_config (a b : LaneConfigRec) : bool :=
  f64_eqb a.(lc_RatePerSec) b.(lc_RatePerSec) && (a.(lc_Burst) =? b.(lc_Burst)).

Definition ensureLaneConfig (lane : bytes) : NM unit :=
  n ← nget id;
  let db := n.(n_fsm).(fsm_s) in
  match db !! LaneConfigKey lane with
  | None =>
      nwhen (bool_decide (is_Some (n.(n_loadedLaneCfg) !! lane)))
        (nmod (λ n, n_set_loadedLaneCfg (delete lane n.(n_loadedLaneCfg))
                      (n_set_limiters (delete lane n.(n_limiters)) n)))
  | Some v =>
      match row_out (A := LaneConfigRec) v with
      | None => mret ()
      | Some rec =>
          if match n.(n_loadedLaneCfg) !! lane with Some cur => same_config cur rec | None => false end
          then mret ()
          else
            nmod (λ n, n_set_loadedLaneCfg (<[lane := rec]> n.(n_loadedLaneCfg)) n);;
            if f64_leb rec.(lc_RatePerSec) f64_zero
            then nmod (λ n, n_set_limiters (delete lane n.(n_limiters)) n)
            else
              let burst := Z.of_N rec.(lc_Burst) in
              let burst := if (burst <? 1)%Z then 1%Z else burst in
              nmod (λ n, n_set_limiters
                           (<[lane := NewLimiter rec.(lc_RatePerSec) burst]> n.(n_limiters)) n)
      end
  end.

Definition SetLaneRateLimit (lane : bytes) (ratePerSec : float64) (burst : N) : NM unit :=
  apply (cmd_LaneConfig (mkLaneConfigCmd lane ratePerSec burst));;
  ensureLaneConfig lane.

Definition maxInt64 : Z := 9223372036854775807.
Definition PauseLane (lane : bytes) (durMs : N) : NM unit :=
  if durMs =? 0 then nmod (λ n, n_set_paused (<[lane := maxInt64]> n.(n_paused)) n)
  else now ← nowMs;
       nmod (λ n, n_set_paused
                    (<[lane := wrap_i64 (int_of_u64 now + int_of_u64 durMs)]> n.(n_paused)) n).
Definition ResumeLane (lane : bytes) : NM unit :=
  nmod (λ n, n_set_paused (delete lane n.(n_paused)) n).
Definition LanePaused (lane : bytes) : NM bool :=
  until ← nget (λ n, n.(n_paused) !! lane);
  match until with
  | None => mret false
  | Some until => now ← nowMs; mret (int_of_u64 now <? until)%Z
  end.

(** The limiter's [Allow], when the lane has one. *)
Definition allowLimited (lane : bytes) : NM bool := λ n,
  match n.(n_limiters) !! lane with
  | None => Some (Ok true, n)
  | Some lim =>
      let '(ok, lim', w) := limiter_Allow lim n.(n_world) in
      Some (Ok ok, n_set_limiters (<[lane := lim']> n.(n_limiters)) (n_set_world w n))
  end.

Definition laneGate (lane : bytes) : NM bool :=
  ensureLaneConfig lane;;
  until ← nget (λ n, n.(n_paused) !! lane);
  match until with
  | None => allowLimited lane
  | Some until =>
      now ← nowMs;
      if (int_of_u64 now <? until)%Z then mret false
      else ResumeLane lane;; allowLimited lane
  end.

(** ** Reaping, redriving, teardown *)
Definition ReapGroup (lane group : bytes) : NM bool :=
  res ← apply (cmd_ReapGroup (mkReapGroupCmd lane group));
  mret match res with RGroupOp a => 0 <? a | _ => false end.

Definition RedriveDeadLetter (lane group : bytes) (msgID : N) : NM (bool * N) :=
  now ← nowMs;
  res ← apply (cmd_Redrive (mkRedriveCmd lane group msgID now));
  match res with
  | RRedrive ok id =>
      nwhen ok (observe (bs "publishes");; meter_inc (incPublish lane));; mret (ok, id)
  | _ => mret (false, 0)
  end.

Definition TeardownGroup (group : bytes) : NM (list bytes * N) :=
  res ← apply (cmd_Teardown (mkTeardownCmd group));
  mret match res with RTeardown lanes a => (lanes, a) | _ => ([], 0) end.

(** The groups a sweep reaps: drained, and idle for longer than the limit. *)
Definition reapTarget (now idleMs : N) (gm : GroupMeta) : bool :=
  (gm.(gm_TotalCount) =? 0) && (0 <? gm.(gm_LastActivityMs))
  && (idleMs <? sub64 now gm.(gm_LastActivityMs)).
Definition reapTargets (now idleMs : N) (db : store) : list (bytes * bytes) :=
  (λ gm, (gm.(gm_Lane), gm.(gm_GroupId))) <$>
    filter (λ gm, reapTarget now idleMs gm = true)
      (decodeRows (NewIter GroupMetaBounds.1 (Some GroupMetaBounds.2) db)).

Fixpoint reapAll (targets : list (bytes * bytes)) : NM unit :=
  match targets with
  | [] => mret ()
  | (lane, group) :: ts => attempt (ReapGroup lane group);; reapAll ts
  end.
Definition reapSweep : NM unit :=
  now ← nowMs;
  idle ← nget (λ n, n.(n_cfg).(cfg_IdleReapMs));
  targets ← nstore (reapTargets now idle);
  reapAll targets.
(** One tick of [reapLoop]. *)
Definition reapTick : NM unit :=
  n ← nget id;
  if (n.(n_cfg).(cfg_IdleReapMs) =? 0) || negb (raft_IsLeader n.(n_world)) then mret ()
  else reapSweep.
End control.
