(* ===== verification/NodeOps.v ===== *)
(** * Leasing, settling, policies and timers ([internal/node/node.go]) *)

From S2P Require Import Prelude Keys Data Store Float Publish Workflow Broker Control Fsm Commands Fairness Meter Policy Scheduler Hash Node NodeControl.

Section ops.
Context {PC : PayloadCodec} {PE : PolicyEngines} {W : World}.

(** ** Policies *)
Definition n_SetPolicy (lane : bytes) (c : Compiled) : NM unit :=
  nmod (λ n, n_set_sched (SetPolicy lane c n.(n_sched)) n).
Definition n_loaded (lane : bytes) (v : N) : NM unit :=
  nmod (λ n, n_set_loadedPolVer (<[lane := v]> n.(n_loadedPolVer)) n).

Definition GetPolicy (lane : bytes) : NM (option Binding) :=
  nstore (λ db, GetRaw (PolicyKey lane) db ≫= unmarshal_binding).
Definition ValidatePolicy (b : Binding) : NM unit :=
  match Validate b with None => ncrash | Some r => lift r end.
Definition PolicyQuarantined (lane : bytes) : NM bool := nget (λ n, Quarantined lane n.(n_sched)).

Definition node_SetPolicy (lane : bytes) (b : Binding) : NM unit :=
  ValidatePolicy b;;
  cur ← GetPolicy lane;
  let prev := match cur with Some c => c.(bi_Version) | None => 0 end in
  let b := mkBinding b.(bi_Kind) b.(bi_Source) (incr64 prev) (hex_encode (sha256 b.(bi_Source))) in
  data ← lift (marshal_binding b);
  apply (cmd_Policy (mkPolicyCmd lane data));;
  c ← lift (Compile b);
  n_SetPolicy lane c;;
  n_loaded lane b.(bi_Version).

Definition ensurePolicy (lane : bytes) : NM unit :=
  raw ← nstore (GetRaw (PolicyKey lane));
  ver ← nget (λ n, mapget n.(n_loadedPolVer) lane);
  match raw with
  | None =>
      nwhen (negb (ver =? 0))
        (nmod (λ n, n_set_loadedPolVer (delete lane n.(n_loadedPolVer))
                      (n_set_sched (ClearPolicy lane n.(n_sched)) n)))
  | Some raw =>
      match unmarshal_binding raw with
      | None => mret ()
      | Some b =>
          if ver =? b.(bi_Version) then mret ()
          else match Compile b with
               | Err _ => mret ()
               | Ok c => n_SetPolicy lane c;; n_loaded lane b.(bi_Version)
               end
      end
  end.

(** ** Leasing *)

(** The groups a lease may come from. *)
Definition leaseCandidate (allow deny : list bytes) (g : GroupInfo) : bool :=
  negb ((g.(gi_Ready) =? 0) || g.(gi_Paused))
  && (bool_decide (allow = []) || bool_decide (g.(gi_ID) ∈ allow))
  && negb (bool_decide (g.(gi_ID) ∈ deny)).
Definition groupStat (g : GroupInfo) : GroupStat :=
  mkGroupStat g.(gi_ID) (int_of_u64 g.(gi_Ready)) (int_of_u64 g.(gi_InFlight)) g.(gi_Weight).
Definition activeGroups (allow deny : list bytes) (groups : list GroupInfo) : list GroupStat :=
  groupStat <$> filter (λ g, leaseCandidate allow deny g = true) groups.

Definition node_Pick (lane : bytes) (active : list GroupStat) (now : N) : NM (bytes * bool * bool) := λ n,
  match Pick lane active (int_of_u64 now) n.(n_sched) with
  | None => None
  | Some (gid, fb, ok, s) => Some (Ok (gid, fb, ok), n_set_sched s n)
  end.

Definition lr_set_ExternalToken (tok : bytes) (r : LeaseResult) : LeaseResult :=
  mkLeaseResult r.(lr_LeaseID) r.(lr_MsgID) r.(lr_Lane) r.(lr_GroupID) r.(lr_Payload) r.(lr_Headers)
    r.(lr_Attempt) r.(lr_DeadlineMs) r.(lr_Empty) r.(lr_IssueToken) tok.

(** The completion token of a granted lease: the producer's, or a fresh one. *)
Definition deliverToken (lr : LeaseResult) : NM LeaseResult :=
  if nonempty lr.(lr_ExternalToken) then
    registerToken lr.(lr_LeaseID) lr.(lr_ExternalToken);; mret lr
  else if lr.(lr_IssueToken) then
    tok ← IssueToken lr.(lr_LeaseID); mret (lr_set_ExternalToken tok lr)
  else mret lr.

(** The proposal for the picked group. *)
Definition leaseCmd (lane gid consumerID : bytes) : NM LeaseCmd :=
  cfg ← nget n_cfg;
  now ← nowMs;
  maxLife ← (if 0 <? cfg.(cfg_MaxLeaseLifetimeMs)
             then now' ← nowMs; mret (add64 now' cfg.(cfg_MaxLeaseLifetimeMs))
             else mret 0);
  mret (mkLeaseCmd lane gid consumerID (add64 now cfg.(cfg_VisibilityMs)) maxLife).

(** [fairness.record] reads the clock itself. *)
Definition recordServed (lane group : bytes) : NM unit :=
  now ← nowMs;
  nmod (λ n, n_set_fairness (record lane group (int_of_u64 now) n.(n_fairness)) n).

Definition LeaseOneFiltered (lane consumerID : bytes) (allow deny : list bytes) :
    NM (option LeaseResult) :=
  ensurePolicy lane;;
  gate ← laneGate lane;
  if negb gate then mret None
  else
    groups ← nstore (ListGroups lane);
    groups ← lift groups;
    let active := activeGroups allow deny groups in
    if (length active =? 0)%nat then mret None
    else
      now ← nowMs;
      p ← node_Pick lane active now;
      let '(gid, usedFallback, ok) := p in
      if negb ok then mret None
      else
        nwhen usedFallback (observe (bs "policy_faults"));;
        lc ← leaseCmd lane gid consumerID;
        res ← apply (cmd_Lease lc);
        match res with
        | RLease lr =>
            if lr.(lr_Empty) then mret None
            else
              observe (bs "leases");;
              meter_inc (incLease lane);;
              recordServed lane lr.(lr_GroupID);;
              lr ← deliverToken lr;
              mret (Some lr)
        | _ => mret None
        end.

Definition LeaseOne (lane consumerID : bytes) : NM (option LeaseResult) :=
  LeaseOneFiltered lane consumerID [] [].

(** ** Settling *)
Definition node_Ack (leaseID : N) : NM unit :=
  lane ← leaseLaneForMetrics leaseID;
  apply (cmd_Ack (mkAckCmd leaseID));;
  observe (bs "acks");;
  nwhen (nonempty lane) (meter_inc (incAck lane)).

Definition nackModeLabel (m : N) : bytes :=
  if m =? NackRetry then bs "retry"
  else if m =? NackDeadLetter then bs "dead_letter"
  else bs "requeue_no_penalty".
Definition deadLetterReasonForNack (m : N) : bytes :=
  if m =? NackDeadLetter then bs "terminal_nack" else bs "max_attempts".

Definition node_Nack (leaseID mode delayMs : N) (meta : headers) : NM bool :=
  now ← nowMs;
  res ← apply (cmd_Nack (mkNackCmd leaseID mode delayMs meta now));
  observe (bs "nacks/" ++ nackModeLabel mode);;
  match res with
  | RNack _ dead =>
      nwhen dead (observe (bs "dead_letters");;
                  observe (bs "dead_letters_by_reason/" ++ deadLetterReasonForNack mode));;
      mret dead
  | _ => mret false
  end.

Definition node_Extend (leaseID ttlMs : N) : NM unit :=
  now ← nowMs;
  apply (cmd_Extend (mkExtendCmd leaseID (add64 now ttlMs)));; mret ().

Definition DLQCount (lane : bytes) : NM nat := nstore (CountDLQ lane).

(** ** The timer sweep *)
Record due := mkdue { du_ts : N; du_kind : byte; du_ref : bytes }.

Definition parseDue (row : bytes * value) : option due :=
  match ParseTimeIndexKey row.1 with
  | Some (ts, kind, ref) => Some (mkdue ts kind ref)
  | None => None
  end.
(** The first [maxFireBatch] rows due by [now] that parse. *)
Definition dueBatch (now : N) (db : store) : list due :=
  take maxFireBatch (omap parseDue (NewIter TimeIndexPrefix (Some (TimeIndexUpTo now)) db)).

Definition fireDue (e : due) : NM unit :=
  if bool_decide (e.(du_kind) = TimerCronDue) then
    now ← nowMs; fireCron (ParseCronDueRef e.(du_ref)) now
  else
    now ← nowMs;
    attempt (apply (cmd_Fire (mkFireTimerCmd e.(du_kind) e.(du_ts) e.(du_ref) now)));;
    mret ().
Fixpoint fireAll (batch : list due) : NM unit :=
  match batch with
  | [] => mret ()
  | e :: batch' => fireDue e;; fireAll batch'
  end.
Definition sweepTimers : NM unit :=
  now ← nowMs;
  batch ← nstore (dueBatch now);
  fireAll batch.
(** One tick of [chronosLoop]. *)
Definition chronosTick : NM unit :=
  leader ← IsLeader;
  if (leader : bool) then sweepTimers else mret ().
End ops.
