(* ===== verification/NodeStats.v ===== *)
(** * The dashboard's read operations ([internal/node/stats.go])

    Paginated listings over the store's iterators, and the lane statistics. *)

From S2P Require Import Prelude Keys Data Store Float Publish Workflow Fsm Fairness Meter Policy Scheduler Hash Node NodeControl.

Definition defaultPageSize : N := 100.
Definition maxPageSize : N := 1000.
Definition clampPage (n : N) : nat :=
  N.to_nat (if (n =? 0) || (maxPageSize <? n) then defaultPageSize else n).

Definition pageStart (prefixLo token : bytes) : bytes :=
  if bool_decide (token = []) then prefixLo
  else match hex_decode token with
       | None | Some [] => prefixLo
       | Some raw => raw ++ ["000"%char]
       end.

(** The loop of every listing: rows that do not decode or match are skipped;
    a full page answers the last key as the token when a row follows. *)
Fixpoint page {A} (f : bytes * value → option A) (limit : nat) (rows : list (bytes * value)) :
    list A * bytes :=
  match rows with
  | [] => ([], [])
  | kv :: rest =>
      match f kv with
      | None => page f limit rest
      | Some a =>
          if (limit <=? 1)%nat
          then ([a], match rest with [] => [] | _ => hex_encode kv.1 end)
          else let '(l, t) := page f (pred limit) rest in (a :: l, t)
      end
  end.

Definition listPage {A} (f : bytes * value → option A) (lo : bytes) (hi : option bytes)
    (pageSize : N) (token : bytes) (db : store) : list A * bytes :=
  page f (clampPage pageSize) (NewIter (pageStart lo token) hi db).

(** ** The listings *)
Record GroupStats := mkGroupStats {
  gst_Lane : bytes; gst_GroupId : bytes; gst_Weight : float64; gst_Paused : bool;
  gst_Ready : N; gst_Delayed : N; gst_Inflight : N; gst_Total : N;
  gst_VirtualTime : float64; gst_Deficit : float64; gst_LastActivityMs : N }.
Definition groupStats (kv : bytes * value) : option GroupStats :=
  gm ← row_out (A := GroupMeta) kv.2;
  Some (mkGroupStats gm.(gm_Lane) gm.(gm_GroupId) gm.(gm_Weight) gm.(gm_Paused) gm.(gm_ReadyCount)
          gm.(gm_DelayedCount) gm.(gm_InflightCount) gm.(gm_TotalCount) gm.(gm_VirtualTime)
          gm.(gm_Deficit) gm.(gm_LastActivityMs)).
Definition ListGroupStats (lane : bytes) (pageSize : N) (token : bytes) (db : store) :
    list GroupStats * bytes :=
  let lo := GroupMetaLanePrefix lane in
  listPage groupStats lo (PrefixEnd lo) pageSize token db.

Record DeadLetterInfo := mkDeadLetterInfo {
  dli_Lane : bytes; dli_GroupId : bytes; dli_MsgId : N; dli_FinalAttempt : N; dli_Reason : bytes;
  dli_DeadAtMs : N; dli_FailureHeaders : headers; dli_Headers : headers; dli_Payload : bytes }.
Definition deadLetterInfo (lane : bytes) (kv : bytes * value) : option DeadLetterInfo :=
  dl ← row_out (A := DeadLetter) kv.2;
  let orig := dl.(dl_Original) in
  Some (mkDeadLetterInfo lane orig.(m_GroupId) orig.(m_MsgId) dl.(dl_FinalAttempt) dl.(dl_Reason)
          dl.(dl_DeadAtMs) dl.(dl_FailureHeaders) orig.(m_Headers) orig.(m_Payload)).
Definition ListDeadLetters (lane : bytes) (pageSize : N) (token : bytes) (db : store) :
    list DeadLetterInfo * bytes :=
  let lo := DLQLanePrefix lane in
  listPage (deadLetterInfo lane) lo (PrefixEnd lo) pageSize token db.

Record LeaseInfo := mkLeaseInfo {
  li_Lane : bytes; li_GroupId : bytes; li_MsgId : N; li_LeaseId : N; li_ConsumerId : bytes;
  li_DeadlineMs : N; li_Attempt : N; li_Epoch : N; li_ExtendCount : N }.
Definition leaseInfo (lane : bytes) (kv : bytes * value) : option LeaseInfo :=
  ls ← row_out (A := Lease) kv.2;
  if negb (bool_decide (ls.(ls_Lane) = lane)) then None
  else Some (mkLeaseInfo ls.(ls_Lane) ls.(ls_GroupId) ls.(ls_MsgId) ls.(ls_LeaseId)
               ls.(ls_ConsumerId) ls.(ls_DeadlineMs) ls.(ls_AttemptAtLease) ls.(ls_Epoch)
               ls.(ls_ExtendCount)).
Definition ListLeases (lane : bytes) (pageSize : N) (token : bytes) (db : store) :
    list LeaseInfo * bytes :=
  listPage (leaseInfo lane) LeaseBounds.1 (Some LeaseBounds.2) pageSize token db.

(** ** Peeking *)
Definition peekLimit : N := 200.
Record MessagePeek := mkMessagePeek {
  mp_MsgId : N; mp_State : MessageState; mp_Attempt : N; mp_EnqueueMs : N; mp_NotBeforeMs : N }.
Definition messagePeek (m : Message) : MessagePeek :=
  mkMessagePeek m.(m_MsgId) m.(m_State) m.(m_Attempt) m.(m_EnqueueMs) m.(m_NotBeforeMs).
Definition PeekMessages (lane group : bytes) (limit : N) (db : store) : list MessagePeek :=
  let lo := MessagePrefix lane group in
  let cap := if (limit =? 0) || (peekLimit <? limit) then peekLimit else limit in
  take (N.to_nat cap) (messagePeek <$> decodeRows (NewIter lo (PrefixEnd lo) db)).

Record GroupConfigInfo := mkGroupConfigInfo {
  gci_Weight : float64; gci_BatchSize : N; gci_Paused : bool; gci_Exists : bool }.
Definition GroupConfig (lane group : bytes) (db : store) : GroupConfigInfo :=
  match GetProto (A := GroupMeta) (GroupMetaKey lane group) db with
  | None => mkGroupConfigInfo f64_one 1 false false
  | Some gm => mkGroupConfigInfo gm.(gm_Weight) gm.(gm_BatchSize) gm.(gm_Paused) true
  end.

(** ** Lane statistics *)
Record LaneStat := mkLaneStat {
  st_Lane : bytes; st_Leasable : N; st_Delayed : N; st_Inflight : N; st_GroupCount : N;
  st_DLQ : N; st_PolicyVersion : N; st_PublishRate : float64; st_LeaseRate : float64;
  st_AckRate : float64; st_OldestAgeMs : N }.
Definition newLaneStat (lane : bytes) : LaneStat :=
  mkLaneStat lane 0 0 0 0 0 0 f64_zero f64_zero f64_zero 0.

(** The first message that is neither DONE nor DEAD decides. *)
Fixpoint oldestAge (now : N) (ms : list Message) : N :=
  match ms with
  | [] => 0
  | m :: ms' =>
      if bool_decide (m.(m_State) = DONE) || bool_decide (m.(m_State) = DEAD) then oldestAge now ms'
      else if (m.(m_EnqueueMs) =? 0) || (now <? m.(m_EnqueueMs)) then 0
      else now - m.(m_EnqueueMs)
  end.
Definition oldestGroupMessageAgeMs (lane group : bytes) (now : N) (db : store) : N :=
  let lo := MessagePrefix lane group in
  oldestAge now (decodeRows (NewIter lo (PrefixEnd lo) db)).

Definition addGroup (now : N) (db : store) (agg : gmap bytes LaneStat) (gm : GroupMeta) :
    gmap bytes LaneStat :=
  let s := default (newLaneStat gm.(gm_Lane)) (agg !! gm.(gm_Lane)) in
  let age := oldestGroupMessageAgeMs gm.(gm_Lane) gm.(gm_GroupId) now db in
  <[gm.(gm_Lane) :=
    mkLaneStat s.(st_Lane) (add64 s.(st_Leasable) gm.(gm_ReadyCount))
      (add64 s.(st_Delayed) gm.(gm_DelayedCount)) (add64 s.(st_Inflight) gm.(gm_InflightCount))
      (incr64 s.(st_GroupCount)) s.(st_DLQ) s.(st_PolicyVersion) s.(st_PublishRate)
      s.(st_LeaseRate) s.(st_AckRate)
      (if s.(st_OldestAgeMs) <? age then age else s.(st_OldestAgeMs))]> agg.

(** [filter != "" && x != filter] *)
Definition passes (filter x : bytes) : bool := bool_decide (filter = []) || bool_decide (x = filter).

Definition aggregate (filterLane filterGroup : bytes) (now : N) (db : store) : gmap bytes LaneStat :=
  foldl (addGroup now db) ∅
    (filter (λ gm, passes filterLane gm.(gm_Lane) && passes filterGroup gm.(gm_GroupId) = true)
       (decodeRows (NewIter GroupMetaBounds.1 (Some GroupMetaBounds.2) db))).

(** ** The cluster, as Raft reports it *)
Record PeerData := mkPeerData { pd_ID : bytes; pd_Addr : bytes; pd_Suffrage : bytes }.
Record ClusterInfoData := mkClusterInfoData {
  ci_LeaderID : bytes; ci_LeaderAddr : bytes; ci_Term : N; ci_AppliedIndex : N; ci_Peers : list PeerData }.

Section stats.
Context {PC : PayloadCodec} {PE : PolicyEngines} {W : World}.

(** A lane's dead letters, policy version and rates, joined in. *)
Definition finishStat (n : Node) (lane : bytes) (s : LaneStat) : LaneStat :=
  let r := rates lane n.(n_meter) in
  mkLaneStat s.(st_Lane) s.(st_Leasable) s.(st_Delayed) s.(st_Inflight) s.(st_GroupCount)
    (N.of_nat (CountDLQ lane n.(n_fsm).(fsm_s))) (mapget n.(n_loadedPolVer) lane)
    r.(lr_Publish) r.(lr_Lease) r.(lr_Ack) s.(st_OldestAgeMs).

(** The lanes come in Go's random map order: the answer is any permutation. *)
Definition Stats (filterLane filterGroup : bytes) : NM (list LaneStat) :=
  now ← nowMs;
  n ← nget id;
  mret ((λ '(lane, s), finishStat n lane s) <$>
    map_to_list (aggregate filterLane filterGroup now n.(n_fsm).(fsm_s))).

Definition suffrage (voter : bool) : bytes := if voter then bs "Voter" else bs "Nonvoter".
Definition ClusterInfo : NM ClusterInfoData :=
  n ← nget id;
  let '(addr, lid) := raft_LeaderWithID n.(n_world) in
  mret (mkClusterInfoData lid addr (default 0 (raft_term n.(n_world))) n.(n_fsm).(fsm_appliedIndex)
          match raft_GetConfiguration n.(n_world) with
          | Ok servers => (λ '(pid, paddr, voter), mkPeerData pid paddr (suffrage voter)) <$> servers
          | Err _ => []
          end).

Definition Health : NM (bool * bool * bool) :=
  n ← nget id;
  mret (true, nonempty (raft_LeaderWithID n.(n_world)).1, raft_IsLeader n.(n_world)).
End stats.
