(* ===== verification/NodeWorkflow.v ===== *)
(** * The durable-execution engine of the node ([internal/node/workflow.go])

    Workflow commands are validated against the committed history before they
    are proposed: the gate checks that the run is running, that the worker
    replayed to its current version, and that it replayed the same history. *)

From S2P Require Import Prelude Keys Data Store Float Publish Workflow Broker Fsm Commands Fairness Meter Policy Scheduler Hash Node NodeControl NodeStats NodeOps.

Record WorkflowCommand := mkWorkflowCommand {
  wc_Kind : bytes;
  wc_ActivityType : bytes;
  wc_Input : bytes;
  wc_Result : bytes;
  wc_DelayMs : N
}.

(** ** The prefix checksum *)
Definition eventDigest (ev : HistoryEvent) : bytes :=
  be_bytes 8 ev.(ev_EventId) ++ be_bytes 4 (Z.to_N (ev.(ev_EventType) mod 2 ^ 32)%Z) ++ ev.(ev_Attrs).
Definition PrefixChecksumOf (events : list HistoryEvent) : bytes := sha256 (events ≫= eventDigest).

(** The events from [id] to [upto], stopping at the first one missing: each
    iteration reads another row, so the number of rows is fuel enough. *)
Fixpoint historyUpto (fuel : nat) (runID id upto : N) (db : store) : list HistoryEvent :=
  match fuel with
  | O => []
  | S f =>
      if upto <? id then []
      else match GetProto (WFHistoryKey runID id) db with
           | None => []
           | Some ev => ev :: historyUpto f runID (incr64 id) upto db
           end
  end.
Definition historyChecksum (runID uptoSeq : N) (db : store) : bytes :=
  PrefixChecksumOf (historyUpto (size db) runID 1 uptoSeq db).

Definition runRow (statusFilter : option WorkflowStatus) (kv : bytes * value) : option WorkflowRun :=
  run ← row_out (A := WorkflowRun) kv.2;
  match statusFilter with
  | Some st => if bool_decide (run.(run_Status) = st) then Some run else None
  | None => Some run
  end.
Definition ListWorkflowRuns (statusFilter : option WorkflowStatus) (pageSize : N) (token : bytes)
    (db : store) : list WorkflowRun * bytes :=
  listPage (runRow statusFilter) WFRunBounds.1 (Some WFRunBounds.2) pageSize token db.

Section engine.
Context {PC : PayloadCodec} {PE : PolicyEngines} {W : World}.

Definition SignalWorkflow (runID : N) (signalName payload : bytes) : NM unit :=
  now ← nowMs;
  apply (cmd_WFSignal (mkWFSignalCmd runID signalName payload now));; mret ().

Definition CancelWorkflow (runID : N) (reason : bytes) : NM bool :=
  now ← nowMs;
  res ← apply (cmd_WFCancel (mkWFCancelCmd runID reason now));
  mret match res with RWFAppend r => r.(war_Applied) | _ => false end.

Definition StartWorkflow (workflowType tenantID input : bytes) : NM N :=
  now ← nowMs;
  res ← apply (cmd_WFStart (mkWFStartRunCmd workflowType tenantID input 0 now));
  match res with
  | RWFStartRun id => mret id
  | _ => nfail (bs "start workflow: no result")
  end.

Definition GetRun (runID : N) : NM (option WorkflowRun) := nstore (GetProto (WFRunKey runID)).
Definition GetRunHistory (runID : N) : NM (list HistoryEvent) :=
  nstore (λ db, let lo := WFHistoryPrefix runID in decodeRows (NewIter lo (PrefixEnd lo) db)).
Definition RunPrefixChecksum (runID uptoSeq : N) : NM bytes := nstore (historyChecksum runID uptoSeq).

(** ** Translating a decision *)
Definition translateCommand (c : WorkflowCommand) (tenantID : bytes) : NM WFEventIn :=
  let k := c.(wc_Kind) in
  if bool_decide (k = bs "schedule_activity") then
    mret (mkWFEventIn HET_ACTIVITY_SCHEDULED
      (marshal_ActivityScheduledAttrs
         (mkActivityScheduledAttrs c.(wc_ActivityType) tenantID c.(wc_Input))))
  else if bool_decide (k = bs "start_timer") then
    now ← nowMs;
    mret (mkWFEventIn HET_TIMER_STARTED (marshal_TimerStartedAttrs (add64 now c.(wc_DelayMs))))
  else if bool_decide (k = bs "continue_as_new") then
    mret (mkWFEventIn HET_WORKFLOW_CONTINUED_AS_NEW (marshal_ContinueAsNewAttrs c.(wc_Input)))
  else if bool_decide (k = bs "complete_workflow") then
    mret (mkWFEventIn HET_WORKFLOW_COMPLETED c.(wc_Result))
  else if bool_decide (k = bs "fail_workflow") then
    mret (mkWFEventIn HET_WORKFLOW_FAILED c.(wc_Result))
  else nfail (bs "unknown workflow command kind").

Fixpoint translateAll (cmds : list WorkflowCommand) (tenantID : bytes) : NM (list WFEventIn) :=
  match cmds with
  | [] => mret []
  | c :: cs => e ← translateCommand c tenantID; es ← translateAll cs tenantID; mret (e :: es)
  end.
Definition translateCommands (cmds : list WorkflowCommand) (tenantID : bytes) : NM (list WFEventIn) :=
  es ← translateAll cmds tenantID;
  mret (mkWFEventIn HET_WORKFLOW_TASK_COMPLETED [] :: es).

(** ** The gate *)
Definition proposeAppend (runID epoch seq : N) (events : list WFEventIn) : NM WFAppendResult :=
  now ← nowMs;
  res ← apply (cmd_WFAppend (mkWFAppendEventsCmd runID epoch seq events now));
  match res with
  | RWFAppend r => mret r
  | _ => nfail (bs "append: no result")
  end.

Definition rejected (reason : bytes) : WFAppendResult := mkWFAppendResult false reason 0.
Definition countRejection (reason : bytes) : NM unit :=
  observe (bs "workflow_task_rejections/" ++ reason).

(** [prefixChecksum == nil] is [None]. *)
Definition CompleteWorkflowTask (runID epoch seq : N) (prefixChecksum : option bytes)
    (cmds : list WorkflowCommand) : NM WFAppendResult :=
  run ← GetRun runID;
  match run with
  | None => nfail (bs "run not found")
  | Some run =>
      if negb (bool_decide (run.(run_Status) = WF_RUNNING)) then mret (rejected (bs "closed"))
      else if negb ((epoch =? run.(run_RunEpoch)) && (seq =? run.(run_CurHistorySeq)))
      then mret (rejected (bs "stale"))
      else match prefixChecksum with
      | None => countRejection (bs "checksum_required");; mret (rejected (bs "checksum_required"))
      | Some sum =>
          want ← RunPrefixChecksum runID seq;
          if negb (bool_decide (sum = want))
          then countRejection (bs "non_determinism");; mret (rejected (bs "non_determinism"))
          else
            es ← attempt (translateCommands cmds run.(run_TenantId));
            match es with
            | Err e => countRejection (bs "invalid_command");; nfail e
            | Ok events => proposeAppend runID epoch seq events
            end
      end
  end.

Definition CompleteActivityTask (runID scheduledEventID : N) (success : bool) (result : bytes) :
    NM WFAppendResult :=
  now ← nowMs;
  res ← apply (cmd_WFCompleteActivity
                 (mkWFCompleteActivityCmd runID scheduledEventID success result now));
  match res with
  | RWFAppend r => mret r
  | _ => nfail (bs "complete activity: no result")
  end.

(** ** Worker loops *)
Definition WorkflowDecider : Type := N → list HistoryEvent → list WorkflowCommand.
Definition ActivityHandler : Type := ActivityTask → bytes * bool.
Definition WorkflowTaskRetryDelayMs : N := 1000.

Inductive wfTaskResult :=
  | TaskDrop
  | TaskRetry
  | TaskResult (res : WFAppendResult).

Definition settleWorkflowTask (leaseID : N) (r : wfTaskResult) : NM unit :=
  let requeue :=
    attempt (node_Nack leaseID NackRequeueNoPenalty WorkflowTaskRetryDelayMs ∅);; mret () in
  let ack := attempt (node_Ack leaseID);; mret () in
  match r with
  | TaskDrop => ack
  | TaskRetry => requeue
  | TaskResult res =>
      if res.(war_Applied) || bool_decide (res.(war_Reason) = bs "stale")
         || bool_decide (res.(war_Reason) = bs "closed")
      then ack else requeue
  end.

Definition driveWorkflowTask (lr : LeaseResult) (decide_ : WorkflowDecider) : NM wfTaskResult :=
  match unmarshal_WorkflowTaskRef lr.(lr_Payload) with
  | None => mret TaskDrop
  | Some ref =>
      run ← GetRun ref.(wtr_RunId);
      match run with
      | None => mret TaskDrop
      | Some run =>
          if negb (bool_decide (run.(run_Status) = WF_RUNNING)) then mret TaskDrop
          else
            history ← GetRunHistory ref.(wtr_RunId);
            let cmds := decide_ ref.(wtr_RunId) history in
            cs ← RunPrefixChecksum ref.(wtr_RunId) run.(run_CurHistorySeq);
            r ← attempt (CompleteWorkflowTask ref.(wtr_RunId) run.(run_RunEpoch)
                           run.(run_CurHistorySeq) (Some cs) cmds);
            mret match r with Err _ => TaskRetry | Ok res => TaskResult res end
      end
  end.

(** One round of each worker loop; [false] is an idle round (it sleeps). *)
Definition workflowWorkerRound (workflowType consumerID : bytes) (decide_ : WorkflowDecider) : NM bool :=
  r ← attempt (LeaseOne (WorkflowLanePrefix ++ workflowType) consumerID);
  match r with
  | Ok (Some lr) =>
      t ← driveWorkflowTask lr decide_;
      settleWorkflowTask lr.(lr_LeaseID) t;;
      mret true
  | _ => mret false
  end.

Definition activityWorkerRound (activityType consumerID : bytes) (handle : ActivityHandler) : NM bool :=
  r ← attempt (LeaseOne (ActivityLanePrefix ++ activityType) consumerID);
  match r with
  | Ok (Some lr) =>
      match unmarshal_ActivityTask lr.(lr_Payload) with
      | Some task =>
          nwhen (negb (task.(atk_RunId) =? 0))
            (let '(result, success) := handle task in
             attempt (CompleteActivityTask task.(atk_RunId) task.(atk_ScheduledEventId) success result);;
             mret ())
      | None => mret ()
      end;;
      attempt (node_Ack lr.(lr_LeaseID));;
      mret true
  | _ => mret false
  end.
End engine.
