(* ===== verification/NodeAuth.v ===== *)
(** * Authorization ([internal/node/auth.go])

    Principals, their tokens and grants, and the decision on a token.  Regular
    expressions and Unicode lower-casing are parameters ([Text]); hashing,
    encodings and trimming are [Hash.v]'s. *)

From S2P Require Import Prelude Keys Data Store Float Publish Workflow Auth Fsm Commands Fairness Meter Policy Scheduler Hash Node NodeControl.


Definition AUTH_ACTION_UNSPECIFIED : Z := 0.
Definition AUTH_READ : Z := 1.
Definition AUTH_ADMIN : Z := 7.

Record AuthCheck := mkAuthCheck { ck_Action : Z; ck_Lane : bytes; ck_Group : bytes }.

(** [regexp.Compile] succeeds, [regexp.MatchString] (false on a pattern that
    does not compile), [strings.ToLower], and the formatted reason of a denial. *)
Class Text := {
  regexp_ok : bytes → bool;
  regexp_match : bytes → bytes → bool;
  ToLower : bytes → bytes;
  denial_reason : AuthCheck → bytes;
}.

Record AuthDecision := mkAuthDecision {
  ad_Enabled : bool; ad_Allowed : bool; ad_Known : bool; ad_Principal : bytes; ad_Reason : bytes }.

Definition AuthEnabled (db : store) : bool :=
  negb (bool_decide (NewIter AuthPrincipalBounds.1 (Some AuthPrincipalBounds.2) db = [])).

Definition redactPrincipal (p : AuthPrincipal) : AuthPrincipal :=
  mkAuthPrincipal p.(ap_Name) p.(ap_Disabled) p.(ap_Tags) p.(ap_Grants)
    ((λ t, mkAuthTokenInfo t.(at_TokenId) [] [] t.(at_CreatedMs) t.(at_RotatedMs)) <$> p.(ap_Token))
    p.(ap_CreatedMs) p.(ap_UpdatedMs).

(** [sort.Slice] by name: names are unique, so any sort gives this order. *)
Definition name_le (p q : AuthPrincipal) : Prop := bytes_le p.(ap_Name) q.(ap_Name).
#[export] Instance name_le_dec : RelDecision name_le.
Proof. intros p q. unfold name_le. apply _. Defined.
Definition listAuthPrincipals (redact : bool) (db : store) : list AuthPrincipal :=
  let ps := decodeRows (NewIter AuthPrincipalBounds.1 (Some AuthPrincipalBounds.2) db) in
  merge_sort name_le (if redact then redactPrincipal <$> ps else ps).
Definition ListAuthPrincipals (db : store) : list AuthPrincipal := listAuthPrincipals true db.

(** ** Tokens *)
Definition saltedTokenHash (salt token : bytes) : bytes := sha256 (salt ++ token).
Definition principalTokenMatches (p : AuthPrincipal) (token : bytes) : bool :=
  match p.(ap_Token) with
  | None => false
  | Some info =>
      nonempty info.(at_Salt) && nonempty info.(at_Hash)
      && bool_decide (saltedTokenHash info.(at_Salt) token = info.(at_Hash))
  end.

(** ** Patterns, tags and grants *)
Definition normalizePattern (pattern : bytes) : bytes :=
  let pattern := TrimSpace pattern in
  if bool_decide (pattern = [] ∨ pattern = bs "*") then bs ".*" else pattern.

Definition grantHasAction (g : AuthGrant) (action : Z) : bool :=
  existsb (λ a, (a =? AUTH_ADMIN)%Z || (a =? action)%Z) g.(ag_Actions).

Section auth.
Context {T : Text}.

Definition grantAllows (g : AuthGrant) (check : AuthCheck) : bool :=
  if negb (grantHasAction g check.(ck_Action)) then false
  else regexp_match (normalizePattern g.(ag_LanePattern)) check.(ck_Lane)
       && regexp_match (normalizePattern g.(ag_GroupPattern)) check.(ck_Group).

Definition tagAllows (check : AuthCheck) (tag : bytes) : bool :=
  let t := ToLower tag in
  if bool_decide (t = bs "administrator") then true
  else if bool_decide (t = bs "dashboard" ∨ t = bs "monitoring")
       then (check.(ck_Action) =? AUTH_READ)%Z
       else false.
Definition principalAllows (p : AuthPrincipal) (check : AuthCheck) : bool :=
  existsb (tagAllows check) p.(ap_Tags) || existsb (λ g, grantAllows g check) p.(ap_Grants).

(** ** The decision *)
Definition decision_of (p : AuthPrincipal) (checks : list AuthCheck) : AuthDecision :=
  let d := mkAuthDecision true false true p.(ap_Name) in
  if p.(ap_Disabled) then d (bs "principal disabled")
  else
    let checks := match checks with [] => [mkAuthCheck AUTH_ADMIN [] []] | _ => checks end in
    match filter (λ c, principalAllows p c = false) checks with
    | c :: _ => d (denial_reason c)
    | [] => mkAuthDecision true true true p.(ap_Name) []
    end.

Definition AuthorizeToken (token : bytes) (checks : list AuthCheck) (db : store) : AuthDecision :=
  if negb (AuthEnabled db) then mkAuthDecision false true false [] []
  else if negb (nonempty (TrimSpace token)) then mkAuthDecision true false false [] (bs "missing token")
  else
    match filter (λ p, principalTokenMatches p token = true) (listAuthPrincipals false db) with
    | p :: _ => decision_of p checks
    | [] => mkAuthDecision true false false [] (bs "unknown token")
    end.

(** ** Validation of what a client submits *)
Fixpoint dedupActions (seen acts : list Z) : option (list Z) :=
  match acts with
  | [] => Some []
  | a :: acts' =>
      if (a =? AUTH_ACTION_UNSPECIFIED)%Z then None
      else if bool_decide (a ∈ seen) then dedupActions seen acts'
      else match dedupActions (a :: seen) acts' with
           | Some l => Some (a :: l)
           | None => None
           end
  end.

(** One grant; a nil grant is [None]. *)
Definition validateGrant (g : option AuthGrant) : result AuthGrant :=
  match g with
  | None => Err (bs "grant is required")
  | Some g =>
      let lane := normalizePattern g.(ag_LanePattern) in
      let group := normalizePattern g.(ag_GroupPattern) in
      if negb (regexp_ok lane) then Err (bs "invalid lane pattern")
      else if negb (regexp_ok group) then Err (bs "invalid group pattern")
      else if bool_decide (g.(ag_Actions) = []) then Err (bs "grant must include at least one action")
      else match dedupActions [] g.(ag_Actions) with
           | None => Err (bs "grant includes unspecified action")
           | Some acts => Ok (mkAuthGrant lane group acts g.(ag_Note))
           end
  end.
Fixpoint validateGrants (gs : list (option AuthGrant)) : result (list AuthGrant) :=
  match gs with
  | [] => Ok []
  | g :: gs' =>
      match validateGrant g with
      | Err e => Err e
      | Ok g => match validateGrants gs' with Err e => Err e | Ok l => Ok (g :: l) end
      end
  end.

Definition canonicalTags (tags : list bytes) : list bytes :=
  merge_sort bytes_le
    (foldl (λ out tag, let tag := ToLower (TrimSpace tag) in
                       if bool_decide (tag = []) || bool_decide (tag ∈ out) then out else out ++ [tag])
       [] tags).

(** ["\x00\r\n\t "] *)
Definition forbidden_in_names : list ascii := ascii_of_N <$> [0; 13; 10; 9; 32].
Definition validatePrincipalInput (name : bytes) (tags : list bytes) (grants : list (option AuthGrant)) :
    result (bytes * list bytes * list AuthGrant) :=
  let name := TrimSpace name in
  if negb (nonempty name) then Err (bs "principal name is required")
  else if existsb (λ c, bool_decide (c ∈ forbidden_in_names)) name
  then Err (bs "principal name may not contain whitespace or control characters")
  else match validateGrants grants with
       | Err e => Err e
       | Ok gs => Ok (name, canonicalTags tags, gs)
       end.

Definition grantToCmd (g : AuthGrant) : AuthGrantCmd :=
  mkAuthGrantCmd g.(ag_LanePattern) g.(ag_GroupPattern) g.(ag_Actions) g.(ag_Note).
Definition grantsToCmd (gs : list AuthGrant) : list AuthGrantCmd := grantToCmd <$> gs.

(** ** Operations *)
Section ops.
Context {PC : PayloadCodec} {PE : PolicyEngines} {W : World}.

Definition mintAuthToken : NM bytes :=
  r ← nworld (rand_Read 32);
  raw ← lift r;
  mret (bs "rota_" ++ b64_encode raw).

Definition authTokenMaterial (token : bytes) : NM AuthTokenInfo :=
  if negb (nonempty (TrimSpace token)) then nfail (bs "token is required")
  else
    r ← nworld (rand_Read 16);
    salt ← lift r;
    mret (mkAuthTokenInfo (hex_encode (take 8 (sha256 token))) salt (saltedTokenHash salt token) 0 0).

(** [p, _ := res.( *AuthPrincipal)] and its redaction. *)
Definition redactedResult (res : ApplyResult) : option AuthPrincipal :=
  match res with RPrincipal p => Some (redactPrincipal p) | _ => None end.

Definition createAuthPrincipalWithToken (name : bytes) (tags : list bytes)
    (grants : list (option AuthGrant)) (token : bytes) : NM (option AuthPrincipal * bytes) :=
  v ← lift (validatePrincipalInput name tags grants);
  let '(name, tags, gs) := v in
  tok ← authTokenMaterial token;
  now ← nowMs;
  res ← apply (cmd_AuthPrincipal (mkAuthPrincipalCmd AuthCreatePrincipal name tags (grantsToCmd gs)
                 None 0 false tok.(at_TokenId) tok.(at_Salt) tok.(at_Hash) now));
  mret (redactedResult res, token).

Definition CreateAuthPrincipal (name : bytes) (tags : list bytes) (grants : list (option AuthGrant)) :
    NM (option AuthPrincipal * bytes) :=
  token ← mintAuthToken;
  createAuthPrincipalWithToken name tags grants token.

Definition BootstrapAdminPrincipal : bytes := bs "root".
Definition BootstrapAuthAdmin (name token : bytes) : NM unit :=
  if negb (nonempty (TrimSpace token)) then mret ()
  else
    let name := TrimSpace name in
    let name := if nonempty name then name else BootstrapAdminPrincipal in
    enabled ← nstore AuthEnabled;
    leader ← IsLeader;
    if enabled || negb leader then mret ()
    else
      createAuthPrincipalWithToken name [bs "administrator"]
        [Some (mkAuthGrant (bs ".*") (bs ".*") [AUTH_ADMIN] (bs "bootstrap administrator"))] token;;
      mret ().

(** Every other operation trims the name and requires it. *)
Definition withName {A} (name : bytes) (k : bytes → NM A) : NM A :=
  let name := TrimSpace name in
  if negb (nonempty name) then nfail (bs "principal name is required") else k name.

Definition RotateAuthPrincipalToken (name : bytes) : NM (option AuthPrincipal * bytes) :=
  withName name (λ name,
    token ← mintAuthToken;
    tok ← authTokenMaterial token;
    now ← nowMs;
    res ← apply (cmd_AuthPrincipal (mkAuthPrincipalCmd AuthRotatePrincipalToken name [] [] None 0 false
                   tok.(at_TokenId) tok.(at_Salt) tok.(at_Hash) now));
    mret (redactedResult res, token)).

Definition SetAuthPrincipalDisabled (name : bytes) (disabled : bool) : NM unit :=
  withName name (λ name,
    now ← nowMs;
    apply (cmd_AuthPrincipal (mkAuthPrincipalCmd AuthSetPrincipalDisabled name [] [] None 0 disabled
             [] [] [] now));;
    mret ()).

Definition GrantAuthPrincipal (name : bytes) (grant : option AuthGrant) : NM unit :=
  withName name (λ name,
    g ← lift (validateGrant grant);
    now ← nowMs;
    apply (cmd_AuthPrincipal (mkAuthPrincipalCmd AuthGrantPrincipal name [] [] (Some (grantToCmd g)) 0
             false [] [] [] now));;
    mret ()).

Definition RevokeAuthPrincipalGrant (name : bytes) (grantIndex : N) : NM unit :=
  withName name (λ name,
    now ← nowMs;
    apply (cmd_AuthPrincipal (mkAuthPrincipalCmd AuthRevokePrincipalGrant name [] [] None grantIndex
             false [] [] [] now));;
    mret ()).
End ops.
End auth.
