(* ===== verification/Observatory.v ===== *)
(** * The fairness observatory ([internal/node/fairness.go], [LaneFairness] and
    [PolicyHealth])

    A lane's stored groups joined with the served-order projection: expected and
    actual shares and a starvation score per group. *)

From S2P Require Import Prelude Keys Data Store Float Publish Workflow Fsm Fairness Meter Policy Scheduler Hash Node NodeControl NodeOps.

Record GroupFairness := mkGroupFairness {
  gf_GroupId : bytes; gf_Weight : float64; gf_ExpectedShare : float64; gf_ActualShare : float64;
  gf_VirtualTime : float64; gf_Deficit : float64; gf_Served : N; gf_Paused : bool;
  gf_StarvationScore : float64 }.
Record LaneFairness := mkLaneFairness {
  lf_Lane : bytes; lf_TotalServed : N; lf_Groups : list GroupFairness }.

Definition backlogOf (gm : GroupMeta) : N :=
  add64 (add64 gm.(gm_ReadyCount) gm.(gm_InflightCount)) gm.(gm_DelayedCount).
Definition activeGroup (snap : LaneFairnessSnapshot) (gm : GroupMeta) : bool :=
  negb gm.(gm_Paused) && ((0 <? backlogOf gm) || (0 <? mapget snap.(fs_Served) gm.(gm_GroupId))).
Definition weighs (snap : LaneFairnessSnapshot) (gm : GroupMeta) : bool :=
  activeGroup snap gm && f64_gtb gm.(gm_Weight) f64_zero.

Definition weightSum (snap : LaneFairnessSnapshot) (gms : list GroupMeta) : float64 :=
  let s := foldl (λ s gm, if weighs snap gm then f64_add s gm.(gm_Weight) else s) f64_zero gms in
  if f64_leb s f64_zero then f64_one else s.

Definition expectedShare (snap : LaneFairnessSnapshot) (sum : float64) (gm : GroupMeta) : float64 :=
  if weighs snap gm then f64_div gm.(gm_Weight) sum else f64_zero.
Definition actualShare (snap : LaneFairnessSnapshot) (gm : GroupMeta) : float64 :=
  if 0 <? snap.(fs_Total)
  then f64_div (f64_of_N (mapget snap.(fs_Served) gm.(gm_GroupId))) (f64_of_N snap.(fs_Total))
  else f64_zero.

(** The age since the group was last served (or active), never negative. *)
Definition ageMs (now : Z) (gm : GroupMeta) : float64 :=
  let a := if (0 <? gm.(gm_LastServedTs))%Z then f64_of_Z (wrap_i64 (now - gm.(gm_LastServedTs)))
           else if 0 <? gm.(gm_LastActivityMs)
                then f64_of_Z (wrap_i64 (now - int_of_u64 gm.(gm_LastActivityMs)))
                else f64_zero in
  if f64_ltb a f64_zero then f64_zero else a.
Definition rawStarvation (snap : LaneFairnessSnapshot) (sum : float64) (now : Z) (gm : GroupMeta) : float64 :=
  let gap := f64_sub (expectedShare snap sum gm) (actualShare snap gm) in
  let gap := if f64_ltb gap f64_zero then f64_zero else gap in
  f64_mul (f64_mul (ageMs now gm) (f64_of_N (backlogOf gm))) gap.

Definition groupFairness (snap : LaneFairnessSnapshot) (sum : float64) (gm : GroupMeta)
    (score : float64) : GroupFairness :=
  mkGroupFairness gm.(gm_GroupId) gm.(gm_Weight) (expectedShare snap sum gm) (actualShare snap gm)
    gm.(gm_VirtualTime) gm.(gm_Deficit) (mapget snap.(fs_Served) gm.(gm_GroupId)) gm.(gm_Paused) score.

Definition laneFairness (lane : bytes) (snap : LaneFairnessSnapshot) (now : Z) (gms : list GroupMeta) :
    LaneFairness :=
  let sum := weightSum snap gms in
  let raws := (λ gm, (gm, rawStarvation snap sum now gm)) <$> gms in
  let maxRaw := foldl (λ m '(_, r), if f64_gtb r m then r else m) f64_zero raws in
  mkLaneFairness lane snap.(fs_Total)
    ((λ '(gm, r), groupFairness snap sum gm
        (if f64_gtb maxRaw f64_zero then f64_div r maxRaw else f64_zero)) <$> raws).

Record PolicyHealth := mkPolicyHealth {
  ph_Lane : bytes; ph_Quarantined : bool; ph_Faults : N; ph_Engine : bytes; ph_Version : N }.

Section observatory.
Context {PC : PayloadCodec} {PE : PolicyEngines} {W : World}.

Definition node_LaneFairness (lane : bytes) : NM LaneFairness :=
  snap ← nget (λ n, snapshot lane n.(n_fairness));
  gms ← nstore (λ db, let lo := GroupMetaLanePrefix lane in
                      decodeRows (NewIter lo (PrefixEnd lo) db));
  now ← nowMs;
  mret (laneFairness lane snap (int_of_u64 now) gms).

Definition node_PolicyHealth (lane : bytes) : NM PolicyHealth :=
  quarantined ← PolicyQuarantined lane;
  faults ← nget (λ n, u64_of_int (Faults lane n.(n_sched)));
  let h := mkPolicyHealth lane quarantined faults (bs "builtin") 0 in
  b ← GetPolicy lane;
  mret match b with
       | None => h
       | Some b =>
           mkPolicyHealth lane quarantined faults
             (if bool_decide (b.(bi_Kind) = KindCEL) then bs "cel"
              else if bool_decide (b.(bi_Kind) = KindWASM) then bs "wasm" else bs "builtin")
             b.(bi_Version)
       end.
End observatory.
