(* ===== verification/Transport.v ===== *)
(** * The gRPC services and their interceptors ([internal/transport])

    What a remote call does to a node: the checks and the leader guard that run
    before it ([auth.go], [leader.go]) and the unary methods of the three
    services ([broker.go], [control.go], [workflow.go]).  The wire format and the
    gRPC library are not modelled: a [Request] is a decoded message, an error is
    its status text.  A [google.protobuf.Duration] or [Timestamp] is the
    milliseconds its conversion yields; a message field that may be absent is an
    option.  The bidirectional [Work] stream is in [Work.v]. *)

From S2P Require Import Prelude Keys Data Store Float Publish Workflow Broker Control Auth Timers Fsm Commands Fairness Meter Policy Scheduler Hash Node NodeControl NodeOps NodeStats NodeWorkflow NodeAuth Observatory.

(** ** Requests *)
Inductive NotBefore := NBNone | NBDelay (ms : Z) | NBAt (unix_ms : Z).

Record MessageSpec := mkMessageSpec {
  sp_Lane : bytes; sp_GroupId : bytes; sp_Payload : bytes; sp_Headers : headers;
  sp_NotBefore : NotBefore; sp_MaxAttempts : N; sp_Ttl : option Z;
  sp_Weight : option float64; sp_BatchSize : option N;
  sp_DedupKey : bytes; sp_IssueToken : bool; sp_ExternalToken : bytes }.

(** [PolicyKind]'s numbers; [PolicySource]. *)
Definition PB_DRR : Z := 1.
Definition PB_STRICT_PRIORITY : Z := 2.
Definition PB_WFQ : Z := 3.
Definition PB_LOTTERY : Z := 4.
Definition PB_CUSTOM : Z := 5.
Definition PB_COMPLETION_AWARE : Z := 6.
Record PolicySource := mkPolicySource { src_Kind : Z; src_Engine : bytes; src_Code : bytes }.

(** [Outcome]: zero is [SUCCESS]. *)
Definition Outcome_SUCCESS : Z := 0.

Inductive Request :=
  | Req_Publish (message : option MessageSpec)
  | Req_PublishBatch (messages : list MessageSpec) (atomic : bool)
  | Req_SetGroupConfig (lane group : bytes) (weight : option float64) (batch : option N)
  | Req_GetGroupConfig (lane group : bytes)
  | Req_PauseGroup (lane group : bytes)
  | Req_ResumeGroup (lane group : bytes)
  | Req_CancelGroup (lane group : bytes)
  | Req_PurgeGroup (lane group : bytes)
  | Req_ReapGroup (lane group : bytes)
  | Req_TeardownGroup (group : bytes)
  | Req_SetLaneConfig (lane : bytes) (ratePerSec : float64) (burst : N)
  | Req_PauseLane (lane : bytes) (duration : Z)
  | Req_ResumeLane (lane : bytes)
  | Req_SetPolicy (lane : bytes) (source : PolicySource)
  | Req_GetPolicy (lane : bytes)
  | Req_ValidatePolicy (lane : bytes) (source : PolicySource)
  | Req_ScheduleCron (cronID lane group payload : bytes) (hs : headers) (schedule : bytes)
  | Req_ListCron (lane : bytes)
  | Req_DeleteCron (cronID : bytes)
  | Req_PauseCron (cronID : bytes)
  | Req_AcquireSingletonLease (name holder : bytes) (ttl : Z)
  | Req_RenewSingletonLease (name holder : bytes) (fence : N) (ttl : Z)
  | Req_ReleaseSingletonLease (name holder : bytes) (fence : N)
  | Req_CompleteByToken (token : bytes) (outcome : Z) (meta : headers) (delay : option Z)
  | Req_GetStats (lane group : bytes)
  | Req_DescribeCluster
  | Req_Health
  | Req_ListGroups (lane : bytes) (pageSize : N) (token : bytes)
  | Req_ListDeadLetters (lane : bytes) (pageSize : N) (token : bytes)
  | Req_ListLeases (lane : bytes) (pageSize : N) (token : bytes)
  | Req_PeekMessages (lane group : bytes) (limit : N)
  | Req_GetLaneFairness (lane : bytes)
  | Req_GetPolicyHealth (lane : bytes)
  | Req_RedriveDeadLetter (lane group : bytes) (msgID : N)
  | Req_CreatePrincipal (name : bytes) (tags : list bytes) (grants : list (option AuthGrant))
  | Req_RotatePrincipalToken (name : bytes)
  | Req_SetPrincipalDisabled (name : bytes) (disabled : bool)
  | Req_GrantPrincipal (name : bytes) (grant : option AuthGrant)
  | Req_RevokePrincipalGrant (name : bytes) (index : N)
  | Req_ListPrincipals
  | Req_StartWorkflow (workflowType tenant input : bytes)
  | Req_SignalWorkflow (runID : N) (name payload : bytes)
  | Req_CancelWorkflow (runID : N) (reason : bytes)
  | Req_GetWorkflowRun (runID : N)
  | Req_GetWorkflowHistory (runID : N)
  | Req_ListWorkflowRuns (status : WorkflowStatus) (hasStatus : bool) (pageSize : N) (token : bytes)
  | Req_PollWorkflowTask (taskType consumerID : bytes)
  | Req_RespondWorkflowTask (runID leaseID epoch seq : N) (prefixChecksum : bytes)
      (cmds : list WorkflowCommand)
  | Req_PollActivityTask (taskType consumerID : bytes)
  | Req_RespondActivityTask (runID leaseID scheduledEventID : N) (success : bool) (result : bytes).

Definition brokerMethod (m : bytes) : bytes := bs "/rota.v1.Broker/" ++ m.
Definition controlMethod (m : bytes) : bytes := bs "/rota.v1.Control/" ++ m.
Definition workflowMethod (m : bytes) : bytes := bs "/rota.v1.Workflow/" ++ m.
Definition Broker_Work_FullMethodName : bytes := brokerMethod (bs "Work").

(** The method a request is sent to. *)
Definition FullMethod (req : Request) : bytes :=
  match req with
  | Req_Publish _ => brokerMethod (bs "Publish")
  | Req_PublishBatch _ _ => brokerMethod (bs "PublishBatch")
  | Req_SetGroupConfig _ _ _ _ => controlMethod (bs "SetGroupConfig")
  | Req_GetGroupConfig _ _ => controlMethod (bs "GetGroupConfig")
  | Req_PauseGroup _ _ => controlMethod (bs "PauseGroup")
  | Req_ResumeGroup _ _ => controlMethod (bs "ResumeGroup")
  | Req_CancelGroup _ _ => controlMethod (bs "CancelGroup")
  | Req_PurgeGroup _ _ => controlMethod (bs "PurgeGroup")
  | Req_ReapGroup _ _ => controlMethod (bs "ReapGroup")
  | Req_TeardownGroup _ => controlMethod (bs "TeardownGroup")
  | Req_SetLaneConfig _ _ _ => controlMethod (bs "SetLaneConfig")
  | Req_PauseLane _ _ => controlMethod (bs "PauseLane")
  | Req_ResumeLane _ => controlMethod (bs "ResumeLane")
  | Req_SetPolicy _ _ => controlMethod (bs "SetPolicy")
  | Req_GetPolicy _ => controlMethod (bs "GetPolicy")
  | Req_ValidatePolicy _ _ => controlMethod (bs "ValidatePolicy")
  | Req_ScheduleCron _ _ _ _ _ _ => controlMethod (bs "ScheduleCron")
  | Req_ListCron _ => controlMethod (bs "ListCron")
  | Req_DeleteCron _ => controlMethod (bs "DeleteCron")
  | Req_PauseCron _ => controlMethod (bs "PauseCron")
  | Req_AcquireSingletonLease _ _ _ => controlMethod (bs "AcquireSingletonLease")
  | Req_RenewSingletonLease _ _ _ _ => controlMethod (bs "RenewSingletonLease")
  | Req_ReleaseSingletonLease _ _ _ => controlMethod (bs "ReleaseSingletonLease")
  | Req_CompleteByToken _ _ _ _ => controlMethod (bs "CompleteByToken")
  | Req_GetStats _ _ => controlMethod (bs "GetStats")
  | Req_DescribeCluster => controlMethod (bs "DescribeCluster")
  | Req_Health => controlMethod (bs "Health")
  | Req_ListGroups _ _ _ => controlMethod (bs "ListGroups")
  | Req_ListDeadLetters _ _ _ => controlMethod (bs "ListDeadLetters")
  | Req_ListLeases _ _ _ => controlMethod (bs "ListLeases")
  | Req_PeekMessages _ _ _ => controlMethod (bs "PeekMessages")
  | Req_GetLaneFairness _ => controlMethod (bs "GetLaneFairness")
  | Req_GetPolicyHealth _ => controlMethod (bs "GetPolicyHealth")
  | Req_RedriveDeadLetter _ _ _ => controlMethod (bs "RedriveDeadLetter")
  | Req_CreatePrincipal _ _ _ => controlMethod (bs "CreatePrincipal")
  | Req_RotatePrincipalToken _ => controlMethod (bs "RotatePrincipalToken")
  | Req_SetPrincipalDisabled _ _ => controlMethod (bs "SetPrincipalDisabled")
  | Req_GrantPrincipal _ _ => controlMethod (bs "GrantPrincipal")
  | Req_RevokePrincipalGrant _ _ => controlMethod (bs "RevokePrincipalGrant")
  | Req_ListPrincipals => controlMethod (bs "ListPrincipals")
  | Req_StartWorkflow _ _ _ => workflowMethod (bs "StartWorkflow")
  | Req_SignalWorkflow _ _ _ => workflowMethod (bs "SignalWorkflow")
  | Req_CancelWorkflow _ _ => workflowMethod (bs "CancelWorkflow")
  | Req_GetWorkflowRun _ => workflowMethod (bs "GetWorkflowRun")
  | Req_GetWorkflowHistory _ => workflowMethod (bs "GetWorkflowHistory")
  | Req_ListWorkflowRuns _ _ _ _ => workflowMethod (bs "ListWorkflowRuns")
  | Req_PollWorkflowTask _ _ => workflowMethod (bs "PollWorkflowTask")
  | Req_RespondWorkflowTask _ _ _ _ _ _ => workflowMethod (bs "RespondWorkflowTask")
  | Req_PollActivityTask _ _ => workflowMethod (bs "PollActivityTask")
  | Req_RespondActivityTask _ _ _ _ _ => workflowMethod (bs "RespondActivityTask")
  end.

(** ** Responses

    A response that is a copy of a node's record carries that record. *)
Record CronInfo := mkCronInfo {
  crn_CronId : bytes; crn_Lane : bytes; crn_Schedule : bytes;
  crn_NextFireMs : N; crn_LastFireMs : N; crn_Paused : bool }.
Record PolicyInfo := mkPolicyInfo {
  pi_Lane : bytes; pi_Source : PolicySource; pi_PolicyVersion : N; pi_SourceHash : bytes;
  pi_Quarantined : bool }.
Record PolledWorkflowTask := mkPolledWorkflowTask {
  pwt_RunId : N; pwt_LeaseId : N; pwt_RunEpoch : N; pwt_HistorySeq : N; pwt_History : list HistoryEvent }.
Record PolledActivityTask := mkPolledActivityTask {
  pat_RunId : N; pat_LeaseId : N; pat_ScheduledEventId : N; pat_ActivityType : bytes; pat_Input : bytes }.

Inductive Response :=
  | Res_Publish (id : N)
  | Res_PublishBatch (results : list (N * option bytes))
  | Res_GroupConfig (lane group : bytes) (weight : float64) (batch : N) (paused : bool)
  | Res_GroupOp (affected : N)
  | Res_Teardown (lanes : list bytes) (affected : N)
  | Res_LaneConfig (lane : bytes) (ratePerSec : float64) (burst : N) (paused : bool)
  | Res_Ok
  | Res_PolicyInfo (info : PolicyInfo)
  | Res_ValidatePolicy (ok : bool) (diagnostics : list bytes)
  | Res_CronInfo (info : CronInfo)
  | Res_ListCron (crons : list CronInfo)
  | Res_CronOp (existed : bool)
  | Res_SingletonLease (name holder : bytes) (fence : N)
  | Res_SingletonOp (released : bool)
  | Res_Complete (resolved unknown : bool)
  | Res_Stats (lanes : list LaneStat)
  | Res_ClusterInfo (ci : ClusterInfoData)
  | Res_Health (serving quorum leader : bool)
  | Res_ListGroups (groups : list GroupStats) (next : bytes)
  | Res_ListDeadLetters (dls : list DeadLetterInfo) (next : bytes)
  | Res_ListLeases (leases : list LeaseInfo) (next : bytes)
  | Res_PeekMessages (msgs : list MessagePeek)
  | Res_LaneFairness (lf : LaneFairness)
  | Res_PolicyHealth (ph : PolicyHealth)
  | Res_Redrive (ok : bool) (newID : N)
  | Res_Principal (p : option AuthPrincipal) (token : bytes)
  | Res_ListPrincipals (enabled : bool) (ps : list AuthPrincipal)
  | Res_StartWorkflow (runID : N)
  | Res_SignalWorkflow
  | Res_CancelWorkflow (canceled : bool)
  | Res_WorkflowRun (run : WorkflowRun)
  | Res_WorkflowHistory (events : list HistoryEvent)
  | Res_ListWorkflowRuns (runs : list WorkflowRun) (next : bytes)
  | Res_PolledWorkflowTask (task : option PolledWorkflowTask)
  | Res_PolledActivityTask (task : option PolledActivityTask)
  | Res_RespondWorkflowTask (applied : bool) (reason : bytes)
  | Res_RespondActivityTask.

(** [status.Error(code, detail)] *)
Definition status_Error (code detail : bytes) : bytes := code ++ bs ": " ++ detail.
(** [durationMs]; [AsDuration().Milliseconds()] of an absent duration is 0. *)
Definition durationMs (d : option Z) : N :=
  match d with None => 0 | Some ms => if (0 <? ms)%Z then Z.to_N ms else 0 end.

Definition policy_kind_of (src : PolicySource) : bytes :=
  let k := src.(src_Kind) in
  if (k =? PB_DRR)%Z then KindDRR
  else if (k =? PB_WFQ)%Z then KindWFQ
  else if (k =? PB_STRICT_PRIORITY)%Z then KindStrictPriority
  else if (k =? PB_LOTTERY)%Z then KindLottery
  else if (k =? PB_COMPLETION_AWARE)%Z then KindCompletionAware
  else if bool_decide (src.(src_Engine) = bs "wasm") then KindWASM else KindCEL.
Definition bindingFromProto (src : PolicySource) : Binding :=
  mkBinding (policy_kind_of src) src.(src_Code) 0 [].
Definition protoFromBinding (b : Binding) : PolicySource :=
  let k := b.(bi_Kind) in
  let builtin kind := mkPolicySource kind (bs "builtin") b.(bi_Source) in
  if bool_decide (k = KindWFQ) then builtin PB_WFQ
  else if bool_decide (k = KindStrictPriority) then builtin PB_STRICT_PRIORITY
  else if bool_decide (k = KindLottery) then builtin PB_LOTTERY
  else if bool_decide (k = KindCompletionAware) then builtin PB_COMPLETION_AWARE
  else if bool_decide (k = KindCEL) then mkPolicySource PB_CUSTOM (bs "cel") b.(bi_Source)
  else if bool_decide (k = KindWASM) then mkPolicySource PB_CUSTOM (bs "wasm") b.(bi_Source)
  else builtin PB_DRR.

Definition cronInfo (s : CronSpec) : CronInfo :=
  mkCronInfo s.(cs_CronID) s.(cs_Lane) s.(cs_Schedule) s.(cs_NextFireMs) s.(cs_LastFireMs) s.(cs_Paused).

Section transport.
Context {PC : PayloadCodec} {PE : PolicyEngines} {W : World} {T : Text}.

(** [status.Error(code, err.Error())] on an error of [m]. *)
Definition orStatus {A} (code : bytes) (m : NM A) : NM A :=
  r ← attempt m;
  match r with Ok x => mret x | Err e => nfail (status_Error code e) end.

(** ** Publishing ([broker.go]) *)
Definition resolveNotBefore (nb : NotBefore) : NM N :=
  match nb with
  | NBDelay ms =>
      now ← nowMs;
      mret (add64 now (Z.to_N ms))
  | NBAt t => mret (Z.to_N t)
  | NBNone => mret 0
  end.

(** The getters accept a nil message, [m.Weight] does not. *)
Definition publishReqFromSpec (m : option MessageSpec) : NM PublishReq :=
  match m with
  | None => ncrash
  | Some m =>
      nb ← resolveNotBefore m.(sp_NotBefore);
      mret (mkPublishReq m.(sp_Lane) m.(sp_GroupId) m.(sp_Payload) m.(sp_Headers)
        m.(sp_Weight) m.(sp_BatchSize) nb m.(sp_MaxAttempts) (durationMs m.(sp_Ttl))
        m.(sp_IssueToken) m.(sp_ExternalToken) m.(sp_DedupKey))
  end.
Fixpoint publishReqsFromSpecs (ms : list MessageSpec) : NM (list PublishReq) :=
  match ms with
  | [] => mret []
  | m :: ms' => r ← publishReqFromSpec (Some m); rs ← publishReqsFromSpecs ms'; mret (r :: rs)
  end.

Definition itemResult (it : PublishItemResult) : N * option bytes :=
  (it.(pir_MsgID), if it.(pir_OK) then None else Some it.(pir_Err)).

Definition Broker_Publish (m : option MessageSpec) : NM Response :=
  r ← publishReqFromSpec m;
  id ← Publish r;
  mret (Res_Publish id).
Definition Broker_PublishBatch (ms : list MessageSpec) (atomic : bool) : NM Response :=
  rs ← publishReqsFromSpecs ms;
  items ← PublishBatch rs atomic;
  mret (Res_PublishBatch (itemResult <$> items)).

(** ** The control service ([control.go]) *)
Definition groupConfig (lane group : bytes) : NM Response :=
  gc ← nstore (GroupConfig lane group);
  mret (Res_GroupConfig lane group gc.(gci_Weight) gc.(gci_BatchSize) gc.(gci_Paused)).

Definition Control_GetPolicy (lane : bytes) : NM Response :=
  b ← GetPolicy lane;
  match b with
  | None => mret (Res_PolicyInfo (mkPolicyInfo lane (mkPolicySource PB_DRR [] []) 0 [] false))
  | Some b =>
      q ← PolicyQuarantined lane;
      mret (Res_PolicyInfo (mkPolicyInfo lane (protoFromBinding b) b.(bi_Version) b.(bi_Hash) q))
  end.
Definition Control_SetPolicy (lane : bytes) (source : PolicySource) : NM Response :=
  orStatus (bs "InvalidArgument") (node_SetPolicy lane (bindingFromProto source));;
  Control_GetPolicy lane.
Definition Control_ValidatePolicy (source : PolicySource) : NM Response :=
  r ← attempt (ValidatePolicy (bindingFromProto source));
  mret match r with Ok _ => Res_ValidatePolicy true [] | Err e => Res_ValidatePolicy false [e] end.

Definition Control_ScheduleCron (cronID lane group payload : bytes) (hs : headers)
    (schedule : bytes) : NM Response :=
  orStatus (bs "InvalidArgument") (ScheduleCron cronID lane group payload hs schedule);;
  mret (Res_CronInfo (mkCronInfo cronID lane schedule 0 0 false)).
Definition Control_ListCron (lane : bytes) : NM Response :=
  specs ← ListCron;
  mret (Res_ListCron (cronInfo <$> filter (λ s, passes lane s.(cs_Lane) = true) specs)).
Definition Control_PauseCron (cronID : bytes) : NM Response :=
  PauseCron cronID;;
  s ← GetCron cronID;
  match s with
  | None => nfail (status_Error (bs "NotFound") (bs "cron not found"))
  | Some s => mret (Res_CronInfo (cronInfo s))
  end.

Definition Control_AcquireSingletonLease (name holder : bytes) (ttl : Z) : NM Response :=
  r ← AcquireSingleton name holder (u64_of_int ttl);
  let '(fence, ok) := r in
  if negb ok then nfail (status_Error (bs "FailedPrecondition") (bs "singleton lease is held by another holder"))
  else mret (Res_SingletonLease name holder fence).
Definition Control_RenewSingletonLease (name holder : bytes) (fence : N) (ttl : Z) : NM Response :=
  ok ← RenewSingleton name holder fence (u64_of_int ttl);
  if negb ok then nfail (status_Error (bs "FailedPrecondition") (bs "renew rejected (stale holder or fence)"))
  else mret (Res_SingletonLease name holder fence).

Definition Control_CompleteByToken (token : bytes) (outcome : Z) (meta : headers) (delay : option Z) :
    NM Response :=
  r ← Complete token (outcome =? Outcome_SUCCESS)%Z meta (durationMs delay);
  mret (Res_Complete (negb r.2) r.2).

Definition Control_SetLaneConfig (lane : bytes) (ratePerSec : float64) (burst : N) : NM Response :=
  SetLaneRateLimit lane ratePerSec burst;;
  p ← LanePaused lane;
  mret (Res_LaneConfig lane ratePerSec burst p).
Definition Control_ReapGroup (lane group : bytes) : NM Response :=
  ok ← ReapGroup lane group;
  mret (Res_GroupOp (if (ok : bool) then 1 else 0)).

Definition Control_CreatePrincipal (name : bytes) (tags : list bytes) (grants : list (option AuthGrant)) :
    NM Response :=
  r ← orStatus (bs "InvalidArgument") (CreateAuthPrincipal name tags grants);
  mret (Res_Principal r.1 r.2).
Definition Control_RotatePrincipalToken (name : bytes) : NM Response :=
  r ← orStatus (bs "InvalidArgument") (RotateAuthPrincipalToken name);
  mret (Res_Principal r.1 r.2).
Definition Control_ListPrincipals : NM Response :=
  enabled ← nstore AuthEnabled;
  ps ← nstore ListAuthPrincipals;
  mret (Res_ListPrincipals enabled ps).

(** ** The workflow service ([workflow.go]) *)
Definition Workflow_StartWorkflow (workflowType tenant input : bytes) : NM Response :=
  if negb (nonempty workflowType)
  then nfail (status_Error (bs "InvalidArgument") (bs "workflow_type is required"))
  else id ← StartWorkflow workflowType tenant input; mret (Res_StartWorkflow id).
Definition Workflow_GetWorkflowRun (runID : N) : NM Response :=
  run ← GetRun runID;
  match run with
  | None => nfail (status_Error (bs "NotFound") (bs "workflow run not found"))
  | Some run => mret (Res_WorkflowRun run)
  end.

(** A stale or closed task is acked away. *)
Definition dropTask (leaseID : N) (res : Response) : NM Response :=
  attempt (node_Ack leaseID);; mret res.

Definition Workflow_PollWorkflowTask (taskType consumerID : bytes) : NM Response :=
  lr ← LeaseOne (WorkflowLanePrefix ++ taskType) consumerID;
  match lr with
  | None => mret (Res_PolledWorkflowTask None)
  | Some lr =>
      let drop := dropTask lr.(lr_LeaseID) (Res_PolledWorkflowTask None) in
      match unmarshal_WorkflowTaskRef lr.(lr_Payload) with
      | None => drop
      | Some ref =>
          run ← GetRun ref.(wtr_RunId);
          match run with
          | None => drop
          | Some run =>
              if negb (bool_decide (run.(run_Status) = WF_RUNNING)) then drop
              else
                history ← GetRunHistory ref.(wtr_RunId);
                mret (Res_PolledWorkflowTask (Some (mkPolledWorkflowTask ref.(wtr_RunId) lr.(lr_LeaseID)
                        run.(run_RunEpoch) run.(run_CurHistorySeq) history)))
          end
      end
  end.

(** An empty [bytes] field is a nil slice. *)
Definition Workflow_RespondWorkflowTask (runID leaseID epoch seq : N) (prefixChecksum : bytes)
    (cmds : list WorkflowCommand) : NM Response :=
  res ← CompleteWorkflowTask runID epoch seq
          (if nonempty prefixChecksum then Some prefixChecksum else None) cmds;
  (if res.(war_Applied) || bool_decide (res.(war_Reason) = bs "stale")
      || bool_decide (res.(war_Reason) = bs "closed")
   then attempt (node_Ack leaseID);; mret ()
   else attempt (node_Nack leaseID NackRequeueNoPenalty WorkflowTaskRetryDelayMs ∅);; mret ());;
  mret (Res_RespondWorkflowTask res.(war_Applied) res.(war_Reason)).

Definition Workflow_PollActivityTask (taskType consumerID : bytes) : NM Response :=
  lr ← LeaseOne (ActivityLanePrefix ++ taskType) consumerID;
  match lr with
  | None => mret (Res_PolledActivityTask None)
  | Some lr =>
      match unmarshal_ActivityTask lr.(lr_Payload) with
      | None => dropTask lr.(lr_LeaseID) (Res_PolledActivityTask None)
      | Some task =>
          mret (Res_PolledActivityTask (Some (mkPolledActivityTask task.(atk_RunId) lr.(lr_LeaseID)
                  task.(atk_ScheduledEventId) task.(atk_ActivityType) task.(atk_Input))))
      end
  end.
Definition Workflow_RespondActivityTask (runID leaseID scheduledEventID : N) (success : bool)
    (result : bytes) : NM Response :=
  CompleteActivityTask runID scheduledEventID success result;;
  dropTask leaseID Res_RespondActivityTask.

(** ** The remaining methods *)
Definition Control_SetGroupConfig (lane group : bytes) (w : option float64) (b : option N) : NM Response :=
  SetGroupConfig lane group w b;; groupConfig lane group.
Definition Control_GetGroupConfig (lane group : bytes) : NM Response := groupConfig lane group.
Definition Control_PauseGroup (lane group : bytes) : NM Response :=
  PauseGroup lane group;; groupConfig lane group.
Definition Control_ResumeGroup (lane group : bytes) : NM Response :=
  ResumeGroup lane group;; groupConfig lane group.
Definition Control_CancelGroup (lane group : bytes) : NM Response :=
  aff ← CancelGroup lane group; mret (Res_GroupOp aff).
Definition Control_PurgeGroup (lane group : bytes) : NM Response :=
  aff ← PurgeGroup lane group; mret (Res_GroupOp aff).
Definition Control_TeardownGroup (group : bytes) : NM Response :=
  r ← TeardownGroup group; mret (Res_Teardown r.1 r.2).
Definition Control_PauseLane (lane : bytes) (duration : Z) : NM Response :=
  PauseLane lane (u64_of_int duration);; mret Res_Ok.
Definition Control_ResumeLane (lane : bytes) : NM Response := ResumeLane lane;; mret Res_Ok.
Definition Control_DeleteCron (cronID : bytes) : NM Response :=
  DeleteCron cronID;; mret (Res_CronOp true).
Definition Control_ReleaseSingletonLease (name holder : bytes) (fence : N) : NM Response :=
  ok ← ReleaseSingleton name holder fence; mret (Res_SingletonOp ok).
Definition Control_GetStats (lane group : bytes) : NM Response :=
  s ← Stats lane group; mret (Res_Stats s).
Definition Control_DescribeCluster : NM Response := ci ← ClusterInfo; mret (Res_ClusterInfo ci).
Definition Control_Health : NM Response :=
  h ← Health; let '(s, q, l) := h in mret (Res_Health s q l).
Definition Control_ListGroups (lane : bytes) (n : N) (tok : bytes) : NM Response :=
  r ← nstore (ListGroupStats lane n tok); mret (Res_ListGroups r.1 r.2).
Definition Control_ListDeadLetters (lane : bytes) (n : N) (tok : bytes) : NM Response :=
  r ← nstore (ListDeadLetters lane n tok); mret (Res_ListDeadLetters r.1 r.2).
Definition Control_ListLeases (lane : bytes) (n : N) (tok : bytes) : NM Response :=
  r ← nstore (ListLeases lane n tok); mret (Res_ListLeases r.1 r.2).
Definition Control_PeekMessages (lane group : bytes) (n : N) : NM Response :=
  ms ← nstore (PeekMessages lane group n); mret (Res_PeekMessages ms).
Definition Control_GetLaneFairness (lane : bytes) : NM Response :=
  lf ← node_LaneFairness lane; mret (Res_LaneFairness lf).
Definition Control_GetPolicyHealth (lane : bytes) : NM Response :=
  ph ← node_PolicyHealth lane; mret (Res_PolicyHealth ph).
Definition Control_RedriveDeadLetter (lane group : bytes) (id : N) : NM Response :=
  r ← RedriveDeadLetter lane group id; mret (Res_Redrive r.1 r.2).
Definition Control_SetPrincipalDisabled (name : bytes) (d : bool) : NM Response :=
  orStatus (bs "InvalidArgument") (SetAuthPrincipalDisabled name d);; mret Res_Ok.
Definition Control_GrantPrincipal (name : bytes) (g : option AuthGrant) : NM Response :=
  orStatus (bs "InvalidArgument") (GrantAuthPrincipal name g);; mret Res_Ok.
Definition Control_RevokePrincipalGrant (name : bytes) (i : N) : NM Response :=
  orStatus (bs "InvalidArgument") (RevokeAuthPrincipalGrant name i);; mret Res_Ok.
Definition Workflow_SignalWorkflow (id : N) (name payload : bytes) : NM Response :=
  SignalWorkflow id name payload;; mret Res_SignalWorkflow.
Definition Workflow_CancelWorkflow (id : N) (reason : bytes) : NM Response :=
  ok ← CancelWorkflow id reason; mret (Res_CancelWorkflow ok).
Definition Workflow_GetWorkflowHistory (id : N) : NM Response :=
  h ← GetRunHistory id; mret (Res_WorkflowHistory h).
Definition Workflow_ListWorkflowRuns (st : WorkflowStatus) (has : bool) (n : N) (tok : bytes) : NM Response :=
  r ← nstore (ListWorkflowRuns (if has then Some st else None) n tok);
  mret (Res_ListWorkflowRuns r.1 r.2).

(** ** The method a request reaches *)
Definition handle (req : Request) : NM Response :=
  match req with
  | Req_Publish m => Broker_Publish m
  | Req_PublishBatch ms atomic => Broker_PublishBatch ms atomic
  | Req_SetGroupConfig lane group w b => Control_SetGroupConfig lane group w b
  | Req_GetGroupConfig lane group => Control_GetGroupConfig lane group
  | Req_PauseGroup lane group => Control_PauseGroup lane group
  | Req_ResumeGroup lane group => Control_ResumeGroup lane group
  | Req_CancelGroup lane group => Control_CancelGroup lane group
  | Req_PurgeGroup lane group => Control_PurgeGroup lane group
  | Req_ReapGroup lane group => Control_ReapGroup lane group
  | Req_TeardownGroup group => Control_TeardownGroup group
  | Req_SetLaneConfig lane rate burst => Control_SetLaneConfig lane rate burst
  | Req_PauseLane lane d => Control_PauseLane lane d
  | Req_ResumeLane lane => Control_ResumeLane lane
  | Req_SetPolicy lane src => Control_SetPolicy lane src
  | Req_GetPolicy lane => Control_GetPolicy lane
  | Req_ValidatePolicy _ src => Control_ValidatePolicy src
  | Req_ScheduleCron id lane group payload hs sched => Control_ScheduleCron id lane group payload hs sched
  | Req_ListCron lane => Control_ListCron lane
  | Req_DeleteCron id => Control_DeleteCron id
  | Req_PauseCron id => Control_PauseCron id
  | Req_AcquireSingletonLease name holder ttl => Control_AcquireSingletonLease name holder ttl
  | Req_RenewSingletonLease name holder fence ttl => Control_RenewSingletonLease name holder fence ttl
  | Req_ReleaseSingletonLease name holder fence => Control_ReleaseSingletonLease name holder fence
  | Req_CompleteByToken tok outcome meta delay => Control_CompleteByToken tok outcome meta delay
  | Req_GetStats lane group => Control_GetStats lane group
  | Req_DescribeCluster => Control_DescribeCluster
  | Req_Health => Control_Health
  | Req_ListGroups lane n tok => Control_ListGroups lane n tok
  | Req_ListDeadLetters lane n tok => Control_ListDeadLetters lane n tok
  | Req_ListLeases lane n tok => Control_ListLeases lane n tok
  | Req_PeekMessages lane group n => Control_PeekMessages lane group n
  | Req_GetLaneFairness lane => Control_GetLaneFairness lane
  | Req_GetPolicyHealth lane => Control_GetPolicyHealth lane
  | Req_RedriveDeadLetter lane group id => Control_RedriveDeadLetter lane group id
  | Req_CreatePrincipal name tags grants => Control_CreatePrincipal name tags grants
  | Req_RotatePrincipalToken name => Control_RotatePrincipalToken name
  | Req_SetPrincipalDisabled name d => Control_SetPrincipalDisabled name d
  | Req_GrantPrincipal name g => Control_GrantPrincipal name g
  | Req_RevokePrincipalGrant name i => Control_RevokePrincipalGrant name i
  | Req_ListPrincipals => Control_ListPrincipals
  | Req_StartWorkflow ty tenant input => Workflow_StartWorkflow ty tenant input
  | Req_SignalWorkflow id name payload => Workflow_SignalWorkflow id name payload
  | Req_CancelWorkflow id reason => Workflow_CancelWorkflow id reason
  | Req_GetWorkflowRun id => Workflow_GetWorkflowRun id
  | Req_GetWorkflowHistory id => Workflow_GetWorkflowHistory id
  | Req_ListWorkflowRuns st has n tok => Workflow_ListWorkflowRuns st has n tok
  | Req_PollWorkflowTask ty who => Workflow_PollWorkflowTask ty who
  | Req_RespondWorkflowTask id lid epoch seq cs cmds => Workflow_RespondWorkflowTask id lid epoch seq cs cmds
  | Req_PollActivityTask ty who => Workflow_PollActivityTask ty who
  | Req_RespondActivityTask id lid sid ok res => Workflow_RespondActivityTask id lid sid ok res
  end.

(** ** The leader guard ([leader.go]) *)
Definition mutatingMethods : list bytes :=
  [brokerMethod (bs "Publish"); brokerMethod (bs "PublishBatch");
   controlMethod (bs "SetGroupConfig"); controlMethod (bs "PauseGroup"); controlMethod (bs "ResumeGroup");
   controlMethod (bs "CancelGroup"); controlMethod (bs "PurgeGroup"); controlMethod (bs "ReapGroup");
   controlMethod (bs "TeardownGroup"); controlMethod (bs "SetPolicy"); controlMethod (bs "ScheduleCron");
   controlMethod (bs "DeleteCron"); controlMethod (bs "PauseCron");
   controlMethod (bs "AcquireSingletonLease"); controlMethod (bs "RenewSingletonLease");
   controlMethod (bs "ReleaseSingletonLease"); controlMethod (bs "CompleteByToken");
   controlMethod (bs "SetLaneConfig"); controlMethod (bs "PauseLane"); controlMethod (bs "ResumeLane");
   controlMethod (bs "RedriveDeadLetter"); controlMethod (bs "CreatePrincipal");
   controlMethod (bs "RotatePrincipalToken"); controlMethod (bs "SetPrincipalDisabled");
   controlMethod (bs "GrantPrincipal"); controlMethod (bs "RevokePrincipalGrant");
   workflowMethod (bs "StartWorkflow"); workflowMethod (bs "SignalWorkflow");
   workflowMethod (bs "CancelWorkflow"); workflowMethod (bs "PollWorkflowTask");
   workflowMethod (bs "RespondWorkflowTask"); workflowMethod (bs "PollActivityTask");
   workflowMethod (bs "RespondActivityTask")].

(** The redirect names the leader's gRPC address. *)
Definition requireLeader : NM unit :=
  leader ← IsLeader;
  if (leader : bool) then mret ()
  else
    observe (bs "leader_redirects/unary");;
    h ← LeaderHint;
    nfail (status_Error (bs "FailedPrecondition") (bs "not_leader: " ++ h.1)).

Definition LeaderGuardInterceptor (req : Request) (handler : NM Response) : NM Response :=
  (if bool_decide (FullMethod req ∈ mutatingMethods) then requireLeader else mret ());;
  handler.

(** ** Authorization ([auth.go]) *)
Definition AUTH_PUBLISH : Z := 2.
Definition AUTH_CONSUME : Z := 3.
Definition AUTH_COMPLETE : Z := 4.
Definition AUTH_WORKFLOW : Z := 5.
Definition AUTH_CONFIGURE : Z := 6.

(** The request's metadata, keys in lower case. *)
Definition metadata : Type := option (gmap bytes (list bytes)).
Definition md_Get (md : gmap bytes (list bytes)) (k : bytes) : list bytes := default [] (md !! k).
Fixpoint firstToken (f : bytes → bytes) (l : list bytes) : bytes :=
  match l with
  | [] => []
  | x :: l' => if nonempty (f x) then f x else firstToken f l'
  end.
Definition bearerToken (got : bytes) : bytes :=
  let got := TrimSpace got in
  if has_prefix (bs "Bearer ") got then TrimSpace (drop 7 got) else [].
Definition authTokenFromContext (md : metadata) : bytes :=
  match md with
  | None => []
  | Some md =>
      let tok := firstToken TrimSpace (md_Get md (bs "x-rota-token")) in
      if nonempty tok then tok else firstToken bearerToken (md_Get md (bs "authorization"))
  end.

Definition requireAuth (md : metadata) (method : bytes) (checks : list AuthCheck) : NM unit :=
  if negb (has_prefix (bs "/rota.v1.") method) then mret ()
  else
    d ← nstore (AuthorizeToken (authTokenFromContext md) checks);
    if negb d.(ad_Enabled) || d.(ad_Allowed) then mret ()
    else if negb d.(ad_Known)
    then nfail (status_Error (bs "Unauthenticated") (bs "missing or invalid rota auth token"))
    else nfail (status_Error (bs "PermissionDenied") (bs "rota auth token lacks permission"
                  ++ if nonempty d.(ad_Reason) then bs ": " ++ d.(ad_Reason) else [])).

Definition one (action : Z) (lane group : bytes) : list AuthCheck := [mkAuthCheck action lane group].
Definition checksForMessageSpec (action : Z) (m : option MessageSpec) : list AuthCheck :=
  match m with
  | None => one action [] []
  | Some m => one action m.(sp_Lane) m.(sp_GroupId)
  end.
Definition checksForRun (action : Z) (runID : N) (db : store) : list AuthCheck :=
  match GetProto (A := WorkflowRun) (WFRunKey runID) db with
  | None => one action [] []
  | Some run => one action run.(run_WorkflowType) run.(run_TenantId)
  end.

Definition checksForUnary (req : Request) (db : store) : list AuthCheck :=
  match req with
  | Req_Publish m => checksForMessageSpec AUTH_PUBLISH m
  | Req_PublishBatch ms _ => ms ≫= λ m, checksForMessageSpec AUTH_PUBLISH (Some m)
  | Req_GetGroupConfig lane group => one AUTH_READ lane group
  | Req_SetGroupConfig lane group _ _ | Req_PauseGroup lane group | Req_ResumeGroup lane group
  | Req_CancelGroup lane group | Req_PurgeGroup lane group | Req_ReapGroup lane group =>
      one AUTH_CONFIGURE lane group
  | Req_TeardownGroup group => one AUTH_CONFIGURE [] group
  | Req_GetPolicy lane | Req_GetLaneFairness lane | Req_GetPolicyHealth lane => one AUTH_READ lane []
  | Req_SetPolicy lane _ | Req_ValidatePolicy lane _ | Req_SetLaneConfig lane _ _
  | Req_PauseLane lane _ | Req_ResumeLane lane => one AUTH_CONFIGURE lane []
  | Req_ScheduleCron _ lane group _ _ _ => one AUTH_CONFIGURE lane group
  | Req_ListCron lane => one AUTH_READ lane []
  | Req_DeleteCron id | Req_PauseCron id => one AUTH_CONFIGURE (bs "__cron") id
  | Req_AcquireSingletonLease name holder _ | Req_RenewSingletonLease name holder _ _
  | Req_ReleaseSingletonLease name holder _ => one AUTH_CONFIGURE (bs "__singleton/" ++ name) holder
  | Req_CompleteByToken _ _ _ _ => one AUTH_COMPLETE [] []
  | Req_GetStats lane group => one AUTH_READ lane group
  | Req_DescribeCluster | Req_Health => one AUTH_READ [] []
  | Req_ListGroups lane _ _ | Req_ListDeadLetters lane _ _ | Req_ListLeases lane _ _ =>
      one AUTH_READ lane []
  | Req_PeekMessages lane group _ => one AUTH_READ lane group
  | Req_RedriveDeadLetter lane group _ => one AUTH_CONFIGURE lane group
  | Req_CreatePrincipal _ _ _ | Req_RotatePrincipalToken _ | Req_SetPrincipalDisabled _ _
  | Req_GrantPrincipal _ _ | Req_RevokePrincipalGrant _ _ | Req_ListPrincipals => one AUTH_ADMIN [] []
  | Req_StartWorkflow ty tenant _ => one AUTH_WORKFLOW ty tenant
  | Req_PollWorkflowTask ty _ => one AUTH_WORKFLOW ty []
  | Req_PollActivityTask ty _ => one AUTH_WORKFLOW (ActivityLanePrefix ++ ty) []
  | Req_GetWorkflowRun id | Req_GetWorkflowHistory id => checksForRun AUTH_READ id db
  | Req_SignalWorkflow id _ _ | Req_CancelWorkflow id _ | Req_RespondWorkflowTask id _ _ _ _ _
  | Req_RespondActivityTask id _ _ _ _ => checksForRun AUTH_WORKFLOW id db
  | Req_ListWorkflowRuns _ _ _ _ => one AUTH_READ [] []
  end.

Definition AuthUnaryInterceptor (md : metadata) (req : Request) (handler : NM Response) : NM Response :=
  checks ← nstore (checksForUnary req);
  requireAuth md (FullMethod req) checks;;
  handler.

(** A unary call through the server's chain ([cmd/rota/main.go]). *)
Definition unaryCall (md : metadata) (req : Request) : NM Response :=
  AuthUnaryInterceptor md req (LeaderGuardInterceptor req (handle req)).
End transport.
