(* ===== verification/Work.v ===== *)
(** * The work stream ([internal/transport/broker.go], [auth.go])

    A consumer's bidirectional stream: it advertises credit and settles leases,
    the server leases and delivers while fewer than [credit] are in flight.  A
    receiving goroutine authorizes each frame and queues it; the handler's loop
    takes a frame, the receiver's error or a tick, whichever its [select] picks.
    A stream is therefore a state and a step per event: [workRun] follows any
    sequence of events, and other calls run on the node in between. *)

From S2P Require Import Prelude Keys Data Store Float Publish Workflow Broker Control Auth Timers Fsm Commands Fairness Meter Policy Scheduler Hash Node NodeControl NodeOps NodeAuth Transport.

(** ** Frames *)
Record LeaseRequest := mkLeaseRequest {
  rq_Lane : bytes; rq_Credit : N; rq_GroupAllow : list bytes; rq_GroupDeny : list bytes;
  rq_ConsumerId : bytes }.
(** [Msg_Unset]: none of the alternatives. *)
Inductive WorkClientMsg :=
  | Msg_LeaseRequest (r : LeaseRequest)
  | Msg_Ack (leaseID : N)
  | Msg_Nack (leaseID : N) (mode : Z) (delay : option Z) (failureMeta : headers)
  | Msg_Extend (leaseID : N) (ttl : option Z)
  | Msg_Complete (token : bytes) (outcome : Z) (meta : headers) (delay : option Z)
  | Msg_Unset.
Inductive WorkServerMsg :=
  | Srv_Lease (lr : LeaseResult)
  | Srv_Control (paused : bool) (lane : bytes)
  | Srv_NotLeader (addr : bytes).

(** The handler's variables, the receiver's queue, error and permission. *)
Record stream := mkstream {
  ws_lane : bytes; ws_consumerID : bytes; ws_groupAllow : list bytes; ws_groupDeny : list bytes;
  ws_credit : Z; ws_inflight : Z; ws_lastPaused : bool;
  ws_recvCh : list WorkClientMsg; ws_errCh : option bytes; ws_workAuthorized : bool }.
Definition newStream : stream := mkstream [] (bs "consumer") [] [] 0 0 false [] None false.

Definition ws_set_inflight (v : Z) (s : stream) : stream :=
  mkstream s.(ws_lane) s.(ws_consumerID) s.(ws_groupAllow) s.(ws_groupDeny) s.(ws_credit) v
    s.(ws_lastPaused) s.(ws_recvCh) s.(ws_errCh) s.(ws_workAuthorized).
Definition ws_set_lastPaused (v : bool) (s : stream) : stream :=
  mkstream s.(ws_lane) s.(ws_consumerID) s.(ws_groupAllow) s.(ws_groupDeny) s.(ws_credit) s.(ws_inflight)
    v s.(ws_recvCh) s.(ws_errCh) s.(ws_workAuthorized).
Definition ws_set_recvCh (v : list WorkClientMsg) (s : stream) : stream :=
  mkstream s.(ws_lane) s.(ws_consumerID) s.(ws_groupAllow) s.(ws_groupDeny) s.(ws_credit) s.(ws_inflight)
    s.(ws_lastPaused) v s.(ws_errCh) s.(ws_workAuthorized).
Definition ws_set_errCh (v : option bytes) (s : stream) : stream :=
  mkstream s.(ws_lane) s.(ws_consumerID) s.(ws_groupAllow) s.(ws_groupDeny) s.(ws_credit) s.(ws_inflight)
    s.(ws_lastPaused) s.(ws_recvCh) v s.(ws_workAuthorized).
Definition ws_set_workAuthorized (v : bool) (s : stream) : stream :=
  mkstream s.(ws_lane) s.(ws_consumerID) s.(ws_groupAllow) s.(ws_groupDeny) s.(ws_credit) s.(ws_inflight)
    s.(ws_lastPaused) s.(ws_recvCh) s.(ws_errCh) v.

(** A lease request: the lane, the consumer and the filters change only when the
    frame names them, the credit adds up. *)
Definition applyLeaseRequest (r : LeaseRequest) (s : stream) : stream :=
  mkstream
    (if nonempty r.(rq_Lane) then r.(rq_Lane) else s.(ws_lane))
    (if nonempty r.(rq_ConsumerId) then r.(rq_ConsumerId) else s.(ws_consumerID))
    (match r.(rq_GroupAllow) with [] => s.(ws_groupAllow) | gs => gs end)
    (match r.(rq_GroupDeny) with [] => s.(ws_groupDeny) | gs => gs end)
    (wrap_i64 (s.(ws_credit) + Z.of_N r.(rq_Credit))) s.(ws_inflight)
    s.(ws_lastPaused) s.(ws_recvCh) s.(ws_errCh) s.(ws_workAuthorized).
Definition settleOne (s : stream) : stream :=
  if (0 <? s.(ws_inflight))%Z then ws_set_inflight (s.(ws_inflight) - 1) s else s.

(** ** Authorizing a frame *)
Definition checksForStreamMessage (method : bytes) (m : WorkClientMsg) : list AuthCheck * bool :=
  if negb (bool_decide (method = Broker_Work_FullMethodName)) then (one AUTH_ADMIN [] [], false)
  else match m with
  | Msg_LeaseRequest r =>
      match r.(rq_GroupAllow) with
      | [] => (one AUTH_CONSUME r.(rq_Lane) [], false)
      | groups => ((λ g, mkAuthCheck AUTH_CONSUME r.(rq_Lane) g) <$> groups, false)
      end
  | Msg_Ack _ | Msg_Nack _ _ _ _ | Msg_Extend _ _ | Msg_Complete _ _ _ _ => ([], true)
  | Msg_Unset => ([], false)
  end.

(** [io.EOF] of the receiver. *)
Definition EOF : bytes := bs "EOF".

Section work.
Context {PC : PayloadCodec} {PE : PolicyEngines} {W : World} {T : Text}.

(** [authzServerStream.RecvMsg]: the new value of [workAuthorized]. *)
Definition RecvMsg (md : metadata) (method : bytes) (m : WorkClientMsg) (workAuthorized : bool) : NM bool :=
  let '(checks, requiresPriorWorkAuth) := checksForStreamMessage method m in
  enabled ← (if requiresPriorWorkAuth && negb workAuthorized then nstore AuthEnabled else mret false);
  if (enabled : bool)
  then nfail (status_Error (bs "PermissionDenied")
                (bs "work settlement requires an authorized lease request first"))
  else match checks with
  | [] => mret workAuthorized
  | _ =>
      requireAuth md method checks;;
      mret (bool_decide (method = Broker_Work_FullMethodName) || workAuthorized)
  end.

(** The receiving goroutine: it stops at the first error, and waits while the
    channel's 16 slots are full and one frame is in its hand. *)
Definition recvStep (md : metadata) (r : result WorkClientMsg) (s : stream) : NM stream :=
  match s.(ws_errCh) with
  | Some _ => mret s
  | None =>
      if (16 <? length s.(ws_recvCh))%nat then mret s
      else match r with
      | Err e => mret (ws_set_errCh (Some e) s)
      | Ok m =>
          a ← attempt (RecvMsg md Broker_Work_FullMethodName m s.(ws_workAuthorized));
          mret match a with
               | Err e => ws_set_errCh (Some e) s
               | Ok auth => ws_set_recvCh (s.(ws_recvCh) ++ [m]) (ws_set_workAuthorized auth s)
               end
      end
  end.

(** ** The handler's loop *)

(** What a step sends, the stream, and how the call ended if it did. *)
Definition outcome : Type := list WorkServerMsg * stream * option (result unit).

Definition notLeaderFrame : NM WorkServerMsg :=
  observe (bs "leader_redirects/stream");;
  h ← LeaderHint;
  mret (Srv_NotLeader h.1).

Definition ignore {A} (m : NM A) : NM unit := attempt m;; mret ().

Definition onFrame (m : WorkClientMsg) (s : stream) : NM outcome :=
  match m with
  | Msg_LeaseRequest r =>
      leader ← IsLeader;
      if negb leader then f ← notLeaderFrame; mret ([f], s, Some (Ok ()))
      else mret ([], applyLeaseRequest r s, None)
  | Msg_Ack lid => ignore (node_Ack lid);; mret ([], settleOne s, None)
  | Msg_Nack lid mode delay meta =>
      ignore (node_Nack lid (Z.to_N (mode mod 256)) (durationMs delay) meta);;
      mret ([], settleOne s, None)
  | Msg_Extend lid ttl => ignore (node_Extend lid (durationMs ttl));; mret ([], s, None)
  | Msg_Complete tok oc meta delay =>
      ignore (Complete tok (oc =? Outcome_SUCCESS)%Z meta (durationMs delay));;
      mret ([], settleOne s, None)
  | Msg_Unset => mret ([], s, None)
  end.

(** A control frame when the lane's pause flips. *)
Definition pauseNotice (s : stream) : NM (list WorkServerMsg * stream) :=
  if negb (nonempty s.(ws_lane)) then mret ([], s)
  else
    paused ← LanePaused s.(ws_lane);
    if Bool.eqb paused s.(ws_lastPaused) then mret ([], s)
    else mret ([Srv_Control paused s.(ws_lane)], ws_set_lastPaused paused s).

(** [net i] is the connection at the [i]-th round: the context is alive, and
    [Send] succeeds.  Each round raises [inflight], so [credit - inflight]
    rounds are enough fuel. *)
Fixpoint deliver (fuel : nat) (net : nat → bool * bool) (i : nat) (s : stream) : NM outcome :=
  match fuel with
  | O => mret ([], s, None)
  | S fuel' =>
      if negb (nonempty s.(ws_lane)) || negb (s.(ws_inflight) <? s.(ws_credit))%Z
      then mret ([], s, None)
      else if negb (net i).1 then mret ([], s, Some (Err (bs "context canceled")))
      else
        r ← attempt (LeaseOneFiltered s.(ws_lane) s.(ws_consumerID) s.(ws_groupAllow) s.(ws_groupDeny));
        match r with
        | Err e =>
            leader ← IsLeader;
            if negb leader then f ← notLeaderFrame; mret ([f], s, Some (Ok ()))
            else mret ([], s, Some (Err e))
        | Ok None => mret ([], s, None)
        | Ok (Some lr) =>
            if negb (net i).2 then mret ([], s, Some (Err (bs "send failed")))
            else
              rest ← deliver fuel' net (S i) (ws_set_inflight (wrap_i64 (s.(ws_inflight) + 1)) s);
              let '(os, s', e) := rest in
              mret (Srv_Lease lr :: os, s', e)
        end
  end.

(** The part of the loop after its [select]. *)
Definition afterSelect (net : nat → bool * bool) (s : stream) : NM outcome :=
  p ← pauseNotice s;
  let '(os, s) := p in
  d ← deliver (Z.to_nat (s.(ws_credit) - s.(ws_inflight))) net 0 s;
  let '(os', s', e) := d in
  mret (os ++ os', s', e).

(** ** Events *)
Inductive WorkEvent :=
  | Ev_Recv (r : result WorkClientMsg)
  | Ev_Frame (net : nat → bool * bool)
  | Ev_Tick (net : nat → bool * bool)
  | Ev_Err
  | Ev_Done.

(** An event whose channel is not ready is not picked: nothing happens. *)
Definition workStep (md : metadata) (ev : WorkEvent) (s : stream) : NM outcome :=
  match ev with
  | Ev_Recv r => s' ← recvStep md r s; mret ([], s', None)
  | Ev_Frame net =>
      match s.(ws_recvCh) with
      | [] => mret ([], s, None)
      | m :: q =>
          f ← onFrame m (ws_set_recvCh q s);
          let '(os, s', e) := f in
          match e with
          | Some _ => mret (os, s', e)
          | None =>
              a ← afterSelect net s';
              let '(os', s'', e') := a in
              mret (os ++ os', s'', e')
          end
      end
  | Ev_Tick net => afterSelect net s
  | Ev_Err =>
      match s.(ws_errCh) with
      | None => mret ([], s, None)
      | Some e => mret ([], s, Some (if bool_decide (e = EOF) then Ok () else Err e))
      end
  | Ev_Done => mret ([], s, Some (Err (bs "context canceled")))
  end.

(** A stream along its events, each with the node it finds; it stops when the
    call ends.  [None]: a panic. *)
Fixpoint workRun (md : metadata) (s : stream) (tr : list (Node * WorkEvent)) : option outcome :=
  match tr with
  | [] => Some ([], s, None)
  | (n, ev) :: tr' =>
      match workStep md ev s n with
      | Some (Ok (os, s', None), _) =>
          '(os', s'', e) ← workRun md s' tr'; Some (os ++ os', s'', e)
      | Some (Ok (os, s', Some e), _) => Some (os, s', Some e)
      | _ => None
      end
  end.
End work.
