(* ===== verification/Http.v ===== *)
(** * The dashboard gateway ([internal/httpapi])

    HTTP routes in front of the same services: [httpapi.go] and [workflow.go] find
    the method a path stands for, authorize it and call it; [fairness.go] also
    streams the served-order projection.  A request is what [net/http] parsed: a
    method, a decoded canonical path, query values and headers.  [None] is a
    panic of the handler, which [net/http] confines to the request.  Static files
    and the JSON rendering of an answer are not modelled. *)

From S2P Require Import Prelude GoStrings Keys Data Store Float Publish Workflow Broker Control Auth Timers Fsm Commands Fairness Meter Policy Scheduler Hash Node NodeControl NodeOps NodeStats NodeWorkflow NodeAuth Observatory Transport.

(** ** Requests and answers *)
Definition parseU32 (x : bytes) : N := default 0 (ParseUint two32 x).

Record HttpRequest := mkHttpRequest {
  hr_Method : bytes; hr_Path : bytes; hr_Query : gmap bytes bytes;
  hr_TokenHeader : bytes; hr_Authorization : bytes; hr_Body : bytes }.
(** [r.URL.Query().Get] *)
Definition qGet (r : HttpRequest) (k : bytes) : bytes := default [] (r.(hr_Query) !! k).

Inductive HttpResponse :=
  | H_Json (res : Response)
  | H_Error (code : N) (text : bytes)
  | H_NotLeader (addr id : bytes)
  | H_Stream (lane : bytes)
  | H_Static.
Definition StatusBadRequest : N := 400.
Definition StatusUnauthorized : N := 401.
Definition StatusForbidden : N := 403.
Definition StatusNotFound : N := 404.
Definition StatusMethodNotAllowed : N := 405.
Definition StatusInternalServerError : N := 500.
Definition NotFound : HttpResponse := H_Error StatusNotFound (bs "404 page not found").
Definition methodNotAllowed : HttpResponse := H_Error StatusMethodNotAllowed (bs "method not allowed").

(** [json.Decode] of the three bodies: redrive (group, id), start (type, tenant,
    input), signal (name, payload). *)
Class HttpBodies := {
  decode_redrive : bytes → result (bytes * N);
  decode_start : bytes → result (bytes * bytes * bytes);
  decode_signal : bytes → result (bytes * bytes);
}.

(** [WorkflowStatus_value] *)
Definition WorkflowStatus_value (x : bytes) : option WorkflowStatus :=
  if bool_decide (x = bs "WF_PENDING") then Some WF_PENDING
  else if bool_decide (x = bs "WF_RUNNING") then Some WF_RUNNING
  else if bool_decide (x = bs "WF_COMPLETED") then Some WF_COMPLETED
  else if bool_decide (x = bs "WF_FAILED") then Some WF_FAILED
  else if bool_decide (x = bs "WF_CANCELED") then Some WF_CANCELED
  else if bool_decide (x = bs "WF_CONTINUED") then Some WF_CONTINUED
  else None.

Definition httpAuthToken (r : HttpRequest) : bytes :=
  let token := TrimSpace r.(hr_TokenHeader) in
  if nonempty token then token else bearerToken r.(hr_Authorization).

(** ** Lane routes *)
Inductive laneRoute := R_fairnessStream | R_fairness | R_groups | R_redrive | R_dlq | R_leases.
(** The suffixes, longest first. *)
Definition laneRoutes : list (bytes * laneRoute) :=
  [(bs "fairness/stream", R_fairnessStream); (bs "fairness", R_fairness); (bs "groups", R_groups);
   (bs "dlq/redrive", R_redrive); (bs "dlq", R_dlq); (bs "leases", R_leases)].
Fixpoint matchLane (rest : bytes) (routes : list (bytes * laneRoute)) : option (laneRoute * bytes) :=
  match routes with
  | [] => None
  | (suf, rt) :: routes' =>
      match CutSuffix rest (slash :: suf) with
      | Some lane => if nonempty lane then Some (rt, lane) else matchLane rest routes'
      | None => matchLane rest routes'
      end
  end.
(** [groups/GROUP/messages]: [Some None] is a slice out of range. *)
Definition matchPeek (rest : bytes) : option (option (bytes * bytes)) :=
  match strLastIndex rest (bs "/groups/") with
  | Some i =>
      if (0 <? i)%nat && HasSuffix rest (bs "/messages") then
        let lo := (i + 8)%nat in let hi := (length rest - 9)%nat in
        if (hi <? lo)%nat then Some None
        else
          let group := take (hi - lo) (drop lo rest) in
          if nonempty group && negb (bool_decide (slash ∈ group)) then Some (Some (take i rest, group))
          else None
      else None
  | None => None
  end.

Section http.
Context {PC : PayloadCodec} {PE : PolicyEngines} {W : World} {T : Text} {HB : HttpBodies}.

(** An answer, or the error's text with status 500. *)
Definition writeProto (m : NM Response) : NM HttpResponse :=
  r ← attempt m;
  mret match r with Ok res => H_Json res | Err e => H_Error StatusInternalServerError e end.

Definition authorize (r : HttpRequest) (checks : list AuthCheck) (k : NM HttpResponse) : NM HttpResponse :=
  d ← nstore (AuthorizeToken (httpAuthToken r) checks);
  if negb d.(ad_Enabled) || d.(ad_Allowed) then k
  else if negb d.(ad_Known)
  then mret (H_Error StatusUnauthorized (bs "missing or invalid rota auth token"))
  else mret (H_Error StatusForbidden (bs "rota auth token lacks permission")).

Definition http_requireLeader (k : NM HttpResponse) : NM HttpResponse :=
  leader ← IsLeader;
  if (leader : bool) then k else h ← LeaderHint; mret (H_NotLeader h.1 h.2).

Definition http_get (r : HttpRequest) (k : NM HttpResponse) : NM HttpResponse :=
  if bool_decide (r.(hr_Method) = bs "GET") then k else mret methodNotAllowed.
Definition decodeJSON {A} (body : result A) (k : A → NM HttpResponse) : NM HttpResponse :=
  match body with
  | Err e => mret (H_Error StatusBadRequest (bs "invalid JSON body: " ++ e))
  | Ok x => k x
  end.

(** ** Routes *)
Definition http_cluster (r : HttpRequest) : NM HttpResponse :=
  http_get r (authorize r (one AUTH_READ [] []) (writeProto Control_DescribeCluster)).
Definition http_health (r : HttpRequest) : NM HttpResponse :=
  http_get r (authorize r (one AUTH_READ [] []) (writeProto Control_Health)).
Definition http_stats (r : HttpRequest) : NM HttpResponse :=
  http_get r (authorize r (one AUTH_READ (qGet r (bs "lane")) (qGet r (bs "group_id")))
                (writeProto (Control_GetStats (qGet r (bs "lane")) (qGet r (bs "group_id"))))).
Definition http_listGroups (r : HttpRequest) (lane : bytes) : NM HttpResponse :=
  http_get r (authorize r (one AUTH_READ lane [])
    (writeProto (Control_ListGroups lane (parseU32 (qGet r (bs "page_size"))) (qGet r (bs "page_token"))))).
Definition http_listDLQ (r : HttpRequest) (lane : bytes) : NM HttpResponse :=
  http_get r (authorize r (one AUTH_READ lane [])
    (writeProto (Control_ListDeadLetters lane (parseU32 (qGet r (bs "page_size"))) (qGet r (bs "page_token"))))).
Definition http_listLeases (r : HttpRequest) (lane : bytes) : NM HttpResponse :=
  http_get r (authorize r (one AUTH_READ lane [])
    (writeProto (Control_ListLeases lane (parseU32 (qGet r (bs "page_size"))) (qGet r (bs "page_token"))))).
Definition http_peekMessages (r : HttpRequest) (lane group : bytes) : NM HttpResponse :=
  http_get r (authorize r (one AUTH_READ lane group)
    (writeProto (Control_PeekMessages lane group (parseU32 (qGet r (bs "limit")))))).
Definition http_redrive (r : HttpRequest) (lane : bytes) : NM HttpResponse :=
  if negb (bool_decide (r.(hr_Method) = bs "POST")) then mret methodNotAllowed
  else http_requireLeader (decodeJSON (decode_redrive r.(hr_Body)) (λ b,
    authorize r (one AUTH_CONFIGURE lane b.1) (writeProto (Control_RedriveDeadLetter lane b.1 b.2)))).
Definition http_fairness (r : HttpRequest) (lane : bytes) : NM HttpResponse :=
  http_get r (authorize r (one AUTH_READ lane []) (writeProto (Control_GetLaneFairness lane))).
Definition http_policyHealth (r : HttpRequest) (lane : bytes) : NM HttpResponse :=
  http_get r (authorize r (one AUTH_READ lane []) (writeProto (Control_GetPolicyHealth lane))).
Definition http_fairnessStream (r : HttpRequest) (lane : bytes) : NM HttpResponse :=
  http_get r (authorize r (one AUTH_READ lane []) (mret (H_Stream lane))).

Definition http_lanes (r : HttpRequest) : NM HttpResponse :=
  let rest := TrimPrefix r.(hr_Path) (bs "/api/lanes/") in
  match matchLane rest laneRoutes with
  | Some (R_fairnessStream, lane) => http_fairnessStream r lane
  | Some (R_fairness, lane) => http_fairness r lane
  | Some (R_groups, lane) => http_listGroups r lane
  | Some (R_redrive, lane) => http_redrive r lane
  | Some (R_dlq, lane) => http_listDLQ r lane
  | Some (R_leases, lane) => http_listLeases r lane
  | None =>
      match matchPeek rest with
      | Some None => ncrash
      | Some (Some (lane, group)) => http_peekMessages r lane group
      | None => mret NotFound
      end
  end.
Definition http_policy (r : HttpRequest) : NM HttpResponse :=
  match CutSuffix (TrimPrefix r.(hr_Path) (bs "/api/policy/")) (bs "/health") with
  | Some lane => if nonempty lane then http_policyHealth r lane else mret NotFound
  | None => mret NotFound
  end.

(** ** Workflow routes *)
Definition authorizeWorkflowRun (r : HttpRequest) (action : Z) (id : N) (k : NM HttpResponse) : NM HttpResponse :=
  checks ← nstore (checksForRun action id);
  authorize r checks k.
Definition http_listWorkflowRuns (r : HttpRequest) : NM HttpResponse :=
  let st := WorkflowStatus_value (qGet r (bs "status")) in
  authorize r (one AUTH_READ [] [])
    (writeProto (Workflow_ListWorkflowRuns (default WF_PENDING st) (bool_decide (is_Some st))
                   (parseU32 (qGet r (bs "page_size"))) (qGet r (bs "page_token")))).
Definition http_startWorkflow (r : HttpRequest) : NM HttpResponse :=
  http_requireLeader (decodeJSON (decode_start r.(hr_Body)) (λ b,
    let '(ty, tenant, input) := b in
    authorize r (one AUTH_WORKFLOW ty tenant) (writeProto (Workflow_StartWorkflow ty tenant input)))).
Definition http_signalWorkflow (r : HttpRequest) (id : N) : NM HttpResponse :=
  http_requireLeader (decodeJSON (decode_signal r.(hr_Body)) (λ b,
    authorizeWorkflowRun r AUTH_WORKFLOW id (writeProto (Workflow_SignalWorkflow id b.1 b.2)))).
Definition http_cancelWorkflow (r : HttpRequest) (id : N) : NM HttpResponse :=
  http_requireLeader
    (authorizeWorkflowRun r AUTH_WORKFLOW id (writeProto (Workflow_CancelWorkflow id (qGet r (bs "reason"))))).

Definition http_workflows (r : HttpRequest) : NM HttpResponse :=
  let rest := trimSlashes (TrimPrefix r.(hr_Path) (bs "/api/workflows")) in
  let is_get := bool_decide (r.(hr_Method) = bs "GET") in
  let is_post := bool_decide (r.(hr_Method) = bs "POST") in
  if negb (nonempty rest) then
    if is_get then http_listWorkflowRuns r
    else if is_post then http_startWorkflow r
    else mret methodNotAllowed
  else match splitOn slash rest with
  | part0 :: parts =>
      match ParseUint two64 part0 with
      | None => mret NotFound
      | Some id =>
          match parts with
          | [] =>
              if is_get then authorizeWorkflowRun r AUTH_READ id (writeProto (Workflow_GetWorkflowRun id))
              else mret NotFound
          | [part1] =>
              if bool_decide (part1 = bs "history") && is_get
              then authorizeWorkflowRun r AUTH_READ id (writeProto (Workflow_GetWorkflowHistory id))
              else if bool_decide (part1 = bs "signal") && is_post then http_signalWorkflow r id
              else if bool_decide (part1 = bs "cancel") && is_post then http_cancelWorkflow r id
              else mret NotFound
          | _ => mret NotFound
          end
      end
  | [] => mret NotFound
  end.

(** The mux; any other path is the single-page app's. *)
Definition httpHandler (r : HttpRequest) : NM HttpResponse :=
  let p := r.(hr_Path) in
  if bool_decide (p = bs "/api/cluster") then http_cluster r
  else if bool_decide (p = bs "/api/health") then http_health r
  else if bool_decide (p = bs "/api/stats") then http_stats r
  else if has_prefix (bs "/api/lanes/") p then http_lanes r
  else if has_prefix (bs "/api/policy/") p then http_policy r
  else if bool_decide (p = bs "/api/workflows") || has_prefix (bs "/api/workflows/") p then http_workflows r
  else if has_prefix (bs "/api/") p then mret NotFound
  else mret H_Static.

(** ** The fairness stream ([fairness.go]) *)
Record shareEntry := mkshareEntry { se_Expected : float64; se_Actual : float64; se_Served : N }.
Record ribbonFrame := mkribbonFrame {
  rf_Ribbon : list bytes; rf_Shares : gmap bytes shareEntry; rf_TotalServed : N }.

(** The groups of the lane with their expected shares; then every group that was
    served and has no row. *)
Definition groupShares (gs : list GroupFairness) : gmap bytes shareEntry :=
  foldl (λ m g, <[g.(gf_GroupId) := mkshareEntry g.(gf_ExpectedShare) g.(gf_ActualShare) g.(gf_Served)]> m) ∅ gs.
Definition servedShare (total c : N) : shareEntry :=
  mkshareEntry f64_zero (if 0 <? total then f64_div (f64_of_N c) (f64_of_N total) else f64_zero) c.
Definition emitServed (lane : bytes) : NM ribbonFrame :=
  snap ← nget (λ n, snapshot lane n.(n_fairness));
  lf ← attempt (node_LaneFairness lane);
  let groups := match lf with Ok lf => lf.(lf_Groups) | Err _ => [] end in
  mret (mkribbonFrame snap.(fs_Ribbon)
          (groupShares groups ∪ (servedShare snap.(fs_Total) <$> snap.(fs_Served)))
          snap.(fs_Total)).

Inductive sseOut := O_served (f : ribbonFrame) | O_keepalive.

(** Opening the stream: subscribe, and emit one frame at once.  [ok] is whether
    marshalling and writing the frame succeed; the subscription is dropped when
    the stream ends. *)
Definition sseFrame (lane : bytes) (ok : bool) : NM (list sseOut * option bool) :=
  f ← emitServed lane;
  mret (if (ok : bool) then ([O_served f], Some false) else ([], None)).
Definition sseOpen (lane : bytes) (ok : bool) : NM (nat * list sseOut * option bool) :=
  id ← nget (λ n, (subscribe lane n.(n_fairness)).1);
  nmod (λ n, n_set_fairness (subscribe lane n.(n_fairness)).2 n);;
  r ← sseFrame lane ok;
  mret (id, r.1, r.2).
Definition sseClose (id : nat) : NM unit :=
  nmod (λ n, n_set_fairness (unsubscribe id n.(n_fairness)) n).

(** The loop's [select]: a nudge, the 300 ms ticker, the 15 s keepalive, the end
    of the request. *)
Inductive sseEvent := S_nudge | S_tick (ok : bool) | S_keepalive (ok : bool) | S_done.
(** What is written, and the dirty flag; [None] when the loop ends. *)
Definition sseStep (lane : bytes) (sub : nat) (dirty : bool) (ev : sseEvent) :
    NM (list sseOut * option bool) :=
  match ev with
  | S_done => mret ([], None)
  | S_nudge =>
      p ← nget n_fairness;
      match p.(fp_subs) !! sub with
      | Some (mkfairnessSub l true) =>
          nmod (λ n, n_set_fairness (mkfairnessProjection p.(fp_ring) p.(fp_head) p.(fp_count)
            p.(fp_total) p.(fp_served) (<[sub := mkfairnessSub l false]> p.(fp_subs)) p.(fp_next)) n);;
          mret ([], Some true)
      | _ => mret ([], Some dirty)
      end
  | S_tick ok =>
      if negb dirty then mret ([], Some false) else sseFrame lane ok
  | S_keepalive ok => mret (if (ok : bool) then ([O_keepalive], Some dirty) else ([], None))
  end.
End http.
