(* ===== verification/Metrics.v ===== *)
(** * Metrics and the side port ([internal/observe], [cmd/rota/metrics.go], the mux of [cmdServe])

    The counters the node's operations step (the field [n_observed] of a node) and
    the gauges read from its health, by the names they are registered under; and the
    HTTP side port: metrics, the liveness probe, and the dashboard for the rest.
    The Prometheus library, which keeps and prints the numbers, is not modelled: a
    scrape is answered by the numbers. *)

From S2P Require Import Prelude GoStrings Keys Data Store Float Publish Workflow Broker Control Auth Timers Fsm Commands Fairness Meter Policy Scheduler Hash Node NodeControl NodeOps NodeStats NodeWorkflow NodeAuth Observatory Transport Http.

(** ** What is registered *)
(** A counter, or a vector of counters by one label. *)
Record metricDecl := mkmetricDecl { md_Name : bytes; md_Help : bytes; md_Label : option bytes }.
Definition counter (name help : bytes) : metricDecl := mkmetricDecl name help None.
Definition counterVec (name help label : bytes) : metricDecl := mkmetricDecl name help (Some label).
Definition observeMetrics : list metricDecl :=
  [counter (bs "rota_publishes_total") (bs "Messages published.");
   counter (bs "rota_leases_total") (bs "Messages leased to consumers.");
   counter (bs "rota_acks_total") (bs "Messages acknowledged.");
   counterVec (bs "rota_nacks_total") (bs "Negative acknowledgements by mode.") (bs "mode");
   counter (bs "rota_dead_letters_total") (bs "Messages routed to the dead-letter queue.");
   counterVec (bs "rota_dead_letters_by_reason_total") (bs "Messages routed to the dead-letter queue by reason.") (bs "reason");
   counterVec (bs "rota_timer_fires_total") (bs "Time-index entries fired, by kind.") (bs "kind");
   counter (bs "rota_policy_faults_total") (bs "Policy evaluations that faulted and fell back to WFQ.");
   counterVec (bs "rota_leader_redirects_total") (bs "Requests redirected because they reached a follower.") (bs "surface");
   counterVec (bs "rota_workflow_task_rejections_total") (bs "Workflow task responses rejected by the validation gate.") (bs "reason")].
(** The series a name of [n_observed] stands for: [nacks/retry] is
    [rota_nacks_total] with [mode = retry]. *)
Definition seriesOf (key : bytes) : option (bytes * list (bytes * bytes)) :=
  let '(stem, label) := match splitN 2 slash key with [stem; label] => (stem, Some label) | _ => (key, None) end in
  d ← head (filter (λ d, d.(md_Name) = bs "rota_" ++ stem ++ bs "_total") observeMetrics);
  match d.(md_Label), label with
  | None, None => Some (d.(md_Name), [])
  | Some l, Some x => Some (d.(md_Name), [(l, x)])
  | _, _ => None
  end.

Definition boolGauge (v : bool) : float64 := if v then f64_of_Z 1 else f64_zero.
Definition healthGauges : list (bytes * bytes * (bool * bool * bool → bool)) :=
  [(bs "rota_node_serving", bs "1 when the node reports serving.", λ h : bool * bool * bool, h.1.1);
   (bs "rota_cluster_has_quorum", bs "1 when the node sees a current Raft leader/quorum.", λ h : bool * bool * bool, h.1.2);
   (bs "rota_node_is_leader", bs "1 when this node is the current Raft leader.", λ h : bool * bool * bool, h.2)].
Definition registeredNames : list bytes :=
  (md_Name <$> observeMetrics) ++ ((λ g : bytes * bytes * (bool * bool * bool → bool), g.1.1) <$> healthGauges).

Section side.
Context {PC : PayloadCodec} {PE : PolicyEngines} {W : World} {T : Text} {HB : HttpBodies}.

(** The gauges at a scrape. *)
Definition registerNodeHealthMetrics : NM (list (bytes * float64)) :=
  h ← Health;
  mret ((λ g : bytes * bytes * (bool * bool * bool → bool), (g.1.1, boolGauge (g.2 h))) <$> healthGauges).
Inductive SideResponse :=
  | Side_Metrics (counters : gmap bytes N) (gauges : list (bytes * float64))
  | Side_Healthz (code : N) (body : bytes)
  | Side_Http (r : HttpResponse).
Definition StatusOK : N := 200.
Definition StatusServiceUnavailable : N := 503.
Definition healthz : NM SideResponse :=
  h ← Health;
  let '(serving, _, _) := h in
  mret (if (serving : bool) then Side_Healthz StatusOK (bs "ok") else Side_Healthz StatusServiceUnavailable []).
Definition sideHandler (r : HttpRequest) : NM SideResponse :=
  if bool_decide (r.(hr_Path) = bs "/metrics") then
    gauges ← registerNodeHealthMetrics;
    counters ← nget n_observed;
    mret (Side_Metrics counters gauges)
  else if bool_decide (r.(hr_Path) = bs "/healthz") then healthz
  else res ← httpHandler r; mret (Side_Http res).

(** ** Theorems *)

(** No two metrics share a name, so registering them does not panic. *)
Lemma registered_distinct : NoDup registeredNames.
Proof. apply (bool_decide_unpack _). vm_compute. done. Qed.
(** What the code observes is registered, with its label. *)
Definition observedKeys : list bytes :=
  [bs "publishes"; bs "leases"; bs "acks"; bs "dead_letters"; bs "policy_faults"; bs "leader_redirects/unary";
   bs "workflow_task_rejections/checksum_required"; bs "workflow_task_rejections/non_determinism";
   bs "workflow_task_rejections/invalid_command"; bs "dead_letters_by_reason/max_attempts"] ++
  ((λ m, bs "nacks/" ++ nackModeLabel m) <$> [0; 1; 2; 3]) ++
  ((λ m, bs "dead_letters_by_reason/" ++ deadLetterReasonForNack m) <$> [0; 1; 2; 3]).
Lemma observed_registered : Forall (λ k, is_Some (seriesOf k)) observedKeys.
Proof. apply (bool_decide_unpack _). by vm_compute. Qed.
(** The side port only reads: the probe always answers 200, leader or not, and a
    scrape tells a leader by its gauge. *)
Lemma healthz_ok (r : HttpRequest) (n : Node) : r.(hr_Path) = bs "/healthz" → sideHandler r n = Some (Ok (Side_Healthz StatusOK (bs "ok")), n).
Proof. intros E. unfold sideHandler. by rewrite E. Qed.
Lemma scrape_gauges (r : HttpRequest) (n : Node) : r.(hr_Path) = bs "/metrics" →
  sideHandler r n = Some (Ok (Side_Metrics n.(n_observed)
    [(bs "rota_node_serving", f64_of_Z 1);
     (bs "rota_cluster_has_quorum", boolGauge (nonempty (raft_LeaderWithID n.(n_world)).1));
     (bs "rota_node_is_leader", boolGauge (raft_IsLeader n.(n_world)))]), n).
Proof. intros E. unfold sideHandler. by rewrite E. Qed.
End side.
