(* ===== verification/KeysProps.v ===== *)
(** * Theorems on the keyspace, the scans and the backoff

    The abstract keyspace [row] is implemented faithfully by [row_key]; the
    scans the program performs visit exactly the rows they are meant to visit,
    in the order the program relies on. *)

From S2P Require Import Prelude Keys Data Store Backoff.

(** The rows of a typed, well-keyed store: every key is some row's key. *)
Definition keyed {V} (db : gmap bytes V) : Prop :=
  ∀ k v, db !! k = Some v → ∃ r, row_ok r ∧ k = row_key r.

(** ** Theorems *)

(** C38: no two rows share a key, within a table or across tables, as long as
    the strings under a length prefix are shorter than 65536 bytes and the
    integers are [uint64]s. *)
Theorem row_key_injective r1 r2 :
  row_ok r1 → row_ok r2 → row_key r1 = row_key r2 → r1 = r2.
Proof. apply row_key_inj_aux. Qed.

(** The 16-bit length prefix truncates: without the length bound two
    different (lane, group) pairs share one group-meta key. *)
Theorem lp_truncation_collides :
  ∃ l g l' g', (l, g) ≠ (l', g') ∧ GroupMetaKey l g = GroupMetaKey l' g'.
Proof. apply lp_overflow_aux. Qed.

(** the head-of-line scan.  Iterating a group's prefix visits exactly that
    group's messages, each once, in increasing message id. *)
Theorem group_scan_exact {V} (l g : bytes) (db : gmap bytes V) :
  short l → short g → keyed db →
  (∀ k v, (k, v) ∈ NewIter (MessagePrefix l g) (PrefixEnd (MessagePrefix l g)) db ↔
          ∃ i, u64 i ∧ k = MessageKey l g i ∧ db !! k = Some v) ∧
  (∀ i j a b v w, u64 a → u64 b →
     NewIter (MessagePrefix l g) (PrefixEnd (MessagePrefix l g)) db !! i = Some (MessageKey l g a, v) →
     NewIter (MessagePrefix l g) (PrefixEnd (MessagePrefix l g)) db !! j = Some (MessageKey l g b, w) →
     (i < j)%nat → a < b).
Proof.
  intros Hl Hg Hk. split.
  - intros k v. rewrite elem_of_NewIter. split.
    + intros [E Hin]. destruct (Hk k v E) as (r & Hr & ->).
      apply MessagePrefix_rows in Hin as [i ->]; [|done..]. destruct Hr as (_ & _ & Hi). eauto.
    + intros (i & Hi & -> & E). split; [done|].
      apply (MessagePrefix_rows l g (RowMessage l g i)); [done..|by repeat split|eauto].
  - intros i j a b v w Ha Hb E1 E2 Hij.
    pose proof (NewIter_strict _ _ _ _ _ _ _ _ _ E1 E2 Hij) as Hlt.
    destruct (N.lt_trichotomy a b) as [?|[<-|Hba]]; [done|exfalso..].
    + unfold bytes_lt in Hlt. by rewrite bytes_ltb_irrefl in Hlt.
    + apply (MessageKey_lt l g) in Hba; [|done].
      apply (bytes_lt_trans _ _ _ Hlt) in Hba. unfold bytes_lt in Hba.
      by rewrite bytes_ltb_irrefl in Hba.
Qed.

(** the timer sweep up to [now] visits exactly the timers due at or before
    [now], in the order they are due. *)
Theorem timer_scan_exact {V} (now : N) (db : gmap bytes V) :
  now + 1 < two64 → keyed db →
  (∀ k v, (k, v) ∈ NewIter TimeIndexPrefix (Some (TimeIndexUpTo now)) db ↔
          ∃ ts kind ref, ts ≤ now ∧ k = TimeIndexKey ts kind ref ∧ db !! k = Some v) ∧
  (∀ i j ts kd ref v ts' kd' ref' w, u64 ts → u64 ts' →
     NewIter TimeIndexPrefix (Some (TimeIndexUpTo now)) db !! i = Some (TimeIndexKey ts kd ref, v) →
     NewIter TimeIndexPrefix (Some (TimeIndexUpTo now)) db !! j = Some (TimeIndexKey ts' kd' ref', w) →
     (i < j)%nat → ts ≤ ts').
Proof.
  intros Hn Hk. split.
  - intros k v. rewrite elem_of_NewIter. split.
    + intros [E Hin]. destruct (Hk k v E) as (r & Hr & ->).
      apply timer_sweep_rows in Hin as (ts & kd & ref & -> & ?); [|done..]. eauto 10.
    + intros (ts & kd & ref & Hts & -> & E). split; [done|].
      apply (timer_sweep_rows now (RowTimer ts kd ref)); [done|simpl; unfold u64; lia|eauto 10].
  - intros i j ts kd ref v ts' kd' ref' w Ha Hb E1 E2 Hij.
    pose proof (NewIter_strict _ _ _ _ _ _ _ _ _ E1 E2 Hij) as Hlt.
    destruct (N.le_gt_cases ts ts') as [?|Hgt]; [done|exfalso].
    apply (TimeIndexKey_lt _ _ kd' kd ref' ref) in Hgt; [|done].
    apply (bytes_lt_trans _ _ _ Hlt) in Hgt. unfold bytes_lt in Hgt.
    by rewrite bytes_ltb_irrefl in Hgt.
Qed.

(** round trips.  The references carried by timers, and the time-index
    key itself, parse back to what they were built from. *)
Theorem refs_round_trip l g i ts kd ref :
  short l → short g → u64 i → u64 ts →
  ParseReadyAtRef (ReadyAtRef l g i) = Some (l, g, i) ∧
  ParseLeaseDeadlineRef (LeaseDeadlineRef i) = Some i ∧
  ParseDedupRef (DedupRef l g) = Some (l, g) ∧
  ParseWFTimerRef (WFTimerRef i ts) = Some (i, ts) ∧
  ParseCronDueRef (CronDueRef g) = g ∧
  ParseTimeIndexKey (TimeIndexKey ts kd ref) = Some (ts, kd, ref).
Proof.
  intros. split_and!; [by apply ParseReadyAtRef_ReadyAtRef
    |by apply ParseLeaseDeadlineRef_LeaseDeadlineRef|by apply ParseDedupRef_DedupRef
    |by apply ParseWFTimerRef_WFTimerRef|done|by apply ParseTimeIndexKey_TimeIndexKey].
Qed.

(** the retry delay is at least 500 ms, at most 30 s, never more than a
    quarter above its base, and the base doubles with the attempt up to the cap. *)
Theorem backoff_bounds id attempt :
  500 ≤ backoffMs id attempt ≤ 30000 ∧
  backoff_base attempt ≤ backoffMs id attempt ≤ backoff_base attempt + backoff_base attempt / 4 ∧
  backoff_base attempt = N.min (500 * 2 ^ N.min attempt 16) 30000.
Proof.
  pose proof (backoffMs_range id attempt) as H. pose proof (backoff_base_bounds attempt) as Hb.
  unfold backoffMaxMs in H. revert H. generalize (backoff_base attempt / 4). intros q H.
  split_and!; [lia..|apply backoff_base_eq].
Qed.

(** ** Witnesses *)
Definition demo_db : gmap bytes N :=
  <[MessageKey (bs "l") (bs "g") 2 := 2]> (<[MessageKey (bs "l") (bs "g") 1 := 1]>
    (<[TimeIndexKey 5 TimerReadyAt [] := 9]> (<[MessageKey (bs "l") (bs "h") 1 := 3]> ∅))).

Lemma demo_db_keyed : keyed demo_db.
Proof.
  intros k v E. unfold demo_db in E.
  repeat (apply lookup_insert_Some in E as [[<- _]|[_ E]]); [..|by rewrite lookup_empty in E].
  - by exists (RowMessage (bs "l") (bs "g") 2).
  - by exists (RowMessage (bs "l") (bs "g") 1).
  - by exists (RowTimer 5 TimerReadyAt []).
  - by exists (RowMessage (bs "l") (bs "h") 1).
Qed.

Example row_key_injective_witness :
  row_ok (RowMessage (bs "l") (bs "g") 1) ∧
  (row_key (RowMessage (bs "l") (bs "g") 1) = row_key (RowMessage (bs "l") (bs "g") (0 + 1)) →
   RowMessage (bs "l") (bs "g") 1 = RowMessage (bs "l") (bs "g") (0 + 1)).
Proof. split; [done|]. by apply row_key_injective. Defined.

Example group_scan_exact_witness :
  (MessageKey (bs "l") (bs "g") 2, 2) ∈
    NewIter (MessagePrefix (bs "l") (bs "g")) (PrefixEnd (MessagePrefix (bs "l") (bs "g"))) demo_db.
Proof.
  apply (group_scan_exact (bs "l") (bs "g") demo_db); [done|done|apply demo_db_keyed|].
  exists 2. split_and!; [done..|]. by vm_compute.
Defined.

Example timer_scan_exact_witness :
  (TimeIndexKey 5 TimerReadyAt [], 9) ∈ NewIter TimeIndexPrefix (Some (TimeIndexUpTo 5)) demo_db.
Proof.
  apply (timer_scan_exact 5 demo_db); [done|apply demo_db_keyed|].
  exists 5, TimerReadyAt, []. split_and!; [done..|]. by vm_compute.
Defined.

Example refs_round_trip_witness :
  ParseReadyAtRef (ReadyAtRef (bs "l") (bs "g") 7) = Some (bs "l", bs "g", 7).
Proof. by apply (refs_round_trip (bs "l") (bs "g") 7 3 TimerReadyAt []). Defined.

(** * Splitting an iteration

    The rows of a range split at any key, and the rows strictly after a key are
    the iteration from its immediate successor. *)

Section iter.
Context {V : Type}.
Implicit Types (db : gmap bytes V) (lo mid k : bytes) (hi : option bytes).

Definition below (mid : bytes) (hi : option bytes) : Prop :=
  match hi with Some h => bytes_le mid h | None => True end.

Lemma NewIter_split lo mid hi db :
  bytes_le lo mid → below mid hi →
  NewIter lo hi db = NewIter lo (Some mid) db ++ NewIter mid hi db.
Proof.
  intros Hlo Hhi. apply NewIter_unique.
  - pose proof (NewIter_sorted lo (Some mid) db) as H1. pose proof (NewIter_sorted mid hi db) as H2.
    assert (Hx : ∀ x y, x ∈ NewIter lo (Some mid) db → y ∈ NewIter mid hi db → row_le x y).
    { intros [k v] [k' v'] [_ [_ Hk]]%elem_of_NewIter [_ [Hk' _]]%elem_of_NewIter.
      unfold row_le. simpl in *. apply bytes_le_lteq. left. by eapply bytes_lt_le_trans. }
    revert Hx. induction H1 as [|x l H1 IH Hall]; intros Hx; [done|]. cbn [app]. constructor.
    + apply IH. intros y z Hy. apply Hx. by right.
    + apply Forall_app. split; [done|]. apply Forall_forall. intros y Hy. apply Hx; [left|done].
  - apply NoDup_app. split; [eapply NoDup_fmap_1, NewIter_NoDup_fst|]. split; [|eapply NoDup_fmap_1, NewIter_NoDup_fst].
    intros [k v] [_ [_ Hk]]%elem_of_NewIter [_ [Hk' _]]%elem_of_NewIter. simpl in Hk.
    apply bytes_nle_lt in Hk. done.
  - intros k v. rewrite elem_of_app, !elem_of_NewIter. unfold in_range. split.
    + intros [(Hd & Hl & Hk)|(Hd & Hl & Hk)]; (split; [done|]); split; try done.
      * unfold below in Hhi. destruct hi; [|done]. by eapply bytes_lt_le_trans.
      * by etransitivity.
    + intros (Hd & Hl & Hk). destruct (decide (bytes_lt k mid)) as [Hlt|Hge]; [by left|right].
      split; [done|]. split; [|done]. unfold bytes_lt in Hge. unfold bytes_le.
      by apply not_true_is_false.
Qed.

(** The smallest key above [k] is [k] followed by a zero byte. *)
Lemma bytes_succ k x : bytes_le (k ++ ["000"%char]) x ↔ bytes_lt k x.
Proof.
  unfold bytes_le, bytes_lt. revert x. induction k as [|a k IH]; intros [|b x]; simpl; try done.
  - change (N_of_ascii "000"%char) with 0. destruct (N.eqb_spec (N_of_ascii b) 0) as [E|E]; [by destruct x|].
    rewrite (proj2 (N.ltb_ge _ _)) by lia. done.
  - rewrite (N.eqb_sym (N_of_ascii b)). destruct (N.eqb_spec (N_of_ascii a) (N_of_ascii b)) as [E|E]; [apply IH|].
    destruct (N.ltb_spec (N_of_ascii b) (N_of_ascii a)), (N.ltb_spec (N_of_ascii a) (N_of_ascii b)); try done; lia.
Qed.

Lemma bytes_lt_succ k : bytes_lt k (k ++ ["000"%char]).
Proof. apply bytes_succ. reflexivity. Qed.

(** The rows after the [i]-th one. *)
Lemma NewIter_after lo hi db pre k v rest :
  NewIter lo hi db = pre ++ (k, v) :: rest → NewIter (k ++ ["000"%char]) hi db = rest.
Proof.
  intros E. pose proof (NewIter_sorted lo hi db) as Hs. pose proof (NewIter_NoDup_fst lo hi db) as Hnd.
  rewrite E in Hs, Hnd. apply NoDup_fmap_1 in Hnd.
  apply StronglySorted_app_1_r, StronglySorted_inv in Hs as [Hs _].
  apply NoDup_app in Hnd as (_ & _ & Hnd). apply NoDup_cons in Hnd as [_ Hnd].
  apply NewIter_unique; [done|done|]. intros k2 v2.
  assert (Hat : NewIter lo hi db !! length pre = Some (k, v)) by (by rewrite E, lookup_app_r, Nat.sub_diag).
  assert (Hk : in_range lo hi k) by (apply (elem_of_NewIter lo hi db k v); by eapply list_elem_of_lookup_2).
  split.
  - intros Hin. apply list_elem_of_lookup in Hin as [i Hi].
    assert (Hi' : NewIter lo hi db !! (length pre + S i)%nat = Some (k2, v2)).
    { rewrite E, lookup_app_r by lia. by replace (length pre + S i - length pre)%nat with (S i) by lia. }
    pose proof (NewIter_strict lo hi db _ _ _ _ _ _ Hat Hi' ltac:(lia)) as Hlt.
    apply list_elem_of_lookup_2, elem_of_NewIter in Hi' as [Hd [_ Hh]].
    split; [done|]. split; [by apply bytes_succ|done].
  - intros [Hd [Hl Hh]]. apply bytes_succ in Hl.
    assert (Hin : (k2, v2) ∈ NewIter lo hi db).
    { apply elem_of_NewIter. split; [done|]. split; [|done].
      etransitivity; [apply Hk|]. apply bytes_le_lteq. by left. }
    apply list_elem_of_lookup in Hin as [i Hi].
    destruct (decide (length pre < i)%nat) as [Hlt|Hge].
    + apply list_elem_of_lookup. exists (i - S (length pre))%nat. rewrite E, lookup_app_r in Hi by lia.
      by replace (i - length pre)%nat with (S (i - S (length pre))) in Hi by lia.
    + exfalso. destruct (decide (i = length pre)) as [->|].
      * rewrite Hat in Hi. simplify_eq. unfold bytes_lt in Hl. by rewrite bytes_ltb_irrefl in Hl.
      * pose proof (NewIter_strict lo hi db _ _ _ _ _ _ Hi Hat ltac:(lia)) as Hlt.
        pose proof (bytes_lt_trans _ _ _ Hl Hlt) as F. unfold bytes_lt in F. by rewrite bytes_ltb_irrefl in F.
Qed.
End iter.
