(* ===== verification/NodeProps.v ===== *)
(** * The node over a stable Raft leader, and the timer sweep

    The scenario the liveness theorems are about: this node stays the leader,
    Raft commits what it proposes at increasing indices with nothing in between,
    and JSON carries its commands faithfully.  In it, a proposal is its handler's
    batch applied to the store; and the sweep of the time index consumes the
    timers that are due. *)

From S2P Require Import Prelude Keys Data Store KeysProps Backoff Publish Workflow Broker Control Auth Timers Fsm Commands Reason Structure Fairness Meter Policy Scheduler Hash Node NodeControl NodeOps Demo.

Class StableRaft {W : World} := {
  raft_next : world → N;
  stable_commit d w : (raft_Apply d w).1 = mkraftReply [] (Ok (raft_next w));
  stable_advance d w : raft_next w < raft_next (raft_Apply d w).2;
  stable_clock w : raft_next (now_ms w).2 = raft_next w;
  stable_rand k w : raft_next (rand_Read k w).2 = raft_next w;
  stable_limiter l w : raft_next (limiter_Allow l w).2 = raft_next w;
  (** The time, a lower bound of every later reading. *)
  clock : world → N;
  clock_read w : clock w ≤ (now_ms w).1 ∧ (now_ms w).1 + 1 < two64;
  clock_now w : clock w ≤ clock (now_ms w).2;
  clock_commit d w : clock w ≤ clock (raft_Apply d w).2;
  (** The commands JSON carries: valid UTF-8, finite numbers. *)
  portable : Command → Prop;
  portable_json c : portable c → ∃ d, marshal_cmd c = Ok d ∧ unmarshal_cmd d = Some c;
}.

Section stable.
Context {PC : PayloadCodec} {PE : PolicyEngines} {W : World} {R : StableRaft}.
Implicit Types (n : Node) (db : store).

(** Raft's next index is beyond what the state machine has applied. *)
Definition node_ok n : Prop := n.(n_fsm).(fsm_appliedIndex) < raft_next n.(n_world).
Definition db_of n : store := n.(n_fsm).(fsm_s).

(** The store after a proposal committed at [i]. *)
Definition committed (b : batch) (i : N) db : store :=
  <[appliedIndexKey := VRaw (u64b i)]> (commit b db).

(** [n'] is [n] with another replicated state (and world). *)
Definition only_fsm n n' : Prop :=
  n'.(n_cfg) = n.(n_cfg) ∧ n'.(n_sched) = n.(n_sched) ∧ n'.(n_fairness) = n.(n_fairness) ∧
  n'.(n_paused) = n.(n_paused) ∧ clock n.(n_world) ≤ clock n'.(n_world).

Lemma apply_commits cmd n r b :
  node_ok n → portable cmd → dispatch cmd (db_of n) = Some (Ok (r, b)) →
  ∃ n', apply cmd n = Some (Ok r, n') ∧ node_ok n' ∧
        db_of n' = committed b (raft_next n.(n_world)) (db_of n) ∧ only_fsm n n'.
Proof.
  intros Hok Hp Hd. destruct (portable_json cmd Hp) as (d & Hm & Hu). unfold node_ok in Hok.
  unfold apply, mbind, NM_bind, lift, nworld. rewrite Hm.
  pose proof (stable_commit d n.(n_world)) as Hc. pose proof (stable_advance d n.(n_world)) as Ha.
  pose proof (clock_commit d n.(n_world)) as Hk.
  destruct (raft_Apply d (n_world n)) as [reply w'] eqn:Er. simpl in Hc, Ha, Hk. subst reply.
  unfold commitLogs. cbn. unfold Apply. cbn [log_IsCommand log_Index log_Data negb].
  destruct (N.leb_spec (raft_next (n_world n)) (fsm_appliedIndex (n_fsm n))) as [?|_]; [lia|].
  rewrite Hu. unfold db_of in Hd. rewrite Hd. cbn. eexists. split; [reflexivity|].
  split; [exact Ha|]. split; [|done]. unfold db_of, committed. cbn. by rewrite commit_app.
Qed.

Lemma apply_commits_Err cmd n e :
  node_ok n → portable cmd → dispatch cmd (db_of n) = Some (Err e) →
  ∃ n', apply cmd n = Some (Err e, n') ∧ node_ok n' ∧ db_of n' = db_of n ∧ only_fsm n n'.
Proof.
  intros Hok Hp Hd. destruct (portable_json cmd Hp) as (d & Hm & Hu). unfold node_ok in Hok.
  unfold apply, mbind, NM_bind, lift, nworld. rewrite Hm.
  pose proof (stable_commit d n.(n_world)) as Hc. pose proof (stable_advance d n.(n_world)) as Ha.
  pose proof (clock_commit d n.(n_world)) as Hk.
  destruct (raft_Apply d (n_world n)) as [reply w'] eqn:Er. simpl in Hc, Ha, Hk. subst reply.
  unfold commitLogs. cbn. unfold Apply. cbn [log_IsCommand log_Index log_Data negb].
  destruct (N.leb_spec (raft_next (n_world n)) (fsm_appliedIndex (n_fsm n))) as [?|_]; [lia|].
  rewrite Hu. unfold db_of in Hd. rewrite Hd. cbn. eexists. split; [reflexivity|].
  split; [unfold node_ok; cbn; lia|]. done.
Qed.

Lemma nowMs_ok n : node_ok n →
  ∃ n', nowMs n = Some (Ok (now_ms n.(n_world)).1, n') ∧ node_ok n' ∧ db_of n' = db_of n ∧
        only_fsm n n' ∧ n_fsm n' = n_fsm n.
Proof.
  unfold nowMs, nworld, node_ok. intros Hok. pose proof (stable_clock n.(n_world)) as Hc.
  pose proof (clock_now n.(n_world)) as Hk.
  destruct (now_ms (n_world n)) as [t w]. eexists. split; [reflexivity|]. simpl in *.
  rewrite Hc. done.
Qed.
End stable.

(** ** Handlers that arm no timer *)
Definition arms_none (o : bop) : Prop :=
  match o with BSet k _ => tag k ≠ Some tagTimeIndex | BDel _ => True end.
Abbreviation arms_nothing := (each_M arms_none).

Lemma arms_writes {A} (ts : list byte) (m : M A) :
  writes_M ts m → tagTimeIndex ∉ ts → arms_nothing m.
Proof. intros Hw Hn. eapply each_writes; [done|]. intros [k v|k] t Ht Hin; simpl in *; [|done]. rewrite Ht. by intros [= ->]. Qed.

(** The timer rows after a batch that arms none were there before. *)
Lemma arms_nothing_commit {A} (m : M A) db x b (k : bytes) :
  arms_nothing m → m db = Ok (x, b) → tag k = Some tagTimeIndex →
  commit b db !! k = None ∨ commit b db !! k = db !! k.
Proof.
  intros Ha E Hk. apply Ha in E. clear Ha m x. revert db.
  induction E as [|o b Ho _ IH]; intros db; [by right|]. rewrite commit_cons.
  destruct (IH (apply_bop db o)) as [-> | ->]; [by left|]. destruct o as [k' v|k']; simpl.
  - rewrite lookup_insert_ne by (intros ->; done). by right.
  - destruct (decide (k' = k)) as [->|]; [rewrite lookup_delete_eq; by left|].
    rewrite lookup_delete_ne by done. by right.
Qed.

Section sweep.
Context {PC : PayloadCodec} {PE : PolicyEngines} {W : World} {R : StableRaft}.
Implicit Types (n : Node) (db : store).

Lemma arms_recordActivityTerminal r s f res now : arms_nothing (recordActivityTerminal r s f res now).
Proof. eapply arms_writes; [apply writes_recordActivityTerminal|]. by vm_compute; set_solver. Qed.
Lemma arms_appendExternalEvent r t a now : arms_nothing (appendExternalEvent r t a now).
Proof. eapply arms_writes; [apply writes_appendExternalEvent|]. by vm_compute; set_solver. Qed.
#[local] Hint Resolve arms_recordActivityTerminal arms_appendExternalEvent : rota_each.
Lemma arms_deadLetter m r h ts : arms_nothing (deadLetter m r h ts).
Proof. unfold deadLetter. each. Qed.
Lemma arms_deleteLeaseToken l : arms_nothing (deleteLeaseToken l).
Proof. unfold deleteLeaseToken. each. Qed.
#[local] Hint Resolve arms_deadLetter arms_deleteLeaseToken : rota_each.
Lemma arms_expireLease m gm at_ : arms_nothing (expireLease m gm at_).
Proof. unfold expireLease, penaliseExpiry, makeReady. rewrite N.ltb_irrefl. each. Qed.
#[local] Hint Resolve arms_expireLease : rota_each.

(** Firing a timer arms none. *)
Lemma arms_applyFireTimer c : arms_nothing (applyFireTimer c).
Proof.
  unfold applyFireTimer, fireKind, fireReadyAt, fireLeaseDeadline, fireLeaseMaxLife, fireWFTimer,
    recordTimerFired, fireMsgExpiry, fireDedupExpiry. each.
Qed.

(** ** The rows of the time index *)

(** Every timer row is a timer's, with a raw value, and not a cron's. *)
Definition timers_ok db : Prop := ∀ (k : bytes) v, db !! k = Some v → tag k = Some tagTimeIndex →
  ∃ ts kind ref b, k = TimeIndexKey ts kind ref ∧ u64 ts ∧ kind ≠ TimerCronDue ∧ v = VRaw b.

(** [db'] has no timer rows but those of [db]. *)
Definition fewer_timers db db' : Prop := ∀ k : bytes, tag k = Some tagTimeIndex →
  db' !! k = None ∨ db' !! k = db !! k.

Lemma fewer_timers_refl db : fewer_timers db db.
Proof. intros k _. by right. Qed.
Lemma fewer_timers_trans db1 db2 db3 :
  fewer_timers db1 db2 → fewer_timers db2 db3 → fewer_timers db1 db3.
Proof. intros H1 H2 k Hk. destruct (H2 k Hk) as [-> | ->]; [by left|auto]. Qed.
Lemma fewer_timers_ok db db' : fewer_timers db db' → timers_ok db → timers_ok db'.
Proof.
  intros Hf Ht k v Hk Htag. destruct (Hf k Htag) as [E|E]; [congruence|].
  eapply Ht; [|done]. congruence.
Qed.

(** The row a due entry stands for. *)
Definition due_key (e : due) : bytes := TimeIndexKey e.(du_ts) e.(du_kind) e.(du_ref).

Lemma parseDue_key ts kind ref v :
  u64 ts → parseDue (TimeIndexKey ts kind ref, v) = Some (mkdue ts kind ref).
Proof. intros Hts. unfold parseDue. cbn [fst]. by rewrite ParseTimeIndexKey_TimeIndexKey. Qed.

Definition dueRows (t : N) db : list (bytes * value) :=
  NewIter TimeIndexPrefix (Some (TimeIndexUpTo t)) db.

Lemma dueRows_tag t db k v : (k, v) ∈ dueRows t db → tag k = Some tagTimeIndex.
Proof.
  intros [_ [Hlo Hhi]]%elem_of_NewIter. revert Hlo Hhi.
  unfold TimeIndexPrefix, TimeIndexUpTo, bytes_le, bytes_lt.
  destruct k as [|c k]; [done|]. cbn [bytes_ltb tag head].
  destruct (N.eqb_spec (N_of_ascii c) (N_of_ascii tagTimeIndex)) as [E|E].
  - intros _ _. by apply N_of_ascii_inj in E as ->.
  - destruct k; rewrite N.ltb_ge, N.ltb_lt; lia.
Qed.

(** On well-formed timers, the batch is the head of the due rows. *)
Lemma parse_rows rows :
  (∀ k v, (k, v) ∈ rows → ∃ ts kind ref, k = TimeIndexKey ts kind ref ∧ u64 ts) →
  due_key <$> omap parseDue rows = rows.*1.
Proof.
  induction rows as [|[k v] rows IH]; intros Hr; [done|].
  destruct (Hr k v) as (ts & kind & ref & -> & Hts); [left|]. cbn [omap list_omap].
  rewrite parseDue_key by done. rewrite !fmap_cons. f_equal. apply IH. intros k' v' Hin. eapply Hr. by right.
Qed.
Lemma dueBatch_keys t db :
  timers_ok db → due_key <$> dueBatch t db = take maxFireBatch (dueRows t db).*1.
Proof.
  intros Hok. unfold dueBatch. fold (dueRows t db).
  rewrite fmap_take, parse_rows; [done|].
  intros k v Hin. pose proof (dueRows_tag _ _ _ _ Hin) as Ht.
  apply elem_of_NewIter in Hin as [Hd _]. destruct (Hok k v Hd Ht) as (ts & kind & ref & b & ? & ? & _).
  eauto.
Qed.
Lemma dueBatch_wf t db e :
  timers_ok db → e ∈ dueBatch t db → u64 e.(du_ts) ∧ e.(du_kind) ≠ TimerCronDue.
Proof.
  intros Hok He. unfold dueBatch in He. apply elem_of_take in He as (i & He & _).
  apply list_elem_of_lookup_2, list_elem_of_omap in He as ([k v] & Hin & Hp). fold (dueRows t db) in Hin.
  pose proof (dueRows_tag _ _ _ _ Hin) as Ht. apply elem_of_NewIter in Hin as [Hd _].
  destruct (Hok k v Hd Ht) as (ts & kind & ref & b & -> & Hts & Hk & _).
  rewrite parseDue_key in Hp by done. by injection Hp as <-.
Qed.

(** ** Firing *)
Hypothesis portable_fire : ∀ c, portable (cmd_Fire c).

Lemma applyFireTimer_consumes c db :
  let k := TimeIndexKey c.(f_DueTs) c.(f_Kind) c.(f_Ref) in
  (∀ v, db !! k = Some v → ∃ b, v = VRaw b) →
  ∃ b, applyFireTimer c db = Ok (RNil, b) ∧ commit b db !! k = None.
Proof using Type.
  intros k Hraw. destruct (total_applyFireTimer c db) as (r & b & E). pose proof E as E'.
  unfold applyFireTimer in E. fold k in E. apply bind_Ok in E as (val & b1 & b2 & Hg & E & ->).
  apply gets_Ok in Hg as [-> ->]. destruct (GetRaw k db) as [val|] eqn:Ev.
  - apply bind_Ok in E as (u & b3 & b4 & _ & E & ->).
    apply bind_Ok in E as (u' & b5 & b6 & Hd & E & ->). apply bdel_Ok in Hd as [_ ->].
    apply ret_Ok in E as [-> ->]. eexists. split; [exact E'|].
    rewrite app_nil_r, !commit_app. cbn [commit foldl apply_bop app]. by rewrite lookup_delete_eq.
  - apply ret_Ok in E as [-> ->]. eexists. split; [exact E'|]. cbn [commit foldl app].
    destruct (db !! k) as [v|] eqn:Ek; [|done]. destruct (Hraw v eq_refl) as [b' ->].
    unfold GetRaw, GetProto in Ev. by rewrite Ek in Ev.
Qed.

Definition later n n' : Prop := clock n.(n_world) ≤ clock n'.(n_world).

Lemma fireDue_fires e n :
  node_ok n → timers_ok (db_of n) → e.(du_kind) ≠ TimerCronDue →
  ∃ n', fireDue e n = Some (Ok (), n') ∧ node_ok n' ∧ later n n' ∧ fewer_timers (db_of n) (db_of n') ∧
        db_of n' !! due_key e = None.
Proof using portable_fire.
  intros Hok Ht Hk. unfold fireDue. rewrite bool_decide_eq_false_2 by done.
  destruct (nowMs_ok n Hok) as (n1 & Hn & Hok1 & Hdb1 & (_ & _ & _ & _ & Hc1) & _).
  rewrite (nbind_ok _ _ _ _ _ Hn). set (now := (now_ms (n_world n)).1). clearbody now. clear Hn.
  set (c := mkFireTimerCmd e.(du_kind) e.(du_ts) e.(du_ref) now).
  destruct (applyFireTimer_consumes c (db_of n1)) as (b & Hb & Hgone).
  { intros v Hv. rewrite Hdb1 in Hv. destruct (Ht _ _ Hv eq_refl) as (ts & kd & ref & b & _ & _ & _ & ->). eauto. }
  destruct (apply_commits (cmd_Fire c) n1 RNil b) as (n2 & Ha & Hok2 & Hdb2 & (_ & _ & _ & _ & Hc2)); [done|done| |].
  { rewrite dispatch_Fire. by rewrite Hb. }
  exists n2. rewrite (nbind_ok _ _ _ _ _ (attempt_eq _ _ _ _ Ha)). split; [reflexivity|]. split; [done|].
  split; [unfold later; by etransitivity|].
  rewrite Hdb2. unfold committed. split.
  - intros k Htag. rewrite lookup_insert_ne by (intros <-; by vm_compute in Htag).
    rewrite <-Hdb1. eapply arms_nothing_commit; [apply arms_applyFireTimer|exact Hb|done].
  - rewrite lookup_insert_ne; [exact Hgone|]. discriminate.
Qed.

Lemma fireAll_fires es n :
  node_ok n → timers_ok (db_of n) → Forall (λ e, e.(du_kind) ≠ TimerCronDue) es →
  ∃ n', fireAll es n = Some (Ok (), n') ∧ node_ok n' ∧ later n n' ∧
        fewer_timers (db_of n) (db_of n') ∧ ∀ e, e ∈ es → db_of n' !! due_key e = None.
Proof using portable_fire.
  revert n. induction es as [|e es IH]; intros n Hok Ht Hes; cbn [fireAll].
  - exists n. split; [done|]. split; [done|]. split; [unfold later; reflexivity|].
    split; [apply fewer_timers_refl|].
    intros e He. by apply elem_of_nil in He.
  - apply Forall_cons in Hes as [He Hes].
    destruct (fireDue_fires e n Hok Ht He) as (n1 & H1 & Hok1 & Hl1 & Hf1 & Hg1).
    rewrite (nbind_ok _ _ _ _ _ H1).
    destruct (IH n1 Hok1 (fewer_timers_ok _ _ Hf1 Ht) Hes) as (n2 & H2 & Hok2 & Hl2 & Hf2 & Hg2).
    exists n2. split; [done|]. split; [done|]. split; [unfold later in *; by etransitivity|].
    split; [by eapply fewer_timers_trans|].
    intros e' He'. apply elem_of_cons in He' as [->|He']; [|auto].
    destruct (Hf2 (due_key e)) as [?|Eq]; [done|done|]. by rewrite Eq.
Qed.

(** A sweep consumes the first [maxFireBatch] due rows and arms nothing. *)
Lemma sweep_consumes n :
  node_ok n → timers_ok (db_of n) →
  let now := (now_ms n.(n_world)).1 in
  ∃ n', sweepTimers n = Some (Ok (), n') ∧ node_ok n' ∧ later n n' ∧
        fewer_timers (db_of n) (db_of n') ∧ ∀ k, k ∈ take maxFireBatch (dueRows now (db_of n)).*1 → db_of n' !! k = None.
Proof using portable_fire.
  intros Hok Ht now. unfold sweepTimers.
  destruct (nowMs_ok n Hok) as (n1 & Hn & Hok1 & Hdb1 & (_ & _ & _ & _ & Hc1) & _).
  rewrite (nbind_ok _ _ _ _ _ Hn), nbind_store. fold now.
  change (fsm_s (n_fsm n1)) with (db_of n1). rewrite Hdb1.
  destruct (fireAll_fires (dueBatch now (db_of n)) n1) as (n2 & H2 & Hok2 & Hl2 & Hf2 & Hg2).
  - done.
  - by rewrite Hdb1.
  - apply Forall_forall. intros e He. by eapply dueBatch_wf.
  - rewrite Hdb1 in Hf2. exists n2. split; [done|]. split; [done|].
    split; [unfold later in *; by etransitivity|]. split; [done|].
    intros k Hk. rewrite <-dueBatch_keys in Hk by done.
    apply list_elem_of_fmap in Hk as (e & -> & He). by apply Hg2.
Qed.

(** ** Draining *)
Lemma due_shrinks t now db db' :
  t ≤ now → now + 1 < two64 → fewer_timers db db' →
  (∀ k, k ∈ take maxFireBatch (dueRows now db).*1 → db' !! k = None) →
  (length (dueRows t db') <= length (dueRows t db) - maxFireBatch)%nat.
Proof using Type.
  intros Ht Hnow Hf Hgone.
  assert (Hsplit : dueRows now db = dueRows t db ++ NewIter (TimeIndexUpTo t) (Some (TimeIndexUpTo now)) db).
  { apply NewIter_split.
    - unfold TimeIndexPrefix, TimeIndexUpTo. change (tagTimeIndex :: u64be (incr64 t)) with ([tagTimeIndex] ++ u64be (incr64 t)). apply bytes_le_prefix.
    - unfold below, TimeIndexUpTo. rewrite !incr64_small by lia. apply (bytes_le_app [tagTimeIndex]).
      rewrite <-(app_nil_r (u64be (now + 1))). apply (be_bytes_le_app 8); [lia|].
      unfold two64 in Hnow. change (256 ^ N.of_nat 8) with two64. unfold two64. lia. }
  assert (Hsub : (dueRows t db').*1 ⊆+ drop maxFireBatch (dueRows t db).*1).
  { apply NoDup_submseteq; [apply NewIter_NoDup_fst|]. intros k Hk.
    apply list_elem_of_fmap in Hk as ([k0 v] & -> & Hin). simpl.
    pose proof (dueRows_tag _ _ _ _ Hin) as Htag. apply elem_of_NewIter in Hin as [Hd Hr].
    destruct (Hf k0 Htag) as [E|E]; [congruence|].
    assert (k0 ∈ (dueRows t db).*1) as Hold.
    { apply list_elem_of_fmap. exists (k0, v). split; [done|]. apply elem_of_NewIter. by rewrite <-E. }
    rewrite <-(take_drop maxFireBatch (dueRows t db).*1) in Hold.
    apply elem_of_app in Hold as [Hold|]; [|done]. exfalso.
    assert (db' !! k0 = None); [|congruence]. apply Hgone. rewrite Hsplit, fmap_app.
    rewrite take_app. apply elem_of_app. by left. }
  apply submseteq_length in Hsub. by rewrite length_drop, !length_fmap in Hsub.
Qed.

Fixpoint sweeps (k : nat) : NM unit :=
  match k with O => mret () | S k' => sweepTimers;; sweeps k' end.

Lemma sweeps_drain k t n :
  node_ok n → timers_ok (db_of n) → t ≤ clock n.(n_world) →
  ∃ n', sweeps k n = Some (Ok (), n') ∧
    (length (dueRows t (db_of n')) <= length (dueRows t (db_of n)) - k * maxFireBatch)%nat.
Proof using portable_fire.
  revert n. induction k as [|k IH]; intros n Hok Ht Hc; cbn [sweeps].
  - exists n. split; [done|]. lia.
  - destruct (sweep_consumes n Hok Ht) as (n1 & H1 & Hok1 & Hl1 & Hf1 & Hg1).
    rewrite (nbind_ok _ _ _ _ _ H1).
    destruct (IH n1 Hok1 (fewer_timers_ok _ _ Hf1 Ht)) as (n2 & H2 & Hlen).
    { unfold later in Hl1. by etransitivity. }
    exists n2. split; [done|]. destruct (clock_read n.(n_world)) as [Hr Hr'].
    pose proof (due_shrinks t _ _ _ (N.le_trans _ _ _ Hc Hr) Hr' Hf1 Hg1). lia.
Qed.

(** C22: timers are fired.  On a stable leader whose time index holds no cron
    timers, every row due at time [t] is consumed by enough sweeps at or after
    [t], [maxFireBatch] at a time: no due timer waits forever. *)
Theorem due_timers_drain k t n :
  node_ok n → timers_ok (db_of n) → t ≤ clock n.(n_world) →
  (length (dueRows t (db_of n)) <= k * maxFireBatch)%nat →
  ∃ n', sweeps k n = Some (Ok (), n') ∧ dueRows t (db_of n') = [].
Proof using portable_fire.
  intros Hok Ht Hc Hk. destruct (sweeps_drain k t n Hok Ht Hc) as (n' & Hs & Hl).
  exists n'. split; [done|]. destruct (dueRows t (db_of n')); [done|]. simpl in Hl. lia.
Qed.
End sweep.
