(* ===== verification/NodeDemo.v ===== *)
(** * A concrete world

    A clock, a Raft that commits at once, one-letter randomness, a cron that
    fires every second, and a codec for the commands the witnesses propose: an
    instance of [World] and of [StableRaft]. *)

From stdpp Require Import countable.
From S2P Require Import Prelude Keys Data Store Publish Workflow Broker Control Auth Timers Fsm Commands Fairness Meter Policy Scheduler SchedulerProps Hash Node NodeControl NodeOps NodeProps Demo.

(** ** A codec: one constructor per command, encoded in bits *)
Definition demo_grant : Type := bytes * bytes * list Z * bytes.
Definition demo_grant_of (g : demo_grant) : AuthGrantCmd :=
  let '(l, g, a, x) := g in mkAuthGrantCmd l g a x.
Definition demo_grant_to (g : AuthGrantCmd) : demo_grant :=
  (g.(agc_LanePattern), g.(agc_GroupPattern), g.(agc_Actions), g.(agc_Note)).
Lemma demo_grant_to_of g : demo_grant_to (demo_grant_of g) = g.
Proof. by destruct g as [[[]]]. Qed.
Lemma demo_grant_of_to g : demo_grant_of (demo_grant_to g) = g.
Proof. by destruct g. Qed.

Definition demo_tuple : Type :=
  ((byte * N * bytes * N) + (bytes * bytes * bytes * N * N)) +
  ((bytes * N * N) + (N * bytes)) +
  ((N * N * N * list (Z * bytes) * N) + (N * N * bool * bytes * N)) +
  ((bytes * bytes) + ((N + (bytes * bytes * bytes * N * N)) + (N * bytes * list bytes * list demo_grant * option demo_grant * N * bool * bytes * bytes * bytes * N))).

Definition demo_of (t : demo_tuple) : Command :=
  match t with
  | inl (inl (inl (inl (k, d, r, f)))) => cmd_Fire (mkFireTimerCmd k d r f)
  | inl (inl (inl (inr (l, g, c, d, m)))) => cmd_Lease (mkLeaseCmd l g c d m)
  | inl (inl (inr (inl (i, f, x)))) => cmd_FireCron (mkFireCronCmd i f x)
  | inl (inl (inr (inr (i, h)))) => cmd_IssueToken (mkIssueTokenCmd i h)
  | inl (inr (inl (r, e, s, evs, now))) =>
      cmd_WFAppend (mkWFAppendEventsCmd r e s ((λ p, mkWFEventIn p.1 p.2) <$> evs) now)
  | inl (inr (inr (r, s, ok, res, now))) => cmd_WFCompleteActivity (mkWFCompleteActivityCmd r s ok res now)
  | inr (inl (l, g)) => cmd_ReapGroup (mkReapGroupCmd l g)
  | inr (inr (inl (inl i))) => cmd_Ack (mkAckCmd i)
  | inr (inr (inl (inr (ty, tn, inp, par, now)))) => cmd_WFStart (mkWFStartRunCmd ty tn inp par now)
  | inr (inr (inr (op, nm, tags, gs, g, i, dis, tid, salt, h, now))) =>
      cmd_AuthPrincipal (mkAuthPrincipalCmd op nm tags (demo_grant_of <$> gs) (demo_grant_of <$> g) i dis tid salt h now)
  end.
Definition demo_to (c : Command) : option demo_tuple :=
  match c.(c_Fire), c.(c_Lease), c.(c_FireCron), c.(c_IssueToken), c.(c_WFAppend),
        c.(c_WFCompleteActivity), c.(c_ReapGroup), c.(c_Ack), c.(c_AuthPrincipal), c.(c_WFStart) with
  | Some f, _, _, _, _, _, _, _, _, _ => Some (inl (inl (inl (inl (f.(f_Kind), f.(f_DueTs), f.(f_Ref), f.(f_FireAt))))))
  | _, Some l, _, _, _, _, _, _, _, _ =>
      Some (inl (inl (inl (inr (l.(l_Lane), l.(l_GroupID), l.(l_ConsumerID), l.(l_DeadlineMs), l.(l_MaxLifeMs))))))
  | _, _, Some f, _, _, _, _, _, _, _ => Some (inl (inl (inr (inl (f.(fc_CronID), f.(fc_FireAt), f.(fc_NextFireMs))))))
  | _, _, _, Some i, _, _, _, _, _, _ => Some (inl (inl (inr (inr (i.(it_LeaseID), i.(it_TokenHash))))))
  | _, _, _, _, Some w, _, _, _, _, _ =>
      Some (inl (inr (inl (w.(wac_RunID), w.(wac_RunEpoch), w.(wac_HistorySeq),
        (λ e, (e.(wei_Type), e.(wei_Attrs))) <$> w.(wac_Events), w.(wac_NowMs)))))
  | _, _, _, _, _, Some w, _, _, _, _ =>
      Some (inl (inr (inr (w.(wca_RunID), w.(wca_ScheduledEventID), w.(wca_Success), w.(wca_Result), w.(wca_NowMs)))))
  | _, _, _, _, _, _, Some r, _, _, _ => Some (inr (inl (r.(rg_Lane), r.(rg_GroupID))))
  | _, _, _, _, _, _, _, Some a, _, _ => Some (inr (inr (inl (inl a.(a_LeaseID)))))
  | _, _, _, _, _, _, _, _, Some p, _ =>
      Some (inr (inr (inr (p.(apc_Op), p.(apc_Name), p.(apc_Tags), demo_grant_to <$> p.(apc_Grants),
        demo_grant_to <$> p.(apc_Grant), p.(apc_GrantIndex), p.(apc_Disabled), p.(apc_TokenID), p.(apc_Salt),
        p.(apc_TokenHash), p.(apc_NowMs)))))
  | _, _, _, _, _, _, _, _, _, Some w =>
      Some (inr (inr (inl (inr (w.(wst_WorkflowType), w.(wst_TenantID), w.(wst_Input), w.(wst_ParentRunID), w.(wst_NowMs))))))
  | _, _, _, _, _, _, _, _, _, _ => None
  end.
Lemma demo_to_of t : demo_to (demo_of t) = Some t.
Proof.
  destruct t as [[[[[[[k d] r] f]|[[[[l g] c] d] m]]|[[[i f] x]|[i h]]]|[[[[[r e] s] evs] now]|[[[[r s] ok] res] now]]]|[[l g]|[[i|[[[[ty tn] inp] par] now]]|[[[[[[[[[[op nm] tags] gs] gr] i] dis] tid] salt] h] now]]]];
    try reflexivity.
  - unfold demo_to. simpl. do 6 f_equal. rewrite <-list_fmap_compose. rewrite <-(list_fmap_id evs) at 2.
    apply list_fmap_ext. by intros ? [].
  - unfold demo_to. cbn -[fmap].
    assert (Hgs : demo_grant_to <$> (demo_grant_of <$> gs) = gs).
    { rewrite <-list_fmap_compose. rewrite <-(list_fmap_id gs) at 2. apply list_fmap_ext.
      intros ? g _. apply demo_grant_to_of. }
    assert (Hgr : demo_grant_to <$> (demo_grant_of <$> gr) = gr).
    { destruct gr as [g|]; [|done]. cbn. by rewrite demo_grant_to_of. }
    by rewrite Hgs, Hgr.
Qed.

Fixpoint pos_bytes (p : positive) : bytes :=
  match p with
  | xH => []
  | xO p => "0"%char :: pos_bytes p
  | xI p => "1"%char :: pos_bytes p
  end.
Fixpoint bytes_pos (b : bytes) : positive :=
  match b with
  | [] => xH
  | c :: b => if bool_decide (c = "0"%char) then xO (bytes_pos b) else xI (bytes_pos b)
  end.
Lemma bytes_pos_bytes p : bytes_pos (pos_bytes p) = p.
Proof. induction p; simpl; congruence. Qed.

Definition demo_marshal (c : Command) : result bytes :=
  match demo_to c with Some t => Ok (pos_bytes (encode t)) | None => Err (bs "unsupported") end.
Definition demo_decode (b : bytes) : option Command := demo_of <$> decode (bytes_pos b).

(** ** The world *)
Record demo_state := mkdemo { dw_time : N; dw_next : N }.

#[export] Instance demo_world : World := {|
  world := demo_state;
  now_ms w := (N.min w.(dw_time) (two64 - 2), w);
  rand_Read k w := (Ok (replicate k "r"%char), w);
  raft_Apply _ w := (mkraftReply [] (Ok w.(dw_next)), mkdemo w.(dw_time) (w.(dw_next) + 1));
  raft_IsLeader _ := true;
  raft_LeaderWithID _ := (bs "addr", bs "node1");
  raft_term _ := Some 1; raft_GetConfiguration _ := Ok [(bs "node1", bs "addr", true)];
  limiter := unit; NewLimiter _ _ := tt; limiter_Allow _ w := (true, tt, w);
  cron_schedule := unit; ParseStandard _ := Ok tt; cron_Next _ now := (now / 1000 + 1) * 1000;
  marshal_cmd := demo_marshal; unmarshal_cmd := demo_decode;
  marshal_binding _ := Err []; unmarshal_binding _ := None
|}.

(** The codec is faithful on the commands it carries. *)
Lemma demo_json t d : demo_marshal (demo_of t) = Ok d → demo_decode d = Some (demo_of t).
Proof.
  unfold demo_marshal, demo_decode. rewrite demo_to_of. intros E.
  assert (pos_bytes (encode t) = d) as <- by congruence. by rewrite bytes_pos_bytes, decode_encode.
Qed.

#[export] Instance demo_stable : StableRaft.
Proof.
  refine (Build_StableRaft demo_world dw_next _ _ _ _ _ (λ w, N.min w.(dw_time) (two64 - 2)) _ _ _
            (λ c, ∃ t, c = demo_of t) _); try (intros; simpl; done).
  - intros d w. simpl. lia.
  - intros w. split; [reflexivity|]. simpl. unfold two64. lia.
  - intros c [t ->]. unfold marshal_cmd, unmarshal_cmd. simpl. unfold demo_marshal, demo_decode.
    rewrite (demo_to_of t). eexists. split; [reflexivity|].
    by rewrite bytes_pos_bytes, decode_encode.
Defined.

Definition demo_cfg : Config := mkConfig [] (bs "node1") 30000 0 0 [] [] false [] ∅.
Definition demo_node (db : store) (now : N) : Node := Open demo_cfg db (mkdemo now 1000).

Lemma demo_portable_fire c : portable (cmd_Fire c).
Proof. destruct c as [k d r f]. by exists (inl (inl (inl (inl (k, d, r, f))))). Qed.

(** ** The sweep *)
Definition demo_timer_row : bytes := TimeIndexKey 5 TimerMsgExpiry (ReadyAtRef (bs "l") (bs "g") 1).
Definition demo_timer_db : store := {[ demo_timer_row := VRaw (u64b 0) ]}.

Lemma due_timers_drain_witness :
  ∃ n', sweeps 1 (demo_node demo_timer_db 10) = Some (Ok (), n') ∧ dueRows 10 (db_of n') = [].
Proof.
  apply (due_timers_drain demo_portable_fire 1 10).
  - vm_compute. reflexivity.
  - intros k v Hk _. change (demo_timer_db !! k = Some v) in Hk.
    unfold demo_timer_db in Hk. rewrite lookup_singleton in Hk. case_decide as Ek; [|done].
    subst k. injection Hk as <-.
    exists 5, TimerMsgExpiry, (ReadyAtRef (bs "l") (bs "g") 1), (u64b 0). done.
  - vm_compute. discriminate.
  - vm_compute. lia.
Defined.

Lemma demo_portable_auth c : portable (cmd_AuthPrincipal c).
Proof.
  destruct c as [op nm tags gs g i dis tid salt h now].
  exists (inr (inr (inr (op, nm, tags, demo_grant_to <$> gs, demo_grant_to <$> g, i, dis, tid, salt, h, now)))).
  unfold demo_of. do 2 f_equal.
  - rewrite <-list_fmap_compose. rewrite <-(list_fmap_id gs) at 1. apply list_fmap_ext.
    intros ? x _. symmetry. apply demo_grant_of_to.
  - by destruct g as [[]|].
Qed.
