(* ===== verification/Start.v ===== *)
(** * Opening a node ([node.Open], [newTransport], [WaitLeader])

    The store and Raft's own data are on disk; opening a node reads both, makes a
    transport, starts Raft, and writes the cluster's first configuration when
    there is nothing yet and this node is asked to, or runs without a transport.
    The Raft library and the network are parameters ([RaftBoot]): what is known of
    them is in [RaftBootLaws]. *)

From S2P Require Import Prelude GoStrings Keys Data Store Float Publish Workflow Broker Control Auth Timers Fsm Demo Commands Fairness Meter Policy Scheduler SchedulerProps Node NodeOps NodeControl NodeProps NodeDemo.

Record Server := mkServer { sv_ID : bytes; sv_Address : bytes }.
Inductive raftTransport := Inmem (addr : bytes) | TCP (bind advertise : bytes).

Class RaftBoot := {
  (** what Raft keeps: its log, its vote and term, its snapshots *)
  raftDisk : Type;
  HasExistingState : raftDisk → result bool;
  BootstrapCluster : list Server → raftDisk → result raftDisk;
  NewRaft : bytes → raftTransport → raftDisk → result ();
  NewFileSnapshotStore : bytes → result ();
  (** [net.ResolveTCPAddr], [raft.NewTCPTransport] *)
  ResolveTCPAddr : bytes → result ();
  NewTCPTransport : bytes → bytes → result ();
}.
(** A bootstrapped cluster has state. *)
Class RaftBootLaws (RB : RaftBoot) : Prop := {
  bootstrap_exists ss d d' : BootstrapCluster ss d = Ok d' → HasExistingState d' = Ok true }.

Definition rbind {A B} (r : result A) (f : A → result B) : result B := match r with Ok a => f a | Err e => Err e end.

Section start.
Context {PC : PayloadCodec} {PE : PolicyEngines} {W : World} {RB : RaftBoot}.

(** In memory without a bind address; else the advertised address, or the bound one. *)
Definition newTransport (cfg : Config) : result (raftTransport * bytes) :=
  if negb (nonempty cfg.(cfg_RaftBind)) then Ok (Inmem cfg.(cfg_NodeID), cfg.(cfg_NodeID))
  else
    let adv := if nonempty cfg.(cfg_RaftAdvertise) then cfg.(cfg_RaftAdvertise) else cfg.(cfg_RaftBind) in
    rbind (ResolveTCPAddr adv) (λ _,
    rbind (NewTCPTransport cfg.(cfg_RaftBind) adv) (λ _,
    Ok (TCP cfg.(cfg_RaftBind) adv, adv))).
(** The first configuration: the peers as given, or this node alone. *)
Definition firstServers (cfg : Config) (selfAddr : bytes) : list Server :=
  match cfg.(cfg_InitialPeers) with
  | [] => [mkServer cfg.(cfg_NodeID) selfAddr]
  | ps => (λ p, mkServer p.(peer_ID) p.(peer_Addr)) <$> ps
  end.
(** [opened]: what [storage.Open] answers for the data directory.  The node, Raft's
    data, and the configuration written if one was. *)
Definition openNode (cfg : Config) (opened : result store) (d : raftDisk) (w : world) :
    result (Node * raftDisk * option (list Server)) :=
  rbind opened (λ s,
  let n := Open cfg s w in
  let cfg := n.(n_cfg) in
  rbind (NewFileSnapshotStore cfg.(cfg_DataDir)) (λ _,
  rbind (newTransport cfg) (λ t,
  rbind (NewRaft cfg.(cfg_NodeID) t.1 d) (λ _,
  rbind (HasExistingState d) (λ hasState,
  if (cfg.(cfg_Bootstrap) || negb (nonempty cfg.(cfg_RaftBind))) && negb hasState then
    let servers := firstServers cfg t.2 in
    rbind (BootstrapCluster servers d) (λ d', Ok (n, d', Some servers))
  else Ok (n, d, None)))))).

(** Polls: the clock before the deadline, this node is the leader.  [None]: still
    polling. *)
Fixpoint WaitLeader (polls : list (bool * bool)) : option (result ()) :=
  match polls with
  | [] => None
  | (early, leader) :: polls' =>
      if negb early then Some (Err (bs "no leader elected"))
      else if leader then Some (Ok ()) else WaitLeader polls'
  end.

(** ** Theorems *)

(** A node forms a cluster at most once.  The first configuration is written only
    when Raft had no state, the node was told to bootstrap or runs without a
    transport, and it is the list of peers as given, the same on every node, or
    this node alone; once written, opening the node again, with whatever flags and
    whatever became of the store, writes none and leaves Raft's data as they are. *)
Theorem bootstrap_once {RL : RaftBootLaws RB} cfg opened d w n d' boot :
  openNode cfg opened d w = Ok (n, d', boot) →
  (∃ s, opened = Ok s ∧ n = Open cfg s w) ∧
  (∀ ss, boot = Some ss ↔
     HasExistingState d = Ok false ∧ (cfg.(cfg_Bootstrap) = true ∨ cfg.(cfg_RaftBind) = []) ∧
     BootstrapCluster ss d = Ok d' ∧
     ∃ t, newTransport n.(n_cfg) = Ok t ∧ ss = firstServers n.(n_cfg) t.2) ∧
  (boot = None → d' = d) ∧
  (is_Some boot → ∀ cfg2 opened2 w2 n2 d2 boot2, openNode cfg2 opened2 d' w2 = Ok (n2, d2, boot2) → boot2 = None ∧ d2 = d').
Proof.
  intros E. unfold openNode in E. destruct opened as [s|]; [|done]. cbn [rbind] in E.
  destruct (NewFileSnapshotStore _); [|done]. cbn [rbind] in E.
  destruct (newTransport _) as [t|] eqn:Et; [|done]. cbn [rbind] in E.
  destruct (NewRaft _ _ _); [|done]. cbn [rbind] in E. destruct (HasExistingState d) as [has|] eqn:Eh; [|done].
  cbn [rbind] in E. set (cfg1 := (Open cfg s w).(n_cfg)) in *.
  assert (Hc : cfg_Bootstrap cfg1 || negb (nonempty (cfg_RaftBind cfg1)) = true ↔
    cfg.(cfg_Bootstrap) = true ∨ cfg.(cfg_RaftBind) = []).
  { rewrite orb_true_iff. subst cfg1. cbn. destruct (cfg_RaftBind cfg); naive_solver. }
  destruct (_ && negb has) eqn:Eb.
  - apply andb_true_iff in Eb as [Eb Ehas%negb_true_iff]. subst has.
    destruct (BootstrapCluster _ d) as [d1|] eqn:Ed; [|done]. cbn [rbind] in E. injection E as <- <- <-.
    split; [by exists s|]. split.
    { intros ss. split.
      - intros [= <-]. split; [done|]. split; [by apply Hc|]. split; [done|]. by exists t.
      - intros (_ & _ & _ & t' & Ht & ->). fold cfg1 in Ht |- *. rewrite Et in Ht. by injection Ht as <-. }
    split; [done|]. intros _ cfg2 opened2 w2 n2 d2 boot2. unfold openNode.
    destruct opened2; [|done]. cbn [rbind]. destruct (NewFileSnapshotStore _); [|done]. cbn [rbind].
    destruct (newTransport (n_cfg _)); [|done]. cbn [rbind]. destruct (NewRaft _ _ _); [|done]. cbn [rbind].
    rewrite (bootstrap_exists _ _ _ Ed). cbn [rbind]. rewrite andb_false_r. by intros [= <- <- <-].
  - injection E as <- <- <-. split; [by exists s|]. split; [|split; [done|by intros [? ?]]].
    intros ss. split; [done|]. intros (Hs & Hb%Hc & _). injection Hs as ->. by rewrite Hb in Eb.
Qed.
End start.

(** ** Witness *)
#[export] Instance demo_boot : RaftBoot := {|
  raftDisk := list (list Server); HasExistingState d := Ok (negb (bool_decide (length d = 0%nat)));
  BootstrapCluster ss d := Ok (ss :: d); NewRaft _ _ _ := Ok (); NewFileSnapshotStore _ := Ok ();
  ResolveTCPAddr _ := Ok (); NewTCPTransport _ _ := Ok () |}.
#[export] Instance demo_boot_laws : RaftBootLaws demo_boot.
Proof. constructor. by intros ss d d' [= <-]. Qed.
Definition demo_first : Config :=
  mkConfig (bs "./data") (bs "node1") 0 0 0 (bs "127.0.0.1:7200") [] true
    [mkPeer (bs "node1") (bs "127.0.0.1:7200"); mkPeer (bs "node2") (bs "127.0.0.1:7201")] ∅.
Lemma bootstrap_once_witness : ∃ d, (∃ n, openNode (W := demo_world) demo_first (Ok ∅) [] (mkdemo 5 1000) = Ok (n, d, Some
      [mkServer (bs "node1") (bs "127.0.0.1:7200"); mkServer (bs "node2") (bs "127.0.0.1:7201")])) ∧
  ∀ n2 d2 boot2, openNode (W := demo_world) demo_cfg (Ok ∅) d (mkdemo 9 1000) = Ok (n2, d2, boot2) → boot2 = None.
Proof.
  eexists. split; [eexists; reflexivity|]. intros n2 d2 boot2 E.
  destruct (bootstrap_once (W := demo_world) (RB := demo_boot) demo_first (Ok ∅) [] (mkdemo 5 1000) _ _ _ eq_refl) as (_ & _ & _ & H).
  by destruct (H (ltac:(by eexists)) _ _ _ _ _ _ E).
Defined.
