(* ===== verification/Pages.v ===== *)
(** * Pagination

    A client that follows page tokens, and what it collects: for every listing,
    the rows of the table in key order, each once. *)

From S2P Require Import Prelude Keys Data Store KeysProps Float Publish Workflow Fsm Fairness Meter Policy Scheduler Hash Node NodeControl NodeStats NodeOps NodeWorkflow.

(** The pages a client sees that starts at a token and follows the tokens it is
    given until an empty one. *)
Inductive walk {A} (req : bytes → list A * bytes) : bytes → list (list A) → Prop :=
  | walk_last t l : req t = (l, []) → walk req t [l]
  | walk_more t l t' pages :
      req t = (l, t') → t' ≠ [] → walk req t' pages → walk req t (l :: pages).

(** The client ends, with exactly [items], every page but the last one full. *)
Definition enumerates {A} (req : bytes → list A * bytes) (limit : nat) (items : list A) : Prop :=
  ∃ pages, walk req [] pages ∧ concat pages = items ∧
    Forall (λ p, (length p <= limit)%nat) pages ∧ Forall (λ p, length p = limit) (removelast pages).

Lemma clampPage_bounds n : (1 <= clampPage n <= 1000)%nat.
Proof.
  unfold clampPage, defaultPageSize, maxPageSize.
  destruct (N.eqb_spec n 0), (N.ltb_spec 1000 n); simpl orb; cbv iota; lia.
Qed.

Lemma hex_encode_nil b : hex_encode b = [] → b = [].
Proof. intros E. pose proof (hex_decode_encode b) as H. rewrite E in H. by injection H as <-. Qed.

Lemma pageStart_token (lo k : bytes) : k ≠ [] → pageStart lo (hex_encode k) = k ++ ["000"%char].
Proof.
  intros Hk. unfold pageStart. rewrite hex_decode_encode. case_bool_decide as E.
  - by apply hex_encode_nil in E.
  - by destruct k.
Qed.

Section pages.
Context {A : Type} (f : bytes * value → option A).

(** One page: all that is left, or exactly [limit] items and the last key. *)
Lemma page_spec limit rows : (1 <= limit)%nat →
  (page f limit rows = (omap f rows, []) ∧ (length (omap f rows) <= limit)%nat) ∨
  ∃ pre (k : bytes) v rest, rows = pre ++ (k, v) :: rest ∧
    page f limit rows = (omap f (pre ++ [(k, v)]), hex_encode k) ∧
    length (omap f (pre ++ [(k, v)])) = limit.
Proof.
  revert limit. induction rows as [|[k v] rows IH]; intros limit Hl; [left; simpl; split; [done|lia]|].
  cbn [page omap list_omap]. destruct (f (k, v)) as [a|] eqn:Ef.
  - destruct (Nat.leb_spec limit 1) as [H1|H1].
    + assert (limit = 1)%nat as -> by lia. destruct rows as [|r rows]; [by left|]. right.
      exists [], k, v, (r :: rows). split; [done|]. cbn [app omap list_omap]. by rewrite Ef.
    + destruct (IH (pred limit) ltac:(lia)) as [[-> Hlen]|(pre & k' & v' & rest & -> & -> & Hlen)].
      * left. cbn [length]. split; [done|]. lia.
      * right. exists ((k, v) :: pre), k', v', rest. split; [done|]. cbn [app omap list_omap].
        rewrite Ef. cbn [length]. split; [done|]. lia.
  - destruct (IH limit Hl) as [H|(pre & k' & v' & rest & -> & Hp & Hlen)]; [by left|]. right.
    exists ((k, v) :: pre), k', v', rest. split; [done|]. cbn [app omap list_omap]. by rewrite Ef.
Qed.

Variables (lo : bytes) (hi : option bytes) (pageSize : N) (db : store).
#[local] Definition req (t : bytes) : list A * bytes := listPage f lo hi pageSize t db.

Lemma walk_from t rows : NewIter (pageStart lo t) hi db = rows → (∀ kv, kv ∈ rows → kv.1 ≠ []) →
  ∃ pages, walk req t pages ∧ concat pages = omap f rows ∧
    Forall (λ p, (length p <= clampPage pageSize)%nat) pages ∧
    Forall (λ p, length p = clampPage pageSize) (removelast pages).
Proof using Type.
  remember (length rows) as n eqn:En. revert t rows En.
  induction n as [n IH] using lt_wf_ind. intros t rows -> Hrows Hk.
  assert (Hreq : req t = page f (clampPage pageSize) rows) by (unfold req, listPage; by rewrite Hrows).
  destruct (page_spec (clampPage pageSize) rows (proj1 (clampPage_bounds _)))
    as [[Hp Hlen]|(pre & k & v & rest & -> & Hp & Hlen)].
  - exists [omap f rows]. split; [apply walk_last; congruence|]. cbn [concat removelast].
    rewrite app_nil_r. split; [done|]. split; [by repeat constructor|constructor].
  - assert (Hne : k ≠ []) by (apply (Hk (k, v)); set_solver).
    destruct (IH (length rest)) with (t := hex_encode k) (rows := rest) as (pages & Hw & Hc & Hle & Hfull).
    + rewrite length_app. simpl. lia.
    + done.
    + rewrite pageStart_token by done. by eapply NewIter_after.
    + intros kv Hin. apply Hk. set_solver.
    + exists (omap f (pre ++ [(k, v)]) :: pages). split; [|split; [|split]].
      * eapply (walk_more req t _ (hex_encode k)); [by rewrite Hreq| |done]. intros E. by apply Hne, hex_encode_nil.
      * cbn [concat]. rewrite Hc, <-omap_app. by rewrite <-app_assoc.
      * constructor; [lia|done].
      * destruct pages as [|p pages]; [inversion Hw|]. cbn [removelast] in *. constructor; done.
Qed.

Lemma listPage_enumerates : lo ≠ [] → enumerates req (clampPage pageSize) (omap f (NewIter lo hi db)).
Proof using Type.
  intros Hlo. apply walk_from; [done|]. intros [k v] [_ [Hl _]]%elem_of_NewIter. simpl. intros ->.
  unfold bytes_le in Hl. by destruct lo.
Qed.
End pages.

(** C16: pagination.  A client that follows the page tokens of any of the
    listings ends, and has then seen the table's rows in key order, each exactly
    once, every page but the last one full. *)
Theorem pages_enumerate lane filter pageSize db :
  let glo := GroupMetaLanePrefix lane in let dlo := DLQLanePrefix lane in
  enumerates (λ t, ListGroupStats lane pageSize t db) (clampPage pageSize)
    (omap groupStats (NewIter glo (PrefixEnd glo) db)) ∧
  enumerates (λ t, ListDeadLetters lane pageSize t db) (clampPage pageSize)
    (omap (deadLetterInfo lane) (NewIter dlo (PrefixEnd dlo) db)) ∧
  enumerates (λ t, ListLeases lane pageSize t db) (clampPage pageSize)
    (omap (leaseInfo lane) (NewIter LeaseBounds.1 (Some LeaseBounds.2) db)) ∧
  enumerates (λ t, ListWorkflowRuns filter pageSize t db) (clampPage pageSize)
    (omap (runRow filter) (NewIter WFRunBounds.1 (Some WFRunBounds.2) db)).
Proof. split_and!; by apply listPage_enumerates. Qed.
