(* ===== verification/NodeAuthProps.v ===== *)
(** * The life of a token, on a stable leader

    Creating a principal answers a token that authorizes exactly what the
    principal's tags and grants allow; disabling the principal, or rotating its
    token, ends that. *)

From S2P Require Import Prelude GoStrings Keys Data Store Publish Workflow Broker Control Auth Timers Fsm Commands Reason Float Fairness Meter Policy Scheduler SchedulerProps Hash Node NodeControl NodeOps NodeProps NodeAuth Demo NodeDemo.

(** ** Hashes and trimming *)
Lemma length_sha_round st kw : length (sha_round st kw) = length st.
Proof. by do 9 (destruct st as [|? st]; [done|]). Qed.
Lemma length_sha256 m : length (sha256 m) = 32%nat.
Proof.
  unfold sha256. assert (Hb : ∀ l : list N, length (l ≫= be_bytes 4) = (length l * 4)%nat).
  { induction l as [|x l IH]; [done|]. cbn [mbind list_bind]. rewrite length_app, length_be_bytes, IH. simpl. lia. }
  rewrite Hb. assert (Hf : ∀ cs st, length (foldl sha_block st cs) = length st).
  { induction cs as [|c cs IH]; intros st; [done|]. cbn [foldl]. rewrite IH. unfold sha_block.
    rewrite length_zip_with. assert (Hr : ∀ kws st, length (foldl sha_round st kws) = length st).
    { induction kws as [|kw kws IHk]; intros st'; [done|]. cbn [foldl]. by rewrite IHk, length_sha_round. }
    rewrite Hr. lia. }
  by rewrite Hf.
Qed.
Lemma sha256_nonempty m : nonempty (sha256 m) = true.
Proof. pose proof (length_sha256 m). by destruct (sha256 m). Qed.
Lemma hex_encode_nonempty b : nonempty b = true → nonempty (hex_encode b) = true.
Proof. by destruct b. Qed.

Lemma hex_byte_valid (c : ascii) :
  forallb (λ d, N_of_ascii d <? 128) [hex_digit (N_of_ascii c / 16); hex_digit (N_of_ascii c mod 16)] = true.
Proof. destruct c as [[] [] [] [] [] [] [] []]; reflexivity. Qed.
Lemma hex_encode_valid b : ValidString (hex_encode b).
Proof.
  apply Is_true_true, ValidString_ascii. unfold hex_encode. induction b as [|c b IH]; [done|].
  cbn [mbind list_bind]. by rewrite forallb_app, hex_byte_valid.
Qed.

(** A byte that is in no pattern survives. *)
Lemma strip_keeps fuel ps (s : bytes) (c : ascii) :
  Forall (λ p, c ∉ p) ps → c ∈ s → c ∈ strip fuel ps s.
Proof.
  intros Hps. revert s. induction fuel as [|fuel IH]; intros s Hc; [done|]. cbn [strip]. unfold strip_one.
  destruct (filter _ ps) as [|p l] eqn:E; [done|]. apply IH.
  assert (Hp : p ∈ filter (λ p, has_prefix p s = true) ps) by (rewrite E; left).
  apply list_elem_of_filter in Hp as [Hpre Hp]. apply has_prefix_spec in Hpre as [x ->].
  rewrite drop_app_length. apply elem_of_app in Hc as [Hc|]; [|done].
  rewrite Forall_forall in Hps. by destruct (Hps p Hp).
Qed.
Lemma TrimSpace_keeps (s : bytes) (c : ascii) : Forall (λ p, c ∉ p) spaces → c ∈ s → c ∈ TrimSpace s.
Proof.
  intros Hps Hc. unfold TrimSpace, trim_right, trim_left. apply elem_of_reverse, strip_keeps.
  - apply Forall_fmap. eapply Forall_impl; [exact Hps|]. intros p Hp. simpl. by rewrite elem_of_reverse.
  - apply elem_of_reverse. by apply strip_keeps.
Qed.
Lemma token_not_blank x : nonempty (TrimSpace (bs "rota_" ++ x)) = true.
Proof.
  assert (Hr : "r"%char ∈ TrimSpace (bs "rota_" ++ x)).
  { apply TrimSpace_keeps; [|left]. apply (bool_decide_unpack _). by vm_compute. }
  destruct (TrimSpace _); [by apply elem_of_nil in Hr|done].
Qed.

(** ** The principals of a store *)
Definition principals (db : store) : list AuthPrincipal :=
  decodeRows (NewIter AuthPrincipalBounds.1 (Some AuthPrincipalBounds.2) db).

Lemma elem_of_principals db q :
  q ∈ principals db ↔ ∃ k, db !! k = Some (VPrincipal q) ∧ in_range AuthPrincipalBounds.1 (Some AuthPrincipalBounds.2) k.
Proof.
  unfold principals, decodeRows. rewrite list_elem_of_omap. split.
  - intros ([k v] & [Hk Hr]%elem_of_NewIter & E). exists k. split; [|done]. simpl in E. by destruct v; simplify_eq/=.
  - intros (k & Hk & Hr). exists (k, VPrincipal q). split; [|done]. by apply elem_of_NewIter.
Qed.
Lemma AuthPrincipalKey_range nm : in_range AuthPrincipalBounds.1 (Some AuthPrincipalBounds.2) (AuthPrincipalKey nm).
Proof. by split. Qed.

Section decision.
Context {T : Text}.

Definition effective (checks : list AuthCheck) : list AuthCheck :=
  match checks with [] => [mkAuthCheck AUTH_ADMIN [] []] | _ => checks end.

Lemma decision_allowed p checks :
  (decision_of p checks).(ad_Allowed) =
  negb p.(ap_Disabled) && forallb (principalAllows p) (effective checks).
Proof.
  unfold decision_of. fold (effective checks). destruct (ap_Disabled p); [done|]. cbn [negb andb].
  induction (effective checks) as [|c cs IH]; [done|]. cbn [forallb]. rewrite filter_cons.
  destruct (principalAllows p c) eqn:E.
  - rewrite decide_False by done. cbn [andb]. exact IH.
  - rewrite decide_True by done. done.
Qed.

(** The only principal a token matches decides. *)
Lemma authorize_unique db token p checks :
  nonempty (TrimSpace token) = true → p ∈ principals db → principalTokenMatches p token = true →
  (∀ q, q ∈ principals db → principalTokenMatches q token = true → q = p) →
  AuthorizeToken token checks db = decision_of p checks.
Proof.
  intros Htok Hp Hm Huniq. unfold AuthorizeToken. rewrite Htok. cbn [negb].
  assert (Hen : AuthEnabled db = true).
  { unfold AuthEnabled. rewrite bool_decide_eq_false_2; [done|]. intros E.
    unfold principals in Hp. rewrite E in Hp. by apply elem_of_nil in Hp. }
  rewrite Hen. cbn [negb]. unfold listAuthPrincipals. cbv zeta. fold (principals db).
  destruct (filter _ _) as [|q l] eqn:E.
  - assert (Hin : p ∈ filter (λ p, principalTokenMatches p token = true) (merge_sort name_le (principals db))).
    { apply list_elem_of_filter. split; [done|]. by rewrite merge_sort_Permutation. }
    rewrite E in Hin. by apply elem_of_nil in Hin.
  - assert (Hin : q ∈ filter (λ p, principalTokenMatches p token = true) (merge_sort name_le (principals db)))
      by (rewrite E; left).
    apply list_elem_of_filter in Hin as [Hq Hin]. rewrite merge_sort_Permutation in Hin.
    by rewrite (Huniq q Hin Hq).
Qed.
End decision.

(** ** The handlers *)
Lemma applyAuthCreate_ok c db :
  c.(apc_Op) = AuthCreatePrincipal → nonempty c.(apc_Name) = true →
  db !! AuthPrincipalKey c.(apc_Name) = None → no_token_material c = false →
  let p := mkAuthPrincipal c.(apc_Name) false c.(apc_Tags) (authGrantsFromCmd c.(apc_Grants))
    (Some (mkAuthTokenInfo c.(apc_TokenID) c.(apc_Salt) c.(apc_TokenHash) c.(apc_NowMs) c.(apc_NowMs)))
    c.(apc_NowMs) c.(apc_NowMs) in
  applyAuthPrincipal (Some c) db = Ok (RPrincipal p, [BSet (AuthPrincipalKey c.(apc_Name)) (VPrincipal p)]).
Proof.
  intros Hop Hnm Hfresh Hmat p. unfold applyAuthPrincipal. rewrite Hnm, Hop. cbn [negb].
  change (AuthCreatePrincipal =? AuthCreatePrincipal) with true. cbv iota.
  unfold applyAuthCreatePrincipal, mbind, M_bind, gets. cbv beta iota. rewrite Hfresh, Hmat.
  by rewrite bool_decide_eq_false_2 by (by intros [? ?]).
Qed.

Lemma applyAuthDisable_ok c db p :
  c.(apc_Op) = AuthSetPrincipalDisabled → nonempty c.(apc_Name) = true →
  db !! AuthPrincipalKey c.(apc_Name) = Some (VPrincipal p) →
  applyAuthPrincipal (Some c) db = Ok (RAuthOp true,
    [BSet (AuthPrincipalKey c.(apc_Name)) (VPrincipal (ap_set_UpdatedMs c.(apc_NowMs) (ap_set_Disabled c.(apc_Disabled) p)))]).
Proof.
  intros Hop Hnm Hp. unfold applyAuthPrincipal. rewrite Hnm, Hop. cbn [negb].
  change (AuthSetPrincipalDisabled =? AuthCreatePrincipal) with false.
  change (AuthSetPrincipalDisabled =? AuthRotatePrincipalToken) with false.
  change (AuthSetPrincipalDisabled =? AuthSetPrincipalDisabled) with true. cbv iota.
  unfold applyAuthSetPrincipalDisabled, loadAuthPrincipal, mbind, M_bind, gets, GetProto. cbv beta iota. by rewrite Hp.
Qed.

(** ** Operations *)
Section ops.
Context {T : Text} {PC : PayloadCodec} {PE : PolicyEngines} {W : World} {R : StableRaft}.
(** The text of a principal command is UTF-8, the strings JSON keeps. *)
Definition grant_text (g : AuthGrantCmd) : Prop :=
  ValidString g.(agc_LanePattern) ∧ ValidString g.(agc_GroupPattern) ∧ ValidString g.(agc_Note).
Definition auth_text (c : AuthPrincipalCmd) : Prop :=
  ValidString c.(apc_Name) ∧ ValidString c.(apc_TokenID) ∧ Forall (λ t, ValidString t) c.(apc_Tags) ∧
  Forall grant_text c.(apc_Grants) ∧ (∀ g, c.(apc_Grant) = Some g → grant_text g).
(** The validated input of a creation. *)
Definition principal_text (nm : bytes) (tg : list bytes) (gs : list AuthGrant) : Prop :=
  ValidString nm ∧ Forall (λ t, ValidString t) tg ∧
  Forall (λ g, ValidString g.(ag_LanePattern) ∧ ValidString g.(ag_GroupPattern) ∧ ValidString g.(ag_Note)) gs.
Hypothesis portable_auth : ∀ c, auth_text c → portable (cmd_AuthPrincipal c).
Implicit Types (n : Node).

(** The principal created from validated input. *)
Definition new_principal (nm : bytes) (tg : list bytes) (gs : list AuthGrant) (token salt : bytes) (now : N) :
    AuthPrincipal :=
  mkAuthPrincipal nm false tg gs
    (Some (mkAuthTokenInfo (hex_encode (take 8 (sha256 token))) salt (saltedTokenHash salt token) now now)) now now.

Lemma grants_cmd gs : authGrantsFromCmd (grantsToCmd gs) = gs.
Proof using Type.
  unfold authGrantsFromCmd, grantsToCmd. rewrite <-list_fmap_compose. rewrite <-(list_fmap_id gs) at 2.
  apply list_fmap_ext. by intros i [] _.
Qed.

(** A step of the world that Raft does not notice. *)
Lemma node_ok_world n w : raft_next w = raft_next n.(n_world) → node_ok n → node_ok (n_set_world w n).
Proof using Type. unfold node_ok. simpl. by intros ->. Qed.

Lemma create_with_token name tags grants nm tg gs token salt w n :
  node_ok n → validatePrincipalInput name tags grants = Ok (nm, tg, gs) → principal_text nm tg gs →
  db_of n !! AuthPrincipalKey nm = None → nonempty (TrimSpace token) = true →
  rand_Read 16 n.(n_world) = (Ok salt, w) → salt ≠ [] →
  ∃ now n', createAuthPrincipalWithToken name tags grants token n =
      Some (Ok (Some (redactPrincipal (new_principal nm tg gs token salt now)), token), n') ∧
    node_ok n' ∧ ∃ i, db_of n' = committed [BSet (AuthPrincipalKey nm) (VPrincipal (new_principal nm tg gs token salt now))] i (db_of n).
Proof using portable_auth.
  intros Hok Hv (Htn & Htt & Htg) Hfresh Htok Hrand Hsalt. unfold createAuthPrincipalWithToken. rewrite Hv.
  unfold lift at 1. rewrite (nbind_ok _ _ n _ n eq_refl).
  set (n1 := n_set_world w n).
  assert (Hok1 : node_ok n1).
  { apply node_ok_world; [|done]. pose proof (stable_rand 16 n.(n_world)) as Hs. by rewrite Hrand in Hs. }
  assert (Hmat : authTokenMaterial token n = Some (Ok (mkAuthTokenInfo (hex_encode (take 8 (sha256 token))) salt
      (saltedTokenHash salt token) 0 0), n1)).
  { unfold authTokenMaterial. rewrite Htok. cbn [negb]. unfold mbind, NM_bind, nworld, lift. by rewrite Hrand. }
  rewrite (nbind_ok _ _ _ _ _ Hmat).
  destruct (nowMs_ok n1 Hok1) as (n2 & Hn & Hok2 & Hdb2 & _). rewrite (nbind_ok _ _ _ _ _ Hn).
  set (now := (now_ms (n_world n1)).1). cbv zeta. cbn [at_TokenId at_Salt at_Hash].
  set (c := mkAuthPrincipalCmd _ _ _ _ _ _ _ _ _ _ _).
  assert (Hnm : nonempty nm = true).
  { unfold validatePrincipalInput in Hv. cbv zeta in Hv. destruct (nonempty (TrimSpace name)) eqn:E; [|done].
    cbn [negb] in Hv. destruct (existsb _ _); [done|]. destruct (validateGrants grants); [|done]. by injection Hv as <- _ _. }
  destruct (apply_commits (cmd_AuthPrincipal c) n2 (RPrincipal (new_principal nm tg gs token salt now))
    [BSet (AuthPrincipalKey nm) (VPrincipal (new_principal nm tg gs token salt now))]) as (n3 & Ha & Hok3 & Hdb3 & _);
    [done|apply portable_auth; split_and!; [done|apply hex_encode_valid|done|by apply Forall_fmap|done]| |].
  { rewrite dispatch_AuthPrincipal, (applyAuthCreate_ok c); cbn [c apc_Name apc_Op]; try done.
    - unfold new_principal, c. cbn. by rewrite grants_cmd.
    - by rewrite Hdb2.
    - unfold no_token_material, c. cbn [apc_TokenID apc_Salt apc_TokenHash].
      rewrite hex_encode_nonempty; [|pose proof (length_sha256 token) as Hl; by destruct (sha256 token)].
      unfold saltedTokenHash. rewrite sha256_nonempty. by destruct salt. }
  exists now, n3. rewrite (nbind_ok _ _ _ _ _ Ha). split; [reflexivity|]. split; [done|].
  exists (raft_next (n_world n2)). rewrite Hdb3, Hdb2. done.
Qed.

Lemma disable_principal name nm p n :
  node_ok n → TrimSpace name = nm → nonempty nm = true → ValidString nm → db_of n !! AuthPrincipalKey nm = Some (VPrincipal p) →
  ∃ now n', SetAuthPrincipalDisabled name true n = Some (Ok (), n') ∧ node_ok n' ∧
    ∃ i, db_of n' = committed [BSet (AuthPrincipalKey nm) (VPrincipal (ap_set_UpdatedMs now (ap_set_Disabled true p)))] i (db_of n).
Proof using portable_auth.
  intros Hok Hname Hnm Htn Hp. unfold SetAuthPrincipalDisabled, withName. rewrite Hname, Hnm. cbn [negb].
  destruct (nowMs_ok n Hok) as (n2 & Hn & Hok2 & Hdb2 & _). rewrite (nbind_ok _ _ _ _ _ Hn).
  set (now := (now_ms (n_world n)).1). set (c := mkAuthPrincipalCmd _ _ _ _ _ _ _ _ _ _ _).
  destruct (apply_commits (cmd_AuthPrincipal c) n2 (RAuthOp true)
    [BSet (AuthPrincipalKey nm) (VPrincipal (ap_set_UpdatedMs now (ap_set_Disabled true p)))]) as (n3 & Ha & Hok3 & Hdb3 & _);
    [done|by apply portable_auth; split_and!| |].
  { rewrite dispatch_AuthPrincipal, (applyAuthDisable_ok c _ p); try done. by rewrite Hdb2. }
  exists now, n3. rewrite (nbind_ok _ _ _ _ _ Ha). split; [reflexivity|]. split; [done|].
  exists (raft_next (n_world n2)). by rewrite Hdb3, Hdb2.
Qed.

(** The principals after one row was written. *)
Lemma principals_committed nm p i db q :
  q ∈ principals (committed [BSet (AuthPrincipalKey nm) (VPrincipal p)] i db) →
  q = p ∨ ∃ k, k ≠ AuthPrincipalKey nm ∧ db !! k = Some (VPrincipal q) ∧ in_range AuthPrincipalBounds.1 (Some AuthPrincipalBounds.2) k.
Proof using Type.
  intros (k & Hk & Hr)%elem_of_principals. unfold committed in Hk. cbn [commit foldl apply_bop] in Hk.
  apply lookup_insert_Some in Hk as [[_ ?]|[_ Hk]]; [done|].
  apply lookup_insert_Some in Hk as [[_ [= ->]]|[Hne Hk]]; [by left|right; eauto].
Qed.
Lemma committed_principal nm p i db :
  committed [BSet (AuthPrincipalKey nm) (VPrincipal p)] i db !! AuthPrincipalKey nm = Some (VPrincipal p).
Proof using Type.
  unfold committed. cbn [commit foldl apply_bop]. rewrite lookup_insert_ne by (by intros [=]). apply lookup_insert_eq.
Qed.
Lemma in_principals_committed nm p i db : p ∈ principals (committed [BSet (AuthPrincipalKey nm) (VPrincipal p)] i db).
Proof using Type.
  apply elem_of_principals. exists (AuthPrincipalKey nm). split; [apply committed_principal|apply AuthPrincipalKey_range].
Qed.
Lemma new_principal_matches nm tg gs token salt now :
  salt ≠ [] → principalTokenMatches (new_principal nm tg gs token salt now) token = true.
Proof using Type.
  intros Hs. unfold principalTokenMatches. cbn [new_principal ap_Token at_Salt at_Hash].
  unfold saltedTokenHash. rewrite sha256_nonempty, bool_decide_eq_true_2 by done. by destruct salt.
Qed.

Lemma validate_name name tags grants nm tg gs :
  validatePrincipalInput name tags grants = Ok (nm, tg, gs) → TrimSpace name = nm ∧ nonempty nm = true.
Proof using Type.
  unfold validatePrincipalInput. cbv zeta. destruct (nonempty (TrimSpace name)) eqn:E; [|done].
  cbn [negb]. destruct (existsb _ _); [done|]. destruct (validateGrants grants); [|done].
  by intros [= <- _ _].
Qed.
End ops.

(** C9: the life of a token.  On a stable leader, creating a principal under a
    name not in use, when both draws of randomness succeed, answers a token and
    a record without its salt and hash.  If the token matches no principal
    already stored, then from that commit on it authorizes a request exactly
    when the principal's tags and validated grants allow every check of it (an
    administrator check when there is none), and once the principal is
    disabled it authorizes nothing.  The validated name, tags and grants are
    UTF-8: the commands are proposed as JSON. *)
Theorem token_lifecycle {T : Text} {PC : PayloadCodec} {PE : PolicyEngines} {W : World} {R : StableRaft}
    name tags grants nm tg gs raw w1 salt w2 n :
  (∀ c, auth_text c → portable (cmd_AuthPrincipal c)) → node_ok n →
  validatePrincipalInput name tags grants = Ok (nm, tg, gs) → principal_text nm tg gs →
  db_of n !! AuthPrincipalKey nm = None →
  rand_Read 32 n.(n_world) = (Ok raw, w1) → rand_Read 16 w1 = (Ok salt, w2) → salt ≠ [] →
  let token := bs "rota_" ++ b64_encode raw in
  (∀ q, q ∈ principals (db_of n) → principalTokenMatches q token = false) →
  ∃ p shown n1,
    CreateAuthPrincipal name tags grants n = Some (Ok (Some shown, token), n1) ∧
    (∀ t, shown.(ap_Token) = Some t → t.(at_Salt) = [] ∧ t.(at_Hash) = []) ∧
    p.(ap_Name) = nm ∧ p.(ap_Tags) = tg ∧ p.(ap_Grants) = gs ∧
    (∀ checks, (AuthorizeToken token checks (db_of n1)).(ad_Allowed) =
               forallb (principalAllows p) (effective checks)) ∧
    ∃ n2, SetAuthPrincipalDisabled name true n1 = Some (Ok (), n2) ∧
      ∀ checks, (AuthorizeToken token checks (db_of n2)).(ad_Allowed) = false.
Proof.
  intros Hport Hok Hv Htext Hfresh Hr1 Hr2 Hsalt token Hother.
  destruct (validate_name _ _ _ _ _ _ Hv) as [Hname Hnm].
  set (n0 := n_set_world w1 n).
  assert (Hok0 : node_ok n0).
  { apply node_ok_world; [|done]. pose proof (stable_rand 32 n.(n_world)) as Hs. by rewrite Hr1 in Hs. }
  assert (Hmint : mintAuthToken n = Some (Ok token, n0)).
  { unfold mintAuthToken, mbind, NM_bind, nworld, lift. by rewrite Hr1. }
  destruct (create_with_token Hport name tags grants nm tg gs token salt w2 n0 Hok0 Hv Htext Hfresh
    (token_not_blank _) Hr2 Hsalt) as (now & n1 & Hc & Hok1 & i & Hdb1).
  set (p := new_principal nm tg gs token salt now) in *.
  exists p, (redactPrincipal p), n1.
  split; [unfold CreateAuthPrincipal; by rewrite (nbind_ok _ _ _ _ _ Hmint)|].
  split; [by intros t [= <-]|]. split; [done|]. split; [done|]. split; [done|]. split.
  - intros checks. rewrite Hdb1, (authorize_unique _ token p).
    + rewrite decision_allowed. done.
    + apply token_not_blank.
    + apply in_principals_committed.
    + by apply new_principal_matches.
    + intros q [->|(k & _ & Hk & Hkr)]%principals_committed Hm; [done|].
      rewrite (Hother q) in Hm; [done|]. apply elem_of_principals. eauto.
  - destruct (disable_principal Hport name nm p n1 Hok1 Hname Hnm (proj1 Htext)) as (now2 & n2 & Hd & _ & j & Hdb2).
    { rewrite Hdb1. apply committed_principal. }
    exists n2. split; [done|]. intros checks. rewrite Hdb2. set (p2 := ap_set_UpdatedMs _ _).
    rewrite (authorize_unique _ token p2).
    + by rewrite decision_allowed.
    + apply token_not_blank.
    + apply in_principals_committed.
    + by apply (new_principal_matches nm tg gs).
    + intros q [->|(k & Hne & Hk & Hkr)]%principals_committed Hm; [done|].
      rewrite Hdb1 in Hk. unfold committed in Hk. cbn [commit foldl apply_bop] in Hk.
      apply lookup_insert_Some in Hk as [[_ ?]|[_ Hk]]; [done|].
      apply lookup_insert_Some in Hk as [[? _]|[_ Hk]]; [done|].
      rewrite (Hother q) in Hm; [done|]. apply elem_of_principals. eauto.
Qed.

(** ** Witness *)
(** Literal patterns: a text engine without metacharacters. *)
#[export] Instance demo_text : Text := {|
  regexp_ok _ := true;
  regexp_match p s := bool_decide (p = bs ".*") || bool_decide (p = s);
  ToLower s := s; denial_reason _ := bs "denied" |}.
Definition demo_auth_grant : AuthGrant := mkAuthGrant (bs "l") [] [AUTH_READ] [].

Lemma token_lifecycle_witness :
  ∃ p shown n1 token, CreateAuthPrincipal (bs "eve") [] [Some demo_auth_grant] (demo_node ∅ 5) = Some (Ok (Some shown, token), n1) ∧
    p.(ap_Name) = bs "eve" ∧
    ∀ checks, (AuthorizeToken token checks (db_of n1)).(ad_Allowed) = forallb (principalAllows p) (effective checks).
Proof.
  destruct (token_lifecycle (W := demo_world) (bs "eve") [] [Some demo_auth_grant] (bs "eve") []
    [mkAuthGrant (bs "l") (bs ".*") [AUTH_READ] []] (replicate 32 "r"%char) (mkdemo 5 1000)
    (replicate 16 "r"%char) (mkdemo 5 1000) (demo_node ∅ 5)) as (p & shown & n1 & Hc & _ & Hn & _ & _ & Ha & _).
  - intros c _. exact (demo_portable_auth c).
  - by vm_compute.
  - by vm_compute.
  - split; [by vm_compute|]. split; [constructor|]. repeat constructor; by vm_compute.
  - by vm_compute.
  - reflexivity.
  - reflexivity.
  - discriminate.
  - intros q (k & Hk & _)%elem_of_principals. by vm_compute in Hk.
  - exists p, shown, n1, (bs "rota_" ++ b64_encode (replicate 32 "r"%char)). split; [exact Hc|]. split; [exact Hn|exact Ha].
Defined.
