(* ===== verification/Advance.v ===== *)
(** * The node's operations only advance the replicated state

    Whatever an operation does to the replicated state it does by applying log
    entries: [later] orders the states by the log between them, and every
    operation of the node, remote call, stream event and background round moves
    forward in that order.  What no log can undo, no sequence of operations
    can. *)

From S2P Require Import Prelude GoStrings Keys Data Store Float Publish Workflow Broker Control Auth Timers Fsm FsmProps Commands Fairness Meter Policy Scheduler Hash Node NodeControl NodeOps NodeStats NodeWorkflow NodeAuth Observatory Transport Work Http.

Section advance.
Context {PC : PayloadCodec} {PE : PolicyEngines} {W : World} {T : Text} {HB : HttpBodies}.
Implicit Types (n : Node) (f : FSM).

(** [f'] is [f] after more of the log. *)
Definition later f f' : Prop := ∃ log rs, applyLog unmarshal_cmd f log = Some (rs, f').
#[export] Instance later_preorder : PreOrder later.
Proof.
  split.
  - intros f. by exists [], [].
  - intros f g h (l1 & rs1 & E1) (l2 & rs2 & E2). exists (l1 ++ l2), (rs1 ++ rs2).
    by eapply applyLog_app.
Qed.

(** An operation that moves the state machine only forward. *)
Definition advances {A} (m : NM A) : Prop :=
  ∀ n r n', m n = Some (r, n') → later n.(n_fsm) n'.(n_fsm).

Lemma advances_bind {A B : Type} (m : NM A) (f : A → NM B) :
  advances m → (∀ x, advances (f x)) → advances (m ≫= f).
Proof.
  intros Hm Hf n r n'. unfold mbind, NM_bind.
  destruct (m n) as [[[x|e] n1]|] eqn:E; [|by intros [= <- <-]; eapply Hm|done].
  intros Ef. etrans; [by eapply Hm|by eapply Hf].
Qed.
Lemma advances_ret {A} (x : A) : advances (mret x).
Proof. by intros n r n' [= <- <-]. Qed.
Lemma advances_fail {A} e : advances (@nfail _ _ A e).
Proof. by intros n r n' [= <- <-]. Qed.
Lemma advances_crash {A} : advances (@ncrash _ _ A).
Proof. by intros n r n'. Qed.
Lemma advances_nget {A} (f : Node → A) : advances (nget f).
Proof. by intros n r n' [= <- <-]. Qed.
Lemma advances_nmod (g : Node → Node) : (∀ n, (g n).(n_fsm) = n.(n_fsm)) → advances (nmod g).
Proof. intros Hg n r n' [= <- <-]. by rewrite Hg. Qed.
Lemma advances_lift {A} (r : result A) : advances (lift r).
Proof. by intros n r' n' [= <- <-]. Qed.
Lemma advances_nworld {A} (g : world → A * world) : advances (nworld g).
Proof. intros n r n'. unfold nworld. destruct (g _) as [x w]. by intros [= <- <-]. Qed.
Lemma advances_attempt {A} (m : NM A) : advances m → advances (attempt m).
Proof.
  intros Hm n r n'. unfold attempt. destruct (m n) as [[r1 n1]|] eqn:E; [|done].
  intros [= <- <-]. by eapply Hm.
Qed.
Lemma advances_commitLogs logs : advances (commitLogs logs).
Proof.
  intros n r n'. unfold commitLogs. destruct (applyLog _ _ _) as [[rs f]|] eqn:E; [|done].
  intros [= <- <-]. by exists logs, rs.
Qed.
(** A read-modify-write of leader-local tables. *)
Lemma advances_local {A} (m : NM A) : (∀ n r n', m n = Some (r, n') → n'.(n_fsm) = n.(n_fsm)) → advances m.
Proof. intros H n r n' E. by rewrite (H _ _ _ E). Qed.
End advance.

Create HintDb rota_advances discriminated.
#[export] Hint Resolve advances_ret advances_fail advances_crash advances_nget advances_lift
  advances_nworld advances_commitLogs : rota_advances.

Ltac head_of t := match t with ?f _ => head_of f | _ => t end.
(** Walk an operation, unfolding what has no lemma yet. *)
Ltac advances :=
  repeat first
    [ solve [auto 2 with rota_advances]
    | apply advances_nmod; done
    | apply advances_bind; [|intros ?]
    | apply advances_attempt
    | match goal with
      | |- advances (match ?x with _ => _ end) => destruct x
      | |- advances (let _ := _ in _) => cbv zeta
      | |- advances (nwhen _ _) => unfold nwhen
      | |- advances ?m => let h := head_of m in unfold h
      end ].

Section ops.
Context {PC : PayloadCodec} {PE : PolicyEngines} {W : World} {T : Text} {HB : HttpBodies}.
Implicit Types (n : Node).

(** ** Loops and read-modify-writes *)
Lemma advances_node_Pick lane active now : advances (node_Pick lane active now).
Proof.
  apply advances_local. intros n r n'. unfold node_Pick. destruct (Pick _ _ _ _) as [[[[gid fb] ok] s]|]; [|done].
  by intros [= <- <-].
Qed.
Lemma advances_allowLimited lane : advances (allowLimited lane).
Proof.
  apply advances_local. intros n r n'. unfold allowLimited. destruct (_ !! _) as [lim|]; [|by intros [= <- <-]].
  destruct (limiter_Allow _ _) as [[ok lim'] w]. by intros [= <- <-].
Qed.
Lemma advances_apply cmd : advances (apply cmd).
Proof. advances. Qed.
#[local] Hint Resolve advances_node_Pick advances_allowLimited advances_apply : rota_advances.
Lemma advances_observe name : advances (observe name).
Proof. advances. Qed.
Lemma advances_meter_inc f : advances (meter_inc f).
Proof. advances. Qed.
#[local] Hint Resolve advances_observe advances_meter_inc : rota_advances.
Lemma advances_publishCmds reqs : advances (publishCmds reqs).
Proof. induction reqs; cbn [publishCmds]; advances. Qed.
Lemma advances_countItems items reqs : advances (countItems items reqs).
Proof. revert reqs. induction items; intros []; cbn [countItems]; advances. Qed.
Lemma advances_publishReqsFromSpecs ms : advances (publishReqsFromSpecs ms).
Proof. induction ms; cbn [publishReqsFromSpecs]; advances. Qed.
Lemma advances_translateAll cmds tenant : advances (translateAll cmds tenant).
Proof. induction cmds; cbn [translateAll]; advances. Qed.
Lemma advances_fireAll es : advances (fireAll es).
Proof. induction es; cbn [fireAll]; advances. Qed.
Lemma advances_reapAll ts : advances (reapAll ts).
Proof. induction ts as [|[l g] ts IH]; cbn [reapAll]; advances. Qed.
#[local] Hint Resolve advances_publishCmds advances_countItems advances_publishReqsFromSpecs
  advances_translateAll advances_fireAll advances_reapAll : rota_advances.

(** ** Settling and leasing *)
Lemma advances_node_Ack lid : advances (node_Ack lid).
Proof. advances. Qed.
Lemma advances_node_Nack lid mode d meta : advances (node_Nack lid mode d meta).
Proof. advances. Qed.
Lemma advances_node_Extend lid ttl : advances (node_Extend lid ttl).
Proof. advances. Qed.
Lemma advances_Complete tok ok meta d : advances (Complete tok ok meta d).
Proof. advances. Qed.
Lemma advances_LeaseOneFiltered lane who allow deny : advances (LeaseOneFiltered lane who allow deny).
Proof. advances. Qed.
#[local] Hint Resolve advances_node_Ack advances_node_Nack advances_node_Extend advances_Complete
  advances_LeaseOneFiltered : rota_advances.
Lemma advances_CompleteWorkflowTask run epoch seq cs cmds : advances (CompleteWorkflowTask run epoch seq cs cmds).
Proof. advances. Qed.
Lemma advances_CompleteActivityTask run sid ok res : advances (CompleteActivityTask run sid ok res).
Proof. advances. Qed.
#[local] Hint Resolve advances_CompleteWorkflowTask advances_CompleteActivityTask : rota_advances.

(** ** Every entry point *)
Lemma advances_handle req : advances (handle req).
Proof. destruct req; cbn [handle]; advances. Qed.
#[local] Hint Resolve advances_handle : rota_advances.
Lemma advances_unaryCall md req : advances (unaryCall md req).
Proof. advances. Qed.
Lemma advances_deliver fuel net i s : advances (deliver fuel net i s).
Proof. revert i s. induction fuel; intros i s; cbn [deliver]; advances. Qed.
#[local] Hint Resolve advances_deliver : rota_advances.
Lemma advances_workStep md ev s : advances (workStep md ev s).
Proof. destruct ev; cbn [workStep]; advances. Qed.
Lemma advances_httpHandler r : advances (httpHandler r).
Proof. advances. Qed.
Lemma advances_ticks : advances chronosTick ∧ advances reapTick.
Proof. split; advances. Qed.
Lemma advances_workers :
  (∀ ty who d, advances (workflowWorkerRound ty who d)) ∧ (∀ ty who h, advances (activityWorkerRound ty who h)).
Proof. split; intros; advances. Qed.
End ops.
