(* ===== verification/NodeLease.v ===== *)
(** * Leasing through the node, on a stable leader

    [LeaseOneFiltered] puts the pieces together: the policy cache, the lane
    gate, the scan of the lane's groups, the scheduler's pick, the proposal and
    the completion token.  On a stable leader an open lane with a leasable group
    always yields a message. *)

From S2P Require Import Prelude GoStrings Keys Data Store KeysProps Backoff Publish Workflow Broker Control Auth Timers Fsm Commands Reason Structure Accounting AccountingOps AccountingLog BrokerProps Float Fairness Meter Policy Scheduler SchedulerProps Hash Node NodeControl NodeOps NodeProps Demo NodeDemo.

(** ** The groups of a lane *)
Definition info_of (gm : GroupMeta) : GroupInfo :=
  mkGroupInfo gm.(gm_GroupId) gm.(gm_ReadyCount) gm.(gm_InflightCount) gm.(gm_Weight) gm.(gm_Paused).

Lemma decodeGroups_ok (rows : list (bytes * value)) (gms : list GroupMeta) :
  rows.*2 = VGroupMeta <$> gms → decodeGroups rows = Ok (info_of <$> gms).
Proof.
  revert gms. induction rows as [|[k v] rows IH]; intros [|gm gms] E; try done.
  rewrite !fmap_cons in E. cbn [snd] in E. injection E as -> E. cbn [decodeGroups row_out].
  by rewrite (IH gms E).
Qed.

Lemma rows_metas (rows : list (bytes * value)) :
  Forall (λ kv, ∃ gm, kv.2 = VGroupMeta gm) rows → ∃ gms, rows.*2 = VGroupMeta <$> gms.
Proof.
  induction 1 as [|[k v] rows [gm Hv] _ [gms IH]]; [by exists []|]. exists (gm :: gms).
  rewrite !fmap_cons, IH. simpl in Hv. by rewrite Hv.
Qed.

Lemma ListGroups_ok db lane : rows_wf db → short lane →
  ∃ gms, ListGroups lane db = Ok (info_of <$> gms) ∧
    ∀ gm, gm ∈ gms ↔ short gm.(gm_GroupId) ∧ gm.(gm_Lane) = lane ∧
                     GetProto (GroupMetaKey lane gm.(gm_GroupId)) db = Some gm.
Proof.
  intros Hwf Hl. unfold ListGroups. cbv zeta.
  set (rows := NewIter (GroupMetaLanePrefix lane) (PrefixEnd (GroupMetaLanePrefix lane)) db).
  assert (Hrow : ∀ k v, (k, v) ∈ rows ↔ ∃ gm, v = VGroupMeta gm ∧ k = GroupMetaKey lane gm.(gm_GroupId) ∧
      short gm.(gm_GroupId) ∧ gm.(gm_Lane) = lane ∧ GetProto k db = Some gm).
  { intros k v. unfold rows. rewrite elem_of_NewIter. split.
    - intros [Hk Hr]. assert (Ht : tag k = Some tagGroupMeta) by (by apply PrefixEnd_range in Hr as [x ->]).
      destruct (Hwf _ _ Hk) as [Hty Hw]. destruct k as [|t k]; [done|]. injection Ht as ->.
      destruct v as [| |gm| | | | | | | |]; try (by destruct Hty). destruct Hw as (E & Hgl & Hgg).
      rewrite E in Hr. change (GroupMetaKey _ _) with (row_key (RowGroupMeta gm.(gm_Lane) gm.(gm_GroupId))) in Hr.
      apply GroupMetaLanePrefix_rows in Hr as [g' Er]; [|done..]. injection Er as Hlane _.
      exists gm. rewrite <-Hlane. split_and!; try done. by apply GetProto_row.
    - intros (gm & -> & -> & Hg & Hgl & E). split; [by apply GetProto_row in E|].
      apply PrefixEnd_range. exists (lp gm.(gm_GroupId)). done. }
  destruct (rows_metas rows) as [gms Eg].
  { apply Forall_forall. intros [k v] Hin. apply Hrow in Hin as (gm & -> & _). eauto. }
  exists gms. split; [by apply decodeGroups_ok|]. intros gm.
  assert (Hin : gm ∈ gms ↔ ∃ k, (k, VGroupMeta gm) ∈ rows).
  { transitivity (VGroupMeta gm ∈ rows.*2).
    - rewrite Eg, list_elem_of_fmap. split; [eauto|]. by intros (x & [= ->] & ?).
    - rewrite list_elem_of_fmap. split; [intros ([k v] & [= ->] & ?); eauto|]. intros [k ?]. by exists (k, VGroupMeta gm). }
  rewrite Hin. split.
  - intros [k Hk]. apply Hrow in Hk as (gm' & [= <-] & -> & ? & ? & ?). done.
  - intros (Hs & Hlane & E). exists (GroupMetaKey lane gm.(gm_GroupId)). apply Hrow. by exists gm.
Qed.

(** ** The steps before the proposal *)
Section lease.
Context {PC : PayloadCodec} {PE : PolicyEngines} {W : World} {R : StableRaft}.
Implicit Types (n : Node) (db : store).

(** [n'] is [n] with other policies, metrics or ring. *)
Definition same_core n n' : Prop :=
  n'.(n_fsm) = n.(n_fsm) ∧ n'.(n_cfg) = n.(n_cfg) ∧ n'.(n_paused) = n.(n_paused) ∧
  n'.(n_limiters) = n.(n_limiters) ∧ n'.(n_loadedLaneCfg) = n.(n_loadedLaneCfg) ∧
  raft_next n'.(n_world) = raft_next n.(n_world).

Lemma same_core_refl n : same_core n n.
Proof. done. Qed.
Lemma same_core_trans n1 n2 n3 : same_core n1 n2 → same_core n2 n3 → same_core n1 n3.
Proof. unfold same_core. intuition congruence. Qed.
Lemma same_core_ok n n' : same_core n n' → node_ok n → node_ok n' ∧ db_of n' = db_of n.
Proof. unfold same_core, node_ok, db_of. intros (-> & _ & _ & _ & _ & ->). done. Qed.

Lemma ensurePolicy_core lane n : ∃ n', ensurePolicy lane n = Some (Ok (), n') ∧ same_core n n'.
Proof.
  unfold ensurePolicy. rewrite nbind_store, nbind_get.
  destruct (GetRaw _ _) as [raw|]; [|unfold nwhen; destruct (negb _); eexists; by split].
  destruct (unmarshal_binding raw) as [b|]; [|eexists; by split].
  destruct (_ =? _); [eexists; by split|]. destruct (Compile b); [|eexists; by split].
  eexists. split; [reflexivity|]. done.
Qed.

(** No policy the lane may have is a module that succeeds without a value:
    neither the cached one nor the one the stored binding compiles to. *)
Definition policy_answers (lane : bytes) n : Prop :=
  (∀ c, (lane_of lane n.(n_sched)).(ls_pol) = Some c → answers c) ∧
  (∀ raw b c, GetRaw (PolicyKey lane) (db_of n) = Some raw → unmarshal_binding raw = Some b →
     Compile b = Ok c → answers c).
Lemma ensurePolicy_answers lane n n' : policy_answers lane n → ensurePolicy lane n = Some (Ok (), n') →
  ∀ c, (lane_of lane n'.(n_sched)).(ls_pol) = Some c → answers c.
Proof.
  intros [Hc Hb]. unfold ensurePolicy. rewrite nbind_store, nbind_get. unfold db_of in Hb.
  destruct (GetRaw _ _) as [raw|] eqn:Er.
  2:{ unfold nwhen. destruct (negb _); intros [= <-]; [|done]. simpl. unfold lane_of, ClearPolicy.
      by rewrite lookup_insert_eq. }
  destruct (unmarshal_binding raw) as [b|] eqn:Eb; [|by intros [= <-]].
  destruct (_ =? _); [by intros [= <-]|]. destruct (Compile b) as [c|e] eqn:Ec; [|by intros [= <-]].
  intros [= <-]. simpl. unfold lane_of, SetPolicy. rewrite lookup_insert_eq. intros c' [= <-].
  by eapply Hb.
Qed.

(** No pause, no rate limit, configured or loaded. *)
Definition open_lane (lane : bytes) n : Prop :=
  db_of n !! LaneConfigKey lane = None ∧ n.(n_loadedLaneCfg) !! lane = None ∧
  n.(n_paused) !! lane = None ∧ n.(n_limiters) !! lane = None.
Lemma open_lane_core lane n n' : same_core n n' → open_lane lane n → open_lane lane n'.
Proof. unfold same_core, open_lane, db_of. intros (-> & _ & -> & -> & -> & _). done. Qed.
Lemma laneGate_open lane n : open_lane lane n → laneGate lane n = Some (Ok true, n).
Proof.
  intros (H1 & H2 & H3 & H4). unfold db_of in H1. unfold laneGate, ensureLaneConfig.
  assert (He : ensureLaneConfig lane n = Some (Ok (), n)).
  { unfold ensureLaneConfig. rewrite nbind_get. unfold id. rewrite H1, H2. done. }
  rewrite (nbind_ok _ _ _ _ _ He), nbind_get, H3. unfold allowLimited. by rewrite H4.
Qed.

Lemma nowMs_core n : ∃ t n', nowMs n = Some (Ok t, n') ∧ same_core n n' ∧ t + 1 < two64 ∧
  n'.(n_sched) = n.(n_sched).
Proof.
  unfold nowMs, nworld. pose proof (stable_clock n.(n_world)) as Hc. pose proof (clock_read n.(n_world)) as [_ Hb].
  destruct (now_ms (n_world n)) as [t w]. eexists t, _. split; [reflexivity|]. by split_and!.
Qed.
Lemma node_Pick_core lane active now n r n' : node_Pick lane active now n = Some (r, n') → same_core n n'.
Proof. unfold node_Pick. destruct (Pick _ _ _ _) as [[[[g fb] ok] s]|]; [|done]. by intros [= _ <-]. Qed.
Lemma leaseCmd_core lane gid cons n : ∃ c n', leaseCmd lane gid cons n = Some (Ok c, n') ∧ same_core n n' ∧
  c.(l_Lane) = lane ∧ c.(l_GroupID) = gid ∧ c.(l_ConsumerID) = cons.
Proof.
  unfold leaseCmd. rewrite nbind_get. destruct (nowMs_core n) as (t & n1 & E1 & H1 & _).
  rewrite (nbind_ok _ _ _ _ _ E1). destruct (0 <? _).
  - destruct (nowMs_core n1) as (t2 & n2 & E2 & H2 & _). eexists _, n2.
    split; [|split; [by eapply same_core_trans|]].
    + unfold mbind, NM_bind. rewrite E2. reflexivity.
    + done.
  - eexists _, n1. split; [reflexivity|]. done.
Qed.
Lemma recordServed_core lane g n : ∃ n', recordServed lane g n = Some (Ok (), n') ∧ same_core n n'.
Proof.
  unfold recordServed. destruct (nowMs_core n) as (t & n1 & E1 & H1 & _).
  rewrite (nbind_ok _ _ _ _ _ E1). eexists. split; [reflexivity|]. done.
Qed.

(** ** Tokens *)
Hypothesis portable_token : ∀ c, portable (cmd_IssueToken c).
(** The names of a lease command are UTF-8, the strings JSON keeps. *)
Definition lease_text (c : LeaseCmd) : Prop :=
  ValidString c.(l_Lane) ∧ ValidString c.(l_GroupID) ∧ ValidString c.(l_ConsumerID).
Hypothesis portable_lease : ∀ c, lease_text c → portable (cmd_Lease c).

(** The rows a completion token leaves alone. *)
Definition but_tokens db db' : Prop := ∀ k, tag k = Some tagMessage ∨ tag k = Some tagGroupMeta → db' !! k = db !! k.

Lemma bindToken_ok lid hash n (ls : Lease) :
  node_ok n → GetProto (LeaseKey lid) (db_of n) = Some ls →
  ∃ n', bindToken lid hash n = Some (Ok (), n') ∧ node_ok n' ∧ but_tokens (db_of n) (db_of n').
Proof using portable_token.
  intros Hok Hls.
  destruct (apply_commits (cmd_IssueToken (mkIssueTokenCmd lid hash)) n (RAck true)
    [BSet (LeaseKey lid) (VLease (ls_set_CompletionTokenHash hash ls)); BSet (TokenKey hash) (VRaw (u64b lid))])
    as (n' & Ha & Hok' & Hdb & _); [done|done| |].
  - rewrite dispatch_IssueToken. unfold applyIssueToken, mbind, M_bind, gets. cbn [it_LeaseID]. by rewrite Hls.
  - exists n'. unfold bindToken. rewrite (nbind_ok _ _ _ _ _ Ha). split; [done|]. split; [done|].
    intros k Hk. rewrite Hdb. unfold committed. cbn [commit foldl apply_bop].
    rewrite !lookup_insert_ne; [done|..]; intros <-; by destruct Hk.
Qed.

Lemma deliverToken_ok lr n (ls : Lease) :
  node_ok n → GetProto (LeaseKey lr.(lr_LeaseID)) (db_of n) = Some ls →
  ∃ r n', deliverToken lr n = Some (r, n') ∧ node_ok n' ∧ but_tokens (db_of n) (db_of n') ∧
    ((∃ tok, r = Ok (lr_set_ExternalToken tok lr)) ∨ (lr.(lr_IssueToken) = true ∧ ∃ e, r = Err e)).
Proof using portable_token.
  intros Hok Hls. assert (Hsame : lr = lr_set_ExternalToken lr.(lr_ExternalToken) lr) by (by destruct lr).
  unfold deliverToken. destruct (nonempty _).
  { destruct (bindToken_ok lr.(lr_LeaseID) (sha256 lr.(lr_ExternalToken)) n ls Hok Hls) as (n' & E & Hok' & Hb).
    unfold registerToken. rewrite (nbind_ok _ _ _ _ _ E). eexists _, n'. split; [reflexivity|].
    split_and!; [done|done|].
    left. exists lr.(lr_ExternalToken). by rewrite <-Hsame. }
  destruct (lr_IssueToken lr) eqn:Hi.
  2:{ eexists _, n. split; [reflexivity|]. split_and!; [done|done|].
    left. exists lr.(lr_ExternalToken). by rewrite <-Hsame. }
  unfold IssueToken, nworld. pose proof (stable_rand 16 n.(n_world)) as Hr.
  destruct (rand_Read 16 (n_world n)) as [[tok|e] w] eqn:Er.
  - set (n1 := n_set_world w n). assert (Hok1 : node_ok n1) by (unfold node_ok in *; simpl in *; by rewrite Hr).
    destruct (bindToken_ok lr.(lr_LeaseID) (sha256 tok) n1 ls Hok1 Hls) as (n' & E & Hok' & Hb).
    eexists _, n'. split; [|split; [exact Hok'|split; [exact Hb|left; by exists tok]]].
    unfold mbind, NM_bind, lift. rewrite Er. fold n1. by rewrite E.
  - set (n1 := n_set_world w n). assert (Hok1 : node_ok n1) by (unfold node_ok in *; simpl in *; by rewrite Hr).
    eexists _, n1. split; [|split; [exact Hok1|split; [done|right; eauto]]].
    unfold mbind, NM_bind, lift. by rewrite Er.
Qed.

(** ** Leasing *)

(** A group the call may lease from. *)
Definition leasable_group (lane : bytes) (allow deny : list bytes) db (gm : GroupMeta) : Prop :=
  GetProto (GroupMetaKey lane gm.(gm_GroupId)) db = Some gm ∧ short gm.(gm_GroupId) ∧ gm.(gm_Lane) = lane ∧
  gm.(gm_Paused) = false ∧ 0 < gm.(gm_ReadyCount) ∧
  (allow = [] ∨ gm.(gm_GroupId) ∈ allow) ∧ gm.(gm_GroupId) ∉ deny.

Lemma leaseCandidate_spec allow deny gm :
  leaseCandidate allow deny (info_of gm) = true ↔
  gm.(gm_Paused) = false ∧ 0 < gm.(gm_ReadyCount) ∧
  (allow = [] ∨ gm.(gm_GroupId) ∈ allow) ∧ gm.(gm_GroupId) ∉ deny.
Proof using Type.
  unfold leaseCandidate, info_of. cbn [gi_Ready gi_Paused gi_ID].
  rewrite !andb_true_iff, negb_true_iff, orb_false_iff, orb_true_iff, negb_true_iff, N.eqb_neq,
    !bool_decide_eq_true, bool_decide_eq_false. intuition lia.
Qed.

Lemma leasable_eligible k lane allow deny db gm :
  Inv k db → (Z.of_N k < 2 ^ 63)%Z → short lane → leasable_group lane allow deny db gm →
  eligible (groupStat (info_of gm)).
Proof using Type.
  intros H Hk Hl (E & Hg & _ & _ & Hr & _).
  pose proof (inv_group _ _ H lane gm.(gm_GroupId) Hl Hg) as Ho. unfold group_ok in Ho. rewrite E in Ho.
  destruct Ho as (_ & _ & _ & Ht & Hs & Hn & _). unfold eligible, groupStat, info_of. cbn [gs_Backlog gi_Ready].
  rewrite int_of_u64_small; lia.
Qed.

Lemma activeGroups_spec k lane allow deny db gms g :
  Inv k db → (Z.of_N k < 2 ^ 63)%Z → short lane →
  (∀ gm, gm ∈ gms ↔ short gm.(gm_GroupId) ∧ gm.(gm_Lane) = lane ∧
                     GetProto (GroupMetaKey lane gm.(gm_GroupId)) db = Some gm) →
  g ∈ activeGroups allow deny (info_of <$> gms) ↔
  ∃ gm, leasable_group lane allow deny db gm ∧ g = groupStat (info_of gm) ∧ eligible g.
Proof using Type.
  intros H Hk Hl Hgms. unfold activeGroups. rewrite list_elem_of_fmap. split.
  - intros (i & -> & Hi). apply list_elem_of_filter in Hi as [Hc Hi].
    apply list_elem_of_fmap in Hi as (gm & -> & Hgm). apply Hgms in Hgm as (Hg & Hlane & E).
    apply leaseCandidate_spec in Hc as (H1 & H2 & H3 & H4).
    exists gm. split; [done|]. split; [done|].
    eapply leasable_eligible; [exact H|exact Hk|exact Hl|by split_and!].
  - intros (gm & (E & Hg & Hlane & H1 & H2 & H3 & H4) & -> & _). exists (info_of gm). split; [done|].
    apply list_elem_of_filter. split; [by apply leaseCandidate_spec|].
    apply list_elem_of_fmap. exists gm. split; [done|]. by apply Hgms.
Qed.

(** The proposal for a leasable group. *)
Lemma propose_lease k c n (gm : GroupMeta) :
  lease_text c → Inv k (db_of n) → k + 1 < two64 → node_ok n → short c.(l_Lane) → short c.(l_GroupID) →
  GetProto (GroupMetaKey c.(l_Lane) c.(l_GroupID)) (db_of n) = Some gm → 0 < gm.(gm_ReadyCount) →
  ∃ m n', let id := next_lease (db_of n) in
    GetProto (MessageKey c.(l_Lane) c.(l_GroupID) m.(m_MsgId)) (db_of n) = Some m ∧ m.(m_State) = READY ∧
    (∀ i mi, u64 i → GetProto (MessageKey c.(l_Lane) c.(l_GroupID) i) (db_of n) = Some mi →
       mi.(m_State) = READY → m.(m_MsgId) ≤ i) ∧
    apply (cmd_Lease c) n = Some (Ok (RLease (mkLeaseResult id m.(m_MsgId) c.(l_Lane) c.(l_GroupID)
      m.(m_Payload) m.(m_Headers) m.(m_Attempt) c.(l_DeadlineMs) false m.(m_IssueToken) m.(m_ExternalToken))), n') ∧
    node_ok n' ∧ is_Some (GetProto (A:=Lease) (LeaseKey id) (db_of n')) ∧
    GetProto (MessageKey c.(l_Lane) c.(l_GroupID) m.(m_MsgId)) (db_of n') =
      Some (m_set_Epoch (incr32 m.(m_Epoch)) (m_set_CurLease id (m_set_State LEASED m))).
Proof using portable_lease.
  intros Htext H Hk Hok Hl Hg Eg Hr. destruct (applyLease_grants k c (db_of n) H Hk Hl Hg) as (r & b & E & _ & HG).
  unfold loadGroupMeta in HG. rewrite Eg in HG.
  destruct (HG Hr) as (m & m' & H1 & H2 & H3 & Er & _ & H5 & H6 & -> & _).
  destruct (apply_commits (cmd_Lease c) n r b Hok (portable_lease c Htext)) as (n' & Ha & Hok' & Hdb & _).
  { rewrite dispatch_Lease, E. reflexivity. }
  subst r. exists m, n'. cbv zeta. split_and!; try done.
  - rewrite Hdb. unfold committed. rewrite GetProto_insert_ne by (by intros [=]). rewrite H5. eauto.
  - rewrite Hdb. unfold committed. by rewrite GetProto_insert_ne by (by intros [=]).
Qed.

(** What the caller of a lease gets for the message [m]: the message with its
    token, or an error when a fresh token could not be drawn. *)
Definition granted (id : N) (lane : bytes) (deadline : N) (m : Message) (r : result (option LeaseResult)) : Prop :=
  (∃ tok, r = Ok (Some (mkLeaseResult id m.(m_MsgId) lane m.(m_GroupId) m.(m_Payload) m.(m_Headers)
                          m.(m_Attempt) deadline false m.(m_IssueToken) tok))) ∨
  (m.(m_IssueToken) = true ∧ ∃ e, r = Err e).

Lemma lease_delivers k lane cons allow deny n :
  Inv k (db_of n) → (Z.of_N k + 1 < 2 ^ 63)%Z → node_ok n → short lane → open_lane lane n →
  policy_answers lane n → ValidString lane → ValidString cons →
  (∀ gm, leasable_group lane allow deny (db_of n) gm → ValidString gm.(gm_GroupId)) →
  (∃ gm, leasable_group lane allow deny (db_of n) gm) →
  ∃ gm m deadline r n', leasable_group lane allow deny (db_of n) gm ∧
    GetProto (MessageKey lane gm.(gm_GroupId) m.(m_MsgId)) (db_of n) = Some m ∧ m.(m_State) = READY ∧
    (∀ i mi, u64 i → GetProto (MessageKey lane gm.(gm_GroupId) i) (db_of n) = Some mi →
       mi.(m_State) = READY → m.(m_MsgId) ≤ i) ∧
    LeaseOneFiltered lane cons allow deny n = Some (r, n') ∧ node_ok n' ∧
    granted (next_lease (db_of n)) lane deadline m r ∧
    GetProto (MessageKey lane gm.(gm_GroupId) m.(m_MsgId)) (db_of n') =
      Some (m_set_Epoch (incr32 m.(m_Epoch)) (m_set_CurLease (next_lease (db_of n)) (m_set_State LEASED m))).
Proof using portable_lease portable_token.
  intros H Hk Hok Hl Hopen Hpol Hvl Hvc Hvg (gm0 & Hgm0). assert (Hk2 : k + 1 < two64) by (unfold two64; lia).
  unfold LeaseOneFiltered.
  destruct (ensurePolicy_core lane n) as (n1 & E1 & C1). rewrite (nbind_ok _ _ _ _ _ E1).
  pose proof (ensurePolicy_answers lane n n1 Hpol E1) as Hans.
  destruct (same_core_ok n n1 C1 Hok) as [Hok1 Hdb1].
  rewrite (nbind_ok _ _ _ _ _ (laneGate_open lane n1 (open_lane_core _ _ _ C1 Hopen))). cbn [negb].
  rewrite nbind_store. change (fsm_s (n_fsm n1)) with (db_of n1). rewrite Hdb1.
  destruct (ListGroups_ok (db_of n) lane (inv_rows _ _ H) Hl) as (gms & Eg & Hgms). rewrite Eg.
  unfold lift at 1. rewrite (nbind_ok _ _ n1 _ n1 eq_refl). cbv zeta.
  set (active := activeGroups allow deny (info_of <$> gms)).
  assert (Hact : ∀ g, g ∈ active ↔ ∃ gm, leasable_group lane allow deny (db_of n) gm ∧ g = groupStat (info_of gm) ∧ eligible g).
  { intros g. eapply activeGroups_spec; [exact H|lia|done|done]. }
  assert (Hg0 : groupStat (info_of gm0) ∈ active).
  { apply Hact. exists gm0. split; [done|]. split; [done|]. eapply leasable_eligible; [exact H|lia|done|done]. }
  destruct (Nat.eqb_spec (length active) 0) as [Hz|_].
  { apply nil_length_inv in Hz. rewrite Hz in Hg0. by apply elem_of_nil in Hg0. }
  destruct (nowMs_core n1) as (now & n2 & E2 & C2 & _ & Hsc). rewrite (nbind_ok _ _ _ _ _ E2).
  destruct (Pick lane active (int_of_u64 now) (n_sched n2)) as [[[[gid fb] ok] s']|] eqn:Hp.
  2:{ apply Pick_None in Hp as (c & Hc & _ & Hs). rewrite Hsc in Hc.
      by apply (answers_not_silent c _ (Hans c Hc)) in Hs. }
  destruct (pick_serves lane active (int_of_u64 now) (n_sched n2) gid fb ok s' Hp) as [Hex Hin].
  assert (ok = true) as ->.
  { apply Hex. exists (groupStat (info_of gm0)). split; [done|]. eapply leasable_eligible; [exact H|lia|done|done]. }
  destruct (Hin eq_refl) as (g & Hg & Helig & Hid). apply Hact in Hg as (gm & Hgm & -> & _). cbn in Hid. subst gid.
  assert (E3 : node_Pick lane active now n2 = Some (Ok (gm_GroupId gm, fb, true), n_set_sched s' n2)).
  { unfold node_Pick. by rewrite Hp. }
  rewrite (nbind_ok _ _ _ _ _ E3). cbn [negb].
  set (n3 := n_set_sched s' n2).
  assert (Hobs : ∃ n4, nwhen fb (observe (bs "policy_faults")) n3 = Some (Ok (), n4) ∧ same_core n3 n4).
  { unfold nwhen. destruct fb; eexists; (split; [reflexivity|done]). }
  destruct Hobs as (n4 & E4 & C4). rewrite (nbind_ok _ _ _ _ _ E4).
  destruct (leaseCmd_core lane (gm_GroupId gm) cons n4) as (c & n5 & E5 & C5 & Hcl & Hcg & Hcc).
  rewrite (nbind_ok _ _ _ _ _ E5).
  assert (C : same_core n1 n5).
  { eapply same_core_trans; [exact C2|]. eapply (same_core_trans _ n3); [done|]. by eapply same_core_trans. }
  destruct (same_core_ok n1 n5 C Hok1) as [Hok5 Hdb5]. rewrite Hdb1 in Hdb5.
  pose proof Hgm as (Egm & Hsg & Hlane & _ & Hpos & _).
  destruct (propose_lease k c n5 gm) as (m & n6 & Hm & Hst & Hlow & Ha & Hok6 & [ls Hls] & Hm6);
    [unfold lease_text; rewrite Hcl, Hcg, Hcc; by auto|rewrite ?Hdb5, ?Hcl, ?Hcg; try done..|].
  cbv zeta in Hm, Hst, Hlow, Ha, Hls, Hm6. rewrite Hdb5, ?Hcl, ?Hcg in *.
  rewrite (nbind_ok _ _ _ _ _ Ha). cbn [lr_Empty lr_GroupID].
  unfold observe, meter_inc. rewrite !nbind_mod.
  match goal with |- context [recordServed _ _ ≫= _] => idtac end.
  match goal with |- context [(recordServed _ _ ≫= ?f) ?n0] => set (n7 := n0); set (rest := f) end.
  assert (C7 : same_core n6 n7) by done.
  destruct (recordServed_core lane (gm_GroupId gm) n7) as (n8 & E8 & C8). rewrite (nbind_ok _ _ _ _ _ E8).
  destruct (same_core_ok n6 n8 (same_core_trans _ _ _ C7 C8) Hok6) as [Hok8 Hdb8]. rewrite <-Hdb8 in Hls, Hm6.
  unfold rest. set (lr := mkLeaseResult _ _ _ _ _ _ _ _ _ _ _).
  destruct (deliverToken_ok lr n8 ls Hok8 Hls) as (r & n9 & E9 & Hok9 & Hb9 & Hr).
  assert (Hmg : m.(m_GroupId) = gm.(gm_GroupId)).
  { pose proof Hm as Hrow. apply GetProto_row in Hrow. apply (inv_rows _ _ H) in Hrow as (_ & E & ? & ? & ? & _).
    by apply MessageKey_inj in E as (_ & <- & _). }
  assert (Hbind : (lr' ← deliverToken lr; mret (Some lr')) n8 =
    Some (match r with Ok lr' => Ok (Some lr') | Err e => Err e end, n9)).
  { unfold mbind, NM_bind. rewrite E9. by destruct r. }
  exists gm, m, c.(l_DeadlineMs), (match r with Ok lr' => Ok (Some lr') | Err e => Err e end), n9.
  split; [done|]. split; [done|]. split; [done|]. split; [done|]. split; [exact Hbind|]. split; [done|]. split.
  - destruct Hr as [[tok ->]|[Hi [e ->]]]; [left|right; eauto]. exists tok. by rewrite Hmg.
  - rewrite <-Hm6. apply GetProto_ext, Hb9. by left.
Qed.

Lemma lease_nothing lane cons allow deny k n :
  Inv k (db_of n) → (Z.of_N k + 1 < 2 ^ 63)%Z → node_ok n → short lane → open_lane lane n →
  (∀ gm, ¬ leasable_group lane allow deny (db_of n) gm) →
  ∃ n', LeaseOneFiltered lane cons allow deny n = Some (Ok None, n') ∧ db_of n' = db_of n.
Proof using Type.
  intros H Hk Hok Hl Hopen Hno. unfold LeaseOneFiltered.
  destruct (ensurePolicy_core lane n) as (n1 & E1 & C1). rewrite (nbind_ok _ _ _ _ _ E1).
  destruct (same_core_ok n n1 C1 Hok) as [Hok1 Hdb1].
  rewrite (nbind_ok _ _ _ _ _ (laneGate_open lane n1 (open_lane_core _ _ _ C1 Hopen))). cbn [negb].
  rewrite nbind_store. change (fsm_s (n_fsm n1)) with (db_of n1). rewrite Hdb1.
  destruct (ListGroups_ok (db_of n) lane (inv_rows _ _ H) Hl) as (gms & Eg & Hgms). rewrite Eg.
  unfold lift at 1. rewrite (nbind_ok _ _ n1 _ n1 eq_refl). cbv zeta.
  assert (Hnil : activeGroups allow deny (info_of <$> gms) = []).
  { destruct (activeGroups _ _ _) as [|g l] eqn:E; [done|]. exfalso.
    assert (Hg : g ∈ activeGroups allow deny (info_of <$> gms)) by (rewrite E; left).
    eapply activeGroups_spec in Hg as (gm & Hgm & _); [by eapply Hno|exact H|lia|done|done]. }
  rewrite Hnil. exists n1. done.
Qed.
End lease.

(** C4: leasing makes progress.  On a stable leader, an open lane that has a
    leasable group (unpaused, allowed, not denied, with a READY message) hands
    out the head of line of one of these groups and marks it LEASED under a
    fresh lease, whatever the lane's policy answers -- errors and junk scores
    included, a WASM module that can succeed without a value excluded, since
    the pick panics on it; without such a group the caller gets nothing and the
    store is unchanged.  The lane, the consumer and the leasable groups have
    UTF-8 names: the command is proposed as JSON. *)
Theorem LeaseOneFiltered_delivers {PC : PayloadCodec} {PE : PolicyEngines} {W : World} {R : StableRaft}
    k lane cons allow deny n :
  (∀ c, portable (cmd_IssueToken c)) → (∀ c, lease_text c → portable (cmd_Lease c)) →
  Inv k (db_of n) → (Z.of_N k + 1 < 2 ^ 63)%Z → node_ok n → short lane → open_lane lane n →
  policy_answers lane n → ValidString lane → ValidString cons →
  (∀ gm, leasable_group lane allow deny (db_of n) gm → ValidString gm.(gm_GroupId)) →
  let db := db_of n in let id := next_lease db in
  ((∃ gm, leasable_group lane allow deny db gm) →
   ∃ gm m deadline r n', leasable_group lane allow deny db gm ∧
    GetProto (MessageKey lane gm.(gm_GroupId) m.(m_MsgId)) db = Some m ∧ m.(m_State) = READY ∧
    (∀ i mi, u64 i → GetProto (MessageKey lane gm.(gm_GroupId) i) db = Some mi →
       mi.(m_State) = READY → m.(m_MsgId) ≤ i) ∧
    LeaseOneFiltered lane cons allow deny n = Some (r, n') ∧ node_ok n' ∧
    granted id lane deadline m r ∧
    GetProto (MessageKey lane gm.(gm_GroupId) m.(m_MsgId)) (db_of n') =
      Some (m_set_Epoch (incr32 m.(m_Epoch)) (m_set_CurLease id (m_set_State LEASED m)))) ∧
  ((∀ gm, ¬ leasable_group lane allow deny db gm) →
   ∃ n', LeaseOneFiltered lane cons allow deny n = Some (Ok None, n') ∧ db_of n' = db).
Proof. intros. split; intros; [by eapply lease_delivers|by eapply lease_nothing]. Qed.

(** ** Witness: one published message on lane "l" *)
Definition demo_ready : store := BrokerProps.demo_state [bs "pHello"].
Definition demo_group_meta : GroupMeta := loadGroupMeta (bs "l") (bs "g") demo_ready.

Lemma demo_leasable : leasable_group (bs "l") [] [] demo_ready demo_group_meta.
Proof. split_and!; try by vm_compute. - by left. - by apply not_elem_of_nil. Qed.

Lemma demo_group_text k gm : GetProto k demo_ready = Some gm → ValidString gm.(gm_GroupId).
Proof.
  intros E%GetProto_row%elem_of_map_to_list.
  assert (Ht : forallb (λ kv, match kv.2 with VGroupMeta gm => ValidString gm.(gm_GroupId) | _ => true end)
                 (map_to_list demo_ready) = true) by (by vm_compute).
  rewrite forallb_forall in Ht. apply list_elem_of_In in E. by apply Is_true_true, (Ht _ E).
Qed.

Lemma LeaseOneFiltered_delivers_witness :
  let n := demo_node demo_ready 50 in
  ∃ m deadline r n', LeaseOneFiltered (bs "l") (bs "c") [] [] n = Some (r, n') ∧
    granted 1 (bs "l") deadline m r.
Proof.
  intros n. assert (HI : Inv 2 (db_of n)).
  { apply (demo_Inv [bs "pHello"]); by vm_compute. }
  destruct (LeaseOneFiltered_delivers 2 (bs "l") (bs "c") [] [] n) as [Hd _].
  - intros [l h]. by exists (inl (inl (inr (inr (l, h))))).
  - intros [l g c d m] _. by exists (inl (inl (inl (inr (l, g, c, d, m))))).
  - exact HI.
  - lia.
  - by vm_compute.
  - by vm_compute.
  - by split_and!; vm_compute.
  - split; [|intros raw b c E; vm_compute in E; discriminate E].
    intros c E. vm_compute in E. discriminate E.
  - by vm_compute.
  - by vm_compute.
  - intros gm (E & _). apply demo_group_text in E. exact E.
  - destruct Hd as (gm & m & deadline & r & n' & _ & _ & _ & _ & Hl & _ & Hg & _).
    { exists demo_group_meta. exact demo_leasable. }
    exists m, deadline, r, n'. split; [exact Hl|exact Hg].
Defined.
