(* ===== verification/WorkProps.v ===== *)
(** * Theorems on the work stream

    Credit is a window on the unsettled deliveries, and a delivered message is
    one the token may consume. *)

From S2P Require Import Prelude GoStrings Keys Data Store Float Publish Workflow Broker Control Auth Timers Fsm Commands Reason Fairness Meter Policy Scheduler SchedulerProps Hash Node NodeControl NodeOps NodeAuth Transport Work TransportProps NodeProps Demo NodeDemo NodeAuthProps NodeLease.

(** ** Counting frames *)
Definition isLease (o : WorkServerMsg) : bool := match o with Srv_Lease _ => true | _ => false end.
Definition deliveries (os : list WorkServerMsg) : Z := Z.of_nat (length (filter (λ o, isLease o = true) os)).
Definition isSettle (m : WorkClientMsg) : bool :=
  match m with Msg_Ack _ | Msg_Nack _ _ _ _ | Msg_Complete _ _ _ _ => true | _ => false end.
Fixpoint settles (ms : list WorkClientMsg) : Z :=
  match ms with [] => 0 | m :: ms' => (if isSettle m then 1 else 0) + settles ms' end.
Fixpoint credits (ms : list WorkClientMsg) : Z :=
  match ms with
  | [] => 0
  | Msg_LeaseRequest r :: ms' => Z.of_N r.(rq_Credit) + credits ms'
  | _ :: ms' => credits ms'
  end.
Definition frames_of (ev : WorkEvent) : list WorkClientMsg :=
  match ev with Ev_Recv (Ok m) => [m] | _ => [] end.

Lemma deliveries_app os1 os2 : deliveries (os1 ++ os2) = (deliveries os1 + deliveries os2)%Z.
Proof. unfold deliveries. rewrite filter_app, length_app. lia. Qed.
Lemma deliveries_nil : deliveries [] = 0%Z.
Proof. done. Qed.
Lemma deliveries_lease lr os : deliveries (Srv_Lease lr :: os) = (1 + deliveries os)%Z.
Proof. unfold deliveries. rewrite filter_cons_True by done. cbn [length]. lia. Qed.
Lemma deliveries_other o os : isLease o = false → deliveries (o :: os) = deliveries os.
Proof. intros H. unfold deliveries. by rewrite filter_cons_False by (by rewrite H). Qed.
Lemma settles_app ms1 ms2 : settles (ms1 ++ ms2) = (settles ms1 + settles ms2)%Z.
Proof. induction ms1 as [|m ms1 IH]; cbn; [done|]. rewrite IH. lia. Qed.
Lemma settles_nonneg ms : (0 ≤ settles ms)%Z.
Proof. induction ms as [|m ms IH]; cbn; [done|]. destruct (isSettle m); lia. Qed.
Lemma credits_app ms1 ms2 : credits (ms1 ++ ms2) = (credits ms1 + credits ms2)%Z.
Proof. induction ms1 as [|[] ms1 IH]; cbn; rewrite ?IH; lia. Qed.
Lemma credits_nonneg ms : (0 ≤ credits ms)%Z.
Proof. induction ms as [|[] ms IH]; cbn; lia. Qed.

Section window.
Context {PC : PayloadCodec} {PE : PolicyEngines} {W : World} {T : Text}.
Implicit Types (n : Node) (md : metadata) (s : stream).

(** The frames a run received. *)
Definition received (tr : list (Node * WorkEvent)) : list WorkClientMsg := tr ≫= λ p, frames_of p.2.

Lemma notLeaderFrame_inv n f n' : notLeaderFrame n = Some (Ok f, n') → ∃ addr, f = Srv_NotLeader addr.
Proof.
  intros (? & ? & _ & H)%nbind_inv. apply nbind_inv in H as (? & ? & _ & (-> & _)%ret_inv). eauto.
Qed.

(** The window is never exceeded. *)
Definition window s : Prop := (0 ≤ s.(ws_inflight) ≤ s.(ws_credit))%Z.

Lemma deliver_window fuel net i s n os s' e n' :
  window s → (s.(ws_credit) < 2 ^ 63)%Z → deliver fuel net i s n = Some (Ok (os, s', e), n') →
  s' = ws_set_inflight (s.(ws_inflight) + deliveries os) s ∧ window s'.
Proof.
  revert i s n os s' e n'. induction fuel as [|fuel IH]; intros i s n os s' e n' Hw Hc.
  { intros (E & _)%ret_inv. injection E as -> -> ->. cbn. rewrite Z.add_0_r. by destruct s. }
  cbn [deliver].
  assert (Hstay : s = ws_set_inflight (ws_inflight s + deliveries []) s ∧ window s).
  { split; [|done]. cbn. rewrite Z.add_0_r. by destruct s. }
  destruct (_ || _) eqn:Hgo; [intros (E & _)%ret_inv; injection E as -> -> ->; exact Hstay|].
  apply orb_false_iff in Hgo as [_ Hlt]. apply negb_false_iff, Z.ltb_lt in Hlt.
  destruct (negb (net i).1); [intros (E & _)%ret_inv; injection E as -> -> ->; exact Hstay|].
  intros (r & n1 & _ & H)%nbind_inv. destruct r as [[lr|]|err].
  - destruct (negb (net i).2); [apply ret_inv in H as (E & _); injection E as -> -> ->; exact Hstay|].
    apply nbind_inv in H as (((os1 & s1) & e1) & n2 & Hd & (E & _)%ret_inv).
    injection E as -> -> ->. assert (wrap_i64 (ws_inflight s + 1) = (ws_inflight s + 1)%Z) as Hwrap.
    { unfold wrap_i64, window in *. rewrite Z.mod_small; lia. }
    rewrite Hwrap in Hd. apply IH in Hd as [-> Hw']; [|unfold window in *; cbn; lia|done].
    split; [|done]. rewrite deliveries_lease. unfold ws_set_inflight. cbn. f_equal. lia.
  - apply ret_inv in H as (E & _). injection E as -> -> ->; exact Hstay.
  - apply nbind_inv in H as (leader & n2 & _ & H). destruct (negb leader).
    + apply nbind_inv in H as (f & n3 & Hf & (E & _)%ret_inv). injection E as -> -> ->.
      apply notLeaderFrame_inv in Hf as [addr ->].
      by rewrite deliveries_other.
    + apply ret_inv in H as (E & _). injection E as -> -> ->; exact Hstay.
Qed.

Lemma pauseNotice_inv s n os s' n' : pauseNotice s n = Some (Ok (os, s'), n') →
  deliveries os = 0%Z ∧ (∀ lr, Srv_Lease lr ∉ os) ∧ ∃ p, s' = ws_set_lastPaused p s.
Proof.
  assert (Hno : ∀ lr, Srv_Lease lr ∉ []) by (intros lr; apply not_elem_of_nil).
  unfold pauseNotice. destruct (negb _).
  { intros (E & _)%ret_inv. injection E as -> ->. split_and!; [done|done|]. exists s.(ws_lastPaused). by destruct s. }
  intros (p & n1 & _ & H)%nbind_inv. destruct (Bool.eqb _ _).
  - apply ret_inv in H as (E & _). injection E as -> ->. split_and!; [done|done|].
    exists s.(ws_lastPaused). by destruct s.
  - apply ret_inv in H as (E & _). injection E as -> ->. split_and!; [done| |eauto].
    intros lr Hin. by apply list_elem_of_singleton in Hin.
Qed.

(** What a step may do to the window: deliveries are in flight or were settled by
    a frame, and the credit is what the frames granted. *)
Definition accounts s os s' (ms : list WorkClientMsg) : Prop :=
  window s' ∧
  (deliveries os + s.(ws_inflight) + settles s'.(ws_recvCh)
     ≤ s'.(ws_inflight) + settles s.(ws_recvCh) + settles ms)%Z ∧
  (s'.(ws_credit) + credits s'.(ws_recvCh) ≤ s.(ws_credit) + credits s.(ws_recvCh) + credits ms)%Z.

Lemma accounts_same s ms : window s → accounts s [] s ms.
Proof. intros Hw. pose proof (settles_nonneg ms). pose proof (credits_nonneg ms). split; [done|]. rewrite deliveries_nil. lia. Qed.

Lemma accounts_trans s1 s2 s3 os1 os2 ms1 ms2 :
  accounts s1 os1 s2 ms1 → accounts s2 os2 s3 ms2 → accounts s1 (os1 ++ os2) s3 (ms1 ++ ms2).
Proof.
  intros (_ & H1 & H2) (Hw & H3 & H4). split; [done|].
  rewrite deliveries_app, settles_app, credits_app. lia.
Qed.

Lemma afterSelect_accounts net s n os s' e n' :
  window s → (s.(ws_credit) < 2 ^ 63)%Z → afterSelect net s n = Some (Ok (os, s', e), n') →
  accounts s os s' [] ∧ s'.(ws_credit) = s.(ws_credit).
Proof.
  intros Hw Hc ((os1 & s1) & n1 & Hp & H)%nbind_inv.
  apply pauseNotice_inv in Hp as (Hd & _ & p & ->).
  apply nbind_inv in H as (((os2 & s2) & e2) & n2 & Hdel & (E & _)%ret_inv). injection E as -> -> ->.
  apply deliver_window in Hdel as [-> Hw']; [|done|done].
  split; [|done]. split; [done|]. rewrite deliveries_app, Hd. cbn. lia.
Qed.

Lemma ignore_inv {A B : Type} (m : NM A) (f : unit → NM B) n y n' :
  (ignore m ≫= f) n = Some (Ok y, n') → ∃ n1, f () n1 = Some (Ok y, n').
Proof. intros ([] & n1 & _ & H)%nbind_inv. eauto. Qed.

Lemma settleOne_accounts m q s : window s → s.(ws_recvCh) = m :: q →
  (if isSettle m then True else False) → credits [m] = 0%Z →
  accounts s [] (settleOne (ws_set_recvCh q s)) [].
Proof.
  unfold accounts, window, settleOne. rewrite deliveries_nil. intros Hw -> Hs Hm. cbn in *.
  destruct (isSettle m); [|done]. destruct (Z.ltb_spec 0 (ws_inflight s)); cbn; destruct m; cbn in *; lia.
Qed.

Lemma onFrame_accounts m q s n os s' e n' :
  window s → s.(ws_recvCh) = m :: q → (s.(ws_credit) + credits (m :: q) < 2 ^ 63)%Z →
  onFrame m (ws_set_recvCh q s) n = Some (Ok (os, s', e), n') → accounts s os s' [].
Proof.
  intros Hw Hq Hc H. pose proof (settles_nonneg q). pose proof (credits_nonneg q).
  destruct m as [r|lid|lid mode delay meta|lid ttl|tok oc meta delay|]; cbn [onFrame] in H.
  - apply nbind_inv in H as (leader & n1 & _ & H). destruct (negb leader).
    + apply nbind_inv in H as (f & n2 & Hf & (E & _)%ret_inv). injection E as -> -> ->.
      apply notLeaderFrame_inv in Hf as [addr ->].
      split; [done|]. rewrite deliveries_other, deliveries_nil by done.
      rewrite Hq. cbn in *. lia.
    + apply ret_inv in H as (E & _). injection E as -> -> ->. cbn in Hc. unfold accounts, window in *.
      rewrite deliveries_nil, Hq. cbn. assert (wrap_i64 (ws_credit s + Z.of_N (rq_Credit r)) =
        (ws_credit s + Z.of_N (rq_Credit r))%Z) as ->.
      { unfold wrap_i64. rewrite Z.mod_small; lia. }
      lia.
  - apply ignore_inv in H as (n1 & (E & _)%ret_inv). injection E as -> -> ->. by eapply settleOne_accounts.
  - apply ignore_inv in H as (n1 & (E & _)%ret_inv). injection E as -> -> ->. by eapply settleOne_accounts.
  - apply ignore_inv in H as (n1 & (E & _)%ret_inv). injection E as -> -> ->. unfold accounts, window in *.
    rewrite Hq, deliveries_nil. cbn. lia.
  - apply ignore_inv in H as (n1 & (E & _)%ret_inv). injection E as -> -> ->. by eapply settleOne_accounts.
  - apply ret_inv in H as (E & _). injection E as -> -> ->. unfold accounts, window in *.
    rewrite Hq, deliveries_nil. cbn. lia.
Qed.

Lemma recvStep_accounts md r s n s' n' :
  window s → recvStep md r s n = Some (Ok s', n') →
  accounts s [] s' (frames_of (Ev_Recv r)) ∧ s'.(ws_credit) = s.(ws_credit).
Proof.
  intros Hw. pose proof (accounts_same s (frames_of (Ev_Recv r)) Hw) as Hsame.
  unfold recvStep. destruct (ws_errCh s); [by intros (-> & _)%ret_inv|].
  destruct (16 <? _)%nat; [by intros (-> & _)%ret_inv|].
  destruct r as [m|err]; [|by intros (-> & _)%ret_inv].
  intros (a & n1 & _ & (-> & _)%ret_inv)%nbind_inv. destruct a as [auth|err]; [|done].
  split; [|done]. split; [done|]. cbn [ws_recvCh ws_set_recvCh ws_set_workAuthorized ws_inflight ws_credit].
  rewrite settles_app, credits_app. cbn [frames_of]. rewrite deliveries_nil. lia.
Qed.

Lemma workStep_accounts md ev s n os s' e n' :
  window s → (s.(ws_credit) + credits s.(ws_recvCh) < 2 ^ 63)%Z →
  workStep md ev s n = Some (Ok (os, s', e), n') → accounts s os s' (frames_of ev).
Proof.
  intros Hw Hc. pose proof (credits_nonneg s.(ws_recvCh)).
  pose proof (accounts_same s [] Hw) as Hsame. destruct ev as [r|net|net| |]; cbn [workStep frames_of].
  - intros (s1 & n1 & Hr & (E & _)%ret_inv)%nbind_inv. injection E as -> -> ->.
    by eapply recvStep_accounts.
  - destruct (ws_recvCh s) as [|m q] eqn:Hq; [intros (E & _)%ret_inv; by injection E as -> -> ->|].
    intros (((os1 & s1) & e1) & n1 & Hf & H2)%nbind_inv.
    apply (onFrame_accounts m q s) in Hf; [|done..]. destruct e1 as [e1|].
    { apply ret_inv in H2 as (E & _). by injection E as -> -> ->. }
    apply nbind_inv in H2 as (((os2 & s2) & e2) & n2 & Ha & (E & _)%ret_inv). injection E as -> -> ->.
    apply afterSelect_accounts in Ha as [Ha _]; [|apply Hf|].
    + by apply (accounts_trans s s1 s2 os1 os2 [] []).
    + destruct Hf as (_ & _ & Hcr). pose proof (credits_nonneg s1.(ws_recvCh)). rewrite Hq in Hcr. cbn in Hcr. cbn in Hc. lia.
  - intros Ha. apply afterSelect_accounts in Ha as [Ha _]; [done|done|lia].
  - destruct (ws_errCh s); intros (E & _)%ret_inv; injection E as -> -> ->; done.
  - intros (E & _)%ret_inv. by injection E as -> -> ->.
Qed.

Lemma workRun_accounts md s tr os s' e :
  window s → (s.(ws_credit) + credits s.(ws_recvCh) + credits (received tr) < 2 ^ 63)%Z →
  workRun md s tr = Some (os, s', e) → accounts s os s' (received tr).
Proof.
  revert s os s' e. induction tr as [|[n ev] tr IH]; intros s os s' e Hw Hc H.
  { cbn in H. injection H as <- <- <-. by apply accounts_same. }
  cbn [workRun] in H. cbn [received mbind list_bind] in Hc |- *. fold (received tr) in Hc |- *.
  cbn [snd] in Hc |- *. rewrite credits_app in Hc.
  pose proof (credits_nonneg (received tr)) as Hp. pose proof (credits_nonneg (frames_of ev)) as Hpe.
  destruct (workStep md ev s n) as [[[[[os1 s1] [e1|]]|err] n1]|] eqn:Es; try done.
  - injection H as <- <- <-. apply workStep_accounts in Es as (Hw' & H1 & H2); [|done|lia].
    pose proof (settles_nonneg (received tr)). split; [done|]. rewrite settles_app, credits_app. lia.
  - apply bind_Some in H as ([[os2 s2] e2] & Hr & [= <- <- <-]).
    apply workStep_accounts in Es as Ha; [|done|lia].
    apply (accounts_trans s s1); [done|]. apply IH in Hr; [done|apply Ha|].
    destruct Ha as (_ & _ & Hcr). lia.
Qed.

(** Leases handed out one after the other, each on the node the last one left. *)
Inductive hands_out (lane who : bytes) (allow deny : list bytes) : Node → list LeaseResult → Node → Prop :=
  | hands_out_nil n : hands_out lane who allow deny n [] n
  | hands_out_cons n lr n1 lrs n2 :
      LeaseOneFiltered lane who allow deny n = Some (Ok (Some lr), n1) →
      hands_out lane who allow deny n1 lrs n2 → hands_out lane who allow deny n (lr :: lrs) n2.

(** What a round of deliveries that does not end the call leaves behind. *)
Definition filled s (lrs : list LeaseResult) s' n n' : Prop :=
  let lease := LeaseOneFiltered s.(ws_lane) s.(ws_consumerID) s.(ws_groupAllow) s.(ws_groupDeny) in
  s' = ws_set_inflight (s.(ws_inflight) + Z.of_nat (length lrs)) s ∧
  ∃ n1, hands_out s.(ws_lane) s.(ws_consumerID) s.(ws_groupAllow) s.(ws_groupDeny) n lrs n1 ∧
    ((n1 = n' ∧ (s'.(ws_inflight) = s'.(ws_credit) ∨ s.(ws_lane) = [])) ∨ lease n1 = Some (Ok None, n')).

Lemma filled_stop s n n' : 
  (n = n' ∧ (s.(ws_inflight) = s.(ws_credit) ∨ s.(ws_lane) = [])) ∨
  LeaseOneFiltered s.(ws_lane) s.(ws_consumerID) s.(ws_groupAllow) s.(ws_groupDeny) n = Some (Ok None, n') →
  filled s [] s n n'.
Proof.
  intros H. split; [cbn; rewrite Z.add_0_r; by destruct s|]. exists n. split; [apply hands_out_nil|exact H].
Qed.

Lemma deliver_fills fuel net i s n os s' n' :
  window s → (s.(ws_credit) < 2 ^ 63)%Z → (s.(ws_credit) - s.(ws_inflight) ≤ Z.of_nat fuel)%Z →
  deliver fuel net i s n = Some (Ok (os, s', None), n') →
  ∃ lrs, os = Srv_Lease <$> lrs ∧ filled s lrs s' n n'.
Proof.
  revert i s n os s' n'. induction fuel as [|fuel IH]; intros i s n os s' n' Hw Hc Hf.
  { intros (E & ->)%ret_inv. injection E as -> ->. exists []. split; [done|]. apply filled_stop.
    left. split; [done|]. left. unfold window in Hw. lia. }
  cbn [deliver]. destruct (_ || _) eqn:Hgo.
  { intros (E & ->)%ret_inv. injection E as -> ->. exists []. split; [done|]. apply filled_stop.
    left. split; [done|]. apply orb_true_iff in Hgo as [Hl|Hl]; apply negb_true_iff in Hl.
    - right. by destruct (ws_lane s).
    - left. apply Z.ltb_ge in Hl. unfold window in Hw. lia. }
  apply orb_false_iff in Hgo as [_ Hlt]. apply negb_false_iff, Z.ltb_lt in Hlt.
  destruct (negb (net i).1); [by intros (E & _)%ret_inv|].
  intros (r & n1 & Hr%attempt_inv & H)%nbind_inv. destruct r as [[lr|]|err].
  - destruct (negb (net i).2); [by apply ret_inv in H as (E & _)|].
    apply nbind_inv in H as (((os1 & s1) & e1) & n2 & Hd & (E & ->)%ret_inv). injection E as -> -> <-.
    assert (wrap_i64 (ws_inflight s + 1) = (ws_inflight s + 1)%Z) as Hwrap.
    { unfold wrap_i64, window in *. rewrite Z.mod_small; lia. }
    rewrite Hwrap in Hd. unfold window in Hw.
    apply IH in Hd as (lrs & -> & -> & n3 & Ho & Hend); [|unfold window; cbn; lia|cbn; lia|cbn; lia].
    exists (lr :: lrs). split; [done|]. split; [unfold ws_set_inflight; cbn; f_equal; lia|].
    exists n3. split; [by eapply hands_out_cons|exact Hend].
  - apply ret_inv in H as (E & ->). injection E as -> ->. exists []. split; [done|]. apply filled_stop. by right.
  - apply nbind_inv in H as (leader & n2 & _ & H). destruct (negb leader).
    + by apply nbind_inv in H as (f & n3 & Hf' & (E & _)%ret_inv).
    + by apply ret_inv in H as (E & _).
Qed.
End window.

Section auth.
Context {PC : PayloadCodec} {PE : PolicyEngines} {W : World} {T : Text}.
Implicit Types (n : Node) (md : metadata) (s : stream).

(** JSON carries a lease proposal; a name survives when it is UTF-8. *)
Definition json_names : Prop := ∀ c d, marshal_cmd (cmd_Lease c) = Ok d →
  ∃ c', unmarshal_cmd d = Some (cmd_Lease c') ∧
    (ValidString c.(l_Lane) → c'.(l_Lane) = c.(l_Lane)) ∧
    (ValidString c.(l_GroupID) → c'.(l_GroupID) = c.(l_GroupID)).
Hypothesis json_lease : json_names.

(** ** A lease comes from the lane and the groups that were asked for *)
Lemma apply_lease_of c n lr n' : apply (cmd_Lease c) n = Some (Ok (RLease lr), n') →
  lr.(lr_Empty) = false →
  (ValidString c.(l_Lane) → lr.(lr_Lane) = c.(l_Lane)) ∧
  (ValidString c.(l_GroupID) → lr.(lr_GroupID) = c.(l_GroupID)).
Proof using json_lease.
  intros (d & n1 & Hd & H)%nbind_inv Hne. injection Hd as Hm _.
  apply nbind_inv in H as (reply & n2 & _ & H). apply nbind_inv in H as (rs0 & n3 & _ & H).
  apply nbind_inv in H as (index & n4 & _ & H). apply nbind_inv in H as (rs & n5 & Hc & H).
  unfold commitLogs in Hc. cbn [applyLog] in Hc. unfold Apply in Hc. cbn [log_IsCommand log_Index log_Data negb] in Hc.
  destruct (index <=? _); [injection Hc as <- _; by apply ret_inv in H as [? _]|].
  destruct (json_lease c d Hm) as (c' & Hu & HL & HG).
  rewrite Hu, dispatch_Lease in Hc. destruct (applyLease c' _) as [[res b]|err] eqn:Ea; injection Hc as <- _; [|done].
  apply ret_inv in H as [<- _]. unfold applyLease in Ea. apply bind_Ok in Ea as (head & b1 & b2 & _ & Ea & _).
  destruct head as [head|]; [|apply ret_Ok in Ea as [E _]; injection E as ->; done].
  repeat (apply bind_Ok in Ea as (? & ? & ? & _ & Ea & _)).
  apply ret_Ok in Ea as [E _]. injection E as ->. exact (conj HL HG).
Qed.

Lemma deliverToken_same lr n lr' n' : deliverToken lr n = Some (Ok lr', n') →
  lr'.(lr_Lane) = lr.(lr_Lane) ∧ lr'.(lr_GroupID) = lr.(lr_GroupID).
Proof.
  unfold deliverToken. destruct (nonempty _); [|destruct (lr_IssueToken lr)].
  - by intros (x & n1 & _ & [-> _]%ret_inv)%nbind_inv.
  - by intros (x & n1 & _ & [-> _]%ret_inv)%nbind_inv.
  - by intros [-> _]%ret_inv.
Qed.

Lemma leaseCmd_names lane gid who n c n' : leaseCmd lane gid who n = Some (Ok c, n') →
  c.(l_Lane) = lane ∧ c.(l_GroupID) = gid.
Proof.
  intros (cfg & n1 & _ & H)%nbind_inv. apply nbind_inv in H as (now & n2 & _ & H).
  by apply nbind_inv in H as (ml & n3 & _ & [-> _]%ret_inv).
Qed.

(** The groups the filters admit. *)
Definition in_filter (allow deny : list bytes) (group : bytes) : Prop :=
  (allow = [] ∨ group ∈ allow) ∧ group ∉ deny.

Lemma activeGroups_filter allow deny groups g :
  g ∈ activeGroups allow deny groups → in_filter allow deny g.(gs_ID).
Proof.
  unfold activeGroups. intros (gi & -> & Hin)%list_elem_of_fmap.
  apply list_elem_of_filter in Hin as [Hc _]. unfold leaseCandidate in Hc.
  apply andb_true_iff in Hc as [Hc Hd]. apply andb_true_iff in Hc as [_ Ha].
  apply negb_true_iff, bool_decide_eq_false in Hd. apply orb_true_iff in Ha.
  rewrite !bool_decide_eq_true in Ha. done.
Qed.

Lemma LeaseOneFiltered_serves lane who allow deny n lr n' :
  LeaseOneFiltered lane who allow deny n = Some (Ok (Some lr), n') →
  (ValidString lane → lr.(lr_Lane) = lane) ∧
  ∃ gid, in_filter allow deny gid ∧ (ValidString gid → lr.(lr_GroupID) = gid).
Proof using json_lease.
  intros (u & n1 & _ & H)%nbind_inv. apply nbind_inv in H as (gate & n2 & _ & H).
  destruct (negb gate); [by apply ret_inv in H as [? _]|].
  apply nbind_inv in H as (rg & n3 & _ & H). apply nbind_inv in H as (groups & n4 & _ & H).
  cbv zeta in H. set (active := activeGroups allow deny groups) in H.
  destruct (length active =? 0)%nat; [by apply ret_inv in H as [? _]|].
  apply nbind_inv in H as (now & n5 & _ & H).
  apply nbind_inv in H as (p & n6 & Hp & H). destruct p as [[gid fb] ok].
  destruct (negb ok) eqn:Hok; [by apply ret_inv in H as [? _]|]. apply negb_false_iff in Hok as ->.
  assert (in_filter allow deny gid) as Hin.
  { unfold node_Pick in Hp. destruct (Pick _ _ _ _) as [[[[gid1 fb1] ok1] s1]|] eqn:Ep; [|done].
    injection Hp as -> -> -> _. apply pick_serves in Ep as [_ Ep].
    destruct (Ep eq_refl) as (g & Hg & _ & <-). by eapply activeGroups_filter. }
  apply nbind_inv in H as (u1 & n7 & _ & H). apply nbind_inv in H as (lc & n8 & Hlc & H).
  apply leaseCmd_names in Hlc as [Hl Hg].
  apply nbind_inv in H as (res & n9 & Ha & H). destruct res; try (by apply ret_inv in H as [? _]).
  destruct (lr_Empty _) eqn:He; [by apply ret_inv in H as [? _]|].
  apply apply_lease_of in Ha as [Hla Hga]; [|done].
  do 3 (apply nbind_inv in H as (? & ? & _ & H)).
  apply nbind_inv in H as (lr1 & n10 & Ht & [E _]%ret_inv). injection E as ->.
  apply deliverToken_same in Ht as [-> ->]. subst lane gid. split; [done|]. by exists lc.(l_GroupID).
Qed.

(** ** What a frame authorizes *)
Definition admits md (db : store) (checks : list AuthCheck) : bool :=
  let d := AuthorizeToken (authTokenFromContext md) checks db in negb d.(ad_Enabled) || d.(ad_Allowed).
Definition may_consume md (db : store) (lane group : bytes) : Prop :=
  admits md db [mkAuthCheck AUTH_CONSUME lane group] = true.

(** The empty name of a check stands for any name. *)
Definition wholesale md (db : store) : Prop :=
  (∀ lane group, may_consume md db lane [] → may_consume md db lane group) ∧
  (∀ lane group, may_consume md db [] group → may_consume md db lane group).

Lemma decision_each p (c : AuthCheck) checks : c ∈ checks →
  ad_Allowed (decision_of p checks) = true → ad_Allowed (decision_of p [c]) = true.
Proof.
  intros Hc. rewrite !decision_allowed. destruct (ap_Disabled p); [done|]. cbn.
  destruct checks as [|c0 checks]; [by apply not_elem_of_nil in Hc|].
  intros H. cbn [effective] in H. rewrite forallb_forall in H. rewrite H; [done|]. by apply list_elem_of_In.
Qed.

Lemma decision_enabled p checks : ad_Enabled (decision_of p checks) = true.
Proof. unfold decision_of. destruct (ap_Disabled p); [done|]. by destruct (filter _ _). Qed.

Lemma admits_each md db (c : AuthCheck) checks :
  c ∈ checks → admits md db checks = true → admits md db [c] = true.
Proof.
  intros Hc. unfold admits, AuthorizeToken. destruct (negb (AuthEnabled db)); [done|].
  destruct (negb (nonempty _)); [done|]. destruct (filter _ (listAuthPrincipals false db)) as [|p ps]; [done|].
  rewrite !decision_enabled. cbn [negb orb]. by apply decision_each.
Qed.

Lemma requireAuth_inv md checks n u n' :
  requireAuth md Broker_Work_FullMethodName checks n = Some (Ok u, n') →
  admits md n.(n_fsm).(fsm_s) checks = true.
Proof.
  unfold requireAuth. cbn [negb]. change (has_prefix _ Broker_Work_FullMethodName) with true. cbn [negb].
  rewrite nbind_store. unfold admits. destruct (_ || _); [done|]. by destruct (negb _).
Qed.

(** The checks a lease request passed. *)
Definition admitted md db (r : LeaseRequest) : Prop :=
  match r.(rq_GroupAllow) with
  | [] => may_consume md db r.(rq_Lane) []
  | gs => ∀ g, g ∈ gs → may_consume md db r.(rq_Lane) g
  end.

Lemma RecvMsg_admitted md r a n a' n' :
  RecvMsg md Broker_Work_FullMethodName (Msg_LeaseRequest r) a n = Some (Ok a', n') →
  admitted md n.(n_fsm).(fsm_s) r.
Proof.
  unfold RecvMsg, admitted. change (checksForStreamMessage Broker_Work_FullMethodName (Msg_LeaseRequest r)) with
    (match rq_GroupAllow r with
     | [] => (one AUTH_CONSUME (rq_Lane r) [], false)
     | groups => ((λ g, mkAuthCheck AUTH_CONSUME (rq_Lane r) g) <$> groups, false)
     end).
  destruct (rq_GroupAllow r) as [|g gs] eqn:Eg; cbn; intros H;
    apply nbind_inv in H as (en & n1 & [-> ->]%ret_inv & H);
    apply nbind_inv in H as (u & n2 & H%requireAuth_inv & _); [exact H|].
  intros g' Hin. eapply admits_each; [|exact H]. change (mkAuthCheck AUTH_CONSUME (rq_Lane r) g' ∈
    (λ g, mkAuthCheck AUTH_CONSUME (rq_Lane r) g) <$> (g :: gs)). by apply list_elem_of_fmap_2.
Qed.

(** What an admitted request says on a lane and group: it named the lane, or
    left the lane as it was and named the group; its check had the empty name
    for what it did not name. *)
Definition authorizes md db (r : LeaseRequest) (lane group : bytes) : Prop :=
  (r.(rq_Lane) = lane ∧ r.(rq_GroupAllow) = [] ∧ may_consume md db lane []) ∨
  (r.(rq_Lane) = lane ∧ group ∈ r.(rq_GroupAllow) ∧ may_consume md db lane group) ∨
  (r.(rq_Lane) = [] ∧ group ∈ r.(rq_GroupAllow) ∧ may_consume md db [] group).

Lemma authorizes_wholesale md db r lane group :
  wholesale md db → authorizes md db r lane group → may_consume md db lane group.
Proof. intros [Hg Hl] [(_ & _ & H)|[(_ & _ & H)|(_ & _ & H)]]; auto. Qed.

(** ** Along the stream *)
Section covered.
Context (md : metadata) (G : Node → LeaseRequest → Prop).
(** Protobuf strings are UTF-8. *)
Hypothesis G_text : ∀ n r, G n r → ValidString r.(rq_Lane) ∧ Forall (λ g, ValidString g) r.(rq_GroupAllow).

(** An earlier frame authorizes the delivery, and an earlier frame named its lane. *)
Definition cover (lane group : bytes) : Prop :=
  (∃ n r, G n r ∧ authorizes md n.(n_fsm).(fsm_s) r lane group) ∧
  (∃ n r, G n r ∧ r.(rq_Lane) = lane ∧ ∃ g, may_consume md n.(n_fsm).(fsm_s) lane g).

(** The queued requests, and what the handler's variables name, are authorized. *)
Definition covered s : Prop :=
  (∀ r, Msg_LeaseRequest r ∈ s.(ws_recvCh) → ∃ n, G n r ∧ admitted md n.(n_fsm).(fsm_s) r) ∧
  (s.(ws_lane) ≠ [] → ∀ group, (s.(ws_groupAllow) = [] ∨ group ∈ s.(ws_groupAllow)) → cover s.(ws_lane) group) ∧
  ValidString s.(ws_lane) ∧ Forall (λ g, ValidString g) s.(ws_groupAllow).
Definition all_covered (os : list WorkServerMsg) : Prop :=
  ∀ lr, Srv_Lease lr ∈ os → cover lr.(lr_Lane) lr.(lr_GroupID).

Lemma all_covered_nil : all_covered [].
Proof. by intros lr Hin%not_elem_of_nil. Qed.
Lemma all_covered_app os1 os2 : all_covered os1 → all_covered os2 → all_covered (os1 ++ os2).
Proof. intros H1 H2 lr [Hin|Hin]%elem_of_app; auto. Qed.

Lemma recvStep_covered r s n s' n' :
  (∀ m, r = Ok (Msg_LeaseRequest m) → G n m) → covered s → recvStep md r s n = Some (Ok s', n') → covered s'.
Proof.
  intros HG [Hq Hs]. unfold recvStep. destruct (ws_errCh s); [by intros (-> & _)%ret_inv|].
  destruct (16 <? _)%nat; [by intros (-> & _)%ret_inv|].
  destruct r as [m|err]; [|by intros (-> & _)%ret_inv].
  intros (a & n1 & Ha%attempt_inv & (-> & _)%ret_inv)%nbind_inv. destruct a as [auth|err]; [|done].
  split; [|done]. intros r [Hin|Hin%list_elem_of_singleton]%elem_of_app; [auto|].
  subst m. exists n. split; [by apply HG|]. by eapply RecvMsg_admitted.
Qed.

Lemma applyLeaseRequest_covered n r s :
  G n r → admitted md n.(n_fsm).(fsm_s) r → covered s → covered (applyLeaseRequest r s).
Proof using G_text.
  intros Hr Hadm (Hq & Hs & Hv & Hva). destruct (G_text _ _ Hr) as [Hvl Hvg].
  assert (Hsome : ∃ g, may_consume md n.(n_fsm).(fsm_s) r.(rq_Lane) g).
  { unfold admitted in Hadm. destruct (rq_GroupAllow r) as [|g gs]; [eauto|]. exists g. apply Hadm. by left. }
  split; [exact Hq|]. unfold applyLeaseRequest. cbn [ws_lane ws_groupAllow].
  unfold admitted in Hadm. split.
  - intros Hl group Hin. destruct (nonempty (rq_Lane r)) eqn:El.
    + split; [|by exists n, r]. exists n, r. split; [done|].
      destruct (rq_GroupAllow r) as [|g gs] eqn:Eg; [left; rewrite Eg; by auto|right; left; rewrite Eg].
      destruct Hin as [|Hin]; [done|]. auto.
    + assert (El' : r.(rq_Lane) = []) by (by destruct (rq_Lane r)).
      destruct (rq_GroupAllow r) as [|g gs] eqn:Eg; [by apply Hs|].
      destruct Hin as [|Hin]; [done|]. split.
      * exists n, r. split; [done|]. right; right. rewrite Eg, El' in *. auto.
      * destruct (ws_groupAllow s) as [|g' gs'].
        -- by apply (Hs Hl group); left.
        -- by apply (Hs Hl g'); right; left.
  - destruct (nonempty (rq_Lane r)); split; try done; by destruct (rq_GroupAllow r).
Qed.

Lemma deliver_covered fuel net i s n os s' e n' : covered s →
  deliver fuel net i s n = Some (Ok (os, s', e), n') → covered s' ∧ all_covered os.
Proof using json_lease.
  pose proof all_covered_nil as Hnil.
  revert i s n os s' e n'. induction fuel as [|fuel IH]; intros i s n os s' e n' Hc.
  { intros (E & _)%ret_inv. by injection E as -> -> ->. }
  cbn [deliver]. destruct (_ || _) eqn:Hgo; [intros (E & _)%ret_inv; by injection E as -> -> ->|].
  destruct (negb (net i).1); [intros (E & _)%ret_inv; by injection E as -> -> ->|].
  intros (r & n1 & Hr%attempt_inv & H)%nbind_inv. destruct r as [[lr|]|err].
  - destruct (negb (net i).2); [apply ret_inv in H as (E & _); by injection E as -> -> ->|].
    apply nbind_inv in H as (((os1 & s1) & e1) & n2 & Hd & (E & _)%ret_inv). injection E as -> -> ->.
    apply IH in Hd as [Hc' Hos]; [|exact Hc]. split; [done|].
    intros lr' [Hin|Hin]%elem_of_cons; [|auto]. injection Hin as ->.
    apply orb_false_iff in Hgo as [Hl _]. destruct Hc as (_ & Hs & Hv & Hva).
    apply LeaseOneFiltered_serves in Hr as (-> & gid & [Ha _] & Hg); [|done].
    apply Hs; [by destruct (ws_lane s)|]. destruct Ha as [Ha|Ha]; [by left|right].
    rewrite Forall_forall in Hva. by rewrite Hg by auto.
  - apply ret_inv in H as (E & _). by injection E as -> -> ->.
  - apply nbind_inv in H as (leader & n2 & _ & H). destruct (negb leader).
    + apply nbind_inv in H as (f & n3 & Hf & (E & _)%ret_inv). injection E as -> -> ->.
      split; [done|]. intros lr Hin%list_elem_of_singleton.
      by apply notLeaderFrame_inv in Hf as [addr ->].
    + apply ret_inv in H as (E & _). by injection E as -> -> ->.
Qed.

Lemma afterSelect_covered net s n os s' e n' : covered s →
  afterSelect net s n = Some (Ok (os, s', e), n') → covered s' ∧ all_covered os.
Proof using json_lease.
  intros Hc ((os1 & s1) & n1 & Hp & H)%nbind_inv. apply pauseNotice_inv in Hp as (_ & Hn & p & ->).
  apply nbind_inv in H as (((os2 & s2) & e2) & n2 & Hd & (E & _)%ret_inv). injection E as -> -> ->.
  apply deliver_covered in Hd as [Hc' Ho]; [|exact Hc]. split; [done|].
  apply all_covered_app; [|done]. intros lr Hin. by destruct (Hn lr).
Qed.

Lemma onFrame_covered m q s n os s' e n' : covered s → s.(ws_recvCh) = m :: q →
  onFrame m (ws_set_recvCh q s) n = Some (Ok (os, s', e), n') → covered s' ∧ all_covered os.
Proof using G_text.
  intros [Hq Hs] Eq H. pose proof all_covered_nil as Hnil.
  assert (Hpop : covered (ws_set_recvCh q s)).
  { split; [|exact Hs]. cbn. intros r Hin. apply Hq. rewrite Eq. by right. }
  assert (Hset : covered (settleOne (ws_set_recvCh q s))) by (unfold settleOne; by destruct (0 <? _)%Z).
  destruct m as [r|lid|lid mode delay meta|lid ttl|tok oc meta delay|]; cbn [onFrame] in H.
  - apply nbind_inv in H as (leader & n1 & _ & H). destruct (negb leader).
    + apply nbind_inv in H as (f & n2 & Hf & (E & _)%ret_inv). injection E as -> -> ->.
      split; [done|]. intros lr Hin%list_elem_of_singleton.
      by apply notLeaderFrame_inv in Hf as [addr ->].
    + apply ret_inv in H as (E & _). injection E as -> -> ->. split; [|done].
      destruct (Hq r) as (n2 & Hr & Hadm); [rewrite Eq; by left|]. by apply (applyLeaseRequest_covered n2).
  - apply ignore_inv in H as (n1 & (E & _)%ret_inv). by injection E as -> -> ->.
  - apply ignore_inv in H as (n1 & (E & _)%ret_inv). by injection E as -> -> ->.
  - apply ignore_inv in H as (n1 & (E & _)%ret_inv). by injection E as -> -> ->.
  - apply ignore_inv in H as (n1 & (E & _)%ret_inv). by injection E as -> -> ->.
  - apply ret_inv in H as (E & _). by injection E as -> -> ->.
Qed.

Lemma workStep_covered ev s n os s' e n' :
  covered s → (∀ m, ev = Ev_Recv (Ok (Msg_LeaseRequest m)) → G n m) →
  workStep md ev s n = Some (Ok (os, s', e), n') → covered s' ∧ all_covered os.
Proof using json_lease G_text.
  intros Hc HG. pose proof all_covered_nil as Hnil. destruct ev as [r|net|net| |]; cbn [workStep].
  - intros (s1 & n1 & Hr & (E & _)%ret_inv)%nbind_inv. injection E as -> -> ->. split; [|done].
    eapply recvStep_covered; [|done|done]. intros m ->. by apply HG.
  - destruct (ws_recvCh s) as [|m q] eqn:Hq; [intros (E & _)%ret_inv; by injection E as -> -> ->|].
    intros (((os1 & s1) & e1) & n1 & Hf & H)%nbind_inv.
    apply (onFrame_covered m q s) in Hf as [Hc1 Ho1]; [|done..]. destruct e1 as [e1|].
    { apply ret_inv in H as (E & _). by injection E as -> -> ->. }
    apply nbind_inv in H as (((os2 & s2) & e2) & n2 & Ha & (E & _)%ret_inv). injection E as -> -> ->.
    apply afterSelect_covered in Ha as [Hc2 Ho2]; [|done]. split; [done|by apply all_covered_app].
  - by apply afterSelect_covered.
  - destruct (ws_errCh s); intros (E & _)%ret_inv; by injection E as -> -> ->.
  - intros (E & _)%ret_inv. by injection E as -> -> ->.
Qed.

Lemma workRun_covered s tr os s' e :
  covered s → (∀ n m, (n, Ev_Recv (Ok (Msg_LeaseRequest m))) ∈ tr → G n m) →
  workRun md s tr = Some (os, s', e) → covered s'.
Proof using json_lease G_text.
  revert s os s' e. induction tr as [|[n ev] tr IH]; intros s os s' e Hc HG H.
  { cbn in H. by injection H as <- <- <-. }
  cbn [workRun] in H.
  assert (HGev : ∀ m, ev = Ev_Recv (Ok (Msg_LeaseRequest m)) → G n m) by (intros m ->; apply HG; by left).
  destruct (workStep md ev s n) as [[[[[os1 s1] [e1|]]|err] n1]|] eqn:Es; try done.
  - injection H as <- <- <-. by apply workStep_covered in Es as [? _].
  - apply bind_Some in H as ([[os2 s2] e2] & Hr & [= <- <- <-]).
    apply workStep_covered in Es as [Hc1 _]; [|done|done]. eapply IH in Hr; [done|done|].
    intros n' m Hin. apply HG. by right.
Qed.
End covered.
End auth.

Lemma newStream_window : window newStream.
Proof. done. Qed.

(** C12: Credit is a window.  Whatever the client sends and the server does in
    between, the messages a stream delivered never exceed the credit it was
    granted plus the settlement frames it sent: with credit 1 the stream is
    strictly serial.  And the window is used: a tick that does not end the call
    sends the pause notice and then, one lease after the other from the node
    the notice left, what the lane hands out, each counted in flight; it stops
    where the window is full, where no lane was named, or where the lane, on
    the node of the last delivery, had nothing to lease. *)
Theorem work_credit_window {PC : PayloadCodec} {PE : PolicyEngines} {W : World} {T : Text}
    md tr os (s : stream) e :
  workRun md newStream tr = Some (os, s, e) → (credits (received tr) < 2 ^ 63)%Z →
  (deliveries os ≤ settles (received tr) + credits (received tr))%Z ∧
  (0 ≤ s.(ws_inflight) ≤ s.(ws_credit))%Z ∧
  ∀ (n : Node) net os' s' n', workStep md (Ev_Tick net) s n = Some (Ok (os', s', None), n') →
    ∃ notice s0 n0 lrs n1,
      pauseNotice s n = Some (Ok (notice, s0), n0) ∧ os' = notice ++ (Srv_Lease <$> lrs) ∧
      hands_out s.(ws_lane) s.(ws_consumerID) s.(ws_groupAllow) s.(ws_groupDeny) n0 lrs n1 ∧
      s'.(ws_inflight) = (s.(ws_inflight) + Z.of_nat (length lrs))%Z ∧ s'.(ws_credit) = s.(ws_credit) ∧
      ((n1 = n' ∧ (s'.(ws_inflight) = s'.(ws_credit) ∨ s.(ws_lane) = [])) ∨
       LeaseOneFiltered s.(ws_lane) s.(ws_consumerID) s.(ws_groupAllow) s.(ws_groupDeny) n1 =
         Some (Ok None, n')).
Proof.
  intros H Hc. apply workRun_accounts in H as (Hw & H1 & H2); [|exact newStream_window|exact Hc].
  change (ws_inflight newStream) with 0%Z in H1. change (ws_credit newStream) with 0%Z in H2.
  change (ws_recvCh newStream) with (@nil WorkClientMsg) in H1, H2. cbn [settles credits] in H1, H2.
  pose proof (settles_nonneg s.(ws_recvCh)). pose proof (credits_nonneg s.(ws_recvCh)).
  unfold window in Hw. split; [lia|]. split; [done|].
  intros n net os' s' n' ((o1 & s1) & n0 & Hp & H3)%nbind_inv.
  pose proof Hp as (_ & _ & p & ->)%pauseNotice_inv.
  apply nbind_inv in H3 as (((o2 & s2) & e2) & n2 & Hd & (E & ->)%ret_inv). injection E as -> -> <-.
  apply deliver_fills in Hd as (lrs & -> & -> & n1 & Ho & Hend); [|done|cbn; lia|cbn; lia].
  by exists o1, (ws_set_lastPaused p s), n0, lrs, n1.
Qed.

(** C11: A stream delivers only what its token may consume.  For every message it
    hands out, an earlier lease request of the stream, admitted by the grants in
    force when it arrived, authorizes the message's lane and group: it named the
    lane and no group, and was admitted to the lane under the empty group name;
    or it named both, and was admitted to both; or it named the group and no
    lane, and was admitted to the group under the empty lane name.  Where the
    grants are such that an empty name admits every name, the token was
    admitted to the lane and group themselves.  And an earlier request, admitted
    on the message's lane, named that lane. *)
Theorem work_stream_authorized {PC : PayloadCodec} {PE : PolicyEngines} {W : World} {T : Text}
    md tr os0 (s : stream) n ev os s' e n' lr :
  json_names →
  (∀ (n0 : Node) r, (n0, Ev_Recv (Ok (Msg_LeaseRequest r))) ∈ tr →
     ValidString r.(rq_Lane) ∧ Forall (λ g, ValidString g) r.(rq_GroupAllow)) →
  workRun md newStream tr = Some (os0, s, None) →
  workStep md ev s n = Some (Ok (os, s', e), n') → Srv_Lease lr ∈ os →
  (∃ (n0 : Node) r, (n0, Ev_Recv (Ok (Msg_LeaseRequest r))) ∈ tr ∧
     authorizes md n0.(n_fsm).(fsm_s) r lr.(lr_Lane) lr.(lr_GroupID) ∧
     (wholesale md n0.(n_fsm).(fsm_s) → may_consume md n0.(n_fsm).(fsm_s) lr.(lr_Lane) lr.(lr_GroupID))) ∧
  (∃ (n0 : Node) r, (n0, Ev_Recv (Ok (Msg_LeaseRequest r))) ∈ tr ∧ r.(rq_Lane) = lr.(lr_Lane) ∧
     ∃ g, may_consume md n0.(n_fsm).(fsm_s) lr.(lr_Lane) g).
Proof.
  intros Hjson Htext Hrun Hstep Hin.
  set (G (n0 : Node) r := (n0, Ev_Recv (Ok (Msg_LeaseRequest r))) ∈ tr).
  assert (Hc : covered md G s).
  { eapply workRun_covered; [exact Hjson|exact Htext| | |exact Hrun]; [|done].
    split; [intros r Hr; by apply not_elem_of_nil in Hr|]. split; [done|]. by split. }
  destruct ev as [r|net|net| |].
  { apply nbind_inv in Hstep as (s1 & n1 & _ & (E & _)%ret_inv). injection E as -> _ _.
    by apply not_elem_of_nil in Hin. }
  all: apply (workStep_covered Hjson md G Htext) in Hstep as [_ Ho]; [|exact Hc|by intros m [=]].
  all: destruct (Ho lr Hin) as [(n0 & r & Hr & Ha) Hnamed]; split; [|exact Hnamed].
  all: exists n0, r; split; [exact Hr|]; split; [exact Ha|]; intros Hw; by eapply authorizes_wholesale.
Qed.

(** ** Witnesses: a token for lane "l", and one message there *)
Definition demo_salt : bytes := replicate 16 "r"%char.
Definition demo_consumer (group_pattern : bytes) : AuthPrincipal :=
  mkAuthPrincipal (bs "eve") false [] [mkAuthGrant (bs "l") group_pattern [AUTH_CONSUME] []]
    (Some (mkAuthTokenInfo (bs "id") demo_salt (saltedTokenHash demo_salt (bs "tok")) 0 0)) 0 0.
Definition demo_guarded (group_pattern : bytes) : store :=
  <[AuthPrincipalKey (bs "eve") := VPrincipal (demo_consumer group_pattern)]> demo_ready.
Definition demo_md : metadata := Some {[ bs "x-rota-token" := [bs "tok"] ]}.
Definition demo_lease_request (lane : bytes) (credit : N) : LeaseRequest :=
  mkLeaseRequest lane credit [] [] (bs "c").
Definition demo_net : nat → bool * bool := λ _, (true, true).
Definition demo_open : list (Node * WorkEvent) :=
  let n := demo_node (demo_guarded []) 50 in
  [(n, Ev_Recv (Ok (Msg_LeaseRequest (demo_lease_request (bs "l") 1))))].

Lemma demo_admits lane group :
  may_consume demo_md (demo_guarded []) lane group ↔ lane = bs "l".
Proof.
  unfold may_consume, admits, AuthorizeToken.
  replace (AuthEnabled (demo_guarded [])) with true by (by vm_compute).
  replace (nonempty (TrimSpace (authTokenFromContext demo_md))) with true by (by vm_compute).
  replace (filter _ (listAuthPrincipals false (demo_guarded []))) with [demo_consumer []] by (by vm_compute).
  cbn [negb]. rewrite decision_enabled, decision_allowed. cbn [negb orb demo_consumer ap_Disabled andb].
  cbn [effective forallb]. unfold principalAllows, grantAllows, regexp_match. cbn.
  change (normalizePattern ["l"%char]) with ["l"%char].
  rewrite (bool_decide_eq_true_2 (["."%char; "*"%char] = _)) by done. cbn [orb].
  rewrite !andb_true_r, !orb_false_r, orb_true_iff, !bool_decide_eq_true. split; [by intros [|]|by right].
Qed.

Lemma demo_json_lease : json_names.
Proof.
  intros [l g who dl ml] d Hd. exists (mkLeaseCmd l g who dl ml). split; [|done]. revert Hd.
  assert (cmd_Lease (mkLeaseCmd l g who dl ml) = demo_of (inl (inl (inl (inr (l, g, who, dl, ml)))))) as -> by done.
  apply demo_json.
Qed.

(** The outcome of a step, without the node it leaves. *)
Definition step_outcome (ev : WorkEvent) (s : stream) (n : Node) : option outcome :=
  match workStep demo_md ev s n with Some (Ok o, _) => Some o | _ => None end.
Lemma step_outcome_eq ev s n o : step_outcome ev s n = Some o → ∃ n', workStep demo_md ev s n = Some (Ok o, n').
Proof. unfold step_outcome. destruct (workStep _ _ _ _) as [[[o'|] n']|]; [|done|done]. intros [= ->]. eauto. Qed.

Lemma work_stream_authorized_witness :
  ∃ (n0 : Node) r, (n0, Ev_Recv (Ok (Msg_LeaseRequest r))) ∈ demo_open ∧ r.(rq_Lane) = bs "l" ∧
    may_consume demo_md n0.(n_fsm).(fsm_s) (bs "l") (bs "g").
Proof.
  assert (∃ s lr os s' e, workRun demo_md newStream demo_open = Some ([], s, None) ∧
    step_outcome (Ev_Frame demo_net) s (demo_node demo_ready 60) = Some (os, s', e) ∧
    Srv_Lease lr ∈ os ∧ lr.(lr_Lane) = bs "l" ∧ lr.(lr_GroupID) = bs "g")
    as (s & lr & os & s' & e & H1 & H2 & H3 & Hl & Hg).
  { eexists _, _, _, _, _. split; [vm_compute; reflexivity|]. split; [vm_compute; reflexivity|].
    split; [by left|]. by split. }
  apply step_outcome_eq in H2 as [n' H2].
  destruct (work_stream_authorized demo_md demo_open [] s (demo_node demo_ready 60)
    (Ev_Frame demo_net) os s' e n' lr) as [(n0 & r & Hin & _ & Hw) _].
  - exact demo_json_lease.
  - intros n0 r Hin. apply list_elem_of_singleton in Hin as [= -> ->]. split; [by vm_compute|constructor].
  - exact H1.
  - exact H2.
  - exact H3.
  - exists n0, r. split; [exact Hin|]. rewrite Hl, Hg in Hw.
    apply list_elem_of_singleton in Hin as [= -> ->]. split; [reflexivity|]. apply Hw.
    split; intros lane group; rewrite !demo_admits; [done|]. intros E. discriminate E.
Defined.
Lemma work_credit_window_witness :
  ∃ os s, workRun demo_md newStream (demo_open ++ [(demo_node demo_ready 60, Ev_Frame demo_net)]) =
            Some (os, s, None) ∧ (deliveries os ≤ 1)%Z ∧ s.(ws_inflight) = 1%Z.
Proof.
  assert (∃ os s, workRun demo_md newStream (demo_open ++ [(demo_node demo_ready 60, Ev_Frame demo_net)]) =
            Some (os, s, None) ∧ s.(ws_inflight) = 1%Z) as (os & s & H & Hi).
  { eexists _, _. split; vm_compute; reflexivity. }
  exists os, s. split; [exact H|]. split; [|exact Hi].
  pose proof (work_credit_window demo_md _ os s None H) as Hw.
  destruct Hw as [Hw _]; [by vm_compute|]. etransitivity; [exact Hw|]. by vm_compute.
Defined.
