(* ===== verification/DemoCmd.v ===== *)
(** * The fairness demo ([cmdDemo])

    The [demo] command publishes a flood to one group and a few messages to another
    over the broker's service, without interceptors, drains both through a work
    stream of credit one, and reports the order.  The client and the stream's
    handler take turns: a frame is handled, then everything sent is received. *)

From S2P Require Import Prelude GoStrings Keys Data Store Float GoNumbers Publish Workflow Broker Control Auth Timers Fsm Demo Commands Fairness Meter Policy Scheduler SchedulerProps Hash Node NodeControl NodeOps NodeStats NodeWorkflow NodeAuth NodeProps NodeDemo NodeAuthProps Transport Work.

Definition demoLane : bytes := bs "demo".
Definition demoNA : nat := 500.
Definition demoNB : nat := 20.

Section demo.
Context {PC : PayloadCodec} {PE : PolicyEngines} {W : World} {T : Text}.

Definition demoSpec (group : bytes) (i : nat) : MessageSpec :=
  mkMessageSpec demoLane group (group ++ bs "-" ++ utoa (N.of_nat i)) ∅ NBNone 0 None None None [] false [].
Fixpoint demoPublish (group : bytes) (count i : nat) : NM unit :=
  match count with
  | O => mret ()
  | S count' => Broker_Publish (Some (demoSpec group i));; demoPublish group count' (S i)
  end.
(** The handler takes a frame: what it sends; an error once the call has ended. *)
Definition demoServe (m : WorkClientMsg) (s : stream) : NM (list WorkServerMsg * stream) :=
  f ← onFrame m s;
  let '(os, s, e) := f in
  match e with
  | Some (Err e) => nfail e
  | Some (Ok _) => nfail EOF
  | None =>
      a ← afterSelect (λ _, (true, true)) s;
      let '(os', s, e) := a in
      match e with Some (Err e) => nfail e | Some (Ok _) => nfail EOF | None => mret (os ++ os', s) end
  end.
(** The leases among what was received, in order. *)
Definition leasesIn (os : list WorkServerMsg) : list LeaseResult :=
  omap (λ o, match o with Srv_Lease lr => Some lr | _ => None end) os.
(** The client's loop: acknowledge every lease, until [total] have come.  [sent] are
    the frames under way to the server.  [None]: it waits for ever, or out of fuel. *)
Fixpoint demoLoop (fuel total : nat) (sent : list WorkClientMsg) (s : stream) (order : list bytes) :
    NM (option (list bytes)) :=
  if (total <=? length order)%nat then mret (Some (take total order))
  else
    match fuel, sent with
    | O, _ | _, [] => mret None
    | S fuel', m :: sent' =>
        r ← demoServe m s;
        let ls := leasesIn r.1 in
        demoLoop fuel' total (sent' ++ (Msg_Ack ∘ lr_LeaseID <$> ls)) r.2 (order ++ (lr_GroupID <$> ls))
    end.
(** The place after the last delivery to B. *)
Fixpoint lastB (i : nat) (order : list bytes) : nat :=
  match order with
  | [] => 0
  | g :: order' => Nat.max (if bool_decide (g = bs "B") then S i else 0) (lastB (S i) order')
  end.
Definition demoReport (nA nB : nat) (order : list bytes) : bytes :=
  let num n := utoa (N.of_nat n) in
  let first := Nat.min 40 (length order) in
  bs "first " ++ num first ++ bs " served: " ++ mjoin ((λ g, g ++ bs " ") <$> take first order) ++ [chr 10] ++
  bs "group B's " ++ num nB ++ bs " messages were all delivered within the first " ++ num (lastB 0 order) ++
  bs " of " ++ num (nA + nB)%nat ++ bs " total deliveries." ++ [chr 10] ++
  (if (lastB 0 order <=? 3 * nB)%nat
   then bs "PASS: the 500-message group did not head-of-line-block the 20-message group."
   else bs "WARN: group B finished later than expected for a 1:1 interleave.") ++ [chr 10].
Definition cmdDemo (nA nB : nat) : NM (option (list bytes * bytes)) :=
  demoPublish (bs "A") nA 0;;
  demoPublish (bs "B") nB 0;;
  let request := Msg_LeaseRequest (mkLeaseRequest demoLane 1 [] [] demoLane) in
  order ← demoLoop (S (nA + nB)) (nA + nB) [request] newStream [];
  mret ((λ order, (order,
    bs "rota demo: publishing " ++ utoa (N.of_nat nA) ++ bs " messages to group A and " ++ utoa (N.of_nat nB) ++
    bs " to group B in lane " ++ [chr 34] ++ demoLane ++ [chr 34] ++ [chr 10] ++ demoReport nA nB order)) <$> order).
End demo.

(** ** A world for it: the commands the demo proposes, in bytes *)
Definition drill_plain (p : PublishCmd) : bool :=
  bool_decide (p.(p_Headers) = ∅) && f64_eqb p.(p_Weight) f64_zero && negb p.(p_HasWeight) && (p.(p_BatchSize) =? 0) &&
  negb p.(p_HasBatch) && (p.(p_MaxAttempts) =? 0) && (p.(p_TtlExpiryMs) =? 0) && negb p.(p_IssueToken) &&
  negb (nonempty p.(p_ExternalToken)) && negb (nonempty p.(p_DedupKey)) && (p.(p_DedupExpiryMs) =? 0).
Definition drill_marshal (c : Command) : result bytes :=
  match c.(c_Publish), c.(c_Lease), c.(c_Ack) with
  | Some p, _, _ =>
      if drill_plain p
      then Ok (chr 80 :: u64be p.(p_NotBeforeMs) ++ u64be p.(p_NowMs) ++ esc p.(p_Lane) ++ esc p.(p_GroupID) ++ p.(p_Payload))
      else Err (bs "unsupported")
  | _, Some l, _ =>
      Ok (chr 76 :: u64be l.(l_DeadlineMs) ++ u64be l.(l_MaxLifeMs) ++ esc l.(l_Lane) ++ esc l.(l_GroupID) ++ l.(l_ConsumerID))
  | _, _, Some a => Ok (chr 65 :: u64be a.(a_LeaseID))
  | _, _, _ => Err (bs "unsupported")
  end.
Definition drill_decode (b : bytes) : option Command :=
  match b with
  | "P"%char :: b =>
      '(nb, b) ← take64 b; '(now, b) ← take64 b; '(lane, b) ← unesc b; '(group, payload) ← unesc b;
      Some (cmd_Publish (mkPublishCmd lane group payload ∅ f64_zero false 0 false 0 nb 0 now false [] [] 0))
  | "L"%char :: b =>
      '(dl, b) ← take64 b; '(ml, b) ← take64 b; '(lane, b) ← unesc b; '(group, consumer) ← unesc b;
      Some (cmd_Lease (mkLeaseCmd lane group consumer dl ml))
  | "A"%char :: b => '(id, _) ← take64 b; Some (cmd_Ack (mkAckCmd id))
  | _ => None
  end.
#[local] Instance drill_world : World := {|
  world := demo_state;
  now_ms w := (w.(dw_time), mkdemo (w.(dw_time) + 1) w.(dw_next));
  rand_Read k w := (Ok (replicate k "r"%char), w);
  raft_Apply _ w := (mkraftReply [] (Ok w.(dw_next)), mkdemo w.(dw_time) (w.(dw_next) + 1));
  raft_IsLeader _ := true;
  raft_LeaderWithID _ := (bs "addr", bs "demo");
  raft_term _ := Some 1; raft_GetConfiguration _ := Ok [(bs "demo", bs "addr", true)];
  limiter := unit; NewLimiter _ _ := tt; limiter_Allow _ w := (true, tt, w);
  cron_schedule := unit; ParseStandard _ := Ok tt; cron_Next _ now := (now / 1000 + 1) * 1000;
  marshal_cmd := drill_marshal; unmarshal_cmd := drill_decode;
  marshal_binding _ := Err []; unmarshal_binding _ := None
|}.
Definition drill_node : Node := Open (mkConfig (bs "/tmp/rota-demo") (bs "demo") 0 0 0 [] [] false [] ∅) ∅ (mkdemo 1000 1).
Definition drill (nA nB : nat) : option (list bytes * nat) :=
  match cmdDemo nA nB drill_node with
  | Some (Ok (Some (order, _)), _) => Some (order, lastB 0 order)
  | _ => None
  end.
(** A small run of the demo passes: the groups alternate until B is drained, then A
    has the stream to itself. *)
Example demo_interleaves :
  drill 30 3 = Some (mjoin (replicate 3 [bs "A"; bs "B"]) ++ replicate 27 (bs "A"), 6%nat).
Proof. vm_compute. reflexivity. Qed.
