(* ===== verification/HttpProps.v ===== *)
(** * Theorems on the dashboard gateway

    An HTTP route stands for a method of the gRPC services: it reaches that
    method, under the same authorization checks and the same leader guard. *)

From S2P Require Import Prelude GoStrings Keys Data Store Float Publish Workflow Broker Control Auth Timers Fsm Commands Fairness Meter Policy Scheduler Hash Node NodeControl NodeOps NodeStats NodeWorkflow NodeAuth Observatory Transport Work Http TransportProps Demo NodeProps NodeDemo NodeAuthProps NodeLease WorkProps.

(** ** Routing *)
Lemma CutSuffix_app x suf : CutSuffix (x ++ suf) suf = Some x.
Proof.
  unfold CutSuffix. rewrite length_app. replace (length x + length suf - length suf)%nat with (length x) by lia.
  rewrite drop_app_length, take_app_length, bool_decide_eq_true_2, andb_true_r by done.
  by rewrite (proj2 (Nat.leb_le _ _)) by lia.
Qed.
Lemma CutSuffix_Some x suf y : CutSuffix x suf = Some y → x = y ++ suf.
Proof.
  unfold CutSuffix. destruct (_ && _) eqn:E; [|done]. intros [= <-].
  apply andb_true_iff in E as [_ E%bool_decide_eq_true].
  rewrite <-E at 2. by rewrite take_drop.
Qed.

(** Two endings that differ read from the right. *)
Definition clash (s1 s2 : bytes) : bool :=
  let k := Nat.min (length s1) (length s2) in
  negb (bool_decide (take k (reverse s1) = take k (reverse s2))).
Lemma CutSuffix_clash x s1 s2 : clash s1 s2 = true → CutSuffix (x ++ s1) s2 = None.
Proof.
  unfold clash. intros Hc%negb_true_iff%bool_decide_eq_false.
  destruct (CutSuffix _ s2) as [y|] eqn:E; [|done]. exfalso. apply Hc.
  apply CutSuffix_Some in E. apply (f_equal reverse) in E. rewrite !reverse_app in E.
  set (k := Nat.min _ _). assert (k ≤ length (reverse s1) ∧ k ≤ length (reverse s2))%nat as [H1 H2].
  { rewrite !length_reverse. unfold k. lia. }
  apply (f_equal (take k)) in E. by rewrite !take_app_le in E.
Qed.

Lemma matchLane_hit lane suf rt routes : lane ≠ [] →
  matchLane (lane ++ slash :: suf) ((suf, rt) :: routes) = Some (rt, lane).
Proof. intros Hl. cbn [matchLane]. rewrite CutSuffix_app. by destruct lane. Qed.
Lemma matchLane_miss lane suf suf' rt routes : clash (slash :: suf) (slash :: suf') = true →
  matchLane (lane ++ slash :: suf) ((suf', rt) :: routes) = matchLane (lane ++ slash :: suf) routes.
Proof. intros Hc. cbn [matchLane]. by rewrite CutSuffix_clash. Qed.

(** Every lane route is found, whatever slashes the lane's name has. *)
Lemma matchLane_route lane suf rt : (suf, rt) ∈ laneRoutes → lane ≠ [] →
  matchLane (lane ++ slash :: suf) laneRoutes = Some (rt, lane).
Proof.
  unfold laneRoutes. intros Hin Hl.
  repeat (apply elem_of_cons in Hin as [[= -> ->]|Hin];
    [repeat (rewrite matchLane_miss by done); by apply matchLane_hit|]).
  by apply not_elem_of_nil in Hin.
Qed.

Definition peek_tail (group : bytes) : bytes := bs "/groups/" ++ group ++ bs "/messages".
Lemma matchLane_peek lane group : matchLane (lane ++ peek_tail group) laneRoutes = None.
Proof.
  unfold peek_tail. rewrite !app_assoc. unfold laneRoutes. cbn [matchLane].
  by rewrite !CutSuffix_clash.
Qed.

Lemma strLastIndex_group group : slash ∉ group → strLastIndex (group ++ bs "/messages") (bs "/groups/") = None.
Proof.
  induction group as [|c group IH]; intros Hs; [done|]. apply not_elem_of_cons in Hs as [Hc Hs].
  cbn [app strLastIndex]. rewrite IH by done. cbn [has_prefix bs String.list_ascii_of_string].
  by rewrite bool_decide_eq_false_2.
Qed.
Lemma has_prefix_group group : slash ∉ group → group ≠ bs "groups" →
  has_prefix (bs "groups/") (group ++ bs "/messages") = false.
Proof.
  intros Hs Hne. apply not_true_iff_false. intros [r E]%has_prefix_spec. apply Hne.
  assert (H : ∀ (p q r1 r2 : bytes), slash ∉ p → slash ∉ q → p ++ slash :: r1 = q ++ slash :: r2 → p = q).
  { intros p. induction p as [|a p IH]; intros [|b q] r1 r2 Hp Hq; cbn; [done|..].
    - intros [= <- _]. by destruct Hq; left.
    - intros [= -> _]. by destruct Hp; left.
    - intros [= -> E']. f_equal. apply not_elem_of_cons in Hp as [_ Hp], Hq as [_ Hq]. eauto. }
  apply (H group (bs "groups") (bs "messages") r); [done| |exact E]. by vm_compute; set_solver.
Qed.
Lemma strLastIndex_peek lane group : slash ∉ group → group ≠ bs "groups" →
  strLastIndex (lane ++ peek_tail group) (bs "/groups/") = Some (length lane).
Proof.
  intros Hs Hne. induction lane as [|c lane IH]; cbn [app length].
  - unfold peek_tail. cbn [bs String.list_ascii_of_string app strLastIndex].
    fold (bs "/messages"). rewrite (strLastIndex_group group Hs) at 1.
    pose proof (has_prefix_group group Hs Hne) as Hp. cbn in Hp |- *. by rewrite Hp.
  - cbn [strLastIndex]. by rewrite IH.
Qed.
Lemma matchPeek_route lane group : lane ≠ [] → group ≠ [] → slash ∉ group → group ≠ bs "groups" →
  matchPeek (lane ++ peek_tail group) = Some (Some (lane, group)).
Proof.
  intros Hl Hg Hs Hne. unfold matchPeek. rewrite strLastIndex_peek by done.
  assert (Hsuf : HasSuffix (lane ++ peek_tail group) (bs "/messages") = true).
  { unfold HasSuffix, peek_tail. rewrite !app_assoc, CutSuffix_app. by rewrite bool_decide_eq_true_2. }
  rewrite Hsuf. destruct (Nat.ltb_spec 0 (length lane)) as [_|?]; [|destruct lane; cbn in *; [done|lia]].
  cbn [andb]. unfold peek_tail. rewrite !length_app. change (length (bs "/groups/")) with 8%nat.
  change (length (bs "/messages")) with 9%nat.
  replace (length lane + (8 + (length group + 9)) - 9)%nat with (length lane + 8 + length group)%nat by lia.
  destruct (Nat.ltb_spec (length lane + 8 + length group) (length lane + 8)) as [?|_]; [lia|].
  replace (length lane + 8 + length group - (length lane + 8))%nat with (length group) by lia.
  rewrite take_app_length, <-drop_drop, drop_app_length.
  change (drop 8 (bs "/groups/" ++ group ++ bs "/messages")) with (group ++ bs "/messages").
  rewrite take_app_length, bool_decide_eq_false_2 by done. by destruct group.
Qed.

Lemma strLastIndex_app p x sub i : strLastIndex x sub = Some i → strLastIndex (p ++ x) sub = Some (length p + i)%nat.
Proof. intros E. induction p as [|c p IH]; [done|]. cbn [app strLastIndex]. by rewrite IH. Qed.
(** The group "groups": the last ["/groups/"] is not the route's. *)
Lemma matchPeek_groups lane : matchPeek (lane ++ peek_tail (bs "groups")) = Some None.
Proof.
  unfold matchPeek. rewrite (strLastIndex_app lane (peek_tail (bs "groups")) (bs "/groups/") 7 eq_refl).
  assert (Hsuf : HasSuffix (lane ++ peek_tail (bs "groups")) (bs "/messages") = true).
  { unfold HasSuffix, peek_tail. rewrite !app_assoc, CutSuffix_app. by rewrite bool_decide_eq_true_2. }
  rewrite Hsuf, length_app. change (length (peek_tail (bs "groups"))) with 23%nat.
  destruct (Nat.ltb_spec 0 (length lane + 7)) as [_|?]; [|lia]. cbn [andb].
  destruct (Nat.ltb_spec (length lane + 23 - 9) (length lane + 7 + 8)) as [_|?]; [done|lia].
Qed.

(** ** Run ids in paths *)
Lemma trimLeft_id x : head x ≠ Some slash → trimLeft x = x.
Proof. destruct x as [|c x]; [done|]. cbn. intros H. by rewrite bool_decide_eq_false_2 by congruence. Qed.
Lemma trimSlashes_run t tail : t ≠ [] → slash ∉ t → head (reverse tail) ≠ Some slash →
  trimSlashes (slash :: t ++ tail) = t ++ tail.
Proof.
  intros Ht Hs Htail. unfold trimSlashes. cbn [trimLeft]. rewrite bool_decide_eq_true_2 by done.
  rewrite (trimLeft_id (t ++ tail)).
  2:{ destruct t as [|c t]; [done|]. cbn. intros [= ->]. apply Hs. by left. }
  rewrite trimLeft_id; [apply reverse_involutive|]. rewrite reverse_app.
  destruct (reverse tail) as [|c r] eqn:Er; [|by cbn in *].
  cbn [app]. destruct (reverse t) as [|c r] eqn:Et; [done|]. cbn. intros [= ->].
  apply Hs, elem_of_reverse. rewrite Et. by left.
Qed.
Section http.
Context {PC : PayloadCodec} {PE : PolicyEngines} {W : World} {T : Text} {HB : HttpBodies}.
Implicit Types (n : Node) (r : HttpRequest).

(** ** The method a request stands for *)
Definition lanePath (lane tail : bytes) : bytes := bs "/api/lanes/" ++ lane ++ tail.
Definition runPath (t tail : bytes) : bytes := bs "/api/workflows/" ++ t ++ tail.
Definition run_id (t : bytes) (id : N) : Prop := slash ∉ t ∧ ParseUint two64 t = Some id.
Definition GET r : Prop := r.(hr_Method) = bs "GET".
Definition POST r : Prop := r.(hr_Method) = bs "POST".
Definition page_of r : N := parseU32 (qGet r (bs "page_size")).

Inductive stands_for r : Request → Prop :=
  | St_cluster : GET r → r.(hr_Path) = bs "/api/cluster" → stands_for r Req_DescribeCluster
  | St_health : GET r → r.(hr_Path) = bs "/api/health" → stands_for r Req_Health
  | St_stats : GET r → r.(hr_Path) = bs "/api/stats" →
      stands_for r (Req_GetStats (qGet r (bs "lane")) (qGet r (bs "group_id")))
  | St_groups lane : GET r → lane ≠ [] → r.(hr_Path) = lanePath lane (bs "/groups") →
      stands_for r (Req_ListGroups lane (page_of r) (qGet r (bs "page_token")))
  | St_dlq lane : GET r → lane ≠ [] → r.(hr_Path) = lanePath lane (bs "/dlq") →
      stands_for r (Req_ListDeadLetters lane (page_of r) (qGet r (bs "page_token")))
  | St_leases lane : GET r → lane ≠ [] → r.(hr_Path) = lanePath lane (bs "/leases") →
      stands_for r (Req_ListLeases lane (page_of r) (qGet r (bs "page_token")))
  | St_fairness lane : GET r → lane ≠ [] → r.(hr_Path) = lanePath lane (bs "/fairness") →
      stands_for r (Req_GetLaneFairness lane)
  | St_peek lane group : GET r → lane ≠ [] → group ≠ [] → slash ∉ group → group ≠ bs "groups" →
      r.(hr_Path) = lanePath lane (peek_tail group) →
      stands_for r (Req_PeekMessages lane group (parseU32 (qGet r (bs "limit"))))
  | St_redrive lane b : POST r → lane ≠ [] → r.(hr_Path) = lanePath lane (bs "/dlq/redrive") →
      decode_redrive r.(hr_Body) = Ok b → stands_for r (Req_RedriveDeadLetter lane b.1 b.2)
  | St_policyHealth lane : GET r → lane ≠ [] → r.(hr_Path) = bs "/api/policy/" ++ lane ++ bs "/health" →
      stands_for r (Req_GetPolicyHealth lane)
  | St_listRuns : GET r → r.(hr_Path) = bs "/api/workflows" →
      let st := WorkflowStatus_value (qGet r (bs "status")) in
      stands_for r (Req_ListWorkflowRuns (default WF_PENDING st) (bool_decide (is_Some st)) (page_of r)
                      (qGet r (bs "page_token")))
  | St_start ty tenant input : POST r → r.(hr_Path) = bs "/api/workflows" →
      decode_start r.(hr_Body) = Ok (ty, tenant, input) → stands_for r (Req_StartWorkflow ty tenant input)
  | St_getRun t id : GET r → run_id t id → r.(hr_Path) = runPath t [] → stands_for r (Req_GetWorkflowRun id)
  | St_history t id : GET r → run_id t id → r.(hr_Path) = runPath t (bs "/history") →
      stands_for r (Req_GetWorkflowHistory id)
  | St_signal t id b : POST r → run_id t id → r.(hr_Path) = runPath t (bs "/signal") →
      decode_signal r.(hr_Body) = Ok b → stands_for r (Req_SignalWorkflow id b.1 b.2)
  | St_cancel t id : POST r → run_id t id → r.(hr_Path) = runPath t (bs "/cancel") →
      stands_for r (Req_CancelWorkflow id (qGet r (bs "reason"))).

(** ** Guards *)
Definition httpDecision r req n : AuthDecision :=
  let db := n.(n_fsm).(fsm_s) in AuthorizeToken (httpAuthToken r) (checksForUnary req db) db.
Definition http_denial (d : AuthDecision) : HttpResponse :=
  if d.(ad_Known) then H_Error StatusForbidden (bs "rota auth token lacks permission")
  else H_Error StatusUnauthorized (bs "missing or invalid rota auth token").
Definition not_leader n : HttpResponse :=
  let id := (raft_LeaderWithID n.(n_world)).2 in H_NotLeader (default [] (n.(n_cfg).(cfg_GRPCAddrs) !! id)) id.

(** What the gateway answers for a method. *)
Definition gateway r req n : option (result HttpResponse * Node) :=
  let d := httpDecision r req n in
  if guarded req && negb (raft_IsLeader n.(n_world)) then Some (Ok (not_leader n), n)
  else if negb (negb d.(ad_Enabled) || d.(ad_Allowed)) then Some (Ok (http_denial d), n)
  else writeProto (handle req) n.

Lemma authorize_eq r checks k n : authorize r checks k n =
  let d := AuthorizeToken (httpAuthToken r) checks n.(n_fsm).(fsm_s) in
  if negb (negb d.(ad_Enabled) || d.(ad_Allowed)) then Some (Ok (http_denial d), n) else k n.
Proof.
  unfold authorize. rewrite nbind_store. cbv zeta. destruct (_ || _); [done|].
  unfold http_denial. by destruct (ad_Known _).
Qed.
Lemma requireLeader_http k n : http_requireLeader k n =
  if negb (raft_IsLeader n.(n_world)) then Some (Ok (not_leader n), n) else k n.
Proof. unfold http_requireLeader, IsLeader. rewrite nbind_get. by destruct (raft_IsLeader _). Qed.
Lemma authorizeWorkflowRun_eq r a id k n :
  authorizeWorkflowRun r a id k n = authorize r (checksForRun a id n.(n_fsm).(fsm_s)) k n.
Proof. done. Qed.

(** A read, and a write. *)
Lemma gateway_read r req n k : guarded req = false → k = writeProto (handle req) →
  authorize r (checksForUnary req n.(n_fsm).(fsm_s)) k n = gateway r req n.
Proof. intros Hg ->. rewrite authorize_eq. unfold gateway. rewrite Hg. done. Qed.
Lemma gateway_write r req n k : guarded req = true → k = writeProto (handle req) →
  http_requireLeader (authorize r (checksForUnary req n.(n_fsm).(fsm_s)) k) n = gateway r req n.
Proof.
  intros Hg ->. rewrite requireLeader_http, authorize_eq. unfold gateway. rewrite Hg. cbn [andb].
  by destruct (negb _).
Qed.

Lemma gateway_run_write r req n a id k : guarded req = true → checksForUnary req n.(n_fsm).(fsm_s) = checksForRun a id n.(n_fsm).(fsm_s) →
  k = writeProto (handle req) → http_requireLeader (authorizeWorkflowRun r a id k) n = gateway r req n.
Proof.
  intros Hg Hc Hk. rewrite <-(gateway_write r req n k Hg Hk), !requireLeader_http, authorizeWorkflowRun_eq.
  by rewrite Hc.
Qed.
#[local] Ltac as_read :=
  match goal with |- _ = gateway ?r ?q ?n => by apply (gateway_read r q n) end.
#[local] Ltac as_write :=
  match goal with |- _ = gateway ?r ?q ?n => by apply (gateway_write r q n) end.

(** ** The mux *)
Lemma TrimPrefix_app p x : TrimPrefix (p ++ x) p = x.
Proof. unfold TrimPrefix. by rewrite has_prefix_app, drop_app_length. Qed.

Lemma mux_cluster r : r.(hr_Path) = bs "/api/cluster" → httpHandler r = http_cluster r.
Proof. intros E. unfold httpHandler. by rewrite E. Qed.
Lemma mux_health r : r.(hr_Path) = bs "/api/health" → httpHandler r = http_health r.
Proof. intros E. unfold httpHandler. by rewrite E. Qed.
Lemma mux_stats r : r.(hr_Path) = bs "/api/stats" → httpHandler r = http_stats r.
Proof. intros E. unfold httpHandler. by rewrite E. Qed.
Lemma mux_lanes r lane tail : r.(hr_Path) = lanePath lane tail → httpHandler r = http_lanes r.
Proof.
  intros E. unfold httpHandler. cbv zeta. rewrite E. unfold lanePath.
  rewrite !(bool_decide_eq_false_2 _) by (cbn; congruence). by rewrite has_prefix_app.
Qed.
Lemma mux_policy r x : r.(hr_Path) = bs "/api/policy/" ++ x → httpHandler r = http_policy r.
Proof.
  intros E. unfold httpHandler. cbv zeta. rewrite E.
  rewrite !(bool_decide_eq_false_2 _) by (cbn; congruence).
  change (has_prefix (bs "/api/lanes/") _) with false. by rewrite has_prefix_app.
Qed.
Lemma mux_workflows r x : r.(hr_Path) = bs "/api/workflows" ++ x → x = [] ∨ (∃ y, x = slash :: y) →
  httpHandler r = http_workflows r.
Proof.
  intros E Hx. unfold httpHandler. cbv zeta. rewrite E.
  rewrite !(bool_decide_eq_false_2 (_ = bs "/api/cluster")), !(bool_decide_eq_false_2 (_ = bs "/api/health")),
    !(bool_decide_eq_false_2 (_ = bs "/api/stats")) by (cbn; congruence).
  change (has_prefix (bs "/api/lanes/") _) with false. change (has_prefix (bs "/api/policy/") _) with false.
  destruct Hx as [->|[y ->]]; [done|]. change (bs "/api/workflows" ++ slash :: y) with (bs "/api/workflows/" ++ y).
  by rewrite has_prefix_app, orb_true_r.
Qed.

Lemma http_get_GET r k : GET r → http_get r k = k.
Proof. intros E. unfold http_get. by rewrite bool_decide_eq_true_2. Qed.
Lemma is_GET r : GET r → bool_decide (r.(hr_Method) = bs "GET") = true.
Proof. intros E. by apply bool_decide_eq_true_2. Qed.
Lemma is_POST r : POST r →
  bool_decide (r.(hr_Method) = bs "GET") = false ∧ bool_decide (r.(hr_Method) = bs "POST") = true.
Proof. unfold POST. intros ->. done. Qed.

(** ** A lane's routes *)
Lemma lanes_route r lane suf rt : (suf, rt) ∈ laneRoutes → lane ≠ [] → r.(hr_Path) = lanePath lane (slash :: suf) →
  httpHandler r =
  match rt with
  | R_fairnessStream => http_fairnessStream r lane
  | R_fairness => http_fairness r lane
  | R_groups => http_listGroups r lane
  | R_redrive => http_redrive r lane
  | R_dlq => http_listDLQ r lane
  | R_leases => http_listLeases r lane
  end.
Proof.
  intros Hin Hl E. rewrite (mux_lanes _ _ _ E). unfold http_lanes. rewrite E. unfold lanePath. cbv zeta.
  rewrite TrimPrefix_app, (matchLane_route _ _ _ Hin Hl). by destruct rt.
Qed.
Lemma peek_route r lane group : lane ≠ [] → group ≠ [] → slash ∉ group → group ≠ bs "groups" →
  r.(hr_Path) = lanePath lane (peek_tail group) → httpHandler r = http_peekMessages r lane group.
Proof.
  intros Hl Hg Hs Hne E. rewrite (mux_lanes _ _ _ E). unfold http_lanes. rewrite E. unfold lanePath. cbv zeta.
  by rewrite TrimPrefix_app, matchLane_peek, matchPeek_route.
Qed.
Lemma peek_groups_route r lane : lane ≠ [] →
  r.(hr_Path) = lanePath lane (peek_tail (bs "groups")) → httpHandler r = ncrash.
Proof.
  intros Hl E. rewrite (mux_lanes _ _ _ E). unfold http_lanes. rewrite E. unfold lanePath. cbv zeta.
  by rewrite TrimPrefix_app, matchLane_peek, matchPeek_groups.
Qed.
Lemma policy_route r lane : lane ≠ [] → r.(hr_Path) = bs "/api/policy/" ++ lane ++ bs "/health" →
  httpHandler r = http_policyHealth r lane.
Proof.
  intros Hl E. rewrite (mux_policy _ _ E). unfold http_policy. rewrite E, TrimPrefix_app, CutSuffix_app.
  by destruct lane.
Qed.

(** ** A run's routes *)
Lemma run_nonempty t id : run_id t id → t ≠ [].
Proof. by intros [_ H] ->. Qed.
Lemma run_rest t id tail : run_id t id → head (reverse tail) ≠ Some slash →
  trimSlashes (TrimPrefix (runPath t tail) (bs "/api/workflows")) = t ++ tail.
Proof.
  intros Hid Ht. unfold runPath.
  change (bs "/api/workflows/" ++ t ++ tail) with (bs "/api/workflows" ++ slash :: t ++ tail).
  rewrite TrimPrefix_app. apply trimSlashes_run; [by eapply run_nonempty|apply Hid|done].
Qed.
Lemma run_route r t id : run_id t id → GET r → r.(hr_Path) = runPath t [] →
  httpHandler r = authorizeWorkflowRun r AUTH_READ id (writeProto (Workflow_GetWorkflowRun id)).
Proof.
  intros Hid Hg E. rewrite (mux_workflows r (slash :: t ++ [])) by eauto. unfold http_workflows.
  rewrite E, (run_rest _ _ _ Hid), app_nil_r, (splitOn_one slash t), (proj2 Hid), is_GET by (try apply Hid; done).
  pose proof (run_nonempty _ _ Hid). by destruct t.
Qed.
Lemma run_verb_route r t id verb : run_id t id → slash ∉ verb → verb ≠ [] → r.(hr_Path) = runPath t (slash :: verb) →
  httpHandler r =
  (if bool_decide (verb = bs "history") && bool_decide (r.(hr_Method) = bs "GET")
   then authorizeWorkflowRun r AUTH_READ id (writeProto (Workflow_GetWorkflowHistory id))
   else if bool_decide (verb = bs "signal") && bool_decide (r.(hr_Method) = bs "POST") then http_signalWorkflow r id
   else if bool_decide (verb = bs "cancel") && bool_decide (r.(hr_Method) = bs "POST") then http_cancelWorkflow r id
   else mret NotFound).
Proof.
  intros Hid Hv Hne E. rewrite (mux_workflows r (slash :: t ++ slash :: verb)) by eauto. unfold http_workflows.
  rewrite E, (run_rest _ _ _ Hid).
  2:{ rewrite reverse_cons. destruct (reverse verb) as [|c v] eqn:Ev.
      - by apply (f_equal reverse) in Ev; rewrite reverse_involutive in Ev.
      - cbn. intros [= ->]. apply Hv, elem_of_reverse. rewrite Ev. by left. }
  rewrite (splitOn_app slash t), (splitOn_one slash verb), (proj2 Hid) by (try apply Hid; done).
  pose proof (run_nonempty _ _ Hid). by destruct t.
Qed.
Lemma runs_route r : r.(hr_Path) = bs "/api/workflows" →
  httpHandler r =
  (if bool_decide (r.(hr_Method) = bs "GET") then http_listWorkflowRuns r
   else if bool_decide (r.(hr_Method) = bs "POST") then http_startWorkflow r
   else mret methodNotAllowed).
Proof.
  intros E. rewrite (mux_workflows r []) by eauto. unfold http_workflows. by rewrite E.
Qed.

Lemma route_gateway r req n : stands_for r req → httpHandler r n = gateway r req n.
Proof.
  intros [Hg E|Hg E|Hg E|lane Hg Hl E|lane Hg Hl E|lane Hg Hl E|lane Hg Hl E|lane group Hg Hl Hgr Hs Hne E
    |lane b Hp Hl E Hb|lane Hg Hl E|Hg E|ty tenant input Hp E Hb|t id Hg Hid E|t id Hg Hid E|t id b Hp Hid E Hb
    |t id Hp Hid E].
  - rewrite (mux_cluster r E). unfold http_cluster. rewrite http_get_GET by done. as_read.
  - rewrite (mux_health r E). unfold http_health. rewrite http_get_GET by done. as_read.
  - rewrite (mux_stats r E). unfold http_stats. rewrite http_get_GET by done. as_read.
  - rewrite (lanes_route r lane (bs "groups") R_groups) by (done || set_solver).
    unfold http_listGroups. rewrite http_get_GET by done. as_read.
  - rewrite (lanes_route r lane (bs "dlq") R_dlq) by (done || set_solver).
    unfold http_listDLQ. rewrite http_get_GET by done. as_read.
  - rewrite (lanes_route r lane (bs "leases") R_leases) by (done || set_solver).
    unfold http_listLeases. rewrite http_get_GET by done. as_read.
  - rewrite (lanes_route r lane (bs "fairness") R_fairness) by (done || set_solver).
    unfold http_fairness. rewrite http_get_GET by done. as_read.
  - rewrite (peek_route r lane group) by done. unfold http_peekMessages. rewrite http_get_GET by done.
    as_read.
  - rewrite (lanes_route r lane (bs "dlq/redrive") R_redrive) by (done || set_solver).
    unfold http_redrive. rewrite (proj2 (is_POST r Hp)), Hb. as_write.
  - rewrite (policy_route r lane) by done. unfold http_policyHealth. rewrite http_get_GET by done.
    as_read.
  - rewrite (runs_route r E), (is_GET r Hg). as_read.
  - rewrite (runs_route r E), (proj1 (is_POST r Hp)), (proj2 (is_POST r Hp)).
    unfold http_startWorkflow. rewrite Hb. as_write.
  - rewrite (run_route r t id) by done. as_read.
  - rewrite (run_verb_route r t id (bs "history")), (is_GET r Hg) by (done || vm_compute; set_solver).
    as_read.
  - rewrite (run_verb_route r t id (bs "signal")), (proj1 (is_POST r Hp)), (proj2 (is_POST r Hp)) by (done || vm_compute; set_solver).
    change (bool_decide (bs "signal" = bs "signal")) with true. rewrite andb_false_r. cbn [andb].
    unfold http_signalWorkflow. rewrite Hb. by apply (gateway_run_write r (Req_SignalWorkflow id b.1 b.2)).
  - rewrite (run_verb_route r t id (bs "cancel")), (proj1 (is_POST r Hp)), (proj2 (is_POST r Hp)) by (done || vm_compute; set_solver).
    change (bool_decide (bs "cancel" = bs "signal")) with false.
    change (bool_decide (bs "cancel" = bs "cancel")) with true. rewrite andb_false_r. cbn [andb].
    by apply (gateway_run_write r (Req_CancelWorkflow id (qGet r (bs "reason")))).
Qed.

(** C13: The dashboard's gateway is the gRPC service behind another door.  A request
    whose path and method name one of the sixteen routes (whatever slashes the
    lane's name has; a run's id is its decimal digits; the arguments are the query
    parameters, cancel's reason included, and the JSON body of a redrive, a start
    or a signal) is answered exactly as the method it stands for, under the checks
    the gRPC interceptor derives for that method and the same leader guard for the
    methods that write.  The one exception is a peek of the group named "groups":
    whatever the method, the handler panics on its path. *)
Theorem http_matches_grpc r n :
  (∀ req, stands_for r req → httpHandler r n = gateway r req n) ∧
  (∀ lane, lane ≠ [] → r.(hr_Path) = lanePath lane (peek_tail (bs "groups")) → httpHandler r n = None).
Proof. split; [by intros req; apply route_gateway|]. intros lane Hl E. by rewrite (peek_groups_route r lane). Qed.

(** ** The fairness stream *)

(** A frame is self-consistent: every group the lane served recently has a share,
    the lane's own figures taking precedence. *)
Lemma frame_shares lane n f n' : emitServed lane n = Some (Ok f, n') →
  ∃ gs, f.(rf_Shares) = groupShares gs ∪ (servedShare f.(rf_TotalServed) <$> (snapshot lane n.(n_fairness)).(fs_Served)) ∧
  ∀ g, (snapshot lane n.(n_fairness)).(fs_Served) !! g ≠ None → f.(rf_Shares) !! g ≠ None.
Proof.
  unfold emitServed. rewrite nbind_get. intros H. apply nbind_inv in H as (lf & n1 & _ & H).
  apply ret_inv in H as [-> _]. eexists. cbn [rf_Shares rf_TotalServed]. split; [done|].
  intros g Hg. rewrite lookup_union_None, lookup_fmap, fmap_None. by intros [_ ?].
Qed.

(** A nudge and the next tick show what was served: no notification is lost. *)
Lemma nudge_then_tick lane id d n l : n.(n_fairness).(fp_subs) !! id = Some (mkfairnessSub l true) →
  ∃ n', sseStep lane id d S_nudge n = Some (Ok ([], Some true), n') ∧
        n'.(n_fairness).(fp_subs) !! id = Some (mkfairnessSub l false) ∧
        sseStep lane id true (S_tick true) n' = sseFrame lane true n'.
Proof.
  intros Hs. eexists. split_and!; [| |done].
  - unfold sseStep. rewrite nbind_get, Hs. done.
  - cbn. by rewrite lookup_insert, decide_True.
Qed.
End http.

(** ** Witness: the groups of lane "a/b" *)
#[export] Instance demo_http : HttpBodies := {|
  decode_redrive b := Ok (b, 1); decode_start b := Ok (b, bs "t", []); decode_signal b := Ok (b, []) |}.
Definition demo_get (path : bytes) : HttpRequest := mkHttpRequest (bs "GET") path ∅ [] [] [].
Lemma http_matches_grpc_witness :
  let r := demo_get (bs "/api/lanes/a/b/groups") in let n := demo_node ∅ 5 in
  stands_for r (Req_ListGroups (bs "a/b") 0 []) ∧
  httpHandler (W := demo_world) r n = gateway (W := demo_world) r (Req_ListGroups (bs "a/b") 0 []) n.
Proof.
  assert (Hr : stands_for (demo_get (bs "/api/lanes/a/b/groups")) (Req_ListGroups (bs "a/b") 0 [])).
  { exact (St_groups (demo_get (bs "/api/lanes/a/b/groups")) (bs "a/b") eq_refl ltac:(done) eq_refl). }
  split; [exact Hr|].
  apply (http_matches_grpc (W := demo_world) (demo_get (bs "/api/lanes/a/b/groups")) (demo_node ∅ 5)), Hr.
Defined.
