(* ===== verification/Paths.v ===== *)
(** * Paths and files ([path/filepath], [os])

    The part of the standard library the backup commands use, on Unix.  A file
    system maps the components of an absolute path to a directory or a file; there
    are no symbolic links, modes or I/O errors.  The kernel's view of a path string
    ([osPath]) resolves [.] and [..] lexically. *)

From S2P Require Import Prelude GoStrings.

Definition dot : bytes := bs ".".
Definition dotdot : bytes := bs "..".
Definition NUL : ascii := Ascii.zero.

(** ** [filepath] *)
Definition IsAbs (p : bytes) : bool := has_prefix [slash] p.
(** The components of a path without [.], empty components and resolved [..];
    [st] holds the ones read so far, last first. *)
Fixpoint norm (rooted : bool) (st parts : list bytes) : list bytes :=
  match parts with
  | [] => reverse st
  | c :: parts' =>
      if bool_decide (c = []) || bool_decide (c = dot) then norm rooted st parts'
      else if bool_decide (c = dotdot) then
        match st with
        | top :: st' => if bool_decide (top = dotdot) then norm rooted (c :: st) parts' else norm rooted st' parts'
        | [] => if rooted then norm rooted [] parts' else norm rooted [c] parts'
        end
      else norm rooted (c :: st) parts'
  end.
Definition absString (cs : list bytes) : bytes := slash :: joinOn slash cs.
Definition Clean (p : bytes) : bytes :=
  if IsAbs p then absString (norm true [] (splitOn slash p))
  else match norm false [] (splitOn slash p) with [] => dot | cs => joinOn slash cs end.
(** [filepath.Dir] *)
Definition Dir (p : bytes) : bytes :=
  match strLastIndex p [slash] with Some i => Clean (take (S i) p) | None => Clean [] end.
(** Empty elements are ignored. *)
Definition Join (a b : bytes) : bytes :=
  match filter (λ x, nonempty x = true) [a; b] with [] => [] | xs => Clean (joinOn slash xs) end.
Definition absParts (cwd : list bytes) (p : bytes) : list bytes :=
  norm true [] (splitOn slash (if IsAbs p then p else absString cwd ++ slash :: p)).
Definition Abs (cwd : list bytes) (p : bytes) : bytes := absString (absParts cwd p).

(** ** The file system *)
Inductive fnode := F_Dir | F_File (content : bytes).
Abbreviation files := (gmap (list bytes) fnode).
#[export] Instance fnode_eq_dec : EqDecision fnode.
Proof. solve_decision. Defined.

(** Where the kernel looks. *)
Definition osPath (cwd : list bytes) (p : bytes) : list bytes := absParts cwd p.

Fixpoint MkdirFrom (at_ todo : list bytes) (f : files) : result files :=
  match todo with
  | [] => Ok f
  | c :: todo' =>
      let at_ := at_ ++ [c] in
      match f !! at_ with
      | None => MkdirFrom at_ todo' (<[at_ := F_Dir]> f)
      | Some F_Dir => MkdirFrom at_ todo' f
      | Some (F_File _) => Err (bs "not a directory")
      end
  end.
Definition MkdirAll (p : list bytes) (f : files) : result files := MkdirFrom [] p f.
Definition dirOf (p : list bytes) : list bytes := take (length p - 1) p.
Definition isFile (x : fnode) : bool := match x with F_File _ => true | F_Dir => false end.
(** [O_CREATE|O_WRONLY|O_TRUNC] *)
Definition OpenFile (p : list bytes) (f : files) : result files :=
  match f !! p, f !! dirOf p with
  | Some F_Dir, _ => Err (bs "is a directory")
  | _, Some F_Dir => Ok (<[p := F_File []]> f)
  | _, Some (F_File _) => Err (bs "not a directory")
  | _, None => Err (bs "no such file or directory")
  end.
Definition RemoveAll (p : list bytes) (f : files) : files := filter (λ kv, ¬ p `prefix_of` kv.1) f.

(** The tree below a directory, by relative path. *)
Definition under (root p : list bytes) : option (list bytes) :=
  if bool_decide (root `prefix_of` p) && negb (bool_decide (p = root)) then Some (drop (length root) p) else None.
Definition below (root : list bytes) (f : files) : list (list bytes * fnode) :=
  omap (λ kv, (λ r, (r, kv.2)) <$> under root kv.1) (map_to_list f).
Definition subtree (root : list bytes) (f : files) : files := list_to_map (below root f).

(** [filepath.WalkDir]: depth first, the names of a directory in order, which is
    the lexicographic order of the component lists. *)
Fixpoint path_leb (p q : list bytes) : bool :=
  match p, q with
  | [], _ => true
  | _, [] => false
  | a :: p', b :: q' => if bool_decide (a = b) then path_leb p' q' else bool_decide (bytes_le a b)
  end.
Definition path_le (a b : list bytes * fnode) : Prop := (path_leb a.1 b.1 = true).
#[export] Instance path_le_dec : RelDecision path_le.
Proof. intros a b. unfold path_le. apply _. Defined.
Definition WalkDir (root : list bytes) (f : files) : list (list bytes * fnode) := merge_sort path_le (below root f).

(** ** Lemmas on strings *)
Lemma splitOn_join_app sep x y : splitOn sep (x ++ sep :: y) = splitOn sep x ++ splitOn sep y.
Proof.
  induction x as [|c x IH]; cbn [app splitOn]; [by rewrite bool_decide_eq_true_2|]. rewrite IH.
  case_bool_decide; [done|]. pose proof (splitOn_nonnil sep x). by destruct (splitOn sep x).
Qed.
Lemma splitOn_chars sep x p d : p ∈ splitOn sep x → d ∈ p → d ∈ x.
Proof.
  revert p. induction x as [|c x IH]; intros p; cbn [splitOn].
  { by intros ->%list_elem_of_singleton ?%elem_of_nil. }
  case_bool_decide.
  { intros [->|Hp]%elem_of_cons Hd; [by apply elem_of_nil in Hd|]. right. by apply (IH p). }
  pose proof (splitOn_nonnil sep x) as Hn. destruct (splitOn sep x) as [|q qs]; [done|].
  intros [->|Hp]%elem_of_cons Hd; [|right; apply (IH p); [by right|done]].
  apply elem_of_cons in Hd as [->|Hd]; [by left|]. right. apply (IH q); [by left|done].
Qed.
Lemma strLastIndex_none sep x : sep ∉ x → strLastIndex x [sep] = None.
Proof.
  induction x as [|c x IH]; intros Hx; [done|]. apply not_elem_of_cons in Hx as [Hc Hx]. cbn [strLastIndex has_prefix].
  by rewrite IH, bool_decide_eq_false_2.
Qed.
Lemma strLastIndex_last sep x y : sep ∉ y → strLastIndex (x ++ sep :: y) [sep] = Some (length x).
Proof.
  intros Hy. induction x as [|c x IH]; cbn [app strLastIndex has_prefix length]; [|by rewrite IH].
  by rewrite strLastIndex_none, bool_decide_eq_true_2.
Qed.

(** ** Lemmas on paths *)
(** A name [norm] keeps; what a component of a path is; what a directory holds. *)
Definition plain (c : bytes) : Prop := c ≠ [] ∧ c ≠ dot ∧ c ≠ dotdot.
Definition segment (c : bytes) : Prop := plain c ∧ slash ∉ c.
Definition proper (c : bytes) : Prop := segment c ∧ NUL ∉ c.
Definition wf_fs (f : files) : Prop :=
  f !! [] = Some F_Dir ∧ ∀ p c x, f !! (p ++ [c]) = Some x → f !! p = Some F_Dir ∧ proper c.

Lemma segments_plain cs : Forall segment cs → Forall plain cs.
Proof. intros H. eapply Forall_impl; [exact H|]. by intros c []. Qed.
Lemma segments_slash cs : Forall segment cs → Forall (λ c, slash ∉ c) cs.
Proof. intros H. eapply Forall_impl; [exact H|]. by intros c []. Qed.
Lemma propers_segment cs : Forall proper cs → Forall segment cs.
Proof. intros H. eapply Forall_impl; [exact H|]. by intros c []. Qed.
#[export] Hint Resolve segments_plain segments_slash propers_segment : core.
Lemma norm_plain r st cs more : Forall plain cs → norm r st (cs ++ more) = norm r (reverse cs ++ st) more.
Proof.
  revert st. induction cs as [|c cs IH]; intros st Hcs; [done|]. apply Forall_cons in Hcs as [(H1 & H2 & H3) Hcs].
  cbn [app norm]. rewrite !bool_decide_eq_false_2 by done. cbn [orb].
  rewrite IH by done. by rewrite reverse_cons, <-app_assoc.
Qed.
Lemma norm_id r cs : Forall plain cs → norm r [] cs = cs.
Proof.
  intros Hcs. rewrite <-(app_nil_r cs) at 1. rewrite norm_plain by done. cbn [norm].
  by rewrite app_nil_r, reverse_involutive.
Qed.
Lemma norm_parts r st parts c : c ∈ norm r st parts → c ∈ st ∨ c ∈ parts.
Proof.
  revert st. induction parts as [|d parts IH]; intros st; cbn [norm]; [rewrite reverse_Permutation; by left|].
  case_bool_decide; [intros [?|?]%IH; set_solver|]. case_bool_decide; [intros [?|?]%IH; set_solver|]. cbn [orb].
  case_bool_decide; [|intros [?|?]%IH; set_solver]. destruct st as [|top st].
  - destruct r; intros [?|?]%IH; set_solver.
  - case_bool_decide; intros [?|?]%IH; set_solver.
Qed.
(** Below a root nothing but plain names is left. *)
Lemma norm_rooted st parts : Forall plain st → Forall plain (norm true st parts).
Proof.
  revert st. induction parts as [|c parts IH]; intros st Hst; cbn [norm]; [by apply Forall_reverse|].
  case_bool_decide as H1; [by apply IH|]. case_bool_decide as H2; [by apply IH|]. cbn [orb].
  case_bool_decide as H3; [|apply IH; by apply Forall_cons]. destruct st as [|top st]; [by apply IH|].
  apply Forall_cons in Hst as [(_ & _ & Ht) Hst]. rewrite bool_decide_eq_false_2 by done. by apply IH.
Qed.
(** A relative path is some [..] and then plain names. *)
Lemma norm_relative st parts k ps : reverse st = replicate k dotdot ++ ps → Forall plain ps →
  ∃ k' ps', norm false st parts = replicate k' dotdot ++ ps' ∧ Forall plain ps'.
Proof.
  revert st k ps. induction parts as [|c parts IH]; intros st k ps Hst Hps; cbn [norm]; [by exists k, ps|].
  case_bool_decide as H1; [by eapply IH|]. case_bool_decide as H2; [by eapply IH|]. cbn [orb].
  case_bool_decide as H3.
  - subst c. destruct st as [|top st].
    { apply (IH _ 1%nat []); [done|constructor]. }
    rewrite reverse_cons in Hst. case_bool_decide as Ht.
    + subst top. apply (IH _ (S k) ps); [|done]. rewrite !reverse_cons, Hst.
      destruct ps as [|p ps _] using rev_ind.
      * by rewrite !app_nil_r, replicate_S_end.
      * exfalso. rewrite app_assoc in Hst. apply app_inj_tail in Hst as [_ <-].
        apply Forall_app in Hps as [_ Hp]. apply Forall_singleton in Hp as (_&_&?). done.
    + destruct ps as [|p ps _] using rev_ind.
      * destruct k as [|k]; [by destruct (reverse st)|]. exfalso. rewrite app_nil_r, replicate_S_end in Hst.
        by apply app_inj_tail in Hst as [_ ->].
      * rewrite app_assoc in Hst. apply app_inj_tail in Hst as [Hst _]. apply Forall_app in Hps as [Hps _].
        by eapply IH.
  - apply (IH _ k (ps ++ [c])); [by rewrite reverse_cons, Hst, app_assoc|].
    apply Forall_app. split; [done|]. by apply Forall_singleton.
Qed.

Lemma norm_split_segments r x : Forall plain (norm r [] (splitOn slash x)) → Forall segment (norm r [] (splitOn slash x)).
Proof.
  rewrite !Forall_forall. intros Hp c Hc. split; [by apply Hp|].
  apply norm_parts in Hc as [Hc|Hc]; [by apply not_elem_of_nil in Hc|by eapply splitOn_parts].
Qed.
Lemma norm_absString cs more : Forall segment cs →
  norm true [] (splitOn slash (absString cs) ++ more) = norm true (reverse cs) more.
Proof.
  intros Hcs. unfold absString. cbn [splitOn]. rewrite bool_decide_eq_true_2 by done.
  destruct cs as [|c cs]; [done|]. rewrite splitOn_join by (try done; auto).
  change (([] :: c :: cs) ++ more) with ([] :: (c :: cs) ++ more). cbn [norm].
  rewrite bool_decide_eq_true_2 by done. cbn [orb]. rewrite norm_plain by auto. by rewrite app_nil_r.
Qed.
Lemma osPath_segments cwd p : Forall segment (osPath cwd p).
Proof. apply norm_split_segments, norm_rooted. done. Qed.
Lemma osPath_abs cwd cs : Forall segment cs → osPath cwd (absString cs) = cs.
Proof.
  intros Hcs. unfold osPath, absParts. change (IsAbs (absString cs)) with (bool_decide (slash = slash) && true).
  rewrite bool_decide_eq_true_2 by done. cbn [andb].
  rewrite <-(app_nil_r (splitOn slash (absString cs))), norm_absString by done. cbn [norm]. by rewrite reverse_involutive.
Qed.
Lemma absString_snoc cs c : absString (cs ++ [c]) = match cs with [] => [] | _ => absString cs end ++ slash :: c.
Proof.
  destruct cs as [|d cs]; [done|]. unfold absString. cbn [app]. f_equal. revert d.
  induction cs as [|e cs IH]; intros d; [done|].
  change (joinOn slash (d :: (e :: cs) ++ [c])) with (d ++ slash :: joinOn slash ((e :: cs) ++ [c])).
  change (joinOn slash (d :: e :: cs)) with (d ++ slash :: joinOn slash (e :: cs)).
  cbn [app]. by rewrite IH, <-app_assoc.
Qed.
(** The directory part of a path is its path without the last component. *)
Lemma osPath_Dir cwd cs c : Forall segment (cs ++ [c]) → osPath cwd (Dir (absString (cs ++ [c]))) = cs.
Proof.
  intros [Hcs [[_ Hc] _]%Forall_cons]%Forall_app. unfold Dir. rewrite absString_snoc, strLastIndex_last by done.
  set (x := match cs with [] => [] | _ => absString cs end).
  assert (Et : take (S (length x)) (x ++ slash :: c) = x ++ [slash]).
  { rewrite cons_middle, app_assoc. apply take_app_length'. rewrite length_app. simpl. lia. }
  rewrite Et.
  assert (Ha : IsAbs (x ++ [slash]) = true) by (by destruct cs).
  assert (En : norm true [] (splitOn slash x ++ [[]]) = cs).
  { subst x. destruct cs as [|d cs]; [done|]. rewrite norm_absString by done. cbn [norm].
    rewrite bool_decide_eq_true_2 by done. cbn [orb norm]. by rewrite reverse_involutive. }
  unfold Clean. rewrite Ha, splitOn_join_app. change (splitOn slash []) with [@nil ascii]. rewrite En.
  by apply osPath_abs.
Qed.

(** ** Clean paths lead where the path led *)
Lemma norm_true_app st a b : norm true st (a ++ b) = norm true (reverse (norm true st a)) b.
Proof.
  revert st. induction a as [|c a IH]; intros st; cbn [app norm]; [by rewrite reverse_involutive|].
  case_bool_decide; [apply IH|]. case_bool_decide; [apply IH|]. cbn [orb].
  case_bool_decide; [|apply IH]. destruct st as [|top st]; [apply IH|]. case_bool_decide; apply IH.
Qed.
Definition listed (c : bytes) : Prop := c ≠ [] ∧ c ≠ dot.
(** Reducing a relative path first does not change where it leads from any
    directory. *)
Lemma norm_false_same st acc parts : Forall plain st → Forall listed acc →
  norm true st (norm false acc parts) = norm true st (reverse acc ++ parts).
Proof.
  intros Hst. revert acc. induction parts as [|c parts IH]; intros acc Hacc; cbn [norm]; [by rewrite app_nil_r|].
  assert (Hskip : c = [] ∨ c = dot → norm true st (norm false acc parts) = norm true st (reverse acc ++ c :: parts)).
  { intros Hc. rewrite IH, !norm_true_app by done. cbn [norm].
    assert (bool_decide (c = []) || bool_decide (c = dot) = true) as -> by (by destruct Hc; subst). done. }
  case_bool_decide as H1; [apply Hskip; by left|]. case_bool_decide as H2; [apply Hskip; by right|]. cbn [orb].
  assert (Hpush : norm true st (norm false (c :: acc) parts) = norm true st (reverse acc ++ c :: parts)).
  { rewrite IH by (by apply Forall_cons). by rewrite reverse_cons, <-app_assoc. }
  case_bool_decide as H3; [|exact Hpush]. destruct acc as [|top acc]; [subst c; exact Hpush|].
  case_bool_decide as H4; [exact Hpush|]. apply Forall_cons in Hacc as [[Ht1 Ht2] Hacc].
  rewrite IH, reverse_cons, <-app_assoc by done. rewrite !(norm_true_app st (reverse acc)). cbn [app norm].
  rewrite !bool_decide_eq_false_2 by done. cbn [orb]. rewrite (bool_decide_eq_true_2 (c = dotdot)) by done.
  by rewrite !bool_decide_eq_false_2 by done.
Qed.
Lemma norm_absString_any cs p : norm true [] (splitOn slash (absString cs ++ slash :: p)) =
  norm true (reverse (norm true [] (splitOn slash (absString cs)))) (splitOn slash p).
Proof. by rewrite splitOn_join_app, norm_true_app. Qed.
(** [Clean] is sound: the clean path leads where the path led. *)
Theorem Clean_same cwd p : osPath cwd (Clean p) = osPath cwd p.
Proof.
  unfold Clean. destruct (IsAbs p) eqn:Ha.
  - rewrite osPath_abs; [unfold osPath, absParts; by rewrite Ha|]. by apply norm_split_segments, norm_rooted.
  - unfold osPath, absParts. rewrite Ha.
    destruct (norm_relative [] (splitOn slash p) 0 []) as (k & ps & En & Hps); [done|constructor|].
    set (st := norm true [] (splitOn slash (absString cwd))).
    assert (Hst : Forall plain (reverse st)) by (apply Forall_reverse, norm_rooted; done).
    pose proof (norm_false_same (reverse st) [] (splitOn slash p) Hst ltac:(done)) as Hsame. cbn [reverse app] in Hsame.
    assert (Hslash : Forall (λ c, slash ∉ c) (norm false [] (splitOn slash p))).
    { apply Forall_forall. intros c [Hc|Hc]%norm_parts; [by apply elem_of_nil in Hc|by eapply splitOn_parts]. }
    destruct (norm false [] (splitOn slash p)) as [|c cs] eqn:E.
    + change (IsAbs dot) with false. cbn iota. rewrite !norm_absString_any. fold st.
      change (splitOn slash dot) with [dot]. cbn [norm]. done.
    + assert (Hrel : IsAbs (joinOn slash (c :: cs)) = false).
      { destruct (joinOn slash (c :: cs)) as [|d x] eqn:Ej; [done|]. unfold IsAbs. cbn [has_prefix].
        rewrite bool_decide_eq_false_2; [done|]. intros <-. apply (f_equal (splitOn slash)) in Ej.
        rewrite splitOn_join in Ej by done. cbn [splitOn] in Ej. rewrite bool_decide_eq_true_2 in Ej by done.
        injection Ej as -> _. destruct k as [|k]; cbn [replicate app] in En; [|done].
        destruct ps; [done|]. injection En as <- _. by apply Forall_cons in Hps as [[? _] _]. }
      rewrite Hrel, !norm_absString_any. fold st. by rewrite splitOn_join, Hsame.
Qed.
