(* ===== verification/Static.v ===== *)
(** * The console's static files ([internal/httpapi/static.go])

    [spaFallback] decides what a path outside the API is answered: the file server
    for a file of the static directory, the index page for a client-side route,
    or not found.  The bytes served and the file server's redirects are not
    modelled. *)

From S2P Require Import Prelude GoStrings Paths.

(** [filepath.Ext] *)
Fixpoint extFrom (ext rest : bytes) : bytes :=
  match rest with
  | [] => []
  | c :: rest' =>
      if bool_decide (c = slash) then [] else if bool_decide (c = "."%char) then c :: ext else extFrom (c :: ext) rest'
  end.
Definition Ext (p : bytes) : bytes := extFrom [] (reverse p).

Inductive staticAnswer := St_NotFound | St_FileServer (full : bytes) | St_Index (index : bytes).
Definition spaFallback (cwd : list bytes) (staticDir url : bytes) (f : files) : staticAnswer :=
  if has_prefix (bs "/api/") url then St_NotFound
  else
    let clean := Clean url in
    let full := Join staticDir clean in
    let index := Join staticDir (bs "index.html") in
    match f !! osPath cwd full with
    | Some (F_File _) => St_FileServer full
    | _ =>
        if bool_decide (Ext clean = []) && bool_decide (is_Some (f !! osPath cwd index)) then St_Index index
        else St_NotFound
    end.

(** ** Confinement *)
Lemma norm_true_segments st cs : Forall segment cs →
  norm true st (splitOn slash (absString cs)) = reverse st ++ cs.
Proof.
  intros Hcs. unfold absString. cbn [splitOn]. rewrite bool_decide_eq_true_2 by done. cbn [norm].
  rewrite bool_decide_eq_true_2 by done. cbn [orb]. destruct cs as [|c cs].
  - cbn. by rewrite app_nil_r.
  - rewrite splitOn_join by (try done; auto). rewrite <-(app_nil_r (c :: cs)) at 1. rewrite norm_plain by auto.
    cbn [norm]. by rewrite reverse_app, reverse_involutive.
Qed.
(** Below a directory, a rooted path stays below it. *)
Lemma osPath_below cwd dir cs : dir ≠ [] → Forall segment cs →
  osPath cwd (dir ++ slash :: absString cs) = osPath cwd dir ++ cs.
Proof.
  intros Hd Hcs. assert (Ha : IsAbs (dir ++ slash :: absString cs) = IsAbs dir) by (by destruct dir).
  unfold osPath, absParts. rewrite Ha. destruct (IsAbs dir).
  - by rewrite splitOn_join_app, norm_true_app, norm_true_segments, reverse_involutive by done.
  - change (slash :: dir ++ slash :: absString cs) with ((slash :: dir) ++ slash :: absString cs).
    by rewrite app_assoc, splitOn_join_app, norm_true_app, norm_true_segments, reverse_involutive by done.
Qed.
(** Every request path starts with a slash.  The file served lies in the static
    directory, whatever dots the path has; a path of the API is never served. *)
Theorem static_confined cwd (staticDir url : bytes) f full : staticDir ≠ [] → IsAbs url = true →
  spaFallback cwd staticDir url f = St_FileServer full →
  has_prefix (bs "/api/") url = false ∧
  ∃ cs b, osPath cwd full = osPath cwd staticDir ++ cs ∧ f !! osPath cwd full = Some (F_File b).
Proof.
  intros Hd Ha. unfold spaFallback. destruct (has_prefix (bs "/api/") url); [done|].
  destruct (f !! osPath cwd (Join staticDir (Clean url))) as [[|b]|] eqn:E; [by destruct (_ && _)| |by destruct (_ && _)].
  intros [= <-]. split; [done|]. exists (osPath cwd url), b. split; [|done].
  assert (Hc : Clean url = absString (osPath cwd url)) by (unfold Clean, osPath, absParts; by rewrite Ha).
  unfold Join. rewrite filter_cons_True by (by destruct staticDir). rewrite Hc, filter_cons_True by done.
  rewrite filter_nil. cbn [joinOn]. rewrite Clean_same. apply osPath_below; [done|]. apply osPath_segments.
Qed.
(** Dots in the path do not lead out of the directory. *)
Example static_dots :
  let f := <[[bs "etc"; bs "passwd"] := F_File (bs "x")]> (<[[bs "web"; bs "app.js"] := F_File (bs "y")]> ∅) in
  spaFallback [] (bs "web") (bs "/../etc/passwd") f = St_NotFound ∧
  spaFallback [] (bs "web") (bs "/a/../app.js") f = St_FileServer (bs "web/app.js").
Proof. vm_compute. auto. Qed.
