(* ===== verification/Backup.v ===== *)
(** * Offline backups ([cmd/rota/backup.go])

    A backup is a compressed tar archive of a stopped node's data directory.  The
    archive format ([archive/tar], [compress/gzip]) and the database's files
    ([storage.Open], Pebble) are parameters; what Pebble writes when it opens a
    directory is not modelled.  The archive read by a restore is not one of the
    files it overwrites. *)

From S2P Require Import Prelude GoStrings Keys Data Store Paths.

(** ** Archives *)
Inductive tarType := Tar_Dir | Tar_Reg | Tar_Other.
Record tarEntry := mktarEntry { te_Name : bytes; te_Type : tarType; te_Body : bytes }.
(** What a reader meets: entries, the last of which may break off in its body, and
    the end of the archive or an error where the next header should be. *)
Inductive tarStream :=
  | Tar_EOF
  | Tar_Err (e : bytes)
  | Tar_Next (e : tarEntry) (broken : option bytes) (rest : tarStream).
Fixpoint streamOf (es : list tarEntry) : tarStream :=
  match es with [] => Tar_EOF | e :: es' => Tar_Next e None (streamOf es') end.

Class BackupEnv := {
  Getwd : list bytes;
  (** closing the writers / [gzip.NewReader] and [tar.NewReader] *)
  archive_write : list tarEntry → bytes;
  archive_open : bytes → result tarStream;
  pebble_Open : files → result store;
}.

Record backupValidationReport := mkbackupValidationReport {
  bv_Archive : bytes; bv_RestoreDir : bytes; bv_Temporary : bool; bv_OK : bool; bv_Files : nat;
  bv_AppliedIndex : N; bv_Messages : nat; bv_Groups : nat; bv_Leases : nat; bv_DeadLetters : nat;
  bv_Timers : nat; bv_WorkflowRuns : nat; bv_AuthPrincipals : nat }.

Section backup.
Context {BE : BackupEnv}.

(** ** Creating *)
Definition tarEntryOf (kv : list bytes * fnode) : tarEntry :=
  match kv.2 with
  | F_Dir => mktarEntry (joinOn slash kv.1) Tar_Dir []
  | F_File b => mktarEntry (joinOn slash kv.1) Tar_Reg b
  end.
(** [None]: the archive would be one of the files it archives. *)
Definition createBackupArchive (dataDir outPath : bytes) (f : files) : option (files * result ()) :=
  let root := osPath Getwd dataDir in
  match f !! root with
  | None => Some (f, Err (bs "no such file or directory"))
  | Some (F_File _) => Some (f, Err (dataDir ++ bs " is not a directory"))
  | Some F_Dir =>
      match MkdirAll (osPath Getwd (Dir outPath)) f with
      | Err e => Some (f, Err e)
      | Ok f1 =>
          let out := osPath Getwd outPath in
          match OpenFile out f1 with
          | Err e => Some (f1, Err e)
          | Ok f2 =>
              if bool_decide (root `prefix_of` out) then None
              else Some (<[out := F_File (archive_write (tarEntryOf <$> WalkDir root f2))]> f2, Ok ())
          end
      end
  end.

(** ** Restoring *)
Definition dirEmptyOrMissing (p : list bytes) (f : files) : result bool :=
  match f !! p with
  | None => Ok true
  | Some (F_File _) => Err (bs "not a directory")
  | Some F_Dir => Ok (bool_decide (below p f = []))
  end.
Definition unsafe {A} : result A := Err (bs "unsafe backup path").
Definition safeRestorePath (root name : bytes) : result bytes :=
  if bool_decide (name = []) || IsAbs name || bool_decide (NUL ∈ name) then unsafe
  else
    let clean := Clean name in
    if bool_decide (clean = dot) || has_prefix (dotdot ++ [slash]) clean || bool_decide (clean = dotdot) then unsafe
    else
      let target := Join root clean in
      if negb (bool_decide (target = root)) && negb (has_prefix (root ++ [slash]) target) then unsafe
      else Ok target.
(** One entry; on an error what was done stays done. *)
Definition restoreEntry (root : bytes) (e : tarEntry) (broken : option bytes) (f : files) : files * result () :=
  match safeRestorePath root e.(te_Name) with
  | Err x => (f, Err x)
  | Ok target =>
      match e.(te_Type) with
      | Tar_Dir =>
          match MkdirAll (osPath Getwd target) f with Err x => (f, Err x) | Ok f1 => (f1, Ok ()) end
      | Tar_Reg =>
          match MkdirAll (osPath Getwd (Dir target)) f with
          | Err x => (f, Err x)
          | Ok f1 =>
              match OpenFile (osPath Getwd target) f1 with
              | Err x => (f1, Err x)
              | Ok f2 =>
                  (<[osPath Getwd target := F_File e.(te_Body)]> f2,
                   match broken with Some x => Err x | None => Ok () end)
              end
          end
      | Tar_Other => (f, Ok ())
      end
  end.
Fixpoint restoreEntries (root : bytes) (s : tarStream) (f : files) : files * result () :=
  match s with
  | Tar_EOF => (f, Ok ())
  | Tar_Err e => (f, Err e)
  | Tar_Next e broken rest =>
      match restoreEntry root e broken f with
      | (f1, Ok _) => restoreEntries root rest f1
      | (f1, Err x) => (f1, Err x)
      end
  end.
Definition restoreBackupArchive (inPath dataDir : bytes) (force : bool) (f : files) : files * result () :=
  let ready := if force then Ok true else dirEmptyOrMissing (osPath Getwd dataDir) f in
  match ready with
  | Err e => (f, Err e)
  | Ok false => (f, Err (bs "target data directory " ++ dataDir ++ bs " is not empty; use --force to overwrite"))
  | Ok true =>
      match MkdirAll (osPath Getwd dataDir) f with
      | Err e => (f, Err e)
      | Ok f1 =>
          match f1 !! osPath Getwd inPath with
          | None => (f1, Err (bs "no such file or directory"))
          | Some F_Dir => (f1, Err (bs "is a directory"))
          | Some (F_File raw) =>
              match archive_open raw with
              | Err e => (f1, Err e)
              | Ok s => restoreEntries (Abs Getwd dataDir) s f1
              end
          end
      end
  end.

(** ** Validating *)
Definition countRegularFiles (root : list bytes) (f : files) : nat :=
  length (filter (λ kv, isFile kv.2 = true) (WalkDir root f)).
Definition countRange (db : store) (lo hi : bytes) : nat := length (NewIter lo (Some hi) db).
Definition appliedOf (db : store) : N :=
  match GetRaw (MetaKey (bs "applied_index")) db with
  | Some raw => if (8 <=? length raw)%nat then beU64 (take 8 raw) else 0
  | None => 0
  end.
Definition reportOf (inPath restoreDir : bytes) (temp : bool) (nfiles : nat) (db : store) : backupValidationReport :=
  let n bounds := countRange db (fst bounds) (snd bounds) in
  mkbackupValidationReport inPath restoreDir temp true nfiles (appliedOf db)
    (n MessageBounds) (n GroupMetaBounds) (n LeaseBounds) (n DLQBounds) (n TimeIndexBounds) (n WFRunBounds)
    (n AuthPrincipalBounds).
(** [tmp]: the directory [MkdirTemp] made.  The cleanup is run before a failure is
    returned, and by the command after a success. *)
Definition cleanup (temp : bool) (dir : bytes) (f : files) : files :=
  if temp then RemoveAll (osPath Getwd dir) f else f.
Definition validateBackupArchive (tmp inPath restoreDir : bytes) (force : bool) (f : files) :
    files * result backupValidationReport :=
  let temp := negb (nonempty restoreDir) in
  let dir := if temp then tmp else restoreDir in
  let f := if temp then <[osPath Getwd tmp := F_Dir]> f else f in
  match restoreBackupArchive inPath dir force f with
  | (f1, Err e) => (cleanup temp dir f1, Err e)
  | (f1, Ok _) =>
      match pebble_Open (subtree (osPath Getwd dir) f1) with
      | Err e => (cleanup temp dir f1, Err e)
      | Ok db => (f1, Ok (reportOf inPath dir temp (countRegularFiles (osPath Getwd dir) f1) db))
      end
  end.

(** ** Commands *)
Definition cmdBackupCreate (dataDir outPath : bytes) (f : files) : option (files * result ()) :=
  if nonempty outPath then createBackupArchive dataDir outPath f else Some (f, Err (bs "--out is required")).
Definition cmdBackupRestore (inPath dataDir : bytes) (force : bool) (f : files) : files * result () :=
  if nonempty inPath then restoreBackupArchive inPath dataDir force f else (f, Err (bs "--in is required")).
Definition cmdBackupValidate (tmp inPath restoreDir : bytes) (force : bool) (f : files) :
    files * result backupValidationReport :=
  if nonempty inPath then
    let '(f1, r) := validateBackupArchive tmp inPath restoreDir force f in
    match r with
    | Ok report => (cleanup report.(bv_Temporary) report.(bv_RestoreDir) f1, r)
    | Err _ => (f1, r)
    end
  else (f, Err (bs "--in is required")).
End backup.
