(* ===== verification/BackupProps.v ===== *)
(** * Theorems on backups

    A restore stays inside its target directory whatever the archive holds, and
    restoring a created backup gives the archived tree back. *)

From S2P Require Import Prelude GoStrings Keys Data Store Paths Backup NodeDemo.

(** ** Directories *)
Lemma prefix_snoc_inv {A} (q p : list A) c : q `prefix_of` p ++ [c] → q = p ++ [c] ∨ q `prefix_of` p.
Proof.
  intros [k Hk]. destruct k as [|d k _] using rev_ind; [left; by rewrite app_nil_r in Hk|].
  rewrite app_assoc in Hk. apply app_inj_tail in Hk as [-> _]. right. by exists k.
Qed.
Lemma MkdirFrom_spec todo at_ f f' : MkdirFrom at_ todo f = Ok f' →
  (∀ q, f' !! q = f !! q ∨ f !! q = None ∧ f' !! q = Some F_Dir ∧ q `prefix_of` at_ ++ todo ∧ q ≠ []) ∧
  (∀ q, q `prefix_of` todo → q ≠ [] → f' !! (at_ ++ q) = Some F_Dir).
Proof.
  revert at_ f. induction todo as [|c todo IH]; intros at_ f; cbn [MkdirFrom].
  { intros [= <-]. split; [by left|]. by intros q ->%prefix_nil_inv. }
  assert (Hstep : ∀ f1, MkdirFrom (at_ ++ [c]) todo f1 = Ok f' → f1 !! (at_ ++ [c]) = Some F_Dir →
    (∀ q, f1 !! q = f !! q ∨ f !! q = None ∧ q = at_ ++ [c]) →
    (∀ q, f' !! q = f !! q ∨ f !! q = None ∧ f' !! q = Some F_Dir ∧ q `prefix_of` at_ ++ c :: todo ∧ q ≠ []) ∧
    (∀ q, q `prefix_of` c :: todo → q ≠ [] → f' !! (at_ ++ q) = Some F_Dir)).
  { intros f1 [Hf Hd]%IH Hc Hq. rewrite <-app_assoc in Hf. cbn [app] in Hf.
    assert (Hc' : f' !! (at_ ++ [c]) = Some F_Dir) by (destruct (Hf (at_ ++ [c])) as [->|(?&?&?)]; [done|congruence]).
    split.
    - intros q. destruct (Hq q) as [E|[E ->]]; [rewrite <-E; apply Hf|]. right. split; [done|]. split; [done|].
      split; [apply prefix_app; by exists todo|by destruct at_].
    - intros [|d q] [k Hk] Hne; [done|]. injection Hk as -> ->. destruct q as [|e q]; [done|].
      rewrite cons_middle, app_assoc. apply Hd; [by exists k|done]. }
  destruct (f !! (at_ ++ [c])) as [[|b]|] eqn:Ec; [|done|]; intros HM.
  - apply (Hstep f HM Ec). by left.
  - apply (Hstep _ HM); [by rewrite lookup_insert_eq|]. intros q.
    destruct (decide (q = at_ ++ [c])) as [->|Hne]; [by right|left; by rewrite lookup_insert_ne].
Qed.
Lemma MkdirFrom_ok todo at_ f :
  (∀ q b, q `prefix_of` todo → f !! (at_ ++ q) ≠ Some (F_File b)) → ∃ f', MkdirFrom at_ todo f = Ok f'.
Proof.
  revert at_ f. induction todo as [|c todo IH]; intros at_ f Hf; cbn [MkdirFrom]; [by eexists|].
  assert (Hnext : ∀ f1, (∀ q, f1 !! q = f !! q ∨ f1 !! q = Some F_Dir) →
    ∃ f', MkdirFrom (at_ ++ [c]) todo f1 = Ok f').
  { intros f1 H1. apply IH. intros q b [k ->] E. rewrite <-app_assoc in E. cbn [app] in E.
    destruct (H1 (at_ ++ c :: q)) as [E'|E']; [|congruence]. apply (Hf (c :: q) b); [by exists k|congruence]. }
  destruct (f !! (at_ ++ [c])) as [[|b]|] eqn:Ec.
  - apply Hnext. by left.
  - exfalso. by apply (Hf [c] b); [exists todo|].
  - apply Hnext. intros q. destruct (decide (q = at_ ++ [c])) as [->|Hne];
      [right; by rewrite lookup_insert_eq|left; by rewrite lookup_insert_ne].
Qed.
Lemma MkdirAll_frame p f f' q : MkdirAll p f = Ok f' →
  f' !! q = f !! q ∨ f !! q = None ∧ f' !! q = Some F_Dir ∧ q `prefix_of` p ∧ q ≠ [].
Proof. intros [H _]%MkdirFrom_spec. apply (H q). Qed.
Lemma MkdirAll_dirs p f f' q : MkdirAll p f = Ok f' → q `prefix_of` p → q ≠ [] → f' !! q = Some F_Dir.
Proof. intros [_ H]%MkdirFrom_spec. apply (H q). Qed.
Lemma MkdirAll_ok p f : (∀ q b, q `prefix_of` p → f !! q ≠ Some (F_File b)) → ∃ f', MkdirAll p f = Ok f'.
Proof. apply (MkdirFrom_ok p [] f). Qed.
Lemma OpenFile_inv p f f' : OpenFile p f = Ok f' →
  f !! p ≠ Some F_Dir ∧ f !! dirOf p = Some F_Dir ∧ f' = <[p := F_File []]> f.
Proof.
  unfold OpenFile. destruct (f !! p) as [[|b]|] eqn:Ep; [done|..];
    (destruct (f !! dirOf p) as [[|]|] eqn:Ed; try done; by intros [= <-]).
Qed.
Lemma OpenFile_ok p f : f !! p ≠ Some F_Dir → f !! dirOf p = Some F_Dir → OpenFile p f = Ok (<[p := F_File []]> f).
Proof. intros Hp Hd. unfold OpenFile. rewrite Hd. by destruct (f !! p) as [[|b]|]. Qed.
Lemma dirOf_snoc cs (c : bytes) : dirOf (cs ++ [c]) = cs.
Proof. unfold dirOf. rewrite length_app. cbn [length]. apply take_app_length'. lia. Qed.

(** ** Trees *)
Definition inside (root q : list bytes) : Prop := ∃ r, r ≠ [] ∧ q = root ++ r.
Lemma under_spec root p r : under root p = Some r ↔ p = root ++ r ∧ r ≠ [].
Proof.
  unfold under. case_bool_decide as Hp; cbn [andb].
  - destruct Hp as [k ->]. rewrite drop_app_length. case_bool_decide as Hk; cbn [negb].
    + split; [done|]. intros [E Hr]. rewrite <-(app_nil_r root) in Hk at 2. apply app_inj_1 in Hk as [_ ->]; [|done].
      by apply app_inj_1 in E as [_ <-].
    + split; [intros [= <-]; split; [done|by intros ->; rewrite app_nil_r in Hk]|].
      intros [E Hr]. by apply app_inj_1 in E as [_ <-].
  - split; [done|]. intros [-> _]. destruct Hp. by exists r.
Qed.
Lemma elem_of_below root f r x : (r, x) ∈ below root f ↔ f !! (root ++ r) = Some x ∧ r ≠ [].
Proof.
  unfold below. rewrite list_elem_of_omap. split.
  - intros ([p y] & Hp%elem_of_map_to_list & E). cbn in E. destruct (under root p) as [r'|] eqn:Eu; [|done].
    injection E as -> ->. by apply under_spec in Eu as [-> ?].
  - intros [Hf Hr]. exists (root ++ r, x). split; [by apply elem_of_map_to_list|]. cbn.
    by rewrite (proj2 (under_spec root (root ++ r) r)).
Qed.
Lemma below_NoDup root f : NoDup (below root f).*1.
Proof.
  unfold below. pose proof (NoDup_fst_map_to_list f) as Hnd.
  induction (map_to_list f) as [|[p x] l IH]; cbn in *; [constructor|].
  apply NoDup_cons in Hnd as [Hp Hnd]. destruct (under root p) as [r|] eqn:Eu; cbn; [|by apply IH].
  apply NoDup_cons. split; [|by apply IH]. contradict Hp.
  apply list_elem_of_fmap in Hp as ([r' y] & -> & Hr). cbn in *.
  apply list_elem_of_omap in Hr as ([p' y'] & Hin & E). cbn in E. destruct (under root p') as [r''|] eqn:Eu'; [|done].
  injection E as -> ->. apply under_spec in Eu as [-> _], Eu' as [-> _].
  apply list_elem_of_fmap. by exists (root ++ r', y).
Qed.
Lemma lookup_subtree root f r x : subtree root f !! r = Some x ↔ f !! (root ++ r) = Some x ∧ r ≠ [].
Proof. unfold subtree. rewrite <-elem_of_below. symmetry. apply elem_of_list_to_map, below_NoDup. Qed.
Lemma WalkDir_below root f : WalkDir root f ≡ₚ below root f.
Proof. apply merge_sort_Permutation. Qed.
Lemma below_subtree root f : below root f ≡ₚ map_to_list (subtree root f).
Proof. unfold subtree. symmetry. apply map_to_list_to_map, below_NoDup. Qed.

Section backups.
Context {BE : BackupEnv}.

(** ** Safe paths *)
Lemma joinOn_relative cs : cs ≠ [] → Forall segment cs →
  nonempty (joinOn slash cs) = true ∧ IsAbs (joinOn slash cs) = false ∧ Clean (joinOn slash cs) = joinOn slash cs.
Proof.
  intros Hn Hcs. assert (Ha : ∃ d p, joinOn slash cs = d :: p ∧ d ≠ slash).
  { destruct cs as [|c cs]; [done|]. apply Forall_cons in Hcs as [[[Hc _] Hs] _]. destruct c as [|d c]; [done|].
    apply not_elem_of_cons in Hs as [Hs _]. exists d. destruct cs; eexists; (split; [reflexivity|done]). }
  assert (Habs : IsAbs (joinOn slash cs) = false).
  { destruct Ha as (d & p & -> & Hd). unfold IsAbs. cbn [has_prefix]. by rewrite bool_decide_eq_false_2 by done. }
  split; [by destruct Ha as (? & ? & -> & _)|]. split; [done|]. unfold Clean. rewrite Habs, splitOn_join by auto.
  rewrite norm_id by auto. by destruct cs.
Qed.
Lemma Join_root R cs : cs ≠ [] → Forall segment R → Forall segment cs →
  Join (absString R) (joinOn slash cs) = absString (R ++ cs).
Proof.
  intros Hn HR Hcs. destruct (joinOn_relative cs Hn Hcs) as (Hne & _ & _). unfold Join.
  rewrite filter_cons_True by done. rewrite filter_cons_True by done. rewrite filter_nil. cbn [joinOn].
  unfold Clean. change (IsAbs (absString R ++ slash :: joinOn slash cs)) with (bool_decide (slash = slash) && true).
  rewrite bool_decide_eq_true_2 by done. cbn [andb]. rewrite splitOn_join_app, norm_absString by done.
  rewrite splitOn_join by auto. f_equal. rewrite <-(app_nil_r cs) at 1. rewrite norm_plain by auto. cbn [norm].
  by rewrite <-reverse_app, reverse_involutive.
Qed.
Lemma absString_extends R cs : R ≠ [] → cs ≠ [] →
  absString (R ++ cs) = absString R ++ slash :: joinOn slash cs.
Proof.
  intros HR Hcs. unfold absString. cbn [app]. f_equal. destruct R as [|c R]; [done|]. clear HR. revert c.
  induction R as [|d R IH]; intros c; [by destruct cs|].
  change (joinOn slash ((c :: d :: R) ++ cs)) with (c ++ slash :: joinOn slash ((d :: R) ++ cs)).
  change (joinOn slash (c :: d :: R)) with (c ++ slash :: joinOn slash (d :: R)).
  by rewrite IH, <-app_assoc.
Qed.
Lemma joinOn_chars d cs : d ≠ slash → Forall (λ c, d ∉ c) cs → d ∉ joinOn slash cs.
Proof.
  intros Hd Hcs. induction Hcs as [|c cs Hc Hcs IH]; [by apply not_elem_of_nil|]. destruct cs as [|e cs]; [done|].
  change (joinOn slash (c :: e :: cs)) with (c ++ slash :: joinOn slash (e :: cs)).
  rewrite not_elem_of_app, not_elem_of_cons. done.
Qed.
(** A path that is accepted lies strictly inside the root. *)
Lemma safeRestorePath_inside R name target : Forall segment R → safeRestorePath (absString R) name = Ok target →
  ∃ cs, cs ≠ [] ∧ Forall segment cs ∧ target = absString (R ++ cs).
Proof.
  intros HR. unfold safeRestorePath, unsafe. destruct (_ || _) eqn:E1; [done|].
  apply orb_false_iff in E1 as [[_ Habs]%orb_false_iff _]. unfold Clean. rewrite Habs.
  destruct (norm_relative [] (splitOn slash name) 0 []) as (k & ps & En & Hps); [done|constructor|].
  pose proof (norm_split_segments false name) as Hseg. rewrite En in *.
  destruct k as [|k]; cbn [replicate app] in *.
  - destruct ps as [|p ps]; [done|]. specialize (Hseg Hps).
    destruct (_ || _); [done|]. rewrite Join_root by (auto; done). destruct (_ && _); [done|]. intros [= <-].
    by exists (p :: ps).
  - clear. destruct (replicate k dotdot ++ ps) as [|p rest].
    + by rewrite (bool_decide_eq_true_2 (joinOn slash [dotdot] = dotdot)), orb_true_r.
    + change (joinOn slash (dotdot :: p :: rest)) with (dotdot ++ slash :: joinOn slash (p :: rest)).
      by rewrite cons_middle, app_assoc, has_prefix_app, orb_true_r.
Qed.
Lemma slash_dots : (slash ∉ dot) ∧ (slash ∉ dotdot).
Proof. split; apply (bool_decide_unpack _); by vm_compute. Qed.
Lemma first_dotdot cs : Forall segment cs → has_prefix (dotdot ++ [slash]) (joinOn slash cs) = false.
Proof.
  intros Hcs. destruct (has_prefix _ _) eqn:E; [exfalso|done]. apply has_prefix_spec in E as [r E].
  destruct (decide (cs = [])) as [->|Hn]; [done|].
  pose proof (splitOn_join slash cs Hn ltac:(auto)) as Hj. rewrite E, <-app_assoc in Hj. cbn [app] in Hj.
  change (dotdot ++ slash :: r) with (dotdot ++ slash :: r) in Hj.
  rewrite splitOn_app in Hj by apply slash_dots. subst cs. apply Forall_cons in Hcs as [[(_&_&?) _] _]. done.
Qed.
Lemma joinOn_one cs d : cs ≠ [] → Forall segment cs → slash ∉ d → joinOn slash cs = d → cs = [d].
Proof. intros Hn Hs Hd E. rewrite <-(splitOn_join slash cs), E by auto. by apply splitOn_one. Qed.
Lemma safeRestorePath_ok R cs : R ≠ [] → cs ≠ [] → Forall segment R → Forall proper cs →
  safeRestorePath (absString R) (joinOn slash cs) = Ok (absString (R ++ cs)).
Proof.
  intros HR Hn HsR Hcs. assert (Hs : Forall segment cs) by auto.
  destruct (joinOn_relative cs Hn Hs) as (Hne & Habs & Hcl). unfold safeRestorePath.
  assert (joinOn slash cs ≠ []) by (by intros E; rewrite E in Hne).
  assert (NUL ∉ joinOn slash cs).
  { apply joinOn_chars; [done|]. eapply Forall_impl; [exact Hcs|]. by intros c []. }
  assert (Hd : ∀ d, slash ∉ d → ¬ segment d → joinOn slash cs ≠ d).
  { intros d Hd Hseg E. apply joinOn_one in E as ->; [|done..]. by rewrite Forall_singleton in Hs. }
  assert (joinOn slash cs ≠ dot) by (apply Hd; [apply slash_dots|intros [(_ & E & _) _]; by apply E]).
  assert (joinOn slash cs ≠ dotdot) by (apply Hd; [apply slash_dots|intros [(_ & _ & E) _]; by apply E]).
  rewrite Habs, Hcl, first_dotdot, !bool_decide_eq_false_2 by done.
  cbn [orb]. rewrite Join_root by done.
  assert (has_prefix (absString R ++ [slash]) (absString (R ++ cs)) = true) as ->.
  { apply has_prefix_spec. exists (joinOn slash cs). by rewrite absString_extends, <-app_assoc by done. }
  by rewrite andb_false_r.
Qed.

(** ** Confinement *)
Definition rooted_at (R : list bytes) (f : files) : Prop := ∀ q, q `prefix_of` R → q ≠ [] → f !! q = Some F_Dir.
Lemma inside_prefix R q p : q `prefix_of` R ++ p → ¬ inside R q → q `prefix_of` R.
Proof.
  intros Hq Hi. destruct (prefix_weak_total R q (R ++ p)) as [[k ->]|?]; [by exists p|done| |done].
  destruct k as [|c k]; [by rewrite app_nil_r|]. destruct Hi. by exists (c :: k).
Qed.
Lemma inside_app R r : r ≠ [] → inside R (R ++ r).
Proof. by exists r. Qed.
(** What an entry does: nothing outside, nothing deleted. *)
Definition confined (R : list bytes) (f f' : files) : Prop :=
  rooted_at R f' ∧ (∀ q, ¬ inside R q → f' !! q = f !! q) ∧
  (∀ q, f !! q = Some F_Dir → f' !! q = Some F_Dir) ∧ (∀ q, is_Some (f !! q) → is_Some (f' !! q)).
Lemma confined_refl R f : rooted_at R f → confined R f f.
Proof. by repeat split. Qed.
Lemma confined_trans R f g h : confined R f g → confined R g h → confined R f h.
Proof.
  intros (_ & H2 & H3 & H4) (H1' & H2' & H3' & H4'). split; [done|]. split; [|split; auto].
  intros q Hq. by rewrite H2', H2.
Qed.
Lemma MkdirAll_confined R p f f' : rooted_at R f → MkdirAll (R ++ p) f = Ok f' → confined R f f'.
Proof.
  intros Hr Hm. assert (Hkeep : ∀ q x, f !! q = Some x → f' !! q = Some x).
  { intros q x Hx. destruct (MkdirAll_frame _ _ _ q Hm) as [->|(?&_)]; [done|congruence]. }
  split; [intros q Hq Hne; apply Hkeep, Hr; done|]. split; [|split].
  - intros q Hi. destruct (MkdirAll_frame _ _ _ q Hm) as [?|(Hn & Hd & Hp & Hne)]; [done|].
    apply inside_prefix in Hp; [|done]. by rewrite Hr in Hn.
  - intros q. apply Hkeep.
  - intros q [x Hx]. exists x. by apply Hkeep.
Qed.
Lemma write_confined R p f x : rooted_at R f → inside R p → f !! p ≠ Some F_Dir →
  confined R f (<[p := F_File x]> f).
Proof.
  intros Hr Hi Hp. assert (Hne : ∀ q, ¬ inside R q → p ≠ q) by (by intros q Hq ->).
  split; [|split; [|split]].
  - intros q Hq Hn. rewrite lookup_insert_ne by (intros ->; by rewrite Hr in Hp). by apply Hr.
  - intros q Hq. by rewrite lookup_insert_ne by auto.
  - intros q Hq. rewrite lookup_insert_ne by (by intros ->). done.
  - intros q Hq. destruct (decide (p = q)) as [->|?]; [by rewrite lookup_insert_eq|by rewrite lookup_insert_ne].
Qed.
Lemma restoreEntry_confined R e broken f f' r : Forall segment R → rooted_at R f →
  restoreEntry (absString R) e broken f = (f', r) → confined R f f'.
Proof.
  intros HR Hr. unfold restoreEntry.
  destruct (safeRestorePath _ _) as [target|x] eqn:Es; [|intros [= <- _]; by apply confined_refl].
  destruct (safeRestorePath_inside _ _ _ HR Es) as (cs & Hn & Hcs & ->).
  assert (Hseg : Forall segment (R ++ cs)) by (by apply Forall_app).
  rewrite osPath_abs by done. destruct (te_Type e).
  - destruct (MkdirAll _ f) as [f1|x] eqn:Em; intros [= <- _]; [|by apply confined_refl].
    by eapply MkdirAll_confined.
  - destruct cs as [|c cs _] using rev_ind; [done|]. rewrite app_assoc in *. rewrite osPath_Dir by done.
    destruct (MkdirAll _ f) as [f1|x] eqn:Em; [|intros [= <- _]; by apply confined_refl].
    assert (H1 : confined R f f1) by (by eapply MkdirAll_confined).
    destruct (OpenFile _ f1) as [f2|x] eqn:Eo; intros [= <- _]; [|done].
    apply OpenFile_inv in Eo as (Hd & _ & ->). rewrite insert_insert_eq.
    eapply confined_trans; [exact H1|]. apply write_confined; [apply H1| |done].
    rewrite <-app_assoc. apply inside_app. by destruct cs.
  - intros [= <- _]. by apply confined_refl.
Qed.
Lemma restoreEntries_confined R s f f' r : Forall segment R → rooted_at R f →
  restoreEntries (absString R) s f = (f', r) → confined R f f'.
Proof.
  intros HR. revert f. induction s as [|x|e broken rest IH]; intros f Hr; cbn [restoreEntries];
    [intros [= <- _]; by apply confined_refl..|].
  destruct (restoreEntry _ e broken f) as [f1 [u|x]] eqn:Ee; pose proof (restoreEntry_confined _ _ _ _ _ _ HR Hr Ee) as H1.
  - intros H2. eapply confined_trans; [exact H1|]. apply IH; [apply H1|done].
  - by intros [= <- _].
Qed.

(** Nothing changed outside [R] except that directories leading to it appeared;
    nothing was deleted and no directory replaced. *)
Definition contained (R : list bytes) (f f' : files) : Prop :=
  (∀ q, ¬ inside R q → f' !! q = f !! q ∨ f !! q = None ∧ f' !! q = Some F_Dir ∧ q `prefix_of` R) ∧
  (∀ q, f !! q = Some F_Dir → f' !! q = Some F_Dir) ∧ (∀ q, is_Some (f !! q) → is_Some (f' !! q)).
Lemma contained_refl R f : contained R f f.
Proof. split; [by left|done]. Qed.
Lemma MkdirAll_contained R f f1 : MkdirAll R f = Ok f1 → contained R f f1 ∧ rooted_at R f1.
Proof.
  intros Em. assert (H1 : ∀ q, f1 !! q = f !! q ∨ f !! q = None ∧ f1 !! q = Some F_Dir ∧ q `prefix_of` R).
  { intros q. destruct (MkdirAll_frame _ _ _ q Em) as [?|(?&?&?&_)]; [by left|by right]. }
  split; [|intros q Hq Hne; by eapply MkdirAll_dirs]. split; [auto|]. split.
  - intros q Hq. destruct (H1 q) as [->|(?&?&_)]; congruence.
  - intros q Hq. destruct (H1 q) as [->|(?&->&_)]; [done|by eexists].
Qed.
Lemma contained_confined R f f1 f2 : contained R f f1 → confined R f1 f2 → contained R f f2.
Proof.
  intros (H1 & H2 & H3) (_ & H4 & H5 & H6). split; [|split; auto]. intros q Hq. rewrite H4 by done. by apply H1.
Qed.

(** C19: Whatever archive it is given, well formed or hostile, a restore changes
    nothing outside its target directory except that it creates the directories
    leading to it: no entry name escapes.  It never deletes a file and never
    replaces a directory, also when it fails half way; and without force a target
    that holds anything is refused and left as it was. *)
Theorem restore_confined inPath dataDir (force : bool) f f' r
    (Hrun : restoreBackupArchive inPath dataDir force f = (f', r)) :
  let R := osPath Getwd dataDir in
  contained R f f' ∧
  (force = false → f !! R = Some F_Dir → ∀ q x, inside R q → f !! q = Some x → f' = f ∧ ∃ e, r = Err e).
Proof.
  intros R. revert Hrun. unfold restoreBackupArchive. fold R.
  assert (Hquiet : ∀ e, (f, Err e) = (f', r) → contained R f f' ∧
    (force = false → f !! R = Some F_Dir → ∀ q x, inside R q → f !! q = Some x → f' = f ∧ ∃ e, r = Err e)).
  { intros e [= <- <-]. split; [apply contained_refl|]. eauto. }
  destruct (if force then _ else _) as [[]|e] eqn:Eready; [|apply Hquiet..].
  destruct (MkdirAll R f) as [f1|e] eqn:Em; [|apply Hquiet]. apply MkdirAll_contained in Em as [H1 Hr].
  assert (Hstop : ∀ e, (f1, Err e) = (f', r) → confined R f1 f') by (intros e [= -> _]; by apply confined_refl).
  intros Hrun. split.
  - eapply contained_confined; [exact H1|].
    destruct (f1 !! osPath Getwd inPath) as [[|raw]|]; [by eapply Hstop| |by eapply Hstop].
    destruct (archive_open raw) as [s|e]; [|by eapply Hstop].
    eapply restoreEntries_confined; [apply osPath_segments|exact Hr|exact Hrun].
  - intros -> HR q x (p & Hp & ->) Hx. exfalso. unfold dirEmptyOrMissing in Eready. rewrite HR in Eready.
    case_bool_decide as Hb; [|done]. assert (Hin : (p, x) ∈ below R f) by (by apply elem_of_below).
    rewrite Hb in Hin. by apply not_elem_of_nil in Hin.
Qed.

(** ** Round trip *)
(** A tree of relative paths: parents are directories, names are proper. *)
Definition wf_tree (t : files) : Prop := ∀ r x, t !! r = Some x →
  r ≠ [] ∧ Forall proper r ∧ ∀ q, q `prefix_of` r → q ≠ [] → q ≠ r → t !! q = Some F_Dir.
Lemma wf_fs_up f p x : wf_fs f → f !! p = Some x → Forall proper p ∧ ∀ q, q `prefix_of` p → q ≠ p → f !! q = Some F_Dir.
Proof.
  intros [_ Hf]. revert x. induction p as [|c p IH] using rev_ind; intros x Hx.
  { split; [done|]. by intros q ->%prefix_nil_inv. }
  destruct (Hf _ _ _ Hx) as [Hd Hc]. destruct (IH _ Hd) as [Hp Hq].
  split; [apply Forall_app; split; [done|by apply Forall_singleton]|].
  intros q Hpre Hne. apply prefix_snoc_inv in Hpre as [->|Hpre]; [done|].
  destruct (decide (q = p)) as [->|?]; [done|]. by apply Hq.
Qed.
Lemma subtree_wf root f : wf_fs f → wf_tree (subtree root f).
Proof.
  intros Hf r x [Hx Hr]%lookup_subtree. destruct (wf_fs_up _ _ _ Hf Hx) as [Hp Hq]. split; [done|].
  split; [by apply Forall_app in Hp as [_ ?]|]. intros q Hpre Hne Hqr. apply lookup_subtree. split; [|done].
  apply Hq; [by apply prefix_app|]. by intros ?%app_inv_head.
Qed.

(** The target while a restore is under way: a part of the tree. *)
Definition partial (R : list bytes) (t g : files) : Prop :=
  (∀ q, q `prefix_of` R → g !! q = Some F_Dir) ∧ ∀ r x, r ≠ [] → g !! (R ++ r) = Some x → t !! r = Some x.
Lemma partial_mkdir R t g r x : R ≠ [] → wf_tree t → partial R t g → t !! r = Some x →
  ∀ d, d `prefix_of` r → (d = r → x = F_Dir) →
  ∃ g', MkdirAll (R ++ d) g = Ok g' ∧ partial R t g' ∧ (∀ q y, g !! q = Some y → g' !! q = Some y) ∧
        g' !! (R ++ d) = Some F_Dir.
Proof.
  intros HR Ht [Hroot Hin] Hx d Hd Hdx.
  assert (Hdir : ∀ q, q `prefix_of` d → q ≠ [] → t !! q = Some F_Dir).
  { intros q Hq Hne. destruct (Ht _ _ Hx) as (_ & _ & Hp).
    destruct (decide (q = r)) as [->|Hqr]; [|apply Hp; [by etrans|done|done]].
    assert (d = r) as -> by (apply (anti_symm prefix); [done|by destruct Hq as [k ->]; exists k]). by rewrite Hdx in Hx. }
  assert (Hpre : ∀ q, q `prefix_of` R ++ d → q `prefix_of` R ∨ ∃ e, q = R ++ e ∧ e ≠ [] ∧ e `prefix_of` d).
  { intros q Hq. destruct (decide (q `prefix_of` R)); [by left|]. right.
    destruct (prefix_weak_total R q (R ++ d)) as [[e ->]|?]; [by exists d|done| |done].
    exists e. split; [done|]. split; [intros ->; by rewrite app_nil_r in *|by eapply prefix_app_inv]. }
  destruct (MkdirAll_ok (R ++ d) g) as [g' Hg'].
  { intros q b Hq E. destruct (Hpre q Hq) as [Hq'|(e & -> & He & Hed)]; [by rewrite Hroot in E|].
    apply Hin in E; [|done]. by rewrite Hdir in E. }
  assert (Hkeep : ∀ q y, g !! q = Some y → g' !! q = Some y).
  { intros q y Hy. destruct (MkdirAll_frame _ _ _ q Hg') as [->|(?&_)]; [done|congruence]. }
  exists g'. split; [done|]. split; [split|split; [done|]].
  - intros q Hq. by apply Hkeep, Hroot.
  - intros e y He Hy. destruct (MkdirAll_frame _ _ _ (R ++ e) Hg') as [E|(_ & E & Hp & _)].
    + apply Hin; [done|congruence].
    + rewrite E in Hy. injection Hy as <-. apply prefix_app_inv in Hp. by apply Hdir.
  - apply (MkdirAll_dirs _ _ _ _ Hg'); [done|]. by destruct R.
Qed.
Lemma restoreEntry_partial R t g r x : R ≠ [] → Forall segment R → wf_tree t → partial R t g → t !! r = Some x →
  ∃ g', restoreEntry (absString R) (tarEntryOf (r, x)) None g = (g', Ok ()) ∧ partial R t g' ∧
        (∀ q y, q ≠ R ++ r → g !! q = Some y → g' !! q = Some y) ∧ g' !! (R ++ r) = Some x.
Proof.
  intros HR HsR Ht Hg Hx. destruct (Ht _ _ Hx) as (Hr & Hp & Hup).
  assert (Hseg : Forall segment (R ++ r)) by (apply Forall_app; auto).
  unfold restoreEntry, tarEntryOf. cbn [fst snd]. destruct x as [|b]; cbn [te_Name te_Type te_Body];
    rewrite safeRestorePath_ok, osPath_abs by done.
  - destruct (partial_mkdir R t g r F_Dir HR Ht Hg Hx r) as (g' & -> & H1 & H2 & H3); [done..|].
    exists g'. split; [done|]. split; [done|]. split; [auto|done].
  - destruct r as [|c d _] using rev_ind; [done|]. rewrite app_assoc in *. rewrite osPath_Dir by done.
    destruct (partial_mkdir R t g _ _ HR Ht Hg Hx d) as (g1 & -> & [H1 H1'] & H2 & H3).
    { by exists [c]. }
    { intros E. apply (f_equal length) in E. rewrite length_app in E. simpl in E. lia. }
    rewrite OpenFile_ok.
    2:{ intros E. rewrite <-app_assoc in E. apply H1' in E; [congruence|by destruct d]. }
    2:{ by rewrite dirOf_snoc. }
    rewrite insert_insert_eq. eexists. split; [reflexivity|].
    assert (Hnp : ¬ (R ++ d) ++ [c] `prefix_of` R).
    { intros Hq%prefix_length. rewrite !length_app in Hq. simpl in Hq. lia. }
    split; [split|split].
    + intros q Hq. rewrite lookup_insert_ne; [by apply H1|]. by intros <-.
    + intros e y He. destruct (decide (R ++ e = (R ++ d) ++ [c])) as [E|E].
      * rewrite E, lookup_insert_eq. intros [= <-]. rewrite <-app_assoc in E. by apply app_inv_head in E as ->.
      * rewrite lookup_insert_ne by done. by apply H1'.
    + intros q y Hq Hy. rewrite lookup_insert_ne by done. by apply H2.
    + by rewrite lookup_insert_eq.
Qed.
Lemma restoreEntries_partial R t (kvs : list (list bytes * fnode)) g :
  R ≠ [] → Forall segment R → wf_tree t → NoDup kvs.*1 → Forall (λ kv, t !! kv.1 = Some kv.2) kvs → partial R t g →
  ∃ g', restoreEntries (absString R) (streamOf (tarEntryOf <$> kvs)) g = (g', Ok ()) ∧ partial R t g' ∧
        (∀ q y, (∀ r, r ∈ kvs.*1 → q ≠ R ++ r) → g !! q = Some y → g' !! q = Some y) ∧
        ∀ r x, (r, x) ∈ kvs → g' !! (R ++ r) = Some x.
Proof.
  intros HR HsR Ht Hnd Hk. revert g Hnd. induction Hk as [|[r x] kvs Hx Hk IH]; intros g Hnd Hg.
  { exists g. split; [done|]. split; [done|]. split; [auto|]. intros r x ?%elem_of_nil. done. }
  rewrite fmap_cons in Hnd. apply NoDup_cons in Hnd as [Hr Hnd].
  destruct (restoreEntry_partial R t g r x HR HsR Ht Hg Hx) as (g1 & E1 & Hg1 & Hkeep1 & Hin1).
  destruct (IH g1 Hnd Hg1) as (g2 & E2 & Hg2 & Hkeep2 & Hin2).
  exists g2. rewrite fmap_cons. cbn [streamOf restoreEntries]. rewrite E1. split; [done|]. split; [done|]. split.
  - intros q y Hq Hy. apply Hkeep2; [intros r' Hr'; apply Hq; by right|]. apply Hkeep1; [apply Hq; by left|done].
  - intros r' x' [[= -> ->]|Hin]%elem_of_cons; [|by apply Hin2]. apply Hkeep2; [|done].
    intros r'' Hr'' E. apply app_inv_head in E as ->. done.
Qed.
(** Opening the archive for writing leaves the archived tree alone. *)
Lemma below_ext root f f' : (∀ q, root `prefix_of` q → f' !! q = f !! q) → subtree root f' = subtree root f.
Proof.
  intros H. apply map_eq. intros r. apply option_eq. intros x. rewrite !lookup_subtree.
  rewrite H by (by exists r). done.
Qed.
Lemma tar_names t : wf_tree t → Forall (λ e, NUL ∉ e.(te_Name)) (tarEntryOf <$> map_to_list t).
Proof.
  intros Ht. apply Forall_fmap, Forall_forall. intros [r x] Hx%elem_of_map_to_list.
  destruct (Ht _ _ Hx) as (_ & Hp & _). unfold compose, tarEntryOf.
  assert (NUL ∉ joinOn slash r) by (apply joinOn_chars; [done|eapply Forall_impl; [exact Hp|by intros c []]]).
  by destruct x.
Qed.
Lemma createBackupArchive_inv dataDir outPath f f1 :
  let D := osPath Getwd dataDir in let A := osPath Getwd outPath in
  wf_fs f → ¬ D `prefix_of` osPath Getwd (Dir outPath) → createBackupArchive dataDir outPath f = Some (f1, Ok ()) →
  f1 !! [] = Some F_Dir ∧
  ∃ kvs, kvs ≡ₚ map_to_list (subtree D f) ∧ f1 !! A = Some (F_File (archive_write (tarEntryOf <$> kvs))).
Proof.
  intros D A [Hroot _] Hout. unfold createBackupArchive. fold D. fold A.
  destruct (f !! D) as [[|]|]; [|done..]. destruct (MkdirAll _ f) as [f2|] eqn:Em; [|done].
  destruct (OpenFile A f2) as [f3|] eqn:Eo; [|done]. apply OpenFile_inv in Eo as (Hd & _ & ->).
  case_bool_decide as HA; [done|]. intros [= <-]. rewrite insert_insert_eq.
  assert (Hr2 : f2 !! [] = Some F_Dir) by (destruct (MkdirAll_frame _ _ _ [] Em) as [->|(?&_)]; [done|congruence]).
  split; [rewrite lookup_insert_ne; [done|]; by intros E; rewrite E in Hd|].
  exists (WalkDir D (<[A := F_File []]> f2)). split; [|by rewrite lookup_insert_eq].
  rewrite WalkDir_below, below_subtree. rewrite (below_ext D f); [done|].
  intros q Hq. rewrite lookup_insert_ne by (by intros <-).
  destruct (MkdirAll_frame _ _ _ q Em) as [?|(_ & _ & Hp & _)]; [done|]. destruct Hout. by etrans.
Qed.
Lemma partial_start R t f1 g : f1 !! [] = Some F_Dir → below R f1 = [] → MkdirAll R f1 = Ok g → partial R t g.
Proof.
  intros Hroot Hbelow Hm. split.
  - intros q Hq. destruct (decide (q = [])) as [->|Hne]; [|by eapply MkdirAll_dirs].
    destruct (MkdirAll_frame _ _ _ [] Hm) as [->|(?&_)]; [done|congruence].
  - intros r x Hr Hx. exfalso. destruct (MkdirAll_frame _ _ _ (R ++ r) Hm) as [E|(_ & _ & Hp & _)].
    + assert (Hin : (r, x) ∈ below R f1) by (apply elem_of_below; split; congruence).
      rewrite Hbelow in Hin. by apply elem_of_nil in Hin.
    + apply prefix_length in Hp. rewrite length_app in Hp. destruct r; [done|]. simpl in Hp. lia.
Qed.
Lemma partial_complete R t kvs g : kvs ≡ₚ map_to_list t → wf_tree t → partial R t g →
  (∀ r x, (r, x) ∈ kvs → g !! (R ++ r) = Some x) → subtree R g = t.
Proof.
  intros Hk Ht [_ Hg] Hin. apply map_eq. intros r. apply option_eq. intros x. rewrite lookup_subtree. split.
  - intros [Hx Hr]. by apply Hg.
  - intros Hx. split; [|by apply Ht in Hx as [? _]]. apply Hin. rewrite Hk. by apply elem_of_map_to_list.
Qed.
Lemma countRegularFiles_ext R D f f' : subtree R f' = subtree D f → countRegularFiles R f' = countRegularFiles D f.
Proof.
  intros E. unfold countRegularFiles. apply Permutation_length, filter_Permutation.
  by rewrite !WalkDir_below, !below_subtree, E.
Qed.

(** C20: Restoring a created backup into a target that holds nothing gives the
    archived data directory back: the same directories and files with the same
    contents at the same relative paths, for every tree.  Validating it reports
    success with the tree's number of files and the row counts of the database
    that Pebble opens from the tree. *)
Theorem backup_round_trip dataDir outPath restoreDir tmp f f1
    (Hcodec : ∀ es, Forall (λ e, NUL ∉ e.(te_Name)) es → archive_open (archive_write es) = Ok (streamOf es))
    (Hwf : wf_fs f)
    (Hout : ¬ osPath Getwd dataDir `prefix_of` osPath Getwd (Dir outPath))
    (Hcreate : createBackupArchive dataDir outPath f = Some (f1, Ok ()))
    (HR : osPath Getwd restoreDir ≠ [])
    (Hempty : below (osPath Getwd restoreDir) f1 = [])
    (Hway : ∀ q b, q `prefix_of` osPath Getwd restoreDir → f1 !! q ≠ Some (F_File b)) :
  let D := osPath Getwd dataDir in let R := osPath Getwd restoreDir in
  ∃ f2, restoreBackupArchive outPath restoreDir false f1 = (f2, Ok ()) ∧
    subtree R f2 = subtree D f ∧
    ∀ db, pebble_Open (subtree D f) = Ok db → nonempty restoreDir = true →
      validateBackupArchive tmp outPath restoreDir false f1 =
        (f2, Ok (reportOf outPath restoreDir false (countRegularFiles D f) db)).
Proof.
  intros D R. destruct (createBackupArchive_inv _ _ _ _ Hwf Hout Hcreate) as (Hroot & kvs & Hk & HA).
  pose proof (subtree_wf D f Hwf) as Ht. destruct (MkdirAll_ok R f1 Hway) as [g Hm].
  assert (Hnames : Forall (λ e, NUL ∉ e.(te_Name)) (tarEntryOf <$> kvs)) by (rewrite Hk; by apply tar_names).
  destruct (restoreEntries_partial R (subtree D f) kvs g) as (f2 & Hrun & Hp & _ & Hin);
    [done|apply osPath_segments|done|rewrite Hk; apply NoDup_fst_map_to_list|
     rewrite Hk; apply Forall_forall; by intros [r x] ?%elem_of_map_to_list|by eapply partial_start|].
  assert (Hrestore : restoreBackupArchive outPath restoreDir false f1 = (f2, Ok ())).
  { unfold restoreBackupArchive, dirEmptyOrMissing. rewrite Hempty, bool_decide_eq_true_2 by done. fold R.
    assert (Hs : g !! osPath Getwd outPath = Some (F_File (archive_write (tarEntryOf <$> kvs)))).
    { destruct (MkdirAll_frame _ _ _ (osPath Getwd outPath) Hm) as [->|(?&_)]; congruence. }
    destruct (f1 !! R) as [[|b]|] eqn:ER; [|by destruct (Hway R b)|];
      rewrite Hm, Hs, Hcodec by done; exact Hrun. }
  assert (Hsub : subtree R f2 = subtree D f) by (by eapply partial_complete).
  exists f2. split; [done|]. split; [done|]. intros db Hdb Hne. unfold validateBackupArchive.
  rewrite Hne. cbn [negb]. rewrite Hrestore. fold R. rewrite Hsub, Hdb. by rewrite (countRegularFiles_ext R D f).
Qed.
End backups.

(** ** Witnesses *)
(** Archives as encoded lists of entries; every tree opens as one fixed store. *)
Definition entry_of (e : bytes * (option bool * bytes)) : tarEntry :=
  mktarEntry e.1 (match e.2.1 with None => Tar_Dir | Some true => Tar_Reg | Some false => Tar_Other end) e.2.2.
Definition entry_to (e : tarEntry) : bytes * (option bool * bytes) :=
  (e.(te_Name), (match e.(te_Type) with Tar_Dir => None | Tar_Reg => Some true | Tar_Other => Some false end, e.(te_Body))).
Lemma entry_of_to (es : list tarEntry) : entry_of <$> (entry_to <$> es) = es.
Proof.
  rewrite <-list_fmap_compose. rewrite <-(list_fmap_id es) at 2. apply list_fmap_ext.
  by intros _ [name [] body] _.
Qed.
Definition demo_opened : store := <[MetaKey (bs "applied_index") := VRaw (u64be 7)]> ∅.
#[export] Instance demo_backup : BackupEnv := {|
  Getwd := [];
  archive_write es := pos_bytes (encode (entry_to <$> es));
  archive_open b := match decode (bytes_pos b) with Some l => Ok (streamOf (entry_of <$> l)) | None => Err (bs "corrupt") end;
  pebble_Open _ := Ok demo_opened |}.
Lemma demo_codec es : archive_open (archive_write es) = Ok (streamOf es).
Proof. cbn -[fmap]. by rewrite bytes_pos_bytes, decode_encode, entry_of_to. Qed.

Definition demo_files : files := list_to_map
  [([], F_Dir); ([bs "data"], F_Dir); ([bs "data"; bs "CURRENT"], F_File (bs "manifest"));
   ([bs "data"; bs "raft"], F_Dir); ([bs "data"; bs "raft"; bs "log"], F_File (bs "entries"))].
#[export] Instance proper_dec c : Decision (proper c).
Proof. unfold proper, segment, plain. apply _. Defined.
Lemma wf_fs_check f : f !! [] = Some F_Dir →
  Forall (λ kv, kv.1 = [] ∨ f !! dirOf kv.1 = Some F_Dir ∧ proper (List.last kv.1 [])) (map_to_list f) → wf_fs f.
Proof.
  intros Hr Hf. split; [done|]. intros p c x Hx. rewrite Forall_forall in Hf.
  destruct (Hf (p ++ [c], x)) as [E|[Hd Hc]]; [by apply elem_of_map_to_list|by destruct p|].
  cbn [fst] in *. rewrite dirOf_snoc in Hd. by rewrite List.last_last in Hc.
Qed.
Lemma demo_wf : wf_fs demo_files.
Proof. apply wf_fs_check; [done|]. apply (bool_decide_unpack _). by vm_compute. Qed.
Definition demo_hostile : files :=
  <[[bs "b.tgz"] := F_File (archive_write [mktarEntry (bs "ok") Tar_Reg (bs "1"); mktarEntry (bs "../data/CURRENT") Tar_Reg (bs "2")])]>
    demo_files.

(** A hostile archive: the first entry is restored, the second refused. *)
Lemma restore_confined_witness : ∃ f' e,
  restoreBackupArchive (bs "/b.tgz") (bs "/new") false demo_hostile = (f', Err e) ∧
  contained [bs "new"] demo_hostile f' ∧ f' !! [bs "new"; bs "ok"] = Some (F_File (bs "1")).
Proof.
  destruct (restoreBackupArchive (bs "/b.tgz") (bs "/new") false demo_hostile) as [f' r] eqn:Hrun.
  destruct (restore_confined _ _ _ _ _ _ Hrun) as [Hc _].
  assert (Hv : match restoreBackupArchive (bs "/b.tgz") (bs "/new") false demo_hostile with
    | (f', Err e) => f' !! [bs "new"; bs "ok"] = Some (F_File (bs "1")) | _ => False end) by by vm_compute.
  rewrite Hrun in Hv. destruct r as [u|e]; [done|]. exists f', e. split; [done|]. split; [exact Hc|exact Hv].
Defined.
Definition demo_created : files :=
  match createBackupArchive (bs "/data") (bs "/out/b.tgz") demo_files with Some (f1, Ok _) => f1 | _ => ∅ end.
Lemma demo_create : createBackupArchive (bs "/data") (bs "/out/b.tgz") demo_files = Some (demo_created, Ok ()).
Proof.
  assert (Hv : match createBackupArchive (bs "/data") (bs "/out/b.tgz") demo_files with
    | Some (_, Ok _) => true | _ => false end = true) by by vm_compute.
  unfold demo_created. by destruct (createBackupArchive _ _ _) as [[f1 [[]|]]|].
Qed.
Lemma backup_round_trip_witness : ∃ f2 report,
  restoreBackupArchive (bs "/out/b.tgz") (bs "/new") false demo_created = (f2, Ok ()) ∧
  subtree [bs "new"] f2 = subtree [bs "data"] demo_files ∧
  validateBackupArchive [] (bs "/out/b.tgz") (bs "/new") false demo_created = (f2, Ok report) ∧
  report.(bv_Files) = 2%nat ∧ report.(bv_AppliedIndex) = 7.
Proof.
  destruct (backup_round_trip (bs "/data") (bs "/out/b.tgz") (bs "/new") [] demo_files demo_created) as (f2 & H1 & H2 & H3).
  - intros es _. apply demo_codec.
  - exact demo_wf.
  - apply (bool_decide_unpack _). by vm_compute.
  - exact demo_create.
  - done.
  - by vm_compute.
  - intros q b Hq. intros E.
    assert (Hq' : q = [] ∨ q = [bs "new"]).
    { destruct Hq as [k Hk]. change (osPath Getwd (bs "/new")) with [bs "new"] in Hk.
      destruct q as [|c q]; [by left|right]. injection Hk as <- Hk. by destruct q. }
    destruct Hq' as [Eq|Eq]; rewrite Eq in E; by vm_compute in E.
  - exists f2. eexists. split; [exact H1|]. split; [exact H2|]. split; [by apply H3|]. split; by vm_compute.
Defined.
