(* ===== verification/Quiet.v ===== *)
(** * Tables that one kind of command writes

    The singletons and the principals are each written by their own command
    alone: every other handler's writes stay off their tables. *)

From S2P Require Import Prelude Keys Data Store Backoff Publish Workflow Broker Control Auth Timers Fsm Commands Reason Structure Accounting AccountingOps AccountingLog.

Implicit Types (db : store) (b : batch).

(** A write off the table [T]. *)
Definition off (T : byte) (o : bop) : Prop := tag (bop_key o) ≠ Some T.
Abbreviation off_M T := (each_M (off T)).
#[local] Ltac each_op ::=
  cbn; first [exact I | intros [= <-]; by repeat match goal with H : _ ∨ _ |- _ => destruct H as [H|H] end | by intros [=]].

#[local] Set Default Proof Using "Type*".
Section handlers.
Context {PC : PayloadCodec}.
Variable T : byte.
Hypothesis HT : T = tagSingleton ∨ T = tagAuthPrincipal.

Lemma quiet_wf : T ∉ wf_tags.
Proof. destruct HT as [-> | ->]; vm_compute; set_solver. Qed.
Lemma off_writes {A} (ts : list byte) (m : M A) : writes_M ts m → T ∉ ts → off_M T m.
Proof. intros Hw Hn. eapply each_writes; [done|]. unfold off. intros o t -> Ht [= ->]. done. Qed.
Lemma off_publishOne c gm : off_M T (publishOne c gm).
Proof. unfold publishOne. each. Qed.
Lemma off_publishReady l g p h now : off_M T (publishReady l g p h now).
Proof. unfold publishReady. each. Qed.
Lemma off_recordDedup c id : off_M T (recordDedup c id).
Proof. unfold recordDedup. each. Qed.
#[local] Hint Resolve off_publishOne off_publishReady off_recordDedup : rota_each.
Lemma off_publishItems a items st : off_M T (publishItems a items st).
Proof.
  revert st. induction items as [|i items IH]; intros st; simpl; [each|].
  apply each_bind; [|done]. unfold publishItem. each.
Qed.
Lemma off_putGroups order cache : off_M T (putGroups order cache).
Proof. induction order; simpl; each. Qed.
Lemma off_recordActivityTerminal r s f res now : off_M T (recordActivityTerminal r s f res now).
Proof. eapply off_writes; [apply writes_recordActivityTerminal|]. apply quiet_wf. Qed.
Lemma off_appendExternalEvent r t a now : off_M T (appendExternalEvent r t a now).
Proof. eapply off_writes; [apply writes_appendExternalEvent|]. apply quiet_wf. Qed.
Lemma off_makeReady m gm r now : off_M T (makeReady m gm r now).
Proof. unfold makeReady. each. Qed.
Lemma off_deleteLeaseToken l : off_M T (deleteLeaseToken l).
Proof. unfold deleteLeaseToken. each. Qed.
#[local] Hint Resolve off_publishItems off_putGroups off_recordActivityTerminal off_appendExternalEvent
  off_makeReady off_deleteLeaseToken : rota_each.
Lemma off_deadLetter m r h ts : off_M T (deadLetter m r h ts).
Proof. unfold deadLetter. each. Qed.
Lemma off_dropRows l g rows d : off_M T (dropRows l g rows d).
Proof. revert d. induction rows as [|[k v] rows IH]; intros d; simpl; each. Qed.
#[local] Hint Resolve off_deadLetter off_dropRows : rota_each.
Lemma off_dropLeasable l g gm : off_M T (dropLeasable l g gm).
Proof. unfold dropLeasable. each. Qed.
#[local] Hint Resolve off_dropLeasable : rota_each.
Lemma off_teardownLanes g lanes a : off_M T (teardownLanes g lanes a).
Proof. revert a. induction lanes as [|l lanes IH]; intros a; simpl; each. Qed.
Lemma off_applyAck c : off_M T (applyAck c).
Proof. unfold applyAck. each. Qed.
Lemma off_applyNack c : off_M T (applyNack c).
Proof. unfold applyNack. each. Qed.
Lemma off_dispatchWorkflowTask run : off_M T (dispatchWorkflowTask run).
Proof. unfold dispatchWorkflowTask. each. Qed.
Lemma off_createRun w t i p now : off_M T (createRun w t i p now).
Proof. unfold createRun, nextRunID. each. Qed.
Lemma off_advanceRun r s now run : off_M T (advanceRun r s now run).
Proof. unfold advanceRun. each. all: apply off_dispatchWorkflowTask. Qed.
#[local] Hint Resolve off_teardownLanes off_applyAck off_applyNack off_createRun off_advanceRun : rota_each.
Lemma off_appendEvents c evs n run : off_M T (appendEvents c evs n run).
Proof.
  revert n run. induction evs as [|e evs IH]; intros n run; simpl; [each|].
  unfold appendEffect, dispatchActivity, armWFTimer. each.
Qed.
#[local] Hint Resolve off_appendEvents : rota_each.

Lemma off_broker :
  (∀ c, off_M T (applyPublish c)) ∧ (∀ c, off_M T (applyPublishBatch c)) ∧ (∀ c, off_M T (applyLease c)) ∧
  (∀ c, off_M T (applyExtend c)) ∧ (∀ c, off_M T (applyComplete c)) ∧ (∀ c, off_M T (applyFireTimer c)).
Proof.
  unfold applyPublish, applyPublishBatch, applyLease, nextLeaseID, applyExtend, applyComplete,
    applyFireTimer, fireKind, fireReadyAt, fireLeaseDeadline, expireLease, penaliseExpiry, fireLeaseMaxLife,
    fireWFTimer, recordTimerFired, fireMsgExpiry, fireDedupExpiry.
  split_and!; intros c; each.
Qed.
Lemma off_workflow :
  (∀ c, off_M T (applyWFStartRun c)) ∧ (∀ c, off_M T (applyWFAppendEvents c)) ∧
  (∀ c, off_M T (applyWFCompleteActivity c)) ∧ (∀ c, off_M T (applyWFSignal c)) ∧ (∀ c, off_M T (applyWFCancel c)).
Proof.
  unfold applyWFStartRun, applyWFAppendEvents, applyWFCompleteActivity, applyWFSignal, applyWFCancel.
  split_and!; intros c; each.
Qed.
Lemma off_control :
  (∀ c, off_M T (applySetPolicy c)) ∧ (∀ c, off_M T (applyGroupConfig c)) ∧
  (∀ c, off_M T (applyGroupLifecycle c)) ∧ (∀ c, off_M T (applyTeardownGroup c)) ∧
  (∀ c, off_M T (applyCron c)) ∧ (∀ c, off_M T (applyFireCron c)) ∧ (∀ c, off_M T (applyIssueToken c)) ∧
  (∀ c, off_M T (applySetLaneConfig c)) ∧ (∀ c, off_M T (applyReapGroup c)).
Proof.
  unfold applySetPolicy, applyGroupConfig, applyGroupLifecycle, applyTeardownGroup, applyCron,
    applyFireCron, applyIssueToken, applySetLaneConfig, applyReapGroup.
  split_and!; intros c; each.
Qed.

Lemma off_applyRedrive c : off_M T (applyRedrive c).
Proof.
  intros db x b E. unfold applyRedrive in E.
  apply bind_Ok in E as (rows & b1 & b2 & [-> ->]%gets_Ok & E & ->). simpl app.
  destruct (findDead _ _) as [[dk dl]|] eqn:Ef; [|minv E; constructor].
  assert (Hk : tag dk = Some tagDLQ).
  { apply findDead_in in Ef as [Hin _]. apply elem_of_NewIter in Hin as [_ Hr].
    by apply PrefixEnd_range in Hr as [y ->]. }
  apply bind_Ok in E as (gm & b1 & b3 & [-> ->]%gets_Ok & E & ->).
  apply bind_Ok in E as ([id gm'] & b1 & b4 & E1 & E & ->). apply off_publishOne in E1.
  apply bind_Ok in E as ([] & b5 & b6 & [_ ->]%putProto_Ok & E & ->).
  apply bind_Ok in E as ([] & b7 & b8 & [_ ->]%bdel_Ok & [_ ->]%ret_Ok & ->).
  simpl app. apply Forall_app. split; [exact E1|]. repeat constructor; unfold off; cbn [bop_key]; rewrite ?Hk; intros [= <-]; by destruct HT.
Qed.

(** Every command but the two leaves the table alone. *)
Lemma dispatch_quiet cmd db (r : ApplyResult) (b : batch) : dispatch cmd db = Some (Ok (r, b)) →
  (∃ c, cmd.(c_Singleton) = Some c ∧ cmd.(c_Type) = CmdSingleton ∧ applySingleton c db = Ok (r, b)) ∨
  (cmd.(c_Type) = CmdAuthPrincipal ∧ applyAuthPrincipal cmd.(c_AuthPrincipal) db = Ok (r, b)) ∨
  Forall (off T) b.
Proof.
  intros E. assert (Hq : ∀ {C} (h : C → M ApplyResult) o, (∀ c, off_M T (h c)) →
    deref h o db = Some (Ok (r, b)) → Forall (off T) b).
  { intros C h [c|] Hh; [|done]. intros [= E']. by eapply Hh. }
  destruct off_broker as (B1 & B2 & B3 & B4 & B5 & B6).
  destruct off_workflow as (W1 & W2 & W3 & W4 & W5).
  destruct off_control as (K1 & K2 & K3 & K4 & K5 & K6 & K7 & K8 & K9).
  unfold dispatch in E. cbv zeta in E.
  destruct (N.eqb_spec (c_Type cmd) CmdSingleton) as [Ht|Ht].
  { left. rewrite Ht in E. apply deref_Ok in E as (c & Ec & E). eauto. }
  destruct (N.eqb_spec (c_Type cmd) CmdAuthPrincipal) as [Ha|Ha].
  { right; left. rewrite Ha in E. by injection E. }
  do 2 right. repeat match type of E with (if ?x then _ else _) _ = _ => destruct x eqn:?Hx end;
    try (eapply Hq; [|exact E]; first [done|exact off_applyAck|exact off_applyNack|exact off_applyRedrive]).
  - destruct (c_Teardown cmd) as [c|]; cbn [deref_teardown] in E.
    + injection E as E. by eapply K4.
    + destruct (existsb _ _); [done|]. by injection E as <- <-.
  - done.
Qed.
End handlers.

(** ** The principals' own command never deletes *)
Definition sets (o : bop) : Prop := match o with BSet _ _ => True | BDel _ => False end.
Lemma auth_sets c : each_M sets (applyAuthPrincipal c).
Proof.
  unfold applyAuthPrincipal, applyAuthCreatePrincipal, applyAuthRotatePrincipalToken,
    applyAuthSetPrincipalDisabled, applyAuthGrantPrincipal, applyAuthRevokePrincipalGrant, loadAuthPrincipal.
  each.
Qed.
Lemma auth_off c : off_M tagSingleton (applyAuthPrincipal c).
Proof.
  unfold applyAuthPrincipal, applyAuthCreatePrincipal, applyAuthRotatePrincipalToken,
    applyAuthSetPrincipalDisabled, applyAuthGrantPrincipal, applyAuthRevokePrincipalGrant, loadAuthPrincipal.
  each.
Qed.
Lemma singleton_off c : off_M tagAuthPrincipal (applySingleton c).
Proof. unfold applySingleton. each. Qed.
