(* ===== verification/Client.v ===== *)
(** * The operator's command line ([cmd/rota/client.go], [ops.go], [auth.go])

    A command checks its flags, calls the server and prints what it answers.  A
    call goes through the server's interceptors on the node at the other end
    ([rpc]); the node is at rest while a command runs.  Flags arrive parsed ([Cli]
    reads them); what a command has to print is a [CliOut] ([Render] prints it).
    The TLS and gRPC libraries decide whether a client can be made at all
    ([ClientEnv]); deadlines and lost connections are not modelled. *)

From S2P Require Import Prelude GoStrings Keys Data Store Float GoNumbers Publish Workflow Broker Control Auth Timers Fsm Commands Fairness Meter Policy Scheduler Hash Node NodeControl NodeOps NodeStats NodeWorkflow NodeAuth Observatory Transport Work.

(** ** The token on a call ([withAuthToken]) *)
Definition withAuthToken (token : bytes) : metadata :=
  Some {[ bs "authorization" := [bs "Bearer " ++ token]; bs "x-rota-token" := [token] ]}.
(** The interceptors are installed for a non-empty token. *)
Definition outgoing (token : bytes) : metadata := if nonempty token then withAuthToken token else Some ∅.

(** ** Dialing

    Durations are in nanoseconds. *)
Record clientOptions := mkclientOptions {
  co_grpcAddr : bytes; co_timeout : Z; co_token : bytes; co_tlsCA : bytes; co_tlsServerName : bytes }.
Inductive credentials := Creds_Insecure | Creds_FromFile (ca name : bytes) | Creds_FromCert (name : bytes).
Class ClientEnv := {
  (** whether [credentials.NewClientTLSFromFile] reads a certificate pool *)
  NewClientTLSFromFile : bytes → bytes → result ();
  grpc_NewClient : bytes → credentials → result ();
}.
Definition commandTimeout (timeout : Z) : Z := if (timeout <=? 0)%Z then 5000000000%Z else timeout.

Section dialing.
Context {CE : ClientEnv}.
Definition clientTransportCredentials (o : clientOptions) : result credentials :=
  if nonempty o.(co_tlsCA) then
    match NewClientTLSFromFile o.(co_tlsCA) o.(co_tlsServerName) with
    | Err e => Err e
    | Ok _ => Ok (Creds_FromFile o.(co_tlsCA) o.(co_tlsServerName))
    end
  else if nonempty o.(co_tlsServerName) then Ok (Creds_FromCert o.(co_tlsServerName))
  else Ok Creds_Insecure.
Definition dialClients (o : clientOptions) : result () :=
  if nonempty o.(co_grpcAddr) then
    match clientTransportCredentials o with
    | Err e => Err e
    | Ok creds => grpc_NewClient o.(co_grpcAddr) creds
    end
  else Err (bs "--grpc is required").
End dialing.

Definition requireFlag (name value : bytes) : result () :=
  if nonempty value then Ok () else Err (bs "--" ++ name ++ bs " is required").

(** ** Grants on the command line *)
Definition allActions : list Z :=
  [AUTH_READ; AUTH_PUBLISH; AUTH_CONSUME; AUTH_COMPLETE; AUTH_WORKFLOW; AUTH_CONFIGURE].
(** The actions a word stands for; an empty word for none. *)
Definition actionsOf (word : bytes) : option (list Z) :=
  if bool_decide (word = []) then Some []
  else if bool_decide (word = bs "all") then Some allActions
  else if bool_decide (word = bs "read") then Some [AUTH_READ]
  else if bool_decide (word = bs "publish" ∨ word = bs "write") then Some [AUTH_PUBLISH]
  else if bool_decide (word = bs "consume" ∨ word = bs "work") then Some [AUTH_CONSUME]
  else if bool_decide (word = bs "complete") then Some [AUTH_COMPLETE]
  else if bool_decide (word = bs "workflow") then Some [AUTH_WORKFLOW]
  else if bool_decide (word = bs "configure" ∨ word = bs "config") then Some [AUTH_CONFIGURE]
  else if bool_decide (word = bs "admin") then Some [AUTH_ADMIN]
  else None.
Fixpoint dedupeActions (seen acts : list Z) : list Z :=
  match acts with
  | [] => []
  | a :: acts' => if bool_decide (a ∈ seen) then dedupeActions seen acts' else a :: dedupeActions (a :: seen) acts'
  end.

Section grants.
Context {T : Text}.
Fixpoint parseWords (words : list bytes) : result (list Z) :=
  match words with
  | [] => Ok []
  | raw :: words' =>
      match actionsOf (ToLower (TrimSpace raw)) with
      | None => Err (bs "unknown auth action " ++ raw)
      | Some acts => match parseWords words' with Ok rest => Ok (acts ++ rest) | Err e => Err e end
      end
  end.
Definition parseAuthActions (s : bytes) : result (list Z) :=
  match parseWords (splitOn ","%char s) with
  | Err e => Err e
  | Ok [] => Err (bs "at least one auth action is required")
  | Ok out => Ok (dedupeActions [] out)
  end.
Definition parseGrantSpec (spec : bytes) : result AuthGrant :=
  match splitN 3 ":"%char spec with
  | [lane; group; actions] =>
      match parseAuthActions actions with
      | Err e => Err e
      | Ok acts => Ok (mkAuthGrant lane group acts [])
      end
  | _ => Err (bs "grant must be lane_regex:group_regex:actions")
  end.
Fixpoint parseSpecs (specs : list bytes) : result (list AuthGrant) :=
  match specs with
  | [] => Ok []
  | spec :: specs' =>
      match parseGrantSpec spec with
      | Err e => Err e
      | Ok g => match parseSpecs specs' with Ok gs => Ok (g :: gs) | Err e => Err e end
      end
  end.
Definition buildAuthGrants (specs : list bytes) (lane group actions note : bytes) : result (list AuthGrant) :=
  match parseSpecs specs with
  | Err e => Err e
  | Ok grants =>
      if nonempty actions || nonempty lane || nonempty group || nonempty note then
        match parseAuthActions actions with
        | Err e => Err e
        | Ok acts => Ok (grants ++ [mkAuthGrant lane group acts note])
        end
      else Ok grants
  end.
End grants.

(** [actionNames]: the constants' names without their prefix, in lower case; a
    number for no constant. *)
Definition actionName (a : Z) : bytes :=
  if (a =? AUTH_READ)%Z then bs "read" else if (a =? AUTH_PUBLISH)%Z then bs "publish"
  else if (a =? AUTH_CONSUME)%Z then bs "consume" else if (a =? AUTH_COMPLETE)%Z then bs "complete"
  else if (a =? AUTH_WORKFLOW)%Z then bs "workflow" else if (a =? AUTH_CONFIGURE)%Z then bs "configure"
  else if (a =? AUTH_ADMIN)%Z then bs "admin" else if (a =? 0)%Z then bs "action_unspecified" else itoa a.
Definition actionNames (acts : list Z) : bytes := joinOn ","%char (actionName <$> acts).

(** ** Commands

    What a command has to print; [json]: as JSON. *)
Inductive CliOut :=
  | Out_DeadLetterNotFound (lane group : bytes) (msgID : N)
  | Out_Redriven (lane group : bytes) (oldID newID : N)
  | Out_LanePaused (lane : bytes) (dur : Z)
  | Out_LaneResumed (lane : bytes)
  | Out_LaneConfigured (lane : bytes) (rate : float64) (burst : N) (paused : bool)
  | Out_Group (verb lane group : bytes) (affected : option N)
  | Out_WorkflowCanceled (runID : N) (canceled : bool)
  | Out_Leases (ls : list LeaseInfo) (json : bool)
  | Out_ForceExpired (leaseID : N) (delay : Z)
  | Out_Messages (msgs : list MessagePeek) (json : bool)
  | Out_Principals (enabled : bool) (ps : list AuthPrincipal) (json : bool)
  | Out_PrincipalToken (p : option AuthPrincipal) (token : bytes) (json : bool)
  | Out_PrincipalState (name : bytes) (disabled : bool)
  | Out_GrantAdded (name : bytes)
  | Out_GrantRevoked (name : bytes) (index : N).

Section commands.
Context {PC : PayloadCodec} {PE : PolicyEngines} {W : World} {T : Text} {CE : ClientEnv}.
Implicit Types (o : clientOptions).

(** A unary call of the client. *)
Definition rpc (token : bytes) (req : Request) : NM Response := unaryCall (outgoing token) req.
Definition withClients {A} o (fn : bytes → NM A) : NM A := lift (dialClients o);; fn o.(co_token).

Definition affectedOf (res : Response) : N := match res with Res_GroupOp a => a | _ => 0 end.

Definition cmdDLQRedrive o (lane group : bytes) (msgID : N) : NM CliOut :=
  lift (requireFlag (bs "lane") lane);;
  lift (requireFlag (bs "group") group);;
  if msgID =? 0 then nfail (bs "--msg-id is required")
  else withClients o (λ token,
    res ← rpc token (Req_RedriveDeadLetter lane group msgID);
    mret match res with
         | Res_Redrive true newID => Out_Redriven lane group msgID newID
         | _ => Out_DeadLetterNotFound lane group msgID
         end).
Definition cmdLanePause o (lane : bytes) (dur : Z) : NM CliOut :=
  lift (requireFlag (bs "lane") lane);;
  withClients o (λ token, rpc token (Req_PauseLane lane (milliseconds dur));; mret (Out_LanePaused lane dur)).
Definition cmdLaneResume o (lane : bytes) : NM CliOut :=
  lift (requireFlag (bs "lane") lane);;
  withClients o (λ token, rpc token (Req_ResumeLane lane);; mret (Out_LaneResumed lane)).
Definition cmdLaneConfig o (lane : bytes) (rate : float64) (burst : N) : NM CliOut :=
  lift (requireFlag (bs "lane") lane);;
  withClients o (λ token,
    res ← rpc token (Req_SetLaneConfig lane rate (wrap32 burst));
    mret match res with
         | Res_LaneConfig l r b p => Out_LaneConfigured l r b p
         | _ => Out_LaneConfigured [] f64_zero 0 false
         end).
(** [pause], [resume], [cancel], [purge], [reap]; nothing for any other word *)
Definition cmdGroupOp o (op lane group : bytes) : NM (option CliOut) :=
  lift (requireFlag (bs "lane") lane);;
  lift (requireFlag (bs "group") group);;
  withClients o (λ token,
    let go req verb := rpc token req;; mret (Some (Out_Group verb lane group None)) in
    let count req verb := res ← rpc token req; mret (Some (Out_Group verb lane group (Some (affectedOf res)))) in
    if bool_decide (op = bs "pause") then go (Req_PauseGroup lane group) (bs "paused")
    else if bool_decide (op = bs "resume") then go (Req_ResumeGroup lane group) (bs "resumed")
    else if bool_decide (op = bs "cancel") then count (Req_CancelGroup lane group) (bs "canceled")
    else if bool_decide (op = bs "purge") then count (Req_PurgeGroup lane group) (bs "purged")
    else if bool_decide (op = bs "reap") then count (Req_ReapGroup lane group) (bs "reaped")
    else mret None).
Definition cmdWorkflowCancel o (runID : N) (reason : bytes) : NM CliOut :=
  if runID =? 0 then nfail (bs "--run-id is required")
  else withClients o (λ token,
    res ← rpc token (Req_CancelWorkflow runID reason);
    mret (Out_WorkflowCanceled runID match res with Res_CancelWorkflow c => c | _ => false end)).
Definition cmdMessagesPeek o (lane group : bytes) (limit : N) (json : bool) : NM CliOut :=
  lift (requireFlag (bs "lane") lane);;
  lift (requireFlag (bs "group") group);;
  withClients o (λ token,
    res ← rpc token (Req_PeekMessages lane group (wrap32 limit));
    mret (Out_Messages match res with Res_PeekMessages ms => ms | _ => [] end json)).

(** ** Following page tokens

    [None]: out of fuel. *)
Fixpoint listAll {A} (fuel : nat) (fetch : bytes → NM (list A * bytes)) (token : bytes) : NM (option (list A)) :=
  match fuel with
  | O => mret None
  | S fuel' =>
      r ← fetch token;
      if nonempty r.2 then rest ← listAll fuel' fetch r.2; mret (app r.1 <$> rest)
      else mret (Some r.1)
  end.
Definition fetchGroups (token lane : bytes) (pageSize : N) (tok : bytes) : NM (list GroupStats * bytes) :=
  res ← rpc token (Req_ListGroups lane pageSize tok);
  mret match res with Res_ListGroups gs next => (gs, next) | _ => ([], []) end.
Definition fetchLeases (token lane : bytes) (pageSize : N) (tok : bytes) : NM (list LeaseInfo * bytes) :=
  res ← rpc token (Req_ListLeases lane pageSize tok);
  mret match res with Res_ListLeases ls next => (ls, next) | _ => ([], []) end.
Definition fetchRunning (token : bytes) (pageSize : N) (tok : bytes) : NM (list WorkflowRun * bytes) :=
  res ← rpc token (Req_ListWorkflowRuns WF_RUNNING true pageSize tok);
  mret match res with Res_ListWorkflowRuns rs next => (rs, next) | _ => ([], []) end.
Definition listAllGroups (fuel : nat) (token lane : bytes) (pageSize : N) : NM (option (list GroupStats)) :=
  listAll fuel (fetchGroups token lane pageSize) [].
Definition listAllLeases (fuel : nat) (token lane : bytes) (pageSize : N) : NM (option (list LeaseInfo)) :=
  listAll fuel (fetchLeases token lane pageSize) [].

Definition cmdLeasesList (fuel : nat) o (lane : bytes) (pageSize : N) (json : bool) : NM (option CliOut) :=
  lift (requireFlag (bs "lane") lane);;
  withClients o (λ token,
    ls ← listAllLeases fuel token lane (wrap32 pageSize);
    mret ((λ ls, Out_Leases ls json) <$> ls)).

(** ** Principals *)
Definition cmdAuthList o (json : bool) : NM CliOut :=
  withClients o (λ token,
    res ← rpc token Req_ListPrincipals;
    mret match res with
         | Res_ListPrincipals enabled ps => Out_Principals enabled ps json
         | _ => Out_Principals false [] json
         end).
(** The principal and its new token, shown once. *)
Definition tokenOut (json : bool) (res : Response) : CliOut :=
  match res with
  | Res_Principal p token => Out_PrincipalToken p token json
  | _ => Out_PrincipalToken None [] json
  end.
Definition cmdAuthCreate o (name : bytes) (tags specs : list bytes) (lane group actions note : bytes)
    (json : bool) : NM CliOut :=
  lift (requireFlag (bs "name") name);;
  grants ← lift (buildAuthGrants specs lane group actions note);
  withClients o (λ token,
    res ← rpc token (Req_CreatePrincipal name tags (Some <$> grants));
    mret (tokenOut json res)).
Definition cmdAuthRotate o (name : bytes) (json : bool) : NM CliOut :=
  lift (requireFlag (bs "name") name);;
  withClients o (λ token, res ← rpc token (Req_RotatePrincipalToken name); mret (tokenOut json res)).
Definition cmdAuthSetDisabled o (name : bytes) (disabled : bool) : NM CliOut :=
  lift (requireFlag (bs "name") name);;
  withClients o (λ token,
    rpc token (Req_SetPrincipalDisabled name disabled);; mret (Out_PrincipalState name disabled)).
Definition cmdAuthGrant o (name : bytes) (specs : list bytes) (lane group actions note : bytes) : NM CliOut :=
  lift (requireFlag (bs "name") name);;
  grants ← lift (buildAuthGrants specs lane group actions note);
  match grants with
  | [g] => withClients o (λ token, rpc token (Req_GrantPrincipal name (Some g));; mret (Out_GrantAdded name))
  | _ => nfail (bs "auth grant requires exactly one grant")
  end.
Definition cmdAuthRevoke o (name : bytes) (index : N) : NM CliOut :=
  lift (requireFlag (bs "name") name);;
  withClients o (λ token,
    rpc token (Req_RevokePrincipalGrant name (wrap32 index));; mret (Out_GrantRevoked name index)).

(** ** Forcing a lease to expire

    A conversation on a Work stream: two frames and the end of sending; then the
    client reads to the end of the stream. *)
Definition forceExpireFrames (leaseID : N) (delay : Z) : list (result WorkClientMsg) :=
  [Ok (Msg_LeaseRequest (mkLeaseRequest [] 0 [] [] (bs "rota-operator")));
   Ok (Msg_Nack leaseID 0 (if (0 <? delay)%Z then Some (milliseconds delay) else None)
         {[ bs "operator_action" := bs "force_expire" ]});
   Err EOF].
(** What the client makes of the frames it receives and of the stream's end. *)
Fixpoint forceExpireVerdict (leaseID : N) (delay : Z) (msgs : list WorkServerMsg) (e : result ()) : result CliOut :=
  match msgs with
  | Srv_NotLeader addr :: _ => Err (bs "not leader: retry against " ++ addr)
  | _ :: msgs' => forceExpireVerdict leaseID delay msgs' e
  | [] => match e with Ok _ => Ok (Out_ForceExpired leaseID delay) | Err e => Err e end
  end.
(** The stream handler along its events, on a node nobody else uses. *)
Fixpoint converse (md : metadata) (evs : list WorkEvent) (s : stream) : NM outcome :=
  match evs with
  | [] => mret ([], s, None)
  | ev :: evs' =>
      r ← workStep md ev s;
      let '(os, s', e) := r in
      match e with
      | Some _ => mret r
      | None => rest ← converse md evs' s'; let '(os', s'', e') := rest in mret (os ++ os', s'', e')
      end
  end.
(** [picks]: what the handler's [select] takes once the frames are in.  [None]:
    the stream has not ended. *)
Definition cmdLeasesForceExpire (picks : list WorkEvent) o (leaseID : N) (delay : Z) : NM (option CliOut) :=
  if leaseID =? 0 then nfail (bs "--lease-id is required")
  else withClients o (λ token,
    r ← converse (outgoing token) (((λ f, Ev_Recv f) <$> forceExpireFrames leaseID delay) ++ picks) newStream;
    let '(os, _, e) := r in
    match e with
    | None => mret None
    | Some e => out ← lift (forceExpireVerdict leaseID delay os e); mret (Some out)
    end).
End commands.
