(* ===== verification/Doctor.v ===== *)
(** * The health report ([cmd/rota/doctor.go])

    [collectDoctorReport] asks a node for its health, its cluster, its lane
    statistics, every group and lease of every lane and every running workflow,
    page by page, and derives findings and a status.  The clock of the operator's
    machine is an argument.  [None]: out of fuel (a listing takes at most one
    page per row). *)

From stdpp Require Import pretty.
From S2P Require Import Prelude GoStrings Keys Data Store Float GoNumbers Publish Workflow Broker Control Auth Timers Fsm Commands Fairness Meter Policy Scheduler Hash Node NodeControl NodeOps NodeStats NodeWorkflow NodeAuth Observatory Transport Work Client.

Record doctorOptions := mkdoctorOptions { do_lane : bytes; do_pageSize : N; do_leaseWarnAfter : Z }.

Record doctorCluster := mkdoctorCluster {
  dc_Serving : bool; dc_HasQuorum : bool; dc_IsLeader : bool; dc_LeaderID : bytes; dc_LeaderAddr : bytes;
  dc_Term : N; dc_AppliedIndex : N; dc_PeerCount : nat }.
Record doctorLane := mkdoctorLane {
  dla_Lane : bytes; dla_Leasable : N; dla_Delayed : N; dla_Inflight : N; dla_DLQDepth : N; dla_GroupCount : N;
  dla_PublishRate : float64; dla_LeaseRate : float64; dla_AckRate : float64; dla_OldestAgeMs : N;
  dla_PausedGroups : nat; dla_BackloggedGroups : nat; dla_LeaseCount : nat; dla_ExpiredLeases : nat;
  dla_NearDeadlineLeases : nat; dla_DLQSample : nat }.
Record doctorWorkflows := mkdoctorWorkflows { dw_Running : nat; dw_TaskPending : nat; dw_PossiblyStuck : nat }.
Record doctorFinding := mkdoctorFinding {
  df_Severity : bytes; df_Code : bytes; df_Summary : bytes; df_Lane : bytes; df_GroupID : bytes;
  df_MsgID : N; df_LeaseID : N; df_RunID : N; df_DeadlineMs : N }.
Record doctorReport := mkdoctorReport {
  dr_CheckedAtMs : N; dr_Status : bytes; dr_Cluster : doctorCluster; dr_Lanes : list doctorLane;
  dr_Workflows : doctorWorkflows; dr_Findings : list doctorFinding }.

Definition WARN : bytes := bs "WARN".
Definition FAIL : bytes := bs "FAIL".
Definition finding (sev code summary lane group : bytes) : doctorFinding :=
  mkdoctorFinding sev code summary lane group 0 0 0 0.

Fixpoint statusFrom (status : bytes) (fs : list doctorFinding) : bytes :=
  match fs with
  | [] => status
  | f :: fs' =>
      if bool_decide (f.(df_Severity) = FAIL) then FAIL
      else statusFrom (if bool_decide (f.(df_Severity) = WARN) then WARN else status) fs'
  end.
Definition reportStatus (fs : list doctorFinding) : bytes := statusFrom (bs "OK") fs.

(** ** Findings *)
Definition clusterFindings (c : doctorCluster) : list doctorFinding :=
  (if c.(dc_Serving) then [] else [finding FAIL (bs "not_serving") (bs "node is not serving") [] []]) ++
  (if c.(dc_HasQuorum) then []
   else [finding FAIL (bs "no_quorum") (bs "cluster does not currently have quorum") [] []]) ++
  (if nonempty c.(dc_LeaderID) then []
   else [finding WARN (bs "leader_unknown") (bs "leader is not known from this node") [] []]).

Definition backlog (g : GroupStats) : N := add64 (add64 g.(gst_Ready) g.(gst_Delayed)) g.(gst_Inflight).
Definition groupFindings (lane : bytes) (g : GroupStats) : list doctorFinding :=
  if g.(gst_Paused) && (0 <? backlog g)
  then [finding WARN (bs "paused_group_backlog") (bs "paused group still has queued or in-flight work")
          lane g.(gst_GroupId)]
  else [].
Inductive leaseHealth := L_Past | L_Near | L_Fine.
Definition leaseHealthOf (nowMs window : N) (l : LeaseInfo) : leaseHealth :=
  if l.(li_DeadlineMs) <=? nowMs then L_Past
  else if (0 <? window) && (l.(li_DeadlineMs) <=? add64 nowMs window) then L_Near
  else L_Fine.
#[export] Instance leaseHealth_eq_dec : EqDecision leaseHealth.
Proof. solve_decision. Defined.
Definition leaseFinding (code summary lane : bytes) (l : LeaseInfo) : doctorFinding :=
  mkdoctorFinding WARN code summary lane l.(li_GroupId) l.(li_MsgId) l.(li_LeaseId) 0 l.(li_DeadlineMs).
Definition leaseFindings (nowMs window : N) (lane : bytes) (l : LeaseInfo) : list doctorFinding :=
  match leaseHealthOf nowMs window l with
  | L_Past => [leaseFinding (bs "lease_past_deadline")
                 (bs "lease is past its visibility deadline and is still present") lane l]
  | L_Near => [leaseFinding (bs "lease_near_deadline") (bs "lease is close to its visibility deadline") lane l]
  | L_Fine => []
  end.

Definition countIf {A} (p : A → bool) (l : list A) : nat := length (filter (λ x, p x = true) l).
Definition laneReport (nowMs window : N) (st : LaneStat) (groups : list GroupStats) (leases : list LeaseInfo)
    (sample : list DeadLetterInfo) : doctorLane * list doctorFinding :=
  let lane := st.(st_Lane) in
  (mkdoctorLane lane st.(st_Leasable) st.(st_Delayed) st.(st_Inflight) st.(st_DLQ) st.(st_GroupCount)
     st.(st_PublishRate) st.(st_LeaseRate) st.(st_AckRate) st.(st_OldestAgeMs)
     (countIf gst_Paused groups) (countIf (λ g, 0 <? backlog g) groups) (length leases)
     (countIf (λ l, bool_decide (leaseHealthOf nowMs window l = L_Past)) leases)
     (countIf (λ l, bool_decide (leaseHealthOf nowMs window l = L_Near)) leases) (length sample),
   (if 0 <? st.(st_DLQ)
    then [finding WARN (bs "dlq_depth") (bs "lane has " ++ bs (pretty st.(st_DLQ)) ++ bs " dead letters") lane []]
    else []) ++
   (groups ≫= groupFindings lane) ++ (leases ≫= leaseFindings nowMs window lane)).

(** A running workflow that waits for a task no lane seems to hold. *)
Definition wfLane (run : WorkflowRun) : bytes := bs "__wf/" ++ run.(run_WorkflowType).
Definition noDepth (stats : gmap bytes LaneStat) (lane : bytes) : bool :=
  match stats !! lane with
  | None => true
  | Some st => add64 (add64 st.(st_Leasable) st.(st_Delayed)) st.(st_Inflight) =? 0
  end.
Definition runFinding (run : WorkflowRun) : doctorFinding :=
  mkdoctorFinding FAIL (bs "workflow_task_missing")
    (bs "workflow has wf_task_pending=true but no visible workflow-task lane depth")
    (wfLane run) run.(run_TenantId) 0 0 run.(run_RunId) 0.
Definition wfState : Type := doctorWorkflows * list doctorFinding.
Definition visitRun (stats : gmap bytes LaneStat) (lane : bytes) (s : wfState) (run : WorkflowRun) : wfState :=
  let '(w, fs) := s in
  if negb (passes lane (wfLane run)) then s
  else if negb run.(run_WfTaskPending)
  then (mkdoctorWorkflows (S w.(dw_Running)) w.(dw_TaskPending) w.(dw_PossiblyStuck), fs)
  else if noDepth stats (wfLane run)
  then (mkdoctorWorkflows (S w.(dw_Running)) (S w.(dw_TaskPending)) (S w.(dw_PossiblyStuck)), fs ++ [runFinding run])
  else (mkdoctorWorkflows (S w.(dw_Running)) (S w.(dw_TaskPending)) w.(dw_PossiblyStuck), fs).

Definition stat_le (a b : LaneStat) : Prop := bytes_le a.(st_Lane) b.(st_Lane).
#[export] Instance stat_le_dec : RelDecision stat_le.
Proof. intros a b. unfold stat_le. apply _. Defined.

(** ** The collection *)
Section doctor.
Context {PC : PayloadCodec} {PE : PolicyEngines} {W : World} {T : Text}.

(** [fmt.Errorf] with a prefix *)
Definition orPrefix {A} (what : bytes) (m : NM A) : NM A :=
  r ← attempt m;
  match r with Ok x => mret x | Err e => nfail (what ++ bs ": " ++ e) end.

Definition listDeadLetterSample (token lane : bytes) (pageSize : N) : NM (list DeadLetterInfo) :=
  res ← rpc token (Req_ListDeadLetters lane pageSize []);
  mret match res with Res_ListDeadLetters dls _ => dls | _ => [] end.

Fixpoint doctorLanes (fuel : nat) (token : bytes) (pageSize nowMs window : N) (lanes : list LaneStat) :
    NM (option (list (doctorLane * list doctorFinding))) :=
  match lanes with
  | [] => mret (Some [])
  | st :: lanes' =>
      let lane := st.(st_Lane) in
      groups ← orPrefix (bs "list groups") (listAllGroups fuel token lane pageSize);
      leases ← orPrefix (bs "list leases") (listAllLeases fuel token lane pageSize);
      sample ← orPrefix (bs "list dead letters") (listDeadLetterSample token lane pageSize);
      rest ← doctorLanes fuel token pageSize nowMs window lanes';
      mret (gs ← groups; ls ← leases; rs ← rest; Some (laneReport nowMs window st gs ls sample :: rs))
  end.

Fixpoint collectWorkflowFindings (fuel : nat) (token : bytes) (pageSize : N) (stats : gmap bytes LaneStat)
    (lane : bytes) (tok : bytes) (s : wfState) : NM (option wfState) :=
  match fuel with
  | O => mret None
  | S fuel' =>
      r ← orPrefix (bs "list workflow runs") (fetchRunning token pageSize tok);
      let s := foldl (visitRun stats lane) s r.1 in
      if nonempty r.2 then collectWorkflowFindings fuel' token pageSize stats lane r.2 s
      else mret (Some s)
  end.

Definition doctorPageSize (o : doctorOptions) : N :=
  let p := wrap32 o.(do_pageSize) in if p =? 0 then 200 else p.
Definition healthOf (res : Response) : bool * bool * bool :=
  match res with Res_Health s q l => (s, q, l) | _ => (false, false, false) end.
Definition clusterOf (h c : Response) : doctorCluster :=
  let '(s, q, l) := healthOf h in
  match c with
  | Res_ClusterInfo ci => mkdoctorCluster s q l ci.(ci_LeaderID) ci.(ci_LeaderAddr) ci.(ci_Term)
                            ci.(ci_AppliedIndex) (length ci.(ci_Peers))
  | _ => mkdoctorCluster s q l [] [] 0 0 0
  end.
Definition statsByLane (sts : list LaneStat) : gmap bytes LaneStat :=
  foldl (λ m st, <[st.(st_Lane) := st]> m) ∅ sts.
Definition assemble (nowMs : N) (cl : doctorCluster) (lanes : list (doctorLane * list doctorFinding))
    (wf : wfState) : doctorReport :=
  let fs := clusterFindings cl ++ (lanes ≫= snd) ++ wf.2 in
  mkdoctorReport nowMs (reportStatus fs) cl lanes.*1 wf.1 fs.

Definition collectDoctorReport (fuel : nat) (token : bytes) (nowMs : N) (o : doctorOptions) :
    NM (option doctorReport) :=
  let pageSize := doctorPageSize o in
  health ← orPrefix (bs "health") (rpc token Req_Health);
  cluster ← orPrefix (bs "describe cluster") (rpc token Req_DescribeCluster);
  stats ← orPrefix (bs "get stats") (rpc token (Req_GetStats o.(do_lane) []));
  let sts := match stats with Res_Stats sts => sts | _ => [] end in
  let window := u64_of_int (milliseconds o.(do_leaseWarnAfter)) in
  lanes ← doctorLanes fuel token pageSize nowMs window (merge_sort stat_le sts);
  wf ← collectWorkflowFindings fuel token pageSize (statsByLane sts) o.(do_lane) [] (mkdoctorWorkflows 0 0 0, []);
  mret (ls ← lanes; s ← wf; Some (assemble nowMs (clusterOf health cluster) ls s)).

(** The report, which is printed either way, and how the command ends
    ([--fail-on-warn]). *)
Definition cmdDoctor (fuel : nat) (token : bytes) (nowMs : N) (o : doctorOptions) (failOnWarn : bool) :
    NM (option (doctorReport * result ())) :=
  r ← collectDoctorReport fuel token nowMs o;
  mret ((λ report, (report,
    if failOnWarn && negb (bool_decide (report.(dr_Status) = bs "OK"))
    then Err (bs "doctor status " ++ report.(dr_Status)) else Ok ())) <$> r).
End doctor.
