(* ===== verification/DoctorProps.v ===== *)
(** * Theorems on the operator's reads

    Listings that follow page tokens end and miss nothing, and the health report
    collected call by call is the one read directly off the node's store. *)

From S2P Require Import Prelude GoStrings Keys Data Store KeysProps Float GoNumbers Publish Workflow Broker Control Auth Timers Fsm Commands Fairness Meter Policy Scheduler Hash Node NodeControl NodeOps NodeStats NodeWorkflow NodeAuth Observatory Transport Work Client Doctor Demo NodeProps NodeDemo Pages NodeAuthProps TransportProps BrokerProps.

(** ** Following tokens *)
Lemma full_pages {A} limit (pages : list (list A)) : (1 <= limit)%nat →
  Forall (λ p, length p = limit) (removelast pages) → (length pages <= 1 + length (concat pages))%nat.
Proof.
  intros Hl. induction pages as [|p pages IH]; [simpl; lia|]. destruct pages as [|q pages]; [simpl; lia|].
  intros Hf. cbn [removelast] in Hf. apply Forall_cons in Hf as [Hp Hf]. apply IH in Hf.
  cbn [length concat] in *. rewrite length_app. lia.
Qed.
Lemma length_omap_le {A B} (f : A → option B) (l : list A) : (length (omap f l) <= length l)%nat.
Proof. induction l as [|a l IH]; [done|]. cbn. destruct (f a); simpl; lia. Qed.
Lemma length_NewIter (lo : bytes) (hi : option bytes) (db : store) : (length (NewIter lo hi db) <= size db)%nat.
Proof.
  rewrite NewIter_Permutation. etrans; [apply length_filter|]. by rewrite length_map_to_list.
Qed.

Section reads.
Context {PC : PayloadCodec} {PE : PolicyEngines} {W : World} {T : Text}.
Implicit Types (n : Node) (db : store).

Lemma listAll_walk {A} (fetch : bytes → NM (list A * bytes)) req n tok pages fuel :
  (∀ t, fetch t n = Some (Ok (req t), n)) → walk req tok pages → (length pages <= fuel)%nat →
  listAll fuel fetch tok n = Some (Ok (Some (concat pages)), n).
Proof.
  intros Hf Hw. revert fuel. induction Hw as [t l Hr|t l t' pages Hr Hne Hw IH]; intros [|fuel] Hlen;
    cbn [length listAll] in *; try lia; rewrite (nbind_ok _ _ _ _ _ (Hf t)), Hr; cbn [fst snd].
  - cbn [concat]. by rewrite app_nil_r.
  - assert (nonempty t' = true) as -> by (by destruct t').
    rewrite (nbind_ok _ _ _ _ _ (IH fuel ltac:(lia))). done.
Qed.
(** A listing ends within one call more than there are rows, with all of them. *)
Lemma listAll_exact {A} (fetch : bytes → NM (list A * bytes)) (f : bytes * value → option A) lo hi ps n fuel :
  let db := n.(n_fsm).(fsm_s) in
  lo ≠ [] → (∀ t, fetch t n = Some (Ok (listPage f lo hi ps t db), n)) → (size db < fuel)%nat →
  listAll fuel fetch [] n = Some (Ok (Some (omap f (NewIter lo hi db))), n).
Proof.
  intros db Hlo Hf Hfuel. destruct (listPage_enumerates f lo hi ps db Hlo) as (pages & Hw & Hc & _ & Hfull).
  rewrite <-Hc. apply (listAll_walk fetch (λ t, listPage f lo hi ps t db)); [done|exact Hw|].
  apply full_pages in Hfull; [|apply clampPage_bounds]. rewrite Hc in Hfull.
  pose proof (length_omap_le f (NewIter lo hi db)). pose proof (length_NewIter lo hi db). lia.
Qed.

(** ** What the token may read *)
Definition may_read (token : bytes) db : Prop := ∀ lane,
  let d := AuthorizeToken (authTokenFromContext (outgoing token)) (one AUTH_READ lane []) db in
  negb d.(ad_Enabled) || d.(ad_Allowed) = true.

Lemma rpc_reads token req n lane : may_read token n.(n_fsm).(fsm_s) → guarded req = false →
  (∀ db, checksForUnary req db = one AUTH_READ lane []) → rpc token req n = handle req n.
Proof.
  intros Hr Hg Hc. unfold rpc. rewrite unaryCall_eq, Hg. unfold admitted, authDecision. rewrite Hc. cbv zeta.
  by rewrite (Hr lane).
Qed.

(** ** The tables, read directly *)
Definition allGroups (lane : bytes) db : list GroupStats :=
  let lo := GroupMetaLanePrefix lane in omap groupStats (NewIter lo (PrefixEnd lo) db).
Definition allLeases (lane : bytes) db : list LeaseInfo :=
  omap (leaseInfo lane) (NewIter LeaseBounds.1 (Some LeaseBounds.2) db).
Definition allRunning db : list WorkflowRun :=
  omap (runRow (Some WF_RUNNING)) (NewIter WFRunBounds.1 (Some WFRunBounds.2) db).

Section quiet.
Variables (token : bytes) (fuel : nat) (n : Node).
Let db := n.(n_fsm).(fsm_s).
Hypothesis Hread : may_read token db.
Hypothesis Hfuel : (size db < fuel)%nat.

Lemma listAllGroups_exact lane ps : listAllGroups fuel token lane ps n = Some (Ok (Some (allGroups lane db)), n).
Proof using Hread Hfuel.
  unfold listAllGroups, allGroups. cbv zeta.
  apply (listAll_exact (fetchGroups token lane ps) groupStats _ _ ps n fuel); [done| |done].
  intros t. unfold fetchGroups.
  assert (E : rpc token (Req_ListGroups lane ps t) n =
    Some (Ok (Res_ListGroups (ListGroupStats lane ps t db).1 (ListGroupStats lane ps t db).2), n))
    by (by rewrite (rpc_reads token _ n lane)).
  rewrite (nbind_ok _ _ _ _ _ E). unfold ListGroupStats. by destruct (listPage _ _ _ _ _ _).
Qed.
Lemma listAllLeases_exact lane ps : listAllLeases fuel token lane ps n = Some (Ok (Some (allLeases lane db)), n).
Proof using Hread Hfuel.
  unfold listAllLeases, allLeases.
  apply (listAll_exact (fetchLeases token lane ps) (leaseInfo lane) _ _ ps n fuel); [done| |done].
  intros t. unfold fetchLeases.
  assert (E : rpc token (Req_ListLeases lane ps t) n =
    Some (Ok (Res_ListLeases (ListLeases lane ps t db).1 (ListLeases lane ps t db).2), n))
    by (by rewrite (rpc_reads token _ n lane)).
  rewrite (nbind_ok _ _ _ _ _ E). unfold ListLeases. by destruct (listPage _ _ _ _ _ _).
Qed.
Lemma sample_exact lane ps :
  listDeadLetterSample token lane ps n = Some (Ok (ListDeadLetters lane ps [] db).1, n).
Proof using Hread.
  unfold listDeadLetterSample.
  assert (E : rpc token (Req_ListDeadLetters lane ps []) n =
    Some (Ok (Res_ListDeadLetters (ListDeadLetters lane ps [] db).1 (ListDeadLetters lane ps [] db).2), n))
    by (by rewrite (rpc_reads token _ n lane)).
  by rewrite (nbind_ok _ _ _ _ _ E).
Qed.
Lemma fetchRunning_exact ps t :
  fetchRunning token ps t n = Some (Ok (listPage (runRow (Some WF_RUNNING)) WFRunBounds.1 (Some WFRunBounds.2) ps t db), n).
Proof using Hread.
  unfold fetchRunning.
  assert (E : rpc token (Req_ListWorkflowRuns WF_RUNNING true ps t) n =
    Some (Ok (Res_ListWorkflowRuns (ListWorkflowRuns (Some WF_RUNNING) ps t db).1
                                   (ListWorkflowRuns (Some WF_RUNNING) ps t db).2), n))
    by (by rewrite (rpc_reads token _ n [])).
  rewrite (nbind_ok _ _ _ _ _ E). unfold ListWorkflowRuns. by destruct (listPage _ _ _ _ _ _).
Qed.

Lemma orPrefix_ok {A} what (m : NM A) m1 x m2 : m m1 = Some (Ok x, m2) → orPrefix what m m1 = Some (Ok x, m2).
Proof. intros E. unfold orPrefix. by rewrite (nbind_ok _ _ _ _ _ (attempt_eq _ _ _ _ E)). Qed.

(** ** The report, read directly *)
Definition laneDirect (nowMs window ps : N) (st : LaneStat) : doctorLane * list doctorFinding :=
  let lane := st.(st_Lane) in
  laneReport nowMs window st (allGroups lane db) (allLeases lane db) (ListDeadLetters lane ps [] db).1.

Lemma doctorLanes_exact ps nowMs window lanes :
  doctorLanes fuel token ps nowMs window lanes n = Some (Ok (Some (laneDirect nowMs window ps <$> lanes)), n).
Proof using Hread Hfuel.
  induction lanes as [|st lanes IH]; [done|]. cbn [doctorLanes].
  rewrite (nbind_ok _ _ _ _ _ (orPrefix_ok _ _ _ _ _ (listAllGroups_exact _ _))).
  rewrite (nbind_ok _ _ _ _ _ (orPrefix_ok _ _ _ _ _ (listAllLeases_exact _ _))).
  rewrite (nbind_ok _ _ _ _ _ (orPrefix_ok _ _ _ _ _ (sample_exact _ _))).
  by rewrite (nbind_ok _ _ _ _ _ IH).
Qed.
Lemma workflow_walk ps stats lane tok pages k s :
  walk (λ t, listPage (runRow (Some WF_RUNNING)) WFRunBounds.1 (Some WFRunBounds.2) ps t db) tok pages →
  (length pages <= k)%nat →
  collectWorkflowFindings k token ps stats lane tok s n =
    Some (Ok (Some (foldl (visitRun stats lane) s (concat pages))), n).
Proof using Hread.
  clear Hfuel fuel. intros Hw. revert k s. induction Hw as [t l Hr|t l t' pages Hr Hne Hw IH]; intros [|k] s Hlen;
    cbn [length collectWorkflowFindings] in *; try lia;
    rewrite (nbind_ok _ _ _ _ _ (orPrefix_ok _ _ _ _ _ (fetchRunning_exact _ t))), Hr; cbn [fst snd].
  - cbn [concat]. by rewrite app_nil_r.
  - assert (nonempty t' = true) as -> by (by destruct t').
    rewrite (IH k _ ltac:(lia)). cbn [concat]. by rewrite foldl_app.
Qed.
Lemma workflow_exact ps stats lane s :
  collectWorkflowFindings fuel token ps stats lane [] s n =
    Some (Ok (Some (foldl (visitRun stats lane) s (allRunning db))), n).
Proof using Hread Hfuel.
  destruct (listPage_enumerates (runRow (Some WF_RUNNING)) WFRunBounds.1 (Some WFRunBounds.2) ps db)
    as (pages & Hw & Hc & _ & Hfull); [done|].
  unfold allRunning. rewrite <-Hc. apply (workflow_walk ps); [exact Hw|].
  apply full_pages in Hfull; [|apply clampPage_bounds]. rewrite Hc in Hfull.
  pose proof (length_omap_le (runRow (Some WF_RUNNING)) (NewIter WFRunBounds.1 (Some WFRunBounds.2) db)).
  pose proof (length_NewIter WFRunBounds.1 (Some WFRunBounds.2) db). lia.
Qed.
End quiet.

(** The lane statistics the server answers. *)
Definition laneStats (o : doctorOptions) n : list LaneStat :=
  (λ '(lane, s), finishStat n lane s) <$>
    map_to_list (aggregate o.(do_lane) [] (now_ms n.(n_world)).1 n.(n_fsm).(fsm_s)).
Definition clusterDirect n : doctorCluster :=
  let '(addr, lid) := raft_LeaderWithID n.(n_world) in
  mkdoctorCluster true (nonempty addr) (raft_IsLeader n.(n_world)) lid addr (default 0 (raft_term n.(n_world)))
    n.(n_fsm).(fsm_appliedIndex)
    match raft_GetConfiguration n.(n_world) with Ok servers => length servers | Err _ => 0%nat end.
Definition directReport (nowMs : N) (o : doctorOptions) n : doctorReport :=
  let sts := laneStats o n in
  assemble nowMs (clusterDirect n)
    (laneDirect n nowMs (u64_of_int (milliseconds o.(do_leaseWarnAfter))) (doctorPageSize o) <$> merge_sort stat_le sts)
    (foldl (visitRun (statsByLane sts) o.(do_lane)) (mkdoctorWorkflows 0 0 0, []) (allRunning n.(n_fsm).(fsm_s))).

Lemma collect_exact fuel token now o n : may_read token n.(n_fsm).(fsm_s) → (size n.(n_fsm).(fsm_s) < fuel)%nat →
  collectDoctorReport fuel token now o n =
    Some (Ok (Some (directReport now o n)), n_set_world (now_ms n.(n_world)).2 n).
Proof.
  intros Hr Hf. unfold collectDoctorReport. cbv zeta.
  assert (Eh : rpc token Req_Health n = Some (Ok (Res_Health true (nonempty (raft_LeaderWithID n.(n_world)).1)
    (raft_IsLeader n.(n_world))), n)) by (by rewrite (rpc_reads token _ n [])).
  rewrite (nbind_ok _ _ _ _ _ (orPrefix_ok _ _ _ _ _ Eh)).
  assert (Ec : ∃ ci, rpc token Req_DescribeCluster n = Some (Ok (Res_ClusterInfo ci), n) ∧
    clusterOf (Res_Health true (nonempty (raft_LeaderWithID n.(n_world)).1) (raft_IsLeader n.(n_world)))
      (Res_ClusterInfo ci) = clusterDirect n).
  { rewrite (rpc_reads token _ n []) by done. cbn [handle]. unfold Control_DescribeCluster, ClusterInfo, clusterDirect.
    unfold mbind, NM_bind, nget. cbn. destruct (raft_LeaderWithID (n_world n)) as [addr lid]. cbn.
    eexists. split; [reflexivity|]. cbn. f_equal. destruct (raft_GetConfiguration _); [by rewrite length_fmap|done]. }
  destruct Ec as (ci & Ec & Hci). rewrite (nbind_ok _ _ _ _ _ (orPrefix_ok _ _ _ _ _ Ec)).
  set (n1 := n_set_world (now_ms n.(n_world)).2 n).
  assert (Es : rpc token (Req_GetStats o.(do_lane) []) n = Some (Ok (Res_Stats (laneStats o n)), n1)).
  { rewrite (rpc_reads token _ n o.(do_lane)) by done. cbn [handle]. unfold Control_GetStats, Stats, nowMs, laneStats, n1.
    unfold mbind, NM_bind, nworld, nget. by destruct (now_ms (n_world n)) as [at_ w]. }
  rewrite (nbind_ok _ _ _ _ _ (orPrefix_ok _ _ _ _ _ Es)).
  rewrite (nbind_ok _ _ _ _ _ (doctorLanes_exact token fuel n1 Hr Hf _ _ _ _)).
  rewrite (nbind_ok _ _ _ _ _ (workflow_exact token fuel n1 Hr Hf _ _ _ _)).
  by rewrite Hci.
Qed.

(** C18: Listing a table by following page tokens terminates: a client that may
    read the lane and makes one call more than the store has rows ends with
    exactly the lane's groups, respectively its leases, read off the store in
    key order, whatever page size it asks for, and leaves the node as it was. *)
Theorem listing_terminates token (lane : bytes) (ps : N) n (fuel : nat)
    (Hread : may_read token n.(n_fsm).(fsm_s)) (Hfuel : (size n.(n_fsm).(fsm_s) < fuel)%nat) :
  let db := n.(n_fsm).(fsm_s) in
  (∃ gs, listAllGroups fuel token lane ps n = Some (Ok (Some gs), n) ∧
    gs = allGroups lane db) ∧
  (∃ ls, listAllLeases fuel token lane ps n = Some (Ok (Some ls), n) ∧
    ls = allLeases lane db ∧
    ∀ li, li ∈ ls ↔ ∃ k l, db !! k = Some (VLease l) ∧ in_range LeaseBounds.1 (Some LeaseBounds.2) k ∧
                           leaseInfo lane (k, VLease l) = Some li).
Proof.
  intros db. split.
  - eexists. split; [by apply listAllGroups_exact|done].
  - eexists. split; [by apply listAllLeases_exact|]. split; [done|]. intros li. unfold allLeases.
    rewrite list_elem_of_omap. split.
    + intros ([k v] & [Hk Hr]%elem_of_NewIter & Hl). destruct v as [| | |l| | | | | | |]; try done.
      by exists k, l.
    + intros (k & l & Hk & Hr & Hl). exists (k, VLease l). split; [by apply elem_of_NewIter|done].
Qed.

(** ** Status and findings *)
Lemma statusFrom_spec st fs :
  (statusFrom st fs = FAIL ↔ st = FAIL ∨ ∃ f, f ∈ fs ∧ f.(df_Severity) = FAIL) ∨ st = FAIL.
Proof.
  revert st. induction fs as [|f fs IH]; intros st; cbn [statusFrom].
  - left. set_solver.
  - case_bool_decide as Hf.
    { left. split; [|done]. intros _. right. exists f. set_solver. }
    destruct (IH (if bool_decide (df_Severity f = WARN) then WARN else st)) as [Hi|Hi].
    + destruct (decide (st = FAIL)) as [->|Hst]; [by right|]. left. rewrite Hi. split.
      * intros [E|(g & Hg & E)]; [by case_bool_decide|right; exists g; set_solver].
      * intros [E|(g & [->|Hg]%elem_of_cons & E)]; [done..|]. right. by exists g.
    + right. case_bool_decide; [discriminate|done].
Qed.
Lemma reportStatus_fail fs : reportStatus fs = FAIL ↔ ∃ f, f ∈ fs ∧ f.(df_Severity) = FAIL.
Proof.
  unfold reportStatus. destruct (statusFrom_spec (bs "OK") fs) as [H|H]; [|discriminate]. rewrite H.
  split; [intros [E|E]; [discriminate|done]|by right].
Qed.
Definition graded (f : doctorFinding) : Prop := f.(df_Severity) = WARN ∨ f.(df_Severity) = FAIL.
Lemma statusFrom_ok st fs : Forall graded fs → statusFrom st fs = bs "OK" → fs = [] ∧ st = bs "OK".
Proof.
  intros Hf. revert st. induction Hf as [|f fs [Hw|Hw] Hf IH]; intros st; cbn [statusFrom]; [done|..]; rewrite Hw.
  - change (statusFrom WARN fs = bs "OK" → f :: fs = [] ∧ st = bs "OK"). by intros [_ ?]%IH.
  - discriminate.
Qed.

Definition stuck (stats : gmap bytes LaneStat) (lane : bytes) (run : WorkflowRun) : bool :=
  passes lane (wfLane run) && run.(run_WfTaskPending) && noDepth stats (wfLane run).
Lemma visitRun_findings stats lane w fs run :
  (visitRun stats lane (w, fs) run).2 = fs ++ if stuck stats lane run then [runFinding run] else [].
Proof.
  unfold visitRun, stuck. destruct (passes lane (wfLane run)); cbn [negb andb]; [|by rewrite app_nil_r].
  destruct (run_WfTaskPending run); cbn [negb andb]; [|by rewrite app_nil_r].
  destruct (noDepth stats (wfLane run)); [done|by rewrite app_nil_r].
Qed.
Lemma visitRuns stats lane runs s :
  (foldl (visitRun stats lane) s runs).2 =
    s.2 ++ (runs ≫= λ r, if stuck stats lane r then [runFinding r] else []).
Proof.
  revert s. induction runs as [|run runs IH]; intros [w fs]; cbn [foldl]; [by rewrite app_nil_r|].
  rewrite IH, visitRun_findings. cbn [snd mbind list_bind]. by rewrite <-app_assoc.
Qed.
Lemma clusterFindings_graded c : Forall graded (clusterFindings c).
Proof.
  unfold clusterFindings. destruct (dc_Serving c), (dc_HasQuorum c), (nonempty _); cbn [app];
    repeat first [apply Forall_cons; split; [first [by left|by right]|]|apply Forall_nil_2].
Qed.
Definition warning (f : doctorFinding) : Prop := f.(df_Severity) = WARN.
Lemma laneReport_warns nowMs window st gs ls sample : Forall warning (laneReport nowMs window st gs ls sample).2.
Proof.
  cbn [laneReport snd]. apply Forall_app. split; [destruct (0 <? _); [by apply Forall_singleton|done]|].
  apply Forall_app. split; apply Forall_bind, Forall_forall; intros x _; unfold compose.
  - unfold groupFindings. destruct (gst_Paused x && (0 <? backlog x)); [by apply Forall_singleton|done].
  - unfold leaseFindings. destruct (leaseHealthOf _ _ _); [by apply Forall_singleton..|done].
Qed.
Lemma directReport_findings now o n :
  (directReport now o n).(dr_Findings) =
    clusterFindings (clusterDirect n) ++
    ((laneDirect n now (u64_of_int (milliseconds o.(do_leaseWarnAfter))) (doctorPageSize o) <$> merge_sort stat_le (laneStats o n)) ≫= snd) ++
    (allRunning n.(n_fsm).(fsm_s) ≫= λ r,
       if stuck (statsByLane (laneStats o n)) o.(do_lane) r then [runFinding r] else []).
Proof. unfold directReport, assemble. cbn [dr_Findings]. by rewrite visitRuns. Qed.
Lemma directReport_status now o n : (directReport now o n).(dr_Status) = reportStatus (directReport now o n).(dr_Findings).
Proof. done. Qed.
Lemma lanes_warn n nowMs window ps sts : Forall warning ((laneDirect n nowMs window ps <$> sts) ≫= snd).
Proof. apply Forall_bind, Forall_fmap, Forall_forall. intros st _. apply laneReport_warns. Qed.
Lemma directReport_graded now o n : Forall graded (directReport now o n).(dr_Findings).
Proof.
  rewrite directReport_findings. apply Forall_app. split; [apply clusterFindings_graded|].
  apply Forall_app. split; [eapply Forall_impl; [apply lanes_warn|by left]|].
  apply Forall_bind, Forall_forall. intros r _. unfold compose. destruct (stuck _ _ r); [|done].
  apply Forall_singleton. by right.
Qed.
Lemma cluster_fails n : (∃ f, f ∈ clusterFindings (clusterDirect n) ∧ f.(df_Severity) = FAIL) ↔
  (raft_LeaderWithID n.(n_world)).1 = [].
Proof.
  unfold clusterFindings, clusterDirect. destruct (raft_LeaderWithID _) as [addr lid]. cbn [fst dc_Serving dc_HasQuorum dc_LeaderID app].
  destruct addr as [|c addr]; cbn [nonempty].
  - split; [done|]. intros _. eexists. split; [apply elem_of_cons; left; reflexivity|done].
  - split; [|done]. cbn [app]. destruct (nonempty lid); [set_solver|]. intros (f & ->%list_elem_of_singleton & Hf). discriminate.
Qed.

(** What the lease [l] is shown as, and what is found on it. *)
Definition shownLease (l : Lease) : LeaseInfo :=
  mkLeaseInfo l.(ls_Lane) l.(ls_GroupId) l.(ls_MsgId) l.(ls_LeaseId) l.(ls_ConsumerId) l.(ls_DeadlineMs)
    l.(ls_AttemptAtLease) l.(ls_Epoch) l.(ls_ExtendCount).
Lemma lease_reported now o n st k l f :
  st ∈ laneStats o n → n.(n_fsm).(fsm_s) !! k = Some (VLease l) → in_range LeaseBounds.1 (Some LeaseBounds.2) k →
  l.(ls_Lane) = st.(st_Lane) →
  f ∈ leaseFindings now (u64_of_int (milliseconds o.(do_leaseWarnAfter))) st.(st_Lane) (shownLease l) →
  f ∈ (directReport now o n).(dr_Findings).
Proof.
  intros Hst Hk Hr Hl Hf. rewrite directReport_findings. apply elem_of_app. right. apply elem_of_app. left.
  apply list_elem_of_bind. eexists. split; [|apply list_elem_of_fmap_2; by rewrite merge_sort_Permutation].
  cbn [laneDirect laneReport snd]. apply elem_of_app. right. apply elem_of_app. right.
  apply list_elem_of_bind. exists (shownLease l). split; [exact Hf|].
  apply list_elem_of_omap. exists (k, VLease l). split; [by apply elem_of_NewIter|].
  unfold leaseInfo. cbn. by rewrite bool_decide_true by done.
Qed.
Lemma lease_past now window l : l.(ls_DeadlineMs) <= now → leaseHealthOf now window (shownLease l) = L_Past.
Proof. intros H. unfold leaseHealthOf. cbn [shownLease li_DeadlineMs]. by rewrite (proj2 (N.leb_le _ _) H). Qed.
(** [Milliseconds] rounds the duration down. *)
Lemma lease_near now (warn : Z) l :
  now < l.(ls_DeadlineMs) → (Z.of_N (l.(ls_DeadlineMs) - now) * 1000000 ≤ warn < 2 ^ 63)%Z → (Z.of_N now + warn < 2 ^ 64)%Z →
  leaseHealthOf now (u64_of_int (milliseconds warn)) (shownLease l) = L_Near.
Proof.
  intros Hd Hw Hn. unfold leaseHealthOf. cbn [shownLease li_DeadlineMs].
  destruct (N.leb_spec (ls_DeadlineMs l) now) as [?|_]; [lia|].
  assert (Hq : milliseconds warn = (warn / 1000000)%Z) by (apply Z.quot_div_nonneg; lia).
  assert (Hlo : (Z.of_N (l.(ls_DeadlineMs) - now) ≤ warn / 1000000)%Z) by (apply Z.div_le_lower_bound; lia).
  assert (Hhi : (warn / 1000000 ≤ warn)%Z) by (apply Z.div_le_upper_bound; lia).
  assert (Hu : u64_of_int (milliseconds warn) = Z.to_N (warn / 1000000)).
  { rewrite Hq. unfold u64_of_int. rewrite Z.mod_small; [done|]. unfold two64. lia. }
  rewrite Hu. unfold add64, wrap64, two64. rewrite N.mod_small by lia.
  destruct (N.ltb_spec 0 (Z.to_N (warn / 1000000))) as [_|?]; [|lia]. cbn [andb].
  by rewrite (proj2 (N.leb_le _ _)) by lia.
Qed.

(** C17: The health report a client assembles call by call is the one read directly
    off the node's store: every listing is complete, whatever the page size.  Its
    status is OK exactly when nothing was found, and FAIL exactly when the node
    knows no leader or a running workflow of the inspected lane waits for a task
    that no lane holds; and every stored lease of a reported lane is reported by
    its id when its deadline has passed on the operator's clock, and when it is at
    most the warning duration away (deadlines are in milliseconds, the duration in
    nanoseconds). *)
Theorem doctor_exact (fuel : nat) token (now : N) (o : doctorOptions) n
    (Hread : may_read token n.(n_fsm).(fsm_s)) (Hfuel : (size n.(n_fsm).(fsm_s) < fuel)%nat) :
  let db := n.(n_fsm).(fsm_s) in
  ∃ r, collectDoctorReport fuel token now o n = Some (Ok (Some r), n_set_world (now_ms n.(n_world)).2 n) ∧
    r = directReport now o n ∧
    (r.(dr_Status) = bs "OK" ↔ r.(dr_Findings) = []) ∧
    (r.(dr_Status) = FAIL ↔
       (raft_LeaderWithID n.(n_world)).1 = [] ∨
       ∃ run, run ∈ allRunning db ∧ stuck (statsByLane (laneStats o n)) o.(do_lane) run = true) ∧
    (∀ st k l, st ∈ laneStats o n → db !! k = Some (VLease l) → in_range LeaseBounds.1 (Some LeaseBounds.2) k →
       l.(ls_Lane) = st.(st_Lane) →
       (l.(ls_DeadlineMs) <= now →
        ∃ f, f ∈ r.(dr_Findings) ∧ f.(df_Code) = bs "lease_past_deadline" ∧ f.(df_LeaseID) = l.(ls_LeaseId)) ∧
       (now < l.(ls_DeadlineMs) → (Z.of_N (l.(ls_DeadlineMs) - now) * 1000000 ≤ o.(do_leaseWarnAfter) < 2 ^ 63)%Z →
        (Z.of_N now + o.(do_leaseWarnAfter) < 2 ^ 64)%Z →
        ∃ f, f ∈ r.(dr_Findings) ∧ f.(df_Code) = bs "lease_near_deadline" ∧ f.(df_LeaseID) = l.(ls_LeaseId))).
Proof.
  intros db. exists (directReport now o n). split; [by apply collect_exact|]. split; [done|].
  rewrite directReport_status. split; [|split].
  - split; [|by intros ->]. intros E.
    by destruct (statusFrom_ok _ _ (directReport_graded now o n) E).
  - rewrite reportStatus_fail, directReport_findings, <-(cluster_fails n). split.
    + intros (f & [Hf|[Hf|Hf]%elem_of_app]%elem_of_app & E).
      * left. by exists f.
      * pose proof (lanes_warn n now (u64_of_int (milliseconds o.(do_leaseWarnAfter))) (doctorPageSize o) (merge_sort stat_le (laneStats o n))) as Hw.
        rewrite Forall_forall in Hw. apply Hw in Hf. unfold warning in Hf. rewrite Hf in E. discriminate.
      * right. apply list_elem_of_bind in Hf as (run & Hf & Hr). exists run. split; [done|].
        by destruct (stuck _ _ run); [|apply not_elem_of_nil in Hf].
    + intros [(f & Hf & E)|(run & Hr & E)]; [exists f; split; [apply elem_of_app; by left|done]|]. exists (runFinding run). split; [|done].
      apply elem_of_app. right. apply elem_of_app. right. apply list_elem_of_bind. exists run.
      rewrite E. split; [by apply list_elem_of_singleton|done].
  - intros st k l Hst Hk Hr Hl. split.
    + intros Hd. eexists. split; [eapply lease_reported; try done; unfold leaseFindings; rewrite lease_past by done;
        by apply list_elem_of_singleton|done].
    + intros Hd Hw Hn. eexists. split; [eapply lease_reported; try done; unfold leaseFindings; rewrite lease_near by done;
        by apply list_elem_of_singleton|done].
Qed.
End reads.

(** ** Witnesses *)
Lemma demo_reads : may_read [] demo_leased.
Proof. intros lane. by vm_compute. Qed.
Lemma listing_terminates_witness : ∃ gs ls,
  listAllGroups (W := demo_world) 50 [] (bs "l") 1 (demo_node demo_leased 5) = Some (Ok (Some gs), demo_node demo_leased 5) ∧
  listAllLeases (W := demo_world) 50 [] (bs "l") 1 (demo_node demo_leased 5) = Some (Ok (Some ls), demo_node demo_leased 5) ∧
  length gs = 1%nat ∧ length ls = 1%nat.
Proof.
  assert (Hf : (size demo_leased < 50)%nat) by (vm_compute; lia).
  destruct (listing_terminates (W := demo_world) [] (bs "l") 1 (demo_node demo_leased 5) 50 demo_reads Hf)
    as [(gs & Hg & Eg) (ls & Hl & El & _)].
  exists gs, ls. split; [exact Hg|]. split; [exact Hl|]. rewrite Eg, El. split; by vm_compute.
Defined.
(** One lease, past its deadline on the operator's clock. *)
Lemma doctor_exact_witness : ∃ r,
  collectDoctorReport (W := demo_world) 50 [] 10000000 (mkdoctorOptions [] 1 0) (demo_node demo_leased 5) =
    Some (Ok (Some r), demo_node demo_leased 5) ∧
  r.(dr_Status) ≠ bs "OK" ∧ r.(dr_Status) ≠ FAIL.
Proof.
  assert (Hf : (size demo_leased < 50)%nat) by (vm_compute; lia).
  destruct (doctor_exact (W := demo_world) 50 [] 10000000 (mkdoctorOptions [] 1 0) (demo_node demo_leased 5) demo_reads Hf)
    as (r & Hc & -> & Hok & Hfail & _).
  eexists. split; [exact Hc|]. split; [intros E|intros E].
  - apply Hok in E. revert E. by vm_compute.
  - apply Hfail in E as [E|(run & Hr & _)]; [discriminate|]. by vm_compute in Hr; apply not_elem_of_nil in Hr.
Defined.
