(* ===== verification/Load.v ===== *)
(** * Load generators ([cmd/rota/bench.go], [cmd/rota/soak.go])

    Programs that publish, drain and settle through the client's calls.  Publishing
    and the workflow loops run against the node at rest; a worker is a step per
    frame it receives, since workers share counters and their frames interleave.
    Whole runs are in [LoadRuns], the printed reports in [Render]. *)

From stdpp Require Import pretty.
From S2P Require Import Prelude GoStrings Keys Data Store Publish Workflow Broker Control Auth Timers Fsm Demo Fairness Float Policy Scheduler SchedulerProps Hash Meter Commands Node NodeControl NodeOps NodeStats NodeWorkflow NodeAuth Observatory Transport Work NodeProps NodeDemo NodeAuthProps TransportProps Client.

(** [fmt.Sprint] of a natural number *)
Definition decimal (z : Z) : bytes := bs (pretty (Z.to_N z)).
(** [perSecond]: a duration in nanoseconds *)
Definition perSecond (count : float64) (elapsed : Z) : float64 :=
  if (elapsed <=? 0)%Z then f64_zero
  else f64_div count (f64_add (f64_of_Z (Z.quot elapsed 1000000000))
                              (f64_div (f64_of_Z (Z.rem elapsed 1000000000)) (f64_of_Z 1000000000))).

(** ** The benchmark *)
Record benchOptions := mkbenchOptions {
  bo_lane : bytes; bo_messages : Z; bo_groups : Z; bo_workers : Z; bo_batchSize : Z; bo_payloadBytes : Z }.
Definition checkBench (o : benchOptions) : result () :=
  if (o.(bo_messages) <? 1)%Z then Err (bs "--messages must be >= 1")
  else if (o.(bo_groups) <? 1)%Z then Err (bs "--groups must be >= 1")
  else if (o.(bo_workers) <? 1)%Z then Err (bs "--workers must be >= 1")
  else if (o.(bo_batchSize) <? 1)%Z then Err (bs "--batch-size must be >= 1")
  else if (o.(bo_payloadBytes) <? 0)%Z then Err (bs "--payload-bytes must be >= 0")
  else Ok ().
Definition benchMessage (o : benchOptions) (i : Z) : MessageSpec :=
  mkMessageSpec o.(bo_lane) (bs "g-" ++ decimal (Z.rem i o.(bo_groups)))
    (replicate (Z.to_nat o.(bo_payloadBytes)) "x"%char) {[ bs "bench" := bs "true" ]}
    NBNone 0 None None None [] false [].
Definition benchChunk (o : benchOptions) (start : Z) : list MessageSpec :=
  let stop := wrap_i64 (start + o.(bo_batchSize)) in
  let stop := if (o.(bo_messages) <? stop)%Z then o.(bo_messages) else stop in
  benchMessage o <$> seqZ start (stop - start).
Definition failuresOf (res : Response) : nat :=
  match res with
  | Res_PublishBatch items => length (filter (λ it, bool_decide (it.2 = None) = false) items)
  | _ => 0
  end.

(** A worker's stream: a frame or the end, whether the context has ended by then,
    and whether sending the answer succeeds. *)
Record benchEvent := mkbenchEvent { be_recv : result WorkServerMsg; be_ctxDone : bool; be_sent : result () }.
(** The shared counter after the event, what was sent, the end of the worker. *)
Definition benchStep (o : benchOptions) (acked : Z) (ev : benchEvent) :
    Z * list WorkClientMsg * option (result ()) :=
  match ev.(be_recv) with
  | Err e =>
      if bool_decide (e = EOF) || ev.(be_ctxDone) then (acked, [], Some (Ok ())) else (acked, [], Some (Err e))
  | Ok (Srv_NotLeader addr) => (acked, [], Some (Err (bs "not leader: retry against " ++ addr)))
  | Ok (Srv_Control _ _) => (acked, [], None)
  | Ok (Srv_Lease lr) =>
      match ev.(be_sent) with
      | Err e => (acked, [], Some (Err e))
      | Ok _ =>
          let acked := (acked + 1)%Z in
          (acked, [Msg_Ack lr.(lr_LeaseID)], if (o.(bo_messages) <=? acked)%Z then Some (Ok ()) else None)
      end
  end.
(** The workers together: the counter, the acks sent, the workers that ended in
    the order they reported. *)
Record drain := mkdrain { dn_acked : Z; dn_sent : list WorkClientMsg; dn_over : list (nat * result ()) }.
Definition newDrain : drain := mkdrain 0 [] [].
Definition drainStep (o : benchOptions) (d : drain) (e : nat * benchEvent) : drain :=
  let '(w, ev) := e in
  if bool_decide (w ∈ d.(dn_over).*1) || negb (Z.of_nat w <? o.(bo_workers))%Z then d
  else
    let '(acked, out, over) := benchStep o d.(dn_acked) ev in
    mkdrain acked (d.(dn_sent) ++ out)
      (d.(dn_over) ++ match over with Some r => [(w, r)] | None => [] end).
Fixpoint firstError (rs : list (result ())) : option bytes :=
  match rs with [] => None | Err e :: _ => Some e | Ok _ :: rs' => firstError rs' end.
(** After every worker ended. *)
Definition drainVerdict (o : benchOptions) (d : drain) : Z * option bytes :=
  (d.(dn_acked),
   match firstError d.(dn_over).*2 with
   | Some e => Some e
   | None =>
       if (d.(dn_acked) <? o.(bo_messages))%Z
       then Some (bs "drained " ++ decimal d.(dn_acked) ++ bs "/" ++ decimal o.(bo_messages) ++ bs " messages before timeout")
       else None
   end).

(** ** The soak run *)
Record soakOptions := mksoakOptions {
  so_duration : Z; so_drain : Z; so_lanePrefix : bytes; so_lanes : Z; so_groups : Z; so_publishers : Z;
  so_workers : Z; so_publishRate : Z; so_payloadBytes : Z; so_retryEvery : Z; so_deadletterEvery : Z;
  so_workflowStorm : bool; so_workflowRate : Z }.
Record soakCounters := mksoakCounters {
  sc_published : Z; sc_leased : Z; sc_acked : Z; sc_retried : Z; sc_deadLettered : Z; sc_errors : Z;
  sc_workflowStarted : Z; sc_workflowTasks : Z; sc_activityTasks : Z; sc_workflowCommands : Z }.
Definition noCounts : soakCounters := mksoakCounters 0 0 0 0 0 0 0 0 0 0.
Definition checkSoak (o : soakOptions) : result () :=
  if (o.(so_duration) <=? 0)%Z then Err (bs "--duration must be > 0")
  else if (o.(so_drain) <? 0)%Z then Err (bs "--drain must be >= 0")
  else if (o.(so_lanes) <? 1)%Z || (o.(so_groups) <? 1)%Z || (o.(so_publishers) <? 1)%Z || (o.(so_workers) <? 1)%Z
  then Err (bs "--lanes, --groups, --publishers, and --workers must be >= 1")
  else if (o.(so_publishRate) <? 1)%Z then Err (bs "--publish-rate must be >= 1")
  else if (o.(so_payloadBytes) <? 0)%Z then Err (bs "--payload-bytes must be >= 0")
  else Ok ().

(** Adding to the counters. *)
Definition count (published leased acked retried dead errors started wtasks atasks cmds : Z) (c : soakCounters) :
    soakCounters :=
  mksoakCounters (c.(sc_published) + published) (c.(sc_leased) + leased) (c.(sc_acked) + acked)
    (c.(sc_retried) + retried) (c.(sc_deadLettered) + dead) (c.(sc_errors) + errors)
    (c.(sc_workflowStarted) + started) (c.(sc_workflowTasks) + wtasks) (c.(sc_activityTasks) + atasks)
    (c.(sc_workflowCommands) + cmds).
Definition countError : soakCounters → soakCounters := count 0 0 0 0 0 1 0 0 0 0.

(** The [n]-th message of a publisher, from 1. *)
Definition soakMessage (o : soakOptions) (pubID n : Z) : MessageSpec :=
  mkMessageSpec (o.(so_lanePrefix) ++ bs "-" ++ decimal (Z.rem (n + pubID) o.(so_lanes)))
    (bs "g-" ++ decimal (Z.rem (n + pubID) o.(so_groups)))
    (replicate (Z.to_nat o.(so_payloadBytes)) "x"%char)
    {[ bs "soak" := bs "true"; bs "publisher" := decimal pubID ]} NBNone 3 None None None [] false [].
Definition soakLane (o : soakOptions) (workerID : Z) : bytes :=
  o.(so_lanePrefix) ++ bs "-" ++ decimal (Z.rem workerID o.(so_lanes)).

Inductive settlement := Settle_DeadLetter | Settle_Retry | Settle_Ack.
#[export] Instance settlement_eq_dec : EqDecision settlement.
Proof. solve_decision. Defined.
(** What becomes of the [n]-th lease of the run. *)
Definition settle (o : soakOptions) (n : Z) (attempt : N) : settlement :=
  if (0 <? o.(so_deadletterEvery))%Z && (Z.rem n o.(so_deadletterEvery) =? 0)%Z then Settle_DeadLetter
  else if (0 <? o.(so_retryEvery))%Z && (Z.rem n o.(so_retryEvery) =? 0)%Z && (attempt <? 2) then Settle_Retry
  else Settle_Ack.
Definition settleFrame (leaseID : N) (s : settlement) : WorkClientMsg :=
  match s with
  | Settle_DeadLetter => Msg_Nack leaseID (Z.of_N NackDeadLetter) None {[ bs "soak" := bs "deadletter" ]}
  | Settle_Retry => Msg_Nack leaseID (Z.of_N NackRetry) None ∅
  | Settle_Ack => Msg_Ack leaseID
  end.
Definition countSettled (s : settlement) : soakCounters → soakCounters :=
  match s with
  | Settle_DeadLetter => count 0 0 0 0 1 0 0 0 0 0
  | Settle_Retry => count 0 0 0 1 0 0 0 0 0 0
  | Settle_Ack => count 0 0 1 0 0 0 0 0 0 0
  end.
(** A frame a worker receives: what it sends; [false]: it leaves the stream. *)
Definition soakStep (o : soakOptions) (c : soakCounters) (ev : benchEvent) :
    soakCounters * list WorkClientMsg * bool :=
  match ev.(be_recv) with
  | Err _ => (if ev.(be_ctxDone) then c else countError c, [], false)
  | Ok (Srv_Lease lr) =>
      let c := count 0 1 0 0 0 0 0 0 0 0 c in
      let s := settle o c.(sc_leased) lr.(lr_Attempt) in
      (match ev.(be_sent) with Ok _ => countSettled s c | Err _ => countError c end,
       [settleFrame lr.(lr_LeaseID) s], true)
  | Ok _ => (c, [], true)
  end.
(** The workers of a run, in the order their frames arrive; a worker that left its
    stream opens a new one. *)
Fixpoint soakRun (o : soakOptions) (c : soakCounters) (evs : list benchEvent) : soakCounters * list WorkClientMsg :=
  match evs with
  | [] => (c, [])
  | ev :: evs' =>
      let '(c1, out, _) := soakStep o c ev in
      let '(c2, outs) := soakRun o c1 evs' in (c2, out ++ outs)
  end.

(** ** Workflows under load *)
Definition hasEvent (ty : Z) (history : list HistoryEvent) : bool :=
  existsb (λ ev, (ev.(ev_EventType) =? ty)%Z) history.
Definition soakCommands (prefix : bytes) (history : list HistoryEvent) : list WorkflowCommand :=
  if negb (hasEvent HET_ACTIVITY_SCHEDULED history)
  then [mkWorkflowCommand (bs "schedule_activity") (prefix ++ bs "-activity") (bs "activity") [] 0]
  else if hasEvent HET_ACTIVITY_COMPLETED history
  then [mkWorkflowCommand (bs "complete_workflow") [] [] (bs "ok") 0]
  else [].

Section load.
Context {PC : PayloadCodec} {PE : PolicyEngines} {W : World} {T : Text}.

(** [None]: out of fuel. *)
Fixpoint publishBenchMessages (fuel : nat) (token : bytes) (o : benchOptions) (start : Z) (failures : nat) :
    NM (option nat) :=
  match fuel with
  | O => mret None
  | S fuel' =>
      if (start <? o.(bo_messages))%Z then
        res ← rpc token (Req_PublishBatch (benchChunk o start) true);
        publishBenchMessages fuel' token o (wrap_i64 (start + o.(bo_batchSize))) (failures + failuresOf res)
      else mret (Some failures)
  end.

(** One turn of a loop. *)
Definition soakPublish (token : bytes) (o : soakOptions) (pubID n : Z) (c : soakCounters) : NM soakCounters :=
  r ← attempt (rpc token (Req_Publish (Some (soakMessage o pubID n))));
  mret match r with Ok _ => count 1 0 0 0 0 0 0 0 0 0 c | Err _ => countError c end.
Definition soakStart (token : bytes) (o : soakOptions) (n : Z) (c : soakCounters) : NM soakCounters :=
  r ← attempt (rpc token (Req_StartWorkflow (o.(so_lanePrefix) ++ bs "-workflow")
                            (bs "g-" ++ decimal (Z.rem n o.(so_groups))) (bs "soak")));
  mret match r with Ok _ => count 0 0 0 0 0 0 1 0 0 0 c | Err _ => countError c end.
Definition soakWorkflowTurn (token : bytes) (o : soakOptions) (c : soakCounters) : NM soakCounters :=
  r ← attempt (rpc token (Req_PollWorkflowTask (o.(so_lanePrefix) ++ bs "-workflow") (bs "soak-wf")));
  match r with
  | Err _ => mret (countError c)
  | Ok (Res_PolledWorkflowTask (Some task)) =>
      let cmds := soakCommands o.(so_lanePrefix) task.(pwt_History) in
      let c := count 0 0 0 0 0 0 0 1 0 (Z.of_nat (length cmds)) c in
      r ← attempt (rpc token (Req_RespondWorkflowTask task.(pwt_RunId) task.(pwt_LeaseId) task.(pwt_RunEpoch)
                                task.(pwt_HistorySeq) (PrefixChecksumOf task.(pwt_History)) cmds));
      mret match r with Ok _ => c | Err _ => countError c end
  | Ok _ => mret c
  end.
Definition soakActivityTurn (token : bytes) (o : soakOptions) (c : soakCounters) : NM soakCounters :=
  r ← attempt (rpc token (Req_PollActivityTask (o.(so_lanePrefix) ++ bs "-activity") (bs "soak-act")));
  match r with
  | Err _ => mret (countError c)
  | Ok (Res_PolledActivityTask (Some task)) =>
      let c := count 0 0 0 0 0 0 0 0 1 0 c in
      r ← attempt (rpc token (Req_RespondActivityTask task.(pat_RunId) task.(pat_LeaseId)
                                task.(pat_ScheduledEventId) true (bs "ok")));
      mret match r with Ok _ => c | Err _ => countError c end
  | Ok _ => mret c
  end.
End load.

(** * Theorems on steps

    The benchmark's batches are its messages, cut in order; workers that share a
    counter overshoot it by less than their number; the soak workers settle every
    lease once; and the workflow storm runs a workflow to its end. *)

Lemma checkBench_ok o : checkBench o = Ok () →
  (1 <= o.(bo_messages) ∧ 1 <= o.(bo_groups) ∧ 1 <= o.(bo_workers) ∧ 1 <= o.(bo_batchSize) ∧ 0 <= o.(bo_payloadBytes))%Z.
Proof. unfold checkBench. repeat case_match; try done. lia. Qed.

(** ** Batches *)
Section publishing.
Context {PC : PayloadCodec} {PE : PolicyEngines} {W : World} {T : Text}.

(** One call per chunk, adding up the failures. *)
Fixpoint sendBatches (token : bytes) (chunks : list (list MessageSpec)) (failures : nat) : NM nat :=
  match chunks with
  | [] => mret failures
  | ms :: chunks' =>
      res ← rpc token (Req_PublishBatch ms true); sendBatches token chunks' (failures + failuresOf res)
  end.
Lemma benchChunk_exact o start : (0 <= start < o.(bo_messages))%Z → (1 <= o.(bo_batchSize))%Z →
  (o.(bo_messages) + o.(bo_batchSize) < 2 ^ 63)%Z →
  let stop := Z.min o.(bo_messages) (start + o.(bo_batchSize)) in
  benchChunk o start = benchMessage o <$> seqZ start (stop - start).
Proof.
  intros Hs Hb Hbound stop. unfold benchChunk. rewrite wrap_i64_small by lia. cbv zeta.
  assert (Hstop : (if (o.(bo_messages) <? start + o.(bo_batchSize))%Z then o.(bo_messages)
                   else start + o.(bo_batchSize))%Z = stop) by (subst stop; destruct (_ <? _)%Z eqn:E; lia).
  by rewrite Hstop.
Qed.
Definition total (m : NM nat) : NM (option nat) := f ← m; mret (Some f).
Lemma total_then {A} (m : NM A) (k : A → NM nat) (h : A → NM (option nat)) n :
  (∀ x n', h x n' = total (k x) n') → (m ≫= h) n = total (m ≫= k) n.
Proof. intros H. unfold total, mbind, NM_bind. destruct (m n) as [[[x|e] n']|]; [|done..]. apply H. Qed.
Lemma bench_from o token (k : nat) start : (1 <= o.(bo_batchSize))%Z →
  (o.(bo_messages) + o.(bo_batchSize) < 2 ^ 63)%Z → (0 <= start)%Z → (Z.to_nat (o.(bo_messages) - start) <= k)%nat →
  ∃ chunks, concat chunks = benchMessage o <$> seqZ start (o.(bo_messages) - start) ∧
    Forall (λ c, 0 < Z.of_nat (length c) <= o.(bo_batchSize))%Z chunks ∧
    ∀ fuel failures n, (length chunks < fuel)%nat →
      publishBenchMessages fuel token o start failures n = total (sendBatches token chunks failures) n.
Proof.
  intros Hb Hbound. revert start. induction k as [|k IH]; intros start Hs Hk;
    (destruct (decide (start < o.(bo_messages))%Z) as [Hlt|Hge]; [|exists []; split; [by rewrite (seqZ_nil start) by lia|];
       split; [done|]; intros [|fuel] failures n Hf; [simpl in Hf; lia|]; cbn [publishBenchMessages sendBatches];
       assert ((start <? bo_messages o)%Z = false) as -> by lia; done]); [lia|].
  pose proof (benchChunk_exact o start ltac:(lia) Hb Hbound) as Hc. cbv zeta in Hc.
  destruct (IH (start + o.(bo_batchSize))%Z) as (chunks & Hcat & Hsize & Hrun); [lia..|].
  set (d := (Z.min o.(bo_messages) (start + o.(bo_batchSize)) - start)%Z) in Hc.
  exists (benchChunk o start :: chunks). split; [|split].
  - cbn [concat]. rewrite Hc, Hcat, <-fmap_app. f_equal. subst d.
    destruct (decide (o.(bo_messages) <= start + o.(bo_batchSize))%Z).
    + rewrite Z.min_l, (seqZ_nil (start + _)), app_nil_r by lia. done.
    + rewrite Z.min_r by lia. replace (start + o.(bo_batchSize) - start)%Z with o.(bo_batchSize) by lia.
      rewrite <-seqZ_app by lia. f_equal. lia.
  - apply Forall_cons. split; [|done]. rewrite Hc, length_fmap, length_seqZ. subst d. lia.
  - intros [|fuel] failures n Hf; [simpl in Hf; lia|]. cbn [publishBenchMessages sendBatches].
    assert ((start <? bo_messages o)%Z = true) as -> by lia. rewrite wrap_i64_small by lia.
    apply total_then. intros res n'. apply Hrun. simpl in Hf. lia.
Qed.
(** The benchmark publishes its messages 0, 1, ... in order, in non-empty batches of
    at most the batch size, ends, and sums the failures of all of them. *)
Theorem bench_covers o token : checkBench o = Ok () → (o.(bo_messages) + o.(bo_batchSize) < 2 ^ 63)%Z →
  ∃ chunks, concat chunks = benchMessage o <$> seqZ 0 o.(bo_messages) ∧
    Forall (λ c, 0 < Z.of_nat (length c) <= o.(bo_batchSize))%Z chunks ∧
    ∀ fuel n, (length chunks < fuel)%nat →
      publishBenchMessages fuel token o 0 0 n = total (sendBatches token chunks 0) n.
Proof.
  intros Ho%checkBench_ok Hbound.
  destruct (bench_from o token (Z.to_nat o.(bo_messages)) 0) as (chunks & Hc & Hs & Hr); [lia..|].
  exists chunks. split; [by rewrite Hc, Z.sub_0_r|]. split; [done|]. intros fuel n. apply Hr.
Qed.
End publishing.

(** ** Draining *)
Definition ackIds (out : list WorkClientMsg) : list N := omap (λ m, match m with Msg_Ack i => Some i | _ => None end) out.
Definition drained (o : benchOptions) (d : drain) : Prop :=
  d.(dn_acked) = Z.of_nat (length d.(dn_sent)) ∧ NoDup d.(dn_over).*1 ∧
  Forall (λ w, Z.of_nat w < o.(bo_workers))%Z d.(dn_over).*1 ∧
  (d.(dn_acked) < o.(bo_messages) ∨ d.(dn_acked) <= o.(bo_messages) - 1 + Z.of_nat (length d.(dn_over)))%Z ∧
  (length d.(dn_sent) = length (ackIds d.(dn_sent))).
Lemma drainStep_ok o d e : drained o d → drained o (drainStep o d e).
Proof.
  intros (H1 & H2 & H3 & H4 & H5). destruct e as [w ev]. unfold drainStep. case_bool_decide as Hw; [done|]. cbn [orb].
  destruct (_ <? _)%Z eqn:Ew; cbn [negb]; [|done]. apply Z.ltb_lt in Ew.
  assert (Hover : ∀ r, NoDup (dn_over d ++ [(w, r)]).*1 ∧ Forall (λ v, Z.of_nat v < o.(bo_workers))%Z (dn_over d ++ [(w, r)]).*1).
  { intros r. rewrite fmap_app. cbn. split.
    - apply NoDup_app. split; [done|]. split; [|apply NoDup_singleton]. by intros v Hv ->%list_elem_of_singleton.
    - apply Forall_app. split; [done|]. by apply Forall_singleton. }
  assert (Hend : ∀ r, drained o (mkdrain d.(dn_acked) (d.(dn_sent) ++ []) (d.(dn_over) ++ [(w, r)]))).
  { intros r. destruct (Hover r). unfold drained. cbn. rewrite app_nil_r, length_app. cbn. repeat split; try done. lia. }
  unfold benchStep. destruct (be_recv ev) as [[lr|p lane|addr]|e].
  - destruct (be_sent ev) as [u|e]; [|apply Hend].
    assert (Hs : ∀ over, NoDup over.*1 → Forall (λ v, Z.of_nat v < o.(bo_workers))%Z over.*1 →
      (d.(dn_acked) + 1 < o.(bo_messages) ∨ d.(dn_acked) + 1 <= o.(bo_messages) - 1 + Z.of_nat (length over))%Z →
      drained o (mkdrain (d.(dn_acked) + 1) (d.(dn_sent) ++ [Msg_Ack lr.(lr_LeaseID)]) over)).
    { intros over Ho1 Ho2 Ho3. unfold drained. cbn. unfold ackIds. rewrite omap_app, !length_app. cbn.
      fold (ackIds d.(dn_sent)). repeat split; try done; lia. }
    destruct (_ <=? _)%Z eqn:El; apply Hs; try apply Hover; rewrite ?app_nil_r; try done; rewrite ?length_app; cbn; lia.
  - by rewrite !app_nil_r; destruct d.
  - apply Hend.
  - destruct (_ || _); apply Hend.
Qed.
(** However the workers' frames interleave, the counter is the number of acks sent,
    each for the lease received, and it passes the number of messages by less than
    the number of workers; without an error every message was acknowledged. *)
Theorem drain_bounds o (evs : list (nat * benchEvent)) : checkBench o = Ok () →
  let d := foldl (drainStep o) newDrain evs in
  d.(dn_acked) = Z.of_nat (length (ackIds d.(dn_sent))) ∧
  (d.(dn_acked) <= o.(bo_messages) - 1 + o.(bo_workers))%Z ∧
  ((drainVerdict o d).2 = None → o.(bo_messages) <= d.(dn_acked))%Z.
Proof.
  intros Ho%checkBench_ok d. assert (Hd : drained o d).
  { subst d. induction evs as [|e evs IH] using rev_ind.
    - unfold drained. cbn. repeat split; [constructor|constructor|lia].
    - rewrite foldl_app. by apply drainStep_ok. }
  destruct Hd as (H1 & H2 & H3 & H4 & H5). split; [lia|]. split.
  - destruct H4 as [H4|H4]; [lia|]. etrans; [exact H4|].
    assert (Hl : d.(dn_over).*1 ⊆+ seq 0 (Z.to_nat o.(bo_workers))).
    { apply NoDup_submseteq; [done|]. intros w Hw. rewrite Forall_forall in H3. apply H3 in Hw. apply elem_of_seq. lia. }
    apply submseteq_length in Hl. rewrite length_fmap, length_seq in Hl. lia.
  - unfold drainVerdict. cbn [snd]. destruct (firstError _); [done|]. by destruct (_ <? _)%Z eqn:E; [|lia].
Qed.

(** ** The soak workers *)
Definition leasesOf (evs : list benchEvent) : list LeaseResult :=
  omap (λ ev, match ev.(be_recv) with Ok (Srv_Lease lr) => Some lr | _ => None end) evs.
Definition settledLease (m : WorkClientMsg) : option N :=
  match m with Msg_Ack i => Some i | Msg_Nack i _ _ _ => Some i | _ => None end.
Definition lost (ev : benchEvent) : bool :=
  match ev.(be_recv), ev.(be_sent) with Ok (Srv_Lease _), Err _ => true | _, _ => false end.
Definition unsent (evs : list benchEvent) : Z := Z.of_nat (sum_list_with (λ ev, if lost ev then 1 else 0)%nat evs).
Definition settled (c : soakCounters) : Z := (c.(sc_acked) + c.(sc_retried) + c.(sc_deadLettered))%Z.
Lemma settledLease_frame i s : settledLease (settleFrame i s) = Some i.
Proof. by destruct s. Qed.
(** What one frame does. *)
Lemma soakStep_spec o c ev : let '(c', out, _) := soakStep o c ev in
  omap settledLease out = lr_LeaseID <$> leasesOf [ev] ∧ length out = length (leasesOf [ev]) ∧
  (c'.(sc_leased) = c.(sc_leased) + Z.of_nat (length (leasesOf [ev])))%Z ∧
  (settled c' + unsent [ev] = settled c + Z.of_nat (length (leasesOf [ev])))%Z.
Proof.
  unfold soakStep, leasesOf, unsent, lost, settled. cbn [omap list_omap sum_list_with foldr].
  destruct (be_recv ev) as [[lr|p lane|addr]|e]; [|cbn; (split; [done|]; lia)..|destruct (be_ctxDone ev); cbn; (split; [done|]; lia)].
  cbn [omap list_omap fmap list_fmap]. rewrite settledLease_frame.
  destruct (be_sent ev) as [u|e]; [destruct (settle _ _ _)|]; cbn; (split; [done|]; lia).
Qed.
(** Every lease a soak worker receives is answered by exactly one settlement of
    that lease, in order; and the leases counted are those counted as settled and
    those whose answer could not be sent. *)
Theorem soak_settles o (evs : list benchEvent) c :
  let '(c', out) := soakRun o c evs in
  omap settledLease out = lr_LeaseID <$> leasesOf evs ∧ length out = length (leasesOf evs) ∧
  (c'.(sc_leased) = c.(sc_leased) + Z.of_nat (length (leasesOf evs)))%Z ∧
  (settled c' + unsent evs = settled c + Z.of_nat (length (leasesOf evs)))%Z.
Proof.
  revert c. induction evs as [|ev evs IH]; intros c; [cbn; unfold unsent; cbn; (split; [done|]; lia)|]. cbn [soakRun].
  pose proof (soakStep_spec o c ev) as H1. destruct (soakStep o c ev) as [[c1 out] b].
  specialize (IH c1). destruct (soakRun o c1 evs) as [c2 outs]. destruct H1 as (H1 & H2 & H3 & H4), IH as (H5 & H6 & H7 & H8).
  assert (Hl : leasesOf (ev :: evs) = leasesOf [ev] ++ leasesOf evs) 
    by apply (omap_app _ [ev] evs).
  assert (Hu : unsent (ev :: evs) = (unsent [ev] + unsent evs)%Z) by (unfold unsent; cbn; lia).
  rewrite omap_app, Hl, fmap_app, !length_app, H1, H5, Hu. split; [done|]. lia.
Qed.

(** ** A workflow under load

    Start, decide, run the activity, decide again: the run ends completed. *)
Definition demo_soak : soakOptions := mksoakOptions 1 0 (bs "s") 1 1 1 1 1 0 0 0 true 1.
Definition storm (turns : list (soakCounters → NM (W := demo_world) soakCounters)) : NM (W := demo_world) soakCounters :=
  foldl (λ m turn, m ≫= turn) (mret noCounts) turns.
(** The whole stack at work: commands through Raft, leases, timers' time index,
    histories, activity results; two workflow tasks, one activity, no error. *)
Example storm_completes :
  match storm [soakStart [] demo_soak 1; soakWorkflowTurn [] demo_soak; soakActivityTurn [] demo_soak;
               soakWorkflowTurn [] demo_soak] (demo_node ∅ 50) with
  | Some (Ok c, n) =>
      c = mksoakCounters 0 0 0 0 0 0 1 2 1 2 ∧
      (run_Status <$> omap (λ kv, row_out (A := WorkflowRun) kv.2)
                        (NewIter WFRunBounds.1 (Some WFRunBounds.2) n.(n_fsm).(fsm_s))) = [WF_COMPLETED]
  | _ => False
  end.
Proof. vm_compute. auto. Qed.
