(* ===== verification/Cli.v ===== *)
(** * Command lines ([cmd/rota/main.go] and the commands' flags)

    [main] picks a command by its first word, the command a subcommand by its
    second; the rest are flags.  A parsed operator command is an [Operation],
    and [perform] runs it ([Client], [Doctor]); [operate] is both.  The flags of
    the backup and load commands are here as well. *)

From S2P Require Import Prelude GoStrings Keys Data Store Float GoNumbers Publish Workflow Broker Control Auth Timers Fsm Commands Fairness Meter Policy Scheduler Hash Node NodeControl NodeOps NodeStats NodeWorkflow NodeAuth Observatory Transport Work Client Doctor Load Flags.

(** ** Commands *)
Inductive rootCommand :=
  | R_Serve | R_Demo | R_Doctor | R_DLQ | R_Lane | R_Group | R_Workflow | R_Leases | R_Messages | R_Bench
  | R_Soak | R_Backup | R_Auth.
Definition rootCommands : list (bytes * rootCommand) :=
  [(bs "serve", R_Serve); (bs "demo", R_Demo); (bs "doctor", R_Doctor); (bs "dlq", R_DLQ); (bs "lane", R_Lane);
   (bs "group", R_Group); (bs "workflow", R_Workflow); (bs "leases", R_Leases); (bs "messages", R_Messages);
   (bs "bench", R_Bench); (bs "soak", R_Soak); (bs "backup", R_Backup); (bs "auth", R_Auth)].
Fixpoint pickWord {A} (table : list (bytes * A)) (w : bytes) : option A :=
  match table with
  | [] => None
  | (k, a) :: table' => if bool_decide (w = k) then Some a else pickWord table' w
  end.

(** ** The client's flags *)
Definition defaultGRPCAddr : bytes := bs "127.0.0.1:7100".
Definition addClientFlags : list (bytes * flagValue) :=
  [(bs "grpc", FV_String defaultGRPCAddr); (bs "timeout", FV_Duration 5000000000); (bs "token", FV_String []);
   (bs "tls-ca", FV_String []); (bs "tls-server-name", FV_String [])].
Definition clientOptionsOf (fs : FlagSet) : clientOptions :=
  mkclientOptions (strFlag fs (bs "grpc")) (durFlag fs (bs "timeout")) (strFlag fs (bs "token"))
    (strFlag fs (bs "tls-ca")) (strFlag fs (bs "tls-server-name")).

(** ** Operator commands *)
Inductive Operation :=
  | Op_Redrive (lane group : bytes) (msgID : N)
  | Op_LanePause (lane : bytes) (dur : Z)
  | Op_LaneResume (lane : bytes)
  | Op_LaneConfig (lane : bytes) (rate : float64) (burst : N)
  | Op_Group (op lane group : bytes)
  | Op_WorkflowCancel (runID : N) (reason : bytes)
  | Op_LeasesList (lane : bytes) (pageSize : N) (json : bool)
  | Op_ForceExpire (leaseID : N) (delay : Z)
  | Op_Peek (lane group : bytes) (limit : N) (json : bool)
  | Op_AuthList (json : bool)
  | Op_AuthCreate (name : bytes) (tags specs : list bytes) (lane group actions note : bytes) (json : bool)
  | Op_AuthRotate (name : bytes) (json : bool)
  | Op_AuthSetDisabled (name : bytes) (disabled : bool)
  | Op_AuthGrant (name : bytes) (specs : list bytes) (lane group actions note : bytes)
  | Op_AuthRevoke (name : bytes) (index : N)
  | Op_Doctor (o : doctorOptions) (json failOnWarn : bool).

(** A command's own flags, and what it makes of the variables. *)
Definition readOp (decls : list (bytes * flagValue)) (build : FlagSet → Operation) (args : list bytes) :
    result (clientOptions * Operation) :=
  match parseFlags (addClientFlags ++ decls) args with
  | Ok fs => Ok (clientOptionsOf fs, build fs)
  | Err e => Err e
  end.
Definition sFlag (name : String.string) : bytes * flagValue := (bs name, FV_String []).
Definition jsonFlag : bytes * flagValue := (bs "json", FV_Bool false).
Definition parseDLQRedrive : list bytes → result (clientOptions * Operation) :=
  readOp [sFlag "lane"; sFlag "group"; (bs "msg-id", FV_Uint 0)]
    (λ fs, Op_Redrive (strFlag fs (bs "lane")) (strFlag fs (bs "group")) (uintFlag fs (bs "msg-id"))).
Definition parseLanePause : list bytes → result (clientOptions * Operation) :=
  readOp [sFlag "lane"; (bs "duration", FV_Duration 0)]
    (λ fs, Op_LanePause (strFlag fs (bs "lane")) (durFlag fs (bs "duration"))).
Definition parseLaneResume : list bytes → result (clientOptions * Operation) :=
  readOp [sFlag "lane"] (λ fs, Op_LaneResume (strFlag fs (bs "lane"))).
Definition parseLaneConfig : list bytes → result (clientOptions * Operation) :=
  readOp [sFlag "lane"; (bs "rate", FV_Float f64_zero); (bs "burst", FV_Uint 1)]
    (λ fs, Op_LaneConfig (strFlag fs (bs "lane")) (floatFlag fs (bs "rate")) (uintFlag fs (bs "burst"))).
Definition parseGroupOp (op : bytes) : list bytes → result (clientOptions * Operation) :=
  readOp [sFlag "lane"; sFlag "group"] (λ fs, Op_Group op (strFlag fs (bs "lane")) (strFlag fs (bs "group"))).
Definition parseWorkflowCancel : list bytes → result (clientOptions * Operation) :=
  readOp [(bs "run-id", FV_Uint 0); (bs "reason", FV_String (bs "operator_cancel"))]
    (λ fs, Op_WorkflowCancel (uintFlag fs (bs "run-id")) (strFlag fs (bs "reason"))).
Definition parseLeasesList : list bytes → result (clientOptions * Operation) :=
  readOp [sFlag "lane"; (bs "page-size", FV_Uint 200); jsonFlag]
    (λ fs, Op_LeasesList (strFlag fs (bs "lane")) (uintFlag fs (bs "page-size")) (boolFlag fs (bs "json"))).
Definition parseForceExpire : list bytes → result (clientOptions * Operation) :=
  readOp [(bs "lease-id", FV_Uint 0); (bs "delay", FV_Duration 0)]
    (λ fs, Op_ForceExpire (uintFlag fs (bs "lease-id")) (durFlag fs (bs "delay"))).
Definition parseMessagesPeek : list bytes → result (clientOptions * Operation) :=
  readOp [sFlag "lane"; sFlag "group"; (bs "limit", FV_Uint 20); jsonFlag]
    (λ fs, Op_Peek (strFlag fs (bs "lane")) (strFlag fs (bs "group")) (uintFlag fs (bs "limit"))
             (boolFlag fs (bs "json"))).
Definition parseAuthList : list bytes → result (clientOptions * Operation) :=
  readOp [jsonFlag] (λ fs, Op_AuthList (boolFlag fs (bs "json"))).
Definition parseAuthCreate : list bytes → result (clientOptions * Operation) :=
  readOp [sFlag "name"; (bs "tag", FV_Multi []); (bs "grant", FV_Multi []); sFlag "lane"; sFlag "group";
          sFlag "actions"; sFlag "note"; jsonFlag]
    (λ fs, Op_AuthCreate (strFlag fs (bs "name")) (multiFlag fs (bs "tag")) (multiFlag fs (bs "grant"))
             (strFlag fs (bs "lane")) (strFlag fs (bs "group")) (strFlag fs (bs "actions")) (strFlag fs (bs "note"))
             (boolFlag fs (bs "json"))).
Definition parseAuthRotate : list bytes → result (clientOptions * Operation) :=
  readOp [sFlag "name"; jsonFlag] (λ fs, Op_AuthRotate (strFlag fs (bs "name")) (boolFlag fs (bs "json"))).
Definition parseAuthSetDisabled (disabled : bool) : list bytes → result (clientOptions * Operation) :=
  readOp [sFlag "name"] (λ fs, Op_AuthSetDisabled (strFlag fs (bs "name")) disabled).
Definition parseAuthGrant : list bytes → result (clientOptions * Operation) :=
  readOp [sFlag "name"; (bs "grant", FV_Multi []); sFlag "lane"; sFlag "group"; sFlag "actions"; sFlag "note"]
    (λ fs, Op_AuthGrant (strFlag fs (bs "name")) (multiFlag fs (bs "grant")) (strFlag fs (bs "lane"))
             (strFlag fs (bs "group")) (strFlag fs (bs "actions")) (strFlag fs (bs "note"))).
Definition parseAuthRevoke : list bytes → result (clientOptions * Operation) :=
  readOp [sFlag "name"; (bs "grant-index", FV_Uint 0)]
    (λ fs, Op_AuthRevoke (strFlag fs (bs "name")) (uintFlag fs (bs "grant-index"))).
Definition parseDoctor : list bytes → result (clientOptions * Operation) :=
  readOp [sFlag "lane"; (bs "page-size", FV_Uint 200); jsonFlag; (bs "fail-on-warn", FV_Bool false);
          (bs "lease-warn", FV_Duration 5000000000)]
    (λ fs, Op_Doctor (mkdoctorOptions (strFlag fs (bs "lane")) (uintFlag fs (bs "page-size"))
                        (durFlag fs (bs "lease-warn")))
             (boolFlag fs (bs "json")) (boolFlag fs (bs "fail-on-warn"))).

(** ** Subcommands *)
Definition opParser : Type := list bytes → result (clientOptions * Operation).
Definition subcommand (what : bytes) (table : list (bytes * opParser)) : opParser := λ args,
  match args with
  | [] => Err (bs "usage: rota " ++ what)
  | w :: args' =>
      match pickWord table w with
      | Some p => p args'
      | None => Err (bs "unknown " ++ what ++ bs " command " ++ w)
      end
  end.
Definition cmdDLQ : opParser := subcommand (bs "dlq") [(bs "redrive", parseDLQRedrive)].
Definition cmdLane : opParser :=
  subcommand (bs "lane") [(bs "pause", parseLanePause); (bs "resume", parseLaneResume); (bs "config", parseLaneConfig)].
Definition cmdGroup : opParser :=
  subcommand (bs "group")
    ((λ op, (op, parseGroupOp op)) <$> [bs "pause"; bs "resume"; bs "cancel"; bs "purge"; bs "reap"]).
Definition cmdWorkflow : opParser := subcommand (bs "workflow") [(bs "cancel", parseWorkflowCancel)].
Definition cmdLeases : opParser :=
  subcommand (bs "leases") [(bs "list", parseLeasesList); (bs "force-expire", parseForceExpire)].
Definition cmdMessages : opParser := subcommand (bs "messages") [(bs "peek", parseMessagesPeek)].
Definition cmdAuth : opParser :=
  subcommand (bs "auth")
    [(bs "list", parseAuthList); (bs "create", parseAuthCreate); (bs "rotate", parseAuthRotate);
     (bs "enable", parseAuthSetDisabled false); (bs "disable", parseAuthSetDisabled true);
     (bs "grant", parseAuthGrant); (bs "revoke", parseAuthRevoke)].
(** The operator's share of [main]'s switch. *)
Definition operatorCommand (c : rootCommand) : option opParser :=
  match c with
  | R_Doctor => Some parseDoctor
  | R_DLQ => Some cmdDLQ
  | R_Lane => Some cmdLane
  | R_Group => Some cmdGroup
  | R_Workflow => Some cmdWorkflow
  | R_Leases => Some cmdLeases
  | R_Messages => Some cmdMessages
  | R_Auth => Some cmdAuth
  | R_Serve | R_Demo | R_Bench | R_Soak | R_Backup => None
  end.

Section running.
Context {PC : PayloadCodec} {PE : PolicyEngines} {W : World} {T : Text} {CE : ClientEnv}.

(** What a run hands to its writer; a doctor may fail after it printed. *)
Inductive Printout :=
  | Print_None
  | Print_Out (out : CliOut)
  | Print_Doctor (report : doctorReport) (json : bool) (verdict : result ()).

(** [fuel]: for the listings; [picks]: of the stream handler's [select]; [nowMs]:
    the operator's clock.  [None]: out of fuel or picks. *)
Record runEnv := mkrunEnv { re_fuel : nat; re_picks : list WorkEvent; re_nowMs : N }.
Definition perform (e : runEnv) (o : clientOptions) (op : Operation) : NM (option Printout) :=
  let one (m : NM CliOut) : NM (option Printout) := out ← m; mret (Some (Print_Out out)) in
  let opt (m : NM (option CliOut)) : NM (option Printout) := out ← m; mret (Print_Out <$> out) in
  match op with
  | Op_Redrive lane group msgID => one (cmdDLQRedrive o lane group msgID)
  | Op_LanePause lane dur => one (cmdLanePause o lane dur)
  | Op_LaneResume lane => one (cmdLaneResume o lane)
  | Op_LaneConfig lane rate burst => one (cmdLaneConfig o lane rate burst)
  | Op_Group word lane group =>
      out ← cmdGroupOp o word lane group;
      mret (Some match out with Some x => Print_Out x | None => Print_None end)
  | Op_WorkflowCancel runID reason => one (cmdWorkflowCancel o runID reason)
  | Op_LeasesList lane pageSize json => opt (cmdLeasesList e.(re_fuel) o lane pageSize json)
  | Op_ForceExpire leaseID delay => opt (cmdLeasesForceExpire e.(re_picks) o leaseID delay)
  | Op_Peek lane group limit json => one (cmdMessagesPeek o lane group limit json)
  | Op_AuthList json => one (cmdAuthList o json)
  | Op_AuthCreate name tags specs lane group actions note json =>
      one (cmdAuthCreate o name tags specs lane group actions note json)
  | Op_AuthRotate name json => one (cmdAuthRotate o name json)
  | Op_AuthSetDisabled name disabled => one (cmdAuthSetDisabled o name disabled)
  | Op_AuthGrant name specs lane group actions note => one (cmdAuthGrant o name specs lane group actions note)
  | Op_AuthRevoke name index => one (cmdAuthRevoke o name index)
  | Op_Doctor d json failOnWarn =>
      withClients o (λ token,
        r ← cmdDoctor e.(re_fuel) token e.(re_nowMs) d failOnWarn;
        mret ((λ rv, Print_Doctor rv.1 json rv.2) <$> r))
  end.
(** How the command ends, its output written. *)
Definition verdictOf (p : option Printout) : result () :=
  match p with Some (Print_Doctor _ _ verdict) => verdict | _ => Ok () end.
Definition operate (e : runEnv) (c : opParser) (args : list bytes) : NM unit :=
  p ← lift (c args);
  out ← perform e p.1 p.2;
  lift (verdictOf out).

(** ** [main]

    [run]: the command's function.  The exit status. *)
Definition main (run : rootCommand → list bytes → NM ()) (osArgs : list bytes) : NM Z :=
  match osArgs with
  | _ :: w :: args =>
      match pickWord rootCommands w with
      | Some c => r ← attempt (run c args); mret match r with Ok _ => 0%Z | Err _ => 1%Z end
      | None => mret 2%Z
      end
  | _ => mret 2%Z
  end.
End running.

(** ** Load generators *)
Definition parseBench (args : list bytes) : result (clientOptions * benchOptions * bool) :=
  match parseFlags (addClientFlags ++
    [(bs "lane", FV_String (bs "bench")); (bs "messages", FV_Int 1000); (bs "groups", FV_Int 10);
     (bs "workers", FV_Int 4); (bs "batch-size", FV_Int 100); (bs "payload-bytes", FV_Int 128); jsonFlag]) args with
  | Ok fs =>
      Ok (clientOptionsOf fs,
          mkbenchOptions (strFlag fs (bs "lane")) (intFlag fs (bs "messages")) (intFlag fs (bs "groups"))
            (intFlag fs (bs "workers")) (intFlag fs (bs "batch-size")) (intFlag fs (bs "payload-bytes")),
          boolFlag fs (bs "json"))
  | Err e => Err e
  end.
(** The chaos command and when it runs. *)
Record chaosOptions := mkchaosOptions { ch_after : Z; ch_command : bytes }.
Definition parseSoak (args : list bytes) : result (clientOptions * soakOptions * chaosOptions * bool) :=
  match parseFlags (addClientFlags ++
    [(bs "duration", FV_Duration 30000000000); (bs "drain", FV_Duration 5000000000);
     (bs "lane-prefix", FV_String (bs "soak")); (bs "lanes", FV_Int 4); (bs "groups", FV_Int 32);
     (bs "publishers", FV_Int 2); (bs "workers", FV_Int 8); (bs "publish-rate", FV_Int 100);
     (bs "payload-bytes", FV_Int 128); (bs "retry-every", FV_Int 0); (bs "deadletter-every", FV_Int 0);
     (bs "workflow-storm", FV_Bool false); (bs "workflow-rate", FV_Int 10); (bs "chaos-after", FV_Duration 0);
     (bs "chaos-command", FV_String []); jsonFlag]) args with
  | Ok fs =>
      Ok (clientOptionsOf fs,
          mksoakOptions (durFlag fs (bs "duration")) (durFlag fs (bs "drain")) (strFlag fs (bs "lane-prefix"))
            (intFlag fs (bs "lanes")) (intFlag fs (bs "groups")) (intFlag fs (bs "publishers"))
            (intFlag fs (bs "workers")) (intFlag fs (bs "publish-rate")) (intFlag fs (bs "payload-bytes"))
            (intFlag fs (bs "retry-every")) (intFlag fs (bs "deadletter-every"))
            (boolFlag fs (bs "workflow-storm")) (intFlag fs (bs "workflow-rate")),
          mkchaosOptions (durFlag fs (bs "chaos-after")) (strFlag fs (bs "chaos-command")),
          boolFlag fs (bs "json"))
  | Err e => Err e
  end.

(** ** Backups *)
Inductive backupCommand :=
  | Backup_Create (dataDir outPath : bytes)
  | Backup_Restore (inPath dataDir : bytes) (force : bool)
  | Backup_Validate (inPath restoreDir : bytes) (force json : bool).
Definition readBackup (decls : list (bytes * flagValue)) (build : FlagSet → backupCommand) (args : list bytes) :
    result backupCommand :=
  match parseFlags decls args with Ok fs => Ok (build fs) | Err e => Err e end.
Definition parseBackupCreate : list bytes → result backupCommand :=
  readBackup [(bs "data", FV_String (bs "./data")); sFlag "out"]
    (λ fs, Backup_Create (strFlag fs (bs "data")) (strFlag fs (bs "out"))).
Definition parseBackupRestore : list bytes → result backupCommand :=
  readBackup [sFlag "in"; (bs "data", FV_String (bs "./data")); (bs "force", FV_Bool false)]
    (λ fs, Backup_Restore (strFlag fs (bs "in")) (strFlag fs (bs "data")) (boolFlag fs (bs "force"))).
Definition parseBackupValidate : list bytes → result backupCommand :=
  readBackup [sFlag "in"; sFlag "restore-dir"; (bs "force", FV_Bool false); jsonFlag]
    (λ fs, Backup_Validate (strFlag fs (bs "in")) (strFlag fs (bs "restore-dir")) (boolFlag fs (bs "force"))
             (boolFlag fs (bs "json"))).
Definition cmdBackup (args : list bytes) : result backupCommand :=
  match args with
  | [] => Err (bs "usage: rota backup")
  | w :: args' =>
      match pickWord [(bs "create", parseBackupCreate); (bs "restore", parseBackupRestore);
                      (bs "validate", parseBackupValidate)] w with
      | Some p => p args'
      | None => Err (bs "unknown backup command " ++ w)
      end
  end.

(** [parseUint32Flag]: a range check no command uses. *)
Definition parseUint32Flag (name value : bytes) : result N :=
  match ParseUint two32 value with
  | Some v => Ok v
  | None => Err (bs "--" ++ name ++ bs " must be a uint32")
  end.
