(* ===== verification/CliProps.v ===== *)
(** * Theorems on the command line

    Every operation has command lines, [main] runs exactly it, and a command
    line that does not parse reaches no server. *)

From S2P Require Import Prelude GoStrings Keys Data Store Float GoNumbers Publish Workflow Broker Control Auth Timers Fsm Commands Fairness Meter Policy Scheduler Hash Node NodeControl NodeOps NodeStats NodeWorkflow NodeAuth Observatory Transport Work Client Doctor Load Flags Cli Demo SchedulerProps NodeProps NodeDemo NodeAuthProps TransportProps.

(** ** An operation as words *)
Definition clientPairs (o : clientOptions) : list (bytes * flagValue) :=
  [(bs "grpc", FV_String o.(co_grpcAddr)); (bs "timeout", FV_Duration o.(co_timeout));
   (bs "token", FV_String o.(co_token)); (bs "tls-ca", FV_String o.(co_tlsCA));
   (bs "tls-server-name", FV_String o.(co_tlsServerName))].
Definition str (name : String.string) (x : bytes) : bytes * flagValue := (bs name, FV_String x).
Definition flag (name : String.string) (b : bool) : bytes * flagValue := (bs name, FV_Bool b).
Definition num (name : String.string) (n : N) : bytes * flagValue := (bs name, FV_Uint n).
(** The command's words and its flags. *)
Definition opLine (op : Operation) : list bytes * list (bytes * flagValue) :=
  match op with
  | Op_Redrive lane group msgID => ([bs "dlq"; bs "redrive"], [str "lane" lane; str "group" group; num "msg-id" msgID])
  | Op_LanePause lane dur => ([bs "lane"; bs "pause"], [str "lane" lane; (bs "duration", FV_Duration dur)])
  | Op_LaneResume lane => ([bs "lane"; bs "resume"], [str "lane" lane])
  | Op_LaneConfig lane rate burst =>
      ([bs "lane"; bs "config"], [str "lane" lane; (bs "rate", FV_Float rate); num "burst" burst])
  | Op_Group w lane group => ([bs "group"; w], [str "lane" lane; str "group" group])
  | Op_WorkflowCancel runID reason => ([bs "workflow"; bs "cancel"], [num "run-id" runID; str "reason" reason])
  | Op_LeasesList lane pageSize json =>
      ([bs "leases"; bs "list"], [str "lane" lane; num "page-size" pageSize; flag "json" json])
  | Op_ForceExpire leaseID delay =>
      ([bs "leases"; bs "force-expire"], [num "lease-id" leaseID; (bs "delay", FV_Duration delay)])
  | Op_Peek lane group limit json =>
      ([bs "messages"; bs "peek"], [str "lane" lane; str "group" group; num "limit" limit; flag "json" json])
  | Op_AuthList json => ([bs "auth"; bs "list"], [flag "json" json])
  | Op_AuthCreate name tags specs lane group actions note json =>
      ([bs "auth"; bs "create"],
       [str "name" name; (bs "tag", FV_Multi tags); (bs "grant", FV_Multi specs); str "lane" lane; str "group" group;
        str "actions" actions; str "note" note; flag "json" json])
  | Op_AuthRotate name json => ([bs "auth"; bs "rotate"], [str "name" name; flag "json" json])
  | Op_AuthSetDisabled name disabled => ([bs "auth"; if disabled then bs "disable" else bs "enable"], [str "name" name])
  | Op_AuthGrant name specs lane group actions note =>
      ([bs "auth"; bs "grant"],
       [str "name" name; (bs "grant", FV_Multi specs); str "lane" lane; str "group" group; str "actions" actions;
        str "note" note])
  | Op_AuthRevoke name index => ([bs "auth"; bs "revoke"], [str "name" name; num "grant-index" index])
  | Op_Doctor d json failOnWarn =>
      ([bs "doctor"],
       [str "lane" d.(do_lane); num "page-size" d.(do_pageSize); flag "json" json; flag "fail-on-warn" failOnWarn;
        (bs "lease-warn", FV_Duration d.(do_leaseWarnAfter))])
  end.
Definition commandLine (o : clientOptions) (op : Operation) : list bytes :=
  (opLine op).1 ++ flagLine (clientPairs o ++ (opLine op).2).
(** Numbers of their width, durations of 64 bits, a group operation that exists. *)
Definition expressible (o : clientOptions) (op : Operation) : Prop :=
  Forall (λ p, printableFlag p.2) (clientPairs o ++ (opLine op).2) ∧
  match op with Op_Group w _ _ => w ∈ [bs "pause"; bs "resume"; bs "cancel"; bs "purge"; bs "reap"] | _ => True end.
(** What may follow the flags. *)
Definition plainWords (rest : list bytes) : Prop :=
  match rest with w :: _ => flagWordOf w = W_Positional | [] => True end.

(** ** Reading it back *)
#[local] Instance wordName_dec n : Decision (wordName n).
Proof. unfold wordName. destruct n; apply _. Defined.
Definition declaresb (old v : flagValue) : bool :=
  match old, v with
  | FV_String _, FV_String _ | FV_Bool _, FV_Bool _ | FV_Int _, FV_Int _ | FV_Uint _, FV_Uint _
  | FV_Float _, FV_Float _ | FV_Duration _, FV_Duration _ => true
  | FV_Multi [], FV_Multi _ => true
  | _, _ => false
  end.
Definition declaredIn (fs : FlagSet) (p : bytes * flagValue) : bool :=
  bool_decide (wordName p.1) && match fs !! p.1 with Some old => declaresb old p.2 | None => false end.
Lemma declared_settable fs p : declaredIn fs p = true → printableFlag p.2 → settable fs p.
Proof.
  unfold declaredIn. intros [Hn%bool_decide_eq_true Hd]%andb_true_iff Hp. split; [done|]. split; [done|].
  destruct (fs !! p.1) as [old|]; [|done]. by destruct old as [| | | | | |[]], p.2.
Qed.
(** The variables after a printed line of declared flags. *)
Lemma parseFlags_line decls pairs rest : bool_decide (NoDup pairs.*1) = true →
  forallb (declaredIn (NewFlagSet decls)) pairs = true → Forall (λ p, printableFlag p.2) pairs → plainWords rest →
  parseFlags decls (flagLine pairs ++ rest) = Ok (setFlags (NewFlagSet decls) pairs).
Proof.
  intros Hnd%bool_decide_eq_true Hd Hp Hr. unfold parseFlags. rewrite Parse_flagLine; [done|done| |done].
  rewrite forallb_forall in Hd. rewrite Forall_forall in Hp |- *. intros p Hin.
  apply declared_settable; [apply Hd; by apply list_elem_of_In|by apply Hp].
Qed.
Lemma readOp_line decls build o pairs rest op : bool_decide (NoDup (clientPairs o ++ pairs).*1) = true →
  forallb (declaredIn (NewFlagSet (addClientFlags ++ decls))) (clientPairs o ++ pairs) = true →
  Forall (λ p, printableFlag p.2) (clientPairs o ++ pairs) → plainWords rest →
  (let fs := setFlags (NewFlagSet (addClientFlags ++ decls)) (clientPairs o ++ pairs) in
   (clientOptionsOf fs, build fs) = (o, op)) →
  readOp decls build (flagLine (clientPairs o ++ pairs) ++ rest) = Ok (o, op).
Proof. intros Hnd Hd Hp Hr Hb. unfold readOp. rewrite parseFlags_line by done. f_equal. exact Hb. Qed.

(** The operator's commands in [main]'s switch. *)
Definition parseOperator (args : list bytes) : option (result (clientOptions * Operation)) :=
  match args with
  | w :: args' => c ← pickWord rootCommands w; p ← operatorCommand c; Some (p args')
  | [] => None
  end.
(** The command at the head of the words, then its flags. *)
Ltac parse_with p :=
  etransitivity; [refine (eq_refl (Some (p _)))|f_equal; apply readOp_line; [reflexivity|reflexivity|done|done|reflexivity]].
Lemma commandLine_parses o op rest : expressible o op → plainWords rest →
  parseOperator (commandLine o op ++ rest) = Some (Ok (o, op)).
Proof.
  intros [Hp Hw] Hr. unfold commandLine. rewrite <-app_assoc. destruct o as [addr timeout token ca sname].
  destruct op as [lane group msgID|lane dur|lane|lane rate burst|w lane group|runID reason|lane ps json|lid delay|
    lane group limit json|json|name tags specs lane group actions note json|name json|name disabled|
    name specs lane group actions note|name index|[lane ps warn] json failOnWarn]; cbn [opLine fst snd] in *.
  - parse_with parseDLQRedrive.
  - parse_with parseLanePause.
  - parse_with parseLaneResume.
  - parse_with parseLaneConfig.
  - repeat (apply elem_of_cons in Hw as [->|Hw]; [match goal with |- parseOperator ([_; ?w] ++ _) = _ => parse_with (parseGroupOp w) end|]). by apply not_elem_of_nil in Hw.
  - parse_with parseWorkflowCancel.
  - parse_with parseLeasesList.
  - parse_with parseForceExpire.
  - parse_with parseMessagesPeek.
  - parse_with parseAuthList.
  - parse_with parseAuthCreate.
  - parse_with parseAuthRotate.
  - destruct disabled; [parse_with (parseAuthSetDisabled true)|parse_with (parseAuthSetDisabled false)].
  - parse_with parseAuthGrant.
  - parse_with parseAuthRevoke.
  - parse_with parseDoctor.
Qed.

(** ** [main] *)
Section main.
Context {PC : PayloadCodec} {PE : PolicyEngines} {W : World} {T : Text} {CE : ClientEnv}.
Implicit Types (n : Node).

(** [main]'s switch: the operator's commands, and the others. *)
Definition runCommand (e : runEnv) (other : rootCommand → list bytes → NM ()) (c : rootCommand) (args : list bytes) : NM () :=
  match operatorCommand c with
  | Some p => operate e p args
  | None => other c args
  end.
Definition exitStatus (r : result (option Printout)) : Z :=
  match r with Ok out => match verdictOf out with Ok _ => 0%Z | Err _ => 1%Z end | Err _ => 1%Z end.
Lemma main_operator e other prog args r n : parseOperator args = Some r →
  main (runCommand e other) (prog :: args) n =
    match r with
    | Ok (o, op) => r ← attempt (perform e o op); mret (exitStatus r)
    | Err _ => mret 1%Z
    end n.
Proof.
  destruct args as [|w args]; [done|]. cbn [parseOperator main]. destruct (pickWord rootCommands w) as [c|]; [|done].
  cbn [mbind option_bind]. unfold runCommand. destruct (operatorCommand c) as [p|]; [|done]. cbn [mbind option_bind].
  intros [= <-]. unfold operate. destruct (p args) as [[o op]|x]; [|done].
  unfold attempt, mbind, NM_bind, lift. cbn [fst snd]. destruct (perform e o op n) as [[[x|x] n']|]; done.
Qed.

(** C21: For every operator command with numbers in range there is a command line,
    its flags printed one by one, that [main] takes for exactly that command with
    exactly those options, whatever words follow: it performs it once and exits 0
    or 1 with its result.  A command line that does not parse exits 1 and one
    without a known command exits 2, and neither touches the node. *)
Theorem cli_round_trip e other prog : 
  (∀ o op rest n, expressible o op → plainWords rest →
     main (runCommand e other) (prog :: commandLine o op ++ rest) n =
       (r ← attempt (perform e o op); mret (exitStatus r)) n) ∧
  (∀ args x n, parseOperator args = Some (Err x) → main (runCommand e other) (prog :: args) n = Some (Ok 1%Z, n)) ∧
  (∀ args n, head args ≫= pickWord rootCommands = None → main (runCommand e other) (prog :: args) n = Some (Ok 2%Z, n)).
Proof.
  split; [|split].
  - intros o op rest n He Hr. by rewrite (main_operator _ _ _ _ _ _ (commandLine_parses o op rest He Hr)).
  - intros args x n Hp. by rewrite (main_operator _ _ _ _ _ _ Hp).
  - intros [|w args] n; [done|]. cbn [head mbind option_bind main]. by intros ->.
Qed.
End main.

#[export] Instance demo_client : ClientEnv := {| NewClientTLSFromFile _ _ := Ok (); grpc_NewClient _ _ := Ok () |}.
Definition demo_options : clientOptions := mkclientOptions (bs "127.0.0.1:7100") 5000000000 [] [] [].
Definition demo_create : Operation :=
  Op_AuthCreate (bs "ci") [bs "monitoring"] [bs "jobs:.*:publish,read"] [] [] [] [] false.
Definition demo_other (c : rootCommand) (args : list bytes) : NM (W := demo_world) () := mret ().
Lemma cli_round_trip_witness :
  let run := runCommand (W := demo_world) (mkrunEnv 9 [] 5) demo_other in
  (∃ n', main (W := demo_world) run (bs "rota" :: commandLine demo_options demo_create ++ [bs "trailing"]) (demo_node ∅ 5)
           = Some (Ok 0%Z, n') ∧ AuthEnabled n'.(n_fsm).(fsm_s) = true) ∧
  main (W := demo_world) run (bs "rota" :: [bs "lane"; bs "pause"; bs "--duration"; bs "soon"]) (demo_node ∅ 5)
    = Some (Ok 1%Z, demo_node ∅ 5).
Proof.
  cbv zeta. destruct (cli_round_trip (W := demo_world) (mkrunEnv 9 [] 5) demo_other (bs "rota")) as (H1 & H2 & _). split.
  - rewrite H1.
    + assert (H : match (r ← attempt (perform (W := demo_world) (mkrunEnv 9 [] 5) demo_options demo_create); mret (exitStatus r) : NM (W := demo_world) Z)
                          (demo_node ∅ 5) with
                  | Some (Ok 0%Z, n') => AuthEnabled n'.(n_fsm).(fsm_s) = true | _ => False end) by (vm_compute; reflexivity).
      match type of H with match ?x with _ => _ end => destruct x as [[[[]|] n']|] end; try done. by exists n'.
    + split; [|exact I]. repeat (apply Forall_cons; split; [vm_compute; (exact I || split; congruence)|]). by apply Forall_nil.
    + reflexivity.
  - eapply H2. vm_compute. reflexivity.
Defined.

(** A pause of a minute lasts sixty thousand milliseconds from the server's clock. *)
Example lane_pause_in_milliseconds :
  match main (W := demo_world) (runCommand (W := demo_world) (mkrunEnv 9 [] 5) demo_other)
          [bs "rota"; bs "lane"; bs "pause"; bs "--lane"; bs "l"; bs "--duration"; bs "60s"] (demo_node ∅ 5) with
  | Some (Ok 0%Z, n') => n'.(n_paused) !! bs "l" = Some 60005%Z
  | _ => False
  end.
Proof. vm_compute. reflexivity. Qed.
