(* ===== verification/LoadRuns.v ===== *)
(** * Whole runs of the load generators ([cmd/rota/bench.go], [soak.go])

    [Load] has the steps; here are the runs: the benchmark from its checks to its
    report, and the soak run, whose goroutines share counters, as a schedule of
    their turns.  What the clock measured and how the chaos command ended are
    arguments. *)

From S2P Require Import Prelude GoStrings Keys Data Store Publish Workflow Broker Control Auth Timers Fsm Fairness Float GoNumbers Flags Policy Scheduler Hash Meter Commands Node NodeControl NodeOps NodeStats NodeWorkflow NodeAuth Observatory Transport Work Client Doctor Load Cli.

#[local] Open Scope Z_scope.

(** ** The benchmark *)
Record benchReport := mkbenchReport {
  br_Lane : bytes; br_Messages : Z; br_Groups : Z; br_Workers : Z; br_PublishMs : Z; br_DrainMs : Z; br_TotalMs : Z;
  br_PublishPerSec : float64; br_DrainPerSec : float64; br_EndToEndPerSec : float64; br_Acked : Z;
  br_PublishFailures : Z }.
(** What the clock measured, in nanoseconds. *)
Record benchTimes := mkbenchTimes { bt_publish : Z; bt_drain : Z; bt_total : Z }.
Definition benchReportOf (o : benchOptions) (failures : nat) (acked : Z) (t : benchTimes) : benchReport :=
  mkbenchReport o.(bo_lane) o.(bo_messages) o.(bo_groups) o.(bo_workers)
    (milliseconds t.(bt_publish)) (milliseconds t.(bt_drain)) (milliseconds t.(bt_total))
    (perSecond (f64_of_Z (o.(bo_messages) - Z.of_nat failures)) t.(bt_publish))
    (perSecond (f64_of_Z acked) t.(bt_drain)) (perSecond (f64_of_Z acked) t.(bt_total))
    acked (Z.of_nat failures).
(** Opening a worker's stream: its first frame, or the error it ends with. *)
Definition benchOpen (o : benchOptions) (workerID : Z) (opened sent : result ()) : result WorkClientMsg :=
  match opened, sent with
  | Err e, _ => Err e
  | Ok _, Err e => Err e
  | Ok _, Ok _ =>
      Ok (Msg_LeaseRequest (mkLeaseRequest o.(bo_lane) 1 [] [] (bs "bench-" ++ decimal workerID)))
  end.
(** The drain ends when every worker has. *)
Definition drainBenchMessages (o : benchOptions) (evs : list (nat * benchEvent)) : option (Z * option bytes) :=
  let d := foldl (drainStep o) newDrain evs in
  if Z.of_nat (length d.(dn_over)) =? o.(bo_workers) then Some (drainVerdict o d) else None.

(** ** The soak run *)
Record soakReport := mksoakReport {
  sr_StartedAtMs : Z; sr_DurationMs : Z; sr_DrainMs : Z; sr_Lanes : Z; sr_Groups : Z; sr_Publishers : Z;
  sr_Workers : Z; sr_PublishRate : Z; sr_counts : soakCounters; sr_ChaosRan : bool; sr_ChaosExitCode : Z;
  sr_ChaosOutput : bytes; sr_PublishPerSec : float64; sr_AckPerSec : float64 }.

(** [time.NewTicker(time.Second / rate)]; [None]: it panics on an interval that is
    not positive. *)
Definition tickEvery (rate : Z) : option Z :=
  let d := Z.quot 1000000000 rate in if d <=? 0 then None else Some d.
Definition atLeastOne (rate : Z) : Z := if rate <? 1 then 1 else rate.
Definition publisherInterval (o : soakOptions) : option Z :=
  tickEvery (atLeastOne (Z.quot o.(so_publishRate) o.(so_publishers))).
Definition starterInterval (o : soakOptions) : option Z := tickEvery (atLeastOne o.(so_workflowRate)).

(** The chaos command: how the shell ended, with its output. *)
Inductive shellEnd := Shell_OK (out : bytes) | Shell_Exit (code : Z) (out : bytes) | Shell_Failed (e out : bytes).
Definition runSoakChaos (c : chaosOptions) (doneFirst : bool) (sh : bytes → shellEnd) : bool * Z * bytes :=
  if negb (nonempty c.(ch_command)) || (c.(ch_after) <=? 0) then (false, 0, [])
  else if doneFirst then (false, 0, [])
  else
    match sh c.(ch_command) with
    | Shell_OK out => (true, 0, TrimSpace out)
    | Shell_Exit code out => (true, code, TrimSpace out)
    | Shell_Failed e out => (true, -1, TrimSpace (e ++ chr 10 :: TrimSpace out))
    end.

(** Opening a worker's stream: the counters, and the first frame of a stream that
    opened. *)
Definition soakOpen (o : soakOptions) (workerID : Z) (opened sent : result ()) (c : soakCounters) :
    soakCounters * option WorkClientMsg :=
  match opened, sent with
  | Err _, _ | Ok _, Err _ => (countError c, None)
  | Ok _, Ok _ =>
      (c, Some (Msg_LeaseRequest (mkLeaseRequest (soakLane o workerID) 1 [] [] (bs "soak-" ++ decimal workerID))))
  end.

(** A turn of one of the goroutines: a publisher's tick, the starter's, a round of
    the workflow or activity worker, a frame a worker receives, a stream a worker
    opens. *)
Inductive soakTurn :=
  | Turn_Publish (pubID : Z)
  | Turn_Start
  | Turn_Workflow
  | Turn_Activity
  | Turn_Frame (ev : benchEvent)
  | Turn_Open (workerID : Z) (opened sent : result ()).
(** The shared counters and every publisher's sequence number; the starter's is
    at -1. *)
Record soakState := mksoakState { ss_counts : soakCounters; ss_seq : gmap Z Z }.
Definition starterID : Z := -1.
Definition nextSeq (id : Z) (s : soakState) : Z := default 0 (s.(ss_seq) !! id) + 1.

Section runs.
Context {PC : PayloadCodec} {PE : PolicyEngines} {W : World} {T : Text} {CE : ClientEnv}.

(** [None]: out of fuel, or a worker has not ended. *)
Definition runBench (fuel : nat) (co : clientOptions) (o : benchOptions) (evs : list (nat * benchEvent))
    (t : benchTimes) : NM (option benchReport) :=
  lift (checkBench o);;
  withClients co (λ token,
    r ← publishBenchMessages fuel token o 0 0;
    match r, drainBenchMessages o evs with
    | Some failures, Some (acked, None) => mret (Some (benchReportOf o failures acked t))
    | Some _, Some (_, Some e) => nfail e
    | _, _ => mret None
    end).

Definition soakTurnStep (token : bytes) (o : soakOptions) (t : soakTurn) (s : soakState) : NM soakState :=
  let counted (c : soakCounters) := mksoakState c s.(ss_seq) in
  match t with
  | Turn_Publish pubID =>
      let n := nextSeq pubID s in
      c ← soakPublish token o pubID n s.(ss_counts);
      mret (mksoakState c (<[pubID := n]> s.(ss_seq)))
  | Turn_Start =>
      let n := nextSeq starterID s in
      c ← soakStart token o n s.(ss_counts);
      mret (mksoakState c (<[starterID := n]> s.(ss_seq)))
  | Turn_Workflow => c ← soakWorkflowTurn token o s.(ss_counts); mret (counted c)
  | Turn_Activity => c ← soakActivityTurn token o s.(ss_counts); mret (counted c)
  | Turn_Frame ev => mret (counted (soakStep o s.(ss_counts) ev).1.1)
  | Turn_Open w opened sent => mret (counted (soakOpen o w opened sent s.(ss_counts)).1)
  end.
(** Which goroutines a run has. *)
Definition turnRuns (o : soakOptions) (t : soakTurn) : bool :=
  match t with
  | Turn_Publish pubID => (0 <=? pubID) && (pubID <? o.(so_publishers))
  | Turn_Start | Turn_Workflow | Turn_Activity => o.(so_workflowStorm)
  | Turn_Frame _ => true
  | Turn_Open w _ _ => (0 <=? w) && (w <? o.(so_workers))
  end.
Fixpoint soakTurns (token : bytes) (o : soakOptions) (ts : list soakTurn) (s : soakState) : NM soakState :=
  match ts with
  | [] => mret s
  | t :: ts' =>
      s' ← (if turnRuns o t then soakTurnStep token o t s else mret s);
      soakTurns token o ts' s'
  end.
Definition soakReportOf (o : soakOptions) (c : soakCounters) (startedMs elapsed : Z) (chaos : bool * Z * bytes) :
    soakReport :=
  mksoakReport startedMs (milliseconds o.(so_duration)) (milliseconds o.(so_drain)) o.(so_lanes) o.(so_groups)
    o.(so_publishers) o.(so_workers) o.(so_publishRate) c chaos.1.1 chaos.1.2 chaos.2
    (perSecond (f64_of_Z c.(sc_published)) elapsed) (perSecond (f64_of_Z c.(sc_acked)) elapsed).
(** A goroutine that panics ends the program. *)
Definition tickers (o : soakOptions) : NM () :=
  match publisherInterval o, (if o.(so_workflowStorm) then starterInterval o else Some 1) with
  | Some _, Some _ => mret ()
  | _, _ => ncrash
  end.
Definition runSoak (co : clientOptions) (o : soakOptions) (ch : chaosOptions) (ts : list soakTurn)
    (chaosDoneFirst : bool) (sh : bytes → shellEnd) (startedMs elapsed : Z) : NM soakReport :=
  lift (checkSoak o);;
  withClients co (λ token,
    tickers o;;
    s ← soakTurns token o ts (mksoakState noCounts ∅);
    mret (soakReportOf o s.(ss_counts) startedMs elapsed (runSoakChaos ch chaosDoneFirst sh))).
End runs.

(** * Theorems on runs

    The soak report adds up whatever the goroutines' interleaving, and the
    benchmark's report counts what was acknowledged. *)

(** ** The soak run *)
Definition isPublish (o : soakOptions) (t : soakTurn) : bool :=
  match t with Turn_Publish _ | Turn_Start => turnRuns o t | _ => false end.
Definition produced (c : soakCounters) : Z := c.(sc_published) + c.(sc_workflowStarted).
(** A step's counters: what was attempted is counted once, as done or as an error,
    every lease counted is settled or an error, a workflow task issues at most one
    command. *)
Record accounts (attempts : Z) (c c' : soakCounters) : Prop := {
  acc_done : produced c' - produced c <= attempts;
  acc_all : attempts <= produced c' - produced c + (c'.(sc_errors) - c.(sc_errors));
  acc_settled : settled c' - settled c <= c'.(sc_leased) - c.(sc_leased);
  acc_leased : c'.(sc_leased) - c.(sc_leased) <= settled c' - settled c + (c'.(sc_errors) - c.(sc_errors));
  acc_commands : c'.(sc_workflowCommands) - c.(sc_workflowCommands) <= c'.(sc_workflowTasks) - c.(sc_workflowTasks);
  acc_errors : c.(sc_errors) <= c'.(sc_errors) }.
Ltac accounts_done := constructor; unfold produced, settled; cbn; lia.
Lemma soakAccounts_trans a b c1 c2 c3 : accounts a c1 c2 → accounts b c2 c3 → accounts (a + b) c1 c3.
Proof. intros [] []. constructor; lia. Qed.
Lemma soakCommands_one prefix h : (length (soakCommands prefix h) <= 1)%nat.
Proof. unfold soakCommands. repeat case_match; simpl; lia. Qed.

Section soak.
Context {PC : PayloadCodec} {PE : PolicyEngines} {W : World} {T : Text} {CE : ClientEnv}.
Implicit Types (n : Node).

Lemma soakTurn_accounts token o t s n s' n' : turnRuns o t = true →
  soakTurnStep token o t s n = Some (Ok s', n') →
  accounts (if isPublish o t then 1 else 0) s.(ss_counts) s'.(ss_counts).
Proof.
  intros Hr. destruct t as [pub| | | |ev|w opened sent]; cbn [isPublish soakTurnStep]; rewrite ?Hr.
  1-4: unfold soakPublish, soakStart, soakWorkflowTurn, soakActivityTurn, attempt; unfold mbind, NM_bind;
    destruct (rpc _ _ _) as [[[res|e] n1]|]; [|by intros [= <- _]; accounts_done|done].
  - intros [= <- _]. accounts_done.
  - intros [= <- _]. accounts_done.
  - destruct res as []; try (intros [= <- _]; accounts_done). destruct task as [task|]; [|intros [= <- _]; accounts_done].
    cbv zeta. pose proof (soakCommands_one o.(so_lanePrefix) task.(pwt_History)) as Hc.
    destruct (rpc _ _ _) as [[[res|e] n2]|]; [| |done]; intros [= <- _]; accounts_done.
  - destruct res as []; try (intros [= <- _]; accounts_done). destruct task as [task|]; [|intros [= <- _]; accounts_done].
    cbv zeta. destruct (rpc _ _ _) as [[[res|e] n2]|]; [| |done]; intros [= <- _]; accounts_done.
  - intros [= <- _]. cbn [ss_counts]. unfold soakStep. destruct (be_recv ev) as [[lr|p l|addr]|e]; cbn [fst]; try accounts_done.
    + destruct (be_sent ev); [destruct (settle _ _ _)|]; accounts_done.
    + destruct (be_ctxDone ev); accounts_done.
  - intros [= <- _]. destruct opened, sent; cbn [soakOpen fst ss_counts]; accounts_done.
Qed.
Definition attempts (o : soakOptions) (ts : list soakTurn) : Z :=
  Z.of_nat (length (filter (λ t, isPublish o t = true) ts)).
(** However the publishers, starters, workers and the workflow loops interleave and
    whatever the server answers: publishes and starts attempted are counted once,
    as done or as errors; every lease counted was settled or is an error; a
    workflow task issued at most one command. *)
Theorem soak_accounts token o ts s n s' n' : soakTurns token o ts s n = Some (Ok s', n') →
  accounts (attempts o ts) s.(ss_counts) s'.(ss_counts).
Proof.
  revert s n. induction ts as [|t ts IH]; intros s n; cbn [soakTurns]; [intros [= <- _]; unfold attempts; accounts_done|].
  unfold mbind, NM_bind. destruct (turnRuns o t) eqn:Hr.
  - destruct (soakTurnStep token o t s n) as [[[s1|e] n1]|] eqn:E; [|done..]. intros H%IH.
    apply soakTurn_accounts in E; [|done]. pose proof (soakAccounts_trans _ _ _ _ _ E H) as Ha. unfold attempts in *.
    rewrite filter_cons. destruct (isPublish o t); case_decide; try done. cbn [length]. by replace (Z.of_nat (S _)) with (1 + Z.of_nat (length (filter (λ t, isPublish o t = true) ts))) by lia.
  - cbn. intros H%IH. unfold attempts in *. rewrite filter_cons. destruct (decide (isPublish o t = true)) as [Hp|]; [|done].
    unfold isPublish in Hp. destruct t; by rewrite ?Hr in Hp.
Qed.

(** ** The benchmark *)
(** A report counts the acks sent: at least one per message, and fewer than one per
    worker more. *)
Theorem bench_report fuel co o evs t n r n' : runBench fuel co o evs t n = Some (Ok (Some r), n') →
  checkBench o = Ok () ∧ dialClients co = Ok () ∧ r.(br_Messages) = o.(bo_messages) ∧
  r.(br_Acked) = Z.of_nat (length (ackIds (foldl (drainStep o) newDrain evs).(dn_sent))) ∧
  o.(bo_messages) <= r.(br_Acked) <= o.(bo_messages) - 1 + o.(bo_workers).
Proof.
  unfold runBench, withClients, lift. unfold mbind, NM_bind. destruct (checkBench o) as [[]|] eqn:Ec; [|done].
  destruct (dialClients co) as [[]|] eqn:Ed; [|done].
  destruct (publishBenchMessages _ _ _ _ _ n) as [[[failures|e] n1]|] eqn:Ep; [|done..]. unfold drainBenchMessages.
  pose proof (drain_bounds o evs Ec) as Hd. cbv zeta in Hd. destruct (_ =? _); [|by destruct failures].
  destruct Hd as (H1 & H2 & H3). unfold drainVerdict in *. destruct failures as [f|]; [|done].
  destruct (match firstError _ with Some _ => _ | None => _ end) as [e|] eqn:Ev; [done|]. intros [= <- _].
  repeat split; try done. by apply H3.
Qed.
End soak.
