(* ===== verification/Render.v ===== *)
(** * What the commands print ([cmd/rota]'s writers)

    The text the operator sees, byte for byte, with [fmt]'s verbs and
    [strconv.Quote].  The JSON documents of [encoding/json] and the table of
    printable characters above U+00FF are parameters. *)

From S2P Require Import Prelude GoStrings Keys Data Store Float GoNumbers Publish Workflow Broker Control Auth Timers Fsm Commands Fairness Meter Policy Scheduler Hash Node NodeControl NodeOps NodeStats NodeWorkflow NodeAuth Observatory Transport Work Client Doctor Load Flags Cli LoadRuns Paths Backup.

Inductive jsonDoc :=
  | J_Leases (ls : list LeaseInfo) | J_Messages (ms : list MessagePeek)
  | J_Principals (enabled : bool) (ps : list AuthPrincipal) | J_Token (p : option AuthPrincipal) (token : bytes)
  | J_Doctor (r : doctorReport) | J_Bench (r : benchReport) | J_Soak (r : soakReport)
  | J_Validation (r : backupValidationReport).
Class TextEnv := {
  encode_json : jsonDoc → bytes;
  (** [unicode]'s printable characters from U+0100 on *)
  IsPrint_table : N → bool;
}.

(** ** Lines *)
Definition newline : ascii := chr 10.
Definition line (x : bytes) : bytes := x ++ [newline].
(** [key=value] words *)
Definition kv (key : String.string) (value : bytes) : bytes := bs key ++ "="%char :: value.
Definition spaced (ws : list bytes) : bytes := joinOn " "%char ws.
Definition n2 (n : nat) : bytes := utoa (N.of_nat n).

(** ** [strconv.Quote] *)
Definition hexWide (w : nat) (n : N) : bytes := padLeft w "0"%char (formatUint 16 n).
Definition backslash : ascii := chr 92.
Definition dquote : ascii := chr 34.
(** The letter of a control character's escape. *)
Definition controlEscape (r : N) : option ascii :=
  if r =? 7 then Some "a"%char else if r =? 8 then Some "b"%char else if r =? 9 then Some "t"%char
  else if r =? 10 then Some "n"%char else if r =? 11 then Some "v"%char else if r =? 12 then Some "f"%char
  else if r =? 13 then Some "r"%char else None.

Section render.
Context {TE : TextEnv}.
Definition IsPrint (r : N) : bool :=
  if r <=? 255 then ((32 <=? r) && (r <? 127)) || ((161 <=? r) && negb (r =? 173)) else IsPrint_table r.
(** [raw]: the bytes of the character. *)
Definition quotedRune (r : N) (raw : bytes) : bytes :=
  if (r =? 34) || (r =? 92) then backslash :: raw
  else if IsPrint r then raw
  else
    match controlEscape r with
    | Some c => [backslash; c]
    | None =>
        if (r <? 32) || (r =? 127) then backslash :: "x"%char :: hexWide 2 r
        else if r <? 65536 then backslash :: "u"%char :: hexWide 4 r
        else backslash :: "U"%char :: hexWide 8 r
    end.
Fixpoint quotedBody (fuel : nat) (x : bytes) : bytes :=
  match fuel, x with
  | S fuel', a :: x' =>
      match decodeRune x with
      | Some (r, w) => quotedRune r (take w x) ++ quotedBody fuel' (drop w x)
      | None => (backslash :: "x"%char :: hexWide 2 (N_of_ascii a)) ++ quotedBody fuel' x'
      end
  | _, _ => []
  end.
(** [%q]: a character has at least one byte. *)
Definition Quote (x : bytes) : bytes := dquote :: quotedBody (length x) x ++ [dquote].

(** ** Operator commands *)
Definition MessageState_name (s : MessageState) : bytes :=
  match s with
  | MESSAGE_STATE_UNSPECIFIED => bs "MESSAGE_STATE_UNSPECIFIED"
  | READY => bs "READY" | DELAYED => bs "DELAYED" | LEASED => bs "LEASED" | DEAD => bs "DEAD" | DONE => bs "DONE"
  end.
Definition leaseLine (nowMs : N) (l : LeaseInfo) : bytes :=
  let remaining := wrap_i64 (int_of_u64 l.(li_DeadlineMs) - int_of_u64 nowMs) in
  line (spaced [kv "lease" (utoa l.(li_LeaseId)); kv "lane" l.(li_Lane); kv "group" l.(li_GroupId);
                kv "msg" (utoa l.(li_MsgId)); kv "consumer" l.(li_ConsumerId); kv "attempt" (utoa l.(li_Attempt));
                kv "deadline_ms" (utoa l.(li_DeadlineMs)); kv "remaining_ms" (itoa remaining)]).
Definition writeLeases (nowMs : N) (ls : list LeaseInfo) (json : bool) : bytes :=
  if json then encode_json (J_Leases ls)
  else match ls with [] => line (bs "leases: none") | _ => ls ≫= leaseLine nowMs end.
Definition messageLine (m : MessagePeek) : bytes :=
  line (spaced [kv "msg" (utoa m.(mp_MsgId)); kv "state" (MessageState_name m.(mp_State));
                kv "attempt" (utoa m.(mp_Attempt)); kv "enqueue_ms" (utoa m.(mp_EnqueueMs));
                kv "not_before_ms" (utoa m.(mp_NotBeforeMs))]).
Definition writeMessages (ms : list MessagePeek) (json : bool) : bytes :=
  if json then encode_json (J_Messages ms)
  else match ms with [] => line (bs "messages: none") | _ => ms ≫= messageLine end.
Definition grantLine (i : nat) (g : AuthGrant) : bytes :=
  line (bs "  [" ++ n2 i ++ bs "] lane=" ++ Quote g.(ag_LanePattern) ++ bs " group=" ++ Quote g.(ag_GroupPattern) ++
        bs " actions=" ++ actionNames g.(ag_Actions) ++
        (if nonempty g.(ag_Note) then bs " note=" ++ Quote g.(ag_Note) else [])).
Definition principalText (p : AuthPrincipal) : bytes :=
  let tokenID := match p.(ap_Token) with Some t => t.(at_TokenId) | None => [] end in
  newline :: line (spaced [p.(ap_Name); kv "disabled" (btoa p.(ap_Disabled)); kv "tags" (joinOn ","%char p.(ap_Tags));
                           kv "token_id" tokenID]) ++
  concat (imap grantLine p.(ap_Grants)).
Definition writeAuthList (enabled : bool) (ps : list AuthPrincipal) (json : bool) : bytes :=
  if json then encode_json (J_Principals enabled ps)
  else line (spaced [bs "auth"; kv "enabled" (btoa enabled); kv "principals" (n2 (length ps))]) ++ (ps ≫= principalText).
Definition writeAuthCreate (p : option AuthPrincipal) (token : bytes) (json : bool) : bytes :=
  if json then encode_json (J_Token p token)
  else line (spaced [kv "principal" (match p with Some p => p.(ap_Name) | None => [] end); kv "token" token]) ++
       line (bs "store this token now; it is not shown again").
Definition printOut (nowMs : N) (out : CliOut) : bytes :=
  match out with
  | Out_DeadLetterNotFound lane group msgID =>
      line (bs "dead letter not found " ++ spaced [kv "lane" lane; kv "group" group; kv "msg" (utoa msgID)])
  | Out_Redriven lane group oldID newID =>
      line (spaced [bs "redriven"; kv "lane" lane; kv "group" group; kv "old_msg" (utoa oldID); kv "new_msg" (utoa newID)])
  | Out_LanePaused lane dur => line (spaced [bs "paused"; kv "lane" lane; kv "duration" (durationString dur)])
  | Out_LaneResumed lane => line (spaced [bs "resumed"; kv "lane" lane])
  | Out_LaneConfigured lane rate burst paused =>
      line (spaced [bs "configured"; kv "lane" lane; kv "rate" (ftoa 2 rate); kv "burst" (utoa burst);
                    kv "paused" (btoa paused)])
  | Out_Group verb lane group affected =>
      line (spaced ([verb; bs "group"; kv "lane" lane; kv "group" group] ++
                    match affected with Some a => [kv "affected" (utoa a)] | None => [] end))
  | Out_WorkflowCanceled runID canceled =>
      line (spaced [bs "workflow"; kv "run" (utoa runID); kv "canceled" (btoa canceled)])
  | Out_Leases ls json => writeLeases nowMs ls json
  | Out_ForceExpired leaseID delay =>
      line (spaced [bs "force-expired"; kv "lease" (utoa leaseID); kv "delay" (durationString delay)])
  | Out_Messages ms json => writeMessages ms json
  | Out_Principals enabled ps json => writeAuthList enabled ps json
  | Out_PrincipalToken p token json => writeAuthCreate p token json
  | Out_PrincipalState name disabled =>
      line (spaced [bs "principal"; name; if disabled then bs "disabled" else bs "enabled"])
  | Out_GrantAdded name => line (spaced [bs "grant"; bs "added"; kv "principal" name])
  | Out_GrantRevoked name index =>
      line (spaced [bs "grant"; bs "revoked"; kv "principal" name; kv "index" (utoa index)])
  end.

(** ** The health report *)
Definition emptyDash (x : bytes) : bytes := if nonempty x then x else bs "-".
Definition doctorLaneText (l : doctorLane) : bytes :=
  line (bs "  " ++ spaced [l.(dla_Lane); kv "ready" (utoa l.(dla_Leasable)); kv "delayed" (utoa l.(dla_Delayed));
        kv "inflight" (utoa l.(dla_Inflight)); kv "dlq" (utoa l.(dla_DLQDepth)); kv "groups" (utoa l.(dla_GroupCount));
        kv "leases" (n2 l.(dla_LeaseCount)); kv "pub/s" (ftoa 2 l.(dla_PublishRate));
        kv "lease/s" (ftoa 2 l.(dla_LeaseRate))]) ++
  (if (0 <? l.(dla_PausedGroups))%nat || (0 <? l.(dla_ExpiredLeases))%nat || (0 <? l.(dla_NearDeadlineLeases))%nat
   then line (bs "    " ++ spaced [kv "paused_groups" (n2 l.(dla_PausedGroups)); kv "expired_leases" (n2 l.(dla_ExpiredLeases));
               kv "near_deadline_leases" (n2 l.(dla_NearDeadlineLeases))])
   else []).
Definition findingText (f : doctorFinding) : bytes :=
  line (bs "  " ++ spaced
    (["["%char :: f.(df_Severity) ++ bs "]"; f.(df_Code) ++ bs ":"; f.(df_Summary)] ++
     (if nonempty f.(df_Lane) then [kv "lane" f.(df_Lane)] else []) ++
     (if nonempty f.(df_GroupID) then [kv "group" f.(df_GroupID)] else []) ++
     (if f.(df_MsgID) =? 0 then [] else [kv "msg" (utoa f.(df_MsgID))]) ++
     (if f.(df_LeaseID) =? 0 then [] else [kv "lease" (utoa f.(df_LeaseID))]) ++
     (if f.(df_RunID) =? 0 then [] else [kv "run" (utoa f.(df_RunID))]))).
Definition writeDoctorReport (r : doctorReport) (json : bool) : bytes :=
  if json then encode_json (J_Doctor r)
  else
    let c := r.(dr_Cluster) in
    line (bs "Rota Doctor: " ++ r.(dr_Status)) ++
    line (spaced [bs "Cluster:"; kv "serving" (btoa c.(dc_Serving)); kv "quorum" (btoa c.(dc_HasQuorum));
                  kv "leader" (btoa c.(dc_IsLeader)); kv "leader_id" (emptyDash c.(dc_LeaderID));
                  kv "leader_addr" (emptyDash c.(dc_LeaderAddr)); kv "term" (utoa c.(dc_Term));
                  kv "applied" (utoa c.(dc_AppliedIndex)); kv "peers" (n2 c.(dc_PeerCount))]) ++
    line (spaced [bs "Workflows:"; kv "running" (n2 r.(dr_Workflows).(dw_Running));
                  kv "task_pending" (n2 r.(dr_Workflows).(dw_TaskPending));
                  kv "possibly_stuck" (n2 r.(dr_Workflows).(dw_PossiblyStuck))]) ++
    match r.(dr_Lanes) with
    | [] => line (bs "Lanes: none")
    | ls => line (bs "Lanes:") ++ (ls ≫= doctorLaneText)
    end ++
    match r.(dr_Findings) with
    | [] => line (bs "Findings: none")
    | fs => line (bs "Findings:") ++ (fs ≫= findingText)
    end.
(** What a command's run writes to standard output. *)
Definition printText (nowMs : N) (p : Printout) : bytes :=
  match p with
  | Print_None => []
  | Print_Out out => printOut nowMs out
  | Print_Doctor report json _ => writeDoctorReport report json
  end.

(** ** Load generators and backups *)
Definition writeBenchReport (r : benchReport) (json : bool) : bytes :=
  if json then encode_json (J_Bench r)
  else
    line (spaced [bs "Rota bench"; kv "lane" r.(br_Lane); kv "messages" (itoa r.(br_Messages));
                  kv "groups" (itoa r.(br_Groups)); kv "workers" (itoa r.(br_Workers))]) ++
    line (bs "publish: " ++ itoa r.(br_PublishMs) ++ bs "ms " ++ ftoa 1 r.(br_PublishPerSec) ++ bs " msg/s " ++
          kv "failures" (itoa r.(br_PublishFailures))) ++
    line (bs "drain:   " ++ itoa r.(br_DrainMs) ++ bs "ms " ++ ftoa 1 r.(br_DrainPerSec) ++ bs " msg/s " ++
          kv "acked" (itoa r.(br_Acked))) ++
    line (bs "total:   " ++ itoa r.(br_TotalMs) ++ bs "ms " ++ ftoa 1 r.(br_EndToEndPerSec) ++ bs " msg/s").
Definition writeSoakReport (r : soakReport) (json : bool) : bytes :=
  if json then encode_json (J_Soak r)
  else
    let c := r.(sr_counts) in
    line (spaced [bs "Rota soak"; kv "duration" (durationString (wrap_i64 (r.(sr_DurationMs) * 1000000)));
                  kv "lanes" (itoa r.(sr_Lanes)); kv "groups" (itoa r.(sr_Groups));
                  kv "publishers" (itoa r.(sr_Publishers)); kv "workers" (itoa r.(sr_Workers))]) ++
    line (bs "publish: " ++ spaced [itoa c.(sc_published); ftoa 1 r.(sr_PublishPerSec); bs "msg/s";
                                    kv "errors" (itoa c.(sc_errors))]) ++
    line (bs "work:    " ++ spaced [kv "leased" (itoa c.(sc_leased)); kv "acked" (itoa c.(sc_acked));
            kv "retried" (itoa c.(sc_retried)); kv "dead_lettered" (itoa c.(sc_deadLettered));
            ftoa 1 r.(sr_AckPerSec); bs "ack/s"]) ++
    (if (0 <? c.(sc_workflowStarted))%Z || (0 <? c.(sc_workflowTasks))%Z || (0 <? c.(sc_activityTasks))%Z
     then line (spaced [bs "workflow:"; kv "started" (itoa c.(sc_workflowStarted)); kv "tasks" (itoa c.(sc_workflowTasks));
                        kv "activities" (itoa c.(sc_activityTasks)); kv "commands" (itoa c.(sc_workflowCommands))])
     else []) ++
    (if r.(sr_ChaosRan)
     then line (spaced [bs "chaos:"; kv "exit" (itoa r.(sr_ChaosExitCode)); kv "output" (Quote r.(sr_ChaosOutput))])
     else []).
Definition writeBackupValidationReport (r : backupValidationReport) (json : bool) : bytes :=
  if json then encode_json (J_Validation r)
  else
    line (spaced [bs "backup validation"; kv "ok" (btoa r.(bv_OK)); kv "archive" r.(bv_Archive);
                  kv "restore_dir" r.(bv_RestoreDir)]) ++
    line (spaced [kv "files" (n2 r.(bv_Files)); kv "applied_index" (utoa r.(bv_AppliedIndex))]) ++
    line (spaced [bs "keys:"; kv "messages" (n2 r.(bv_Messages)); kv "groups" (n2 r.(bv_Groups));
                  kv "leases" (n2 r.(bv_Leases)); kv "dlq" (n2 r.(bv_DeadLetters)); kv "timers" (n2 r.(bv_Timers));
                  kv "workflows" (n2 r.(bv_WorkflowRuns)); kv "auth_principals" (n2 r.(bv_AuthPrincipals))]).
End render.

(** Quoting at work. *)
#[local] Instance plain_text : TextEnv := {| encode_json _ := []; IsPrint_table _ := true |}.
Example Quote_control : Quote (bs "a" ++ [chr 10; chr 255; dquote; chr 195; chr 169; chr 1]) =
  dquote :: bs "a\n\xff\" ++ [dquote; chr 195; chr 169] ++ bs "\x01" ++ [dquote].
Proof. reflexivity. Qed.
