(* ===== verification/Viz.v ===== *)
(** * The terminal visualiser ([cmd/rotaviz])

    A program around an in-process node: a publisher keeps three weighted groups
    topped up, a consumer leases and acknowledges, a cycler switches the lane's
    policy, and a renderer prints the counts.  The goroutines share a mutex-guarded
    record; each one's turn here is what it does under the mutex, or one call of the
    node.  Text is bytes (UTF-8, as in the source). *)

From S2P Require Import Prelude GoStrings Keys Data Store Publish Workflow Broker Control Auth Timers Fsm Fairness Float GoNumbers Flags Policy Scheduler Meter Commands Node NodeControl NodeOps TransportProps.

#[local] Open Scope Z_scope.

(** ** Constants *)
Definition vizLane : bytes := bs "tenants".
Definition target : Z := 200.
Definition feedLen : nat := 56.
(** nanoseconds *)
Definition policyEvery : Z := 8000000000.

Record grp := mkgrp { g_id : bytes; g_weight : float64; g_color : bytes }.
Definition vizGroups : list grp :=
  [mkgrp (bs "A") (f64_of_Z 1) (bs "32"); mkgrp (bs "B") (f64_of_Z 2) (bs "36"); mkgrp (bs "C") (f64_of_Z 4) (bs "33")].
Record policyStep := mkpolicyStep { ps_name : bytes; ps_bind : Binding; ps_note : bytes }.
Definition kindOnly (kind src : bytes) : Binding := mkBinding kind src 0 [] .
Definition firstPolicy : policyStep :=
  mkpolicyStep (bs "Weighted Fair (WFQ)") (kindOnly KindWFQ []) (bs "service ∝ weight (1:2:4), nobody starves").
Definition vizPolicies : list policyStep :=
  [firstPolicy;
   mkpolicyStep (bs "Strict Priority") (kindOnly KindStrictPriority []) (bs "highest weight wins → A and B starve");
   mkpolicyStep (bs "Lottery") (kindOnly KindLottery []) (bs "weighted-random pick each turn");
   mkpolicyStep (bs "Shortest Queue (CEL: -backlog)") (kindOnly KindCEL (bs "-backlog"))
     (bs "custom policy ignores weight, equalizes queues")].

(** ** The shared record *)
Record vizState := mkvizState {
  vs_published : gmap bytes Z;
  vs_servedAll : gmap bytes Z;
  vs_servedWin : gmap bytes Z;
  vs_feed : list bytes;
  vs_total : Z;
  vs_polIdx : nat;
  vs_useColor : bool }.
Definition newVizState (isTTY : bool) : vizState := mkvizState ∅ ∅ ∅ [] 0 0 isTTY.
(** A missing key reads as zero. *)
Definition countOf (m : gmap bytes Z) (k : bytes) : Z := default 0 (m !! k).
Definition bumpCount (k : bytes) (m : gmap bytes Z) : gmap bytes Z := <[k := countOf m k + 1]> m.
Definition vizBacklog (st : vizState) (id : bytes) : Z := countOf st.(vs_published) id - countOf st.(vs_servedAll) id.

(** The group furthest below its target; [-1] and no name when all are above. *)
Definition furthest (st : vizState) : Z * bytes :=
  foldl (λ acc g,
    let deficit := target - vizBacklog st g.(g_id) in
    if acc.1 <? deficit then (deficit, g.(g_id)) else acc) (-1, []) vizGroups.
Definition refill (st : vizState) : vizState * option bytes :=
  let '(worst, pick) := furthest st in
  if 0 <? worst then
    (mkvizState (bumpCount pick st.(vs_published)) st.(vs_servedAll) st.(vs_servedWin) st.(vs_feed) st.(vs_total)
       st.(vs_polIdx) st.(vs_useColor), Some pick)
  else (st, None).
Definition lastOf (k : nat) (l : list bytes) : list bytes := if (k <? length l)%nat then drop (length l - k) l else l.
Definition countServed (id : bytes) (st : vizState) : vizState :=
  mkvizState st.(vs_published) (bumpCount id st.(vs_servedAll)) (bumpCount id st.(vs_servedWin))
    (lastOf feedLen (st.(vs_feed) ++ [id])) (st.(vs_total) + 1) st.(vs_polIdx) st.(vs_useColor).
(** A fresh window per policy. *)
Definition nextPolicy (st : vizState) : vizState :=
  mkvizState st.(vs_published) st.(vs_servedAll) ∅ st.(vs_feed) st.(vs_total)
    ((st.(vs_polIdx) + 1) mod length vizPolicies)%nat st.(vs_useColor).
Definition policyAt (i : nat) : policyStep := default firstPolicy (vizPolicies !! i).

(** ** The goroutines *)
(** The record, and where each goroutine is: a message counted and not yet
    published, a message served and not yet counted, a policy chosen and not yet
    set. *)
Record viz := mkviz { vz_st : vizState; vz_pick : option bytes; vz_served : option bytes; vz_policy : option nat }.
Inductive vizTurn := VT_Pick | VT_Publish | VT_Lease | VT_Count | VT_Switch | VT_Set.

Section viz.
Context {PC : PayloadCodec} {PE : PolicyEngines} {W : World}.

(** Before the goroutines start; errors are dropped. *)
Fixpoint setWeights (gs : list grp) : NM () :=
  match gs with
  | [] => mret ()
  | g :: gs' => attempt (SetGroupConfig vizLane g.(g_id) (Some g.(g_weight)) None);; setWeights gs'
  end.
Definition vizSetup : NM () :=
  setWeights vizGroups;;
  attempt (node_SetPolicy vizLane firstPolicy.(ps_bind));;
  mret ().
Definition vizRequest (pick : bytes) : PublishReq :=
  mkPublishReq vizLane pick (bs "x") ∅ None None 0 0 0 false [] [].
Definition vizStep (t : vizTurn) (v : viz) : NM viz :=
  match t, v.(vz_pick), v.(vz_served), v.(vz_policy) with
  | VT_Pick, None, _, _ =>
      let '(st, pick) := refill v.(vz_st) in mret (mkviz st pick v.(vz_served) v.(vz_policy))
  | VT_Publish, Some pick, _, _ =>
      attempt (Publish (vizRequest pick));; mret (mkviz v.(vz_st) None v.(vz_served) v.(vz_policy))
  | VT_Lease, _, None, _ =>
      r ← attempt (LeaseOne vizLane (bs "viz"));
      match r with
      | Ok (Some lr) =>
          attempt (node_Ack lr.(lr_LeaseID));;
          mret (mkviz v.(vz_st) v.(vz_pick) (Some lr.(lr_GroupID)) v.(vz_policy))
      | _ => mret v
      end
  | VT_Count, _, Some id, _ => mret (mkviz (countServed id v.(vz_st)) v.(vz_pick) None v.(vz_policy))
  | VT_Switch, _, _, None =>
      let st := nextPolicy v.(vz_st) in mret (mkviz st v.(vz_pick) v.(vz_served) (Some st.(vs_polIdx)))
  | VT_Set, _, _, Some idx =>
      attempt (node_SetPolicy vizLane (policyAt idx).(ps_bind));;
      mret (mkviz v.(vz_st) v.(vz_pick) v.(vz_served) None)
  (* that goroutine is elsewhere *)
  | _, _, _, _ => mret v
  end.
Fixpoint vizSteps (ts : list vizTurn) (v : viz) : NM viz :=
  match ts with
  | [] => mret v
  | t :: ts' => v' ← vizStep t v; vizSteps ts' v'
  end.
Definition vizRun (isTTY : bool) (ts : list vizTurn) : NM viz :=
  vizSetup;; vizSteps ts (mkviz (newVizState isTTY) None None None).
End viz.

(** ** When it stops *)
(** [--seconds]; nanoseconds until the run is stopped, [None]: at a signal. *)
Definition vizSeconds (args : list bytes) : result Z :=
  match parseFlags [(bs "seconds", FV_Int 0)] args with Ok fs => Ok (intFlag fs (bs "seconds")) | Err e => Err e end.
Definition stopAfter (isTTY : bool) (seconds : Z) : option Z :=
  if 0 <? seconds then Some (wrap_i64 (seconds * 1000000000))
  else if negb isTTY && (seconds =? 0) then Some 36000000000
  else None.

(** ** Rendering *)
(** [strings.Repeat]; [None]: it panics. *)
Definition Repeat (x : bytes) (n : Z) : option bytes :=
  if n <? 0 then None else Some (mjoin (replicate (Z.to_nat n) x)).
Definition escape (code : bytes) : bytes := chr 27 :: "["%char :: code.
Definition col (st : vizState) (code s : bytes) : bytes :=
  if st.(vs_useColor) then escape code ++ bs "m" ++ s ++ escape (bs "0m") else s.
Definition bar (n width : Z) : option bytes :=
  let n := if n <? 0 then 0 else n in
  let n := if width <? n then width else n in
  full ← Repeat (bs "█") n;
  rest ← Repeat (bs "░") (width - n);
  Some (full ++ rest).
Definition clrEOL (st : vizState) : bytes := if st.(vs_useColor) then escape (bs "K") else [].
Definition colorOf (id : bytes) : bytes :=
  default [] (list_to_map (M := gmap bytes bytes) ((λ g, (g.(g_id), g.(g_color))) <$> vizGroups) !! id).
Definition feedStr (st : vizState) : bytes :=
  mjoin (replicate (feedLen - length st.(vs_feed)) (bs " ")) ++
  mjoin ((λ id, col st (colorOf id) id) <$> st.(vs_feed)).

(** The rate shown: a moving average of the total over the clock (nanoseconds). *)
Record vizMeter := mkvizMeter { vm_lastTotal : Z; vm_lastTime : Z; vm_rateEWMA : float64; vm_startTime : Z }.
Definition newVizMeter (now : Z) : vizMeter := mkvizMeter 0 now f64_zero now.
(** [Duration.Seconds] *)
Definition Seconds (d : Z) : float64 :=
  f64_add (f64_of_Z (Z.quot d 1000000000)) (f64_div (f64_of_Z (Z.rem d 1000000000)) (f64_of_Z 1000000000)).
Definition sampleRate (now total : Z) (m : vizMeter) : vizMeter :=
  let dt := Seconds (now - m.(vm_lastTime)) in
  if f64_gtb dt (f64_dec false 2 (-1)) then
    let inst := f64_div (f64_of_Z (total - m.(vm_lastTotal))) dt in
    mkvizMeter total now
      (if f64_eqb m.(vm_rateEWMA) f64_zero then inst
       else f64_add (f64_mul (f64_dec false 6 (-1)) m.(vm_rateEWMA)) (f64_mul (f64_dec false 4 (-1)) inst))
      m.(vm_startTime)
  else m.
Definition maxWin (st : vizState) : Z :=
  foldl (λ acc g, Z.max acc (countOf st.(vs_servedWin) g.(g_id))) 1 vizGroups.
Definition vizLine (st : vizState) (s : bytes) : bytes := s ++ clrEOL st ++ [chr 10].
Definition groupLine (st : vizState) (g : grp) : option bytes :=
  let bl := vizBacklog st g.(g_id) in
  let win := countOf st.(vs_servedWin) g.(g_id) in
  let name := col st g.(g_color) (g.(g_id) ++ bs " w" ++ utoa (trunc_f64 g.(g_weight))) in
  blBar ← bar (Z.quot (bl * 18) target) 18;
  winBar ← bar (Z.quot (win * 26) (maxWin st)) 26;
  Some (vizLine st (bs "  " ++ padRight 14 " "%char name ++ bs " " ++ col st g.(g_color) blBar ++ bs " " ++
    padLeft 4 " "%char (itoa bl) ++ bs "   " ++ col st g.(g_color) winBar ++ bs " " ++ padLeft 5 " "%char (itoa win))).
Definition render (st : vizState) (now : Z) (m : vizMeter) : option (bytes * vizMeter) :=
  let m := sampleRate now st.(vs_total) m in
  let pol := policyAt st.(vs_polIdx) in
  let line := vizLine st in
  rule ← Repeat (bs "─") 64;
  rows ← mapM (groupLine st) vizGroups;
  Some (line [] ++
    line (bs "  " ++ col st (bs "1") (bs "ROTA") ++ col st (bs "2") (bs " · live fair-scheduling demo")) ++
    line (bs "  " ++ rule) ++
    line (bs "  policy: " ++ col st (bs "1;35") pol.(ps_name)) ++
    line (bs "  " ++ col st (bs "2") (bs "        " ++ pol.(ps_note))) ++
    line (bs "  " ++ col st (bs "2") (bs "        auto-switches every " ++ utoa (trunc_f64 (Seconds policyEvery)) ++
      bs "s · elapsed " ++ utoa (trunc_f64 (Seconds (now - m.(vm_startTime)))) ++ bs "s")) ++
    line [] ++
    line (col st (bs "2") (bs "  group        backlog (queued)              served this policy")) ++
    mjoin rows ++
    line [] ++
    line (bs "  recent: " ++ feedStr st) ++
    line [] ++
    line (col st (bs "2") (bs "  throughput ~" ++ padLeft 3 " "%char (ftoa 0 m.(vm_rateEWMA)) ++
      bs " msg/s · total served " ++ itoa st.(vs_total))) ++
    line (col st (bs "2") (bs "  Ctrl-C to quit")) ++
    line [], m).
(** What is printed: a frame for every tick, the clock and the record as they then
    are. *)
Fixpoint frames (wrap : bytes → option bytes) (ticks : list (Z * vizState)) (m : vizMeter) : option bytes :=
  match ticks with
  | [] => Some []
  | (now, st) :: ticks' =>
      '(frame, m') ← render st now m;
      out ← wrap frame;
      rest ← frames wrap ticks' m';
      Some (out ++ rest)
  end.
Definition runTTY (ticks : list (Z * vizState)) (m : vizMeter) : option bytes :=
  out ← frames (λ frame, Some (escape (bs "H") ++ frame ++ escape (bs "0J"))) ticks m;
  Some (escape (bs "?25l") ++ escape (bs "2J") ++ out ++ escape (bs "?25h") ++ escape (bs "0m") ++ [chr 10]).
Definition runPlain (ticks : list (Z * vizState)) (m : vizMeter) : option bytes :=
  frames (λ frame, rule ← Repeat (bs "=") 66; Some (frame ++ [chr 10] ++ rule ++ [chr 10])) ticks m.

(** * Theorems

    However its goroutines interleave and whatever the node answers: no group's
    backlog is shown above its target, the totals add up, and rendering never
    panics. *)

Definition sumOf (m : gmap bytes Z) : Z := map_fold (λ _ x acc, x + acc) 0 m.
Lemma sumOf_insert k x m : m !! k = None → sumOf (<[k := x]> m) = x + sumOf m.
Proof. intros Hk. unfold sumOf. apply map_fold_insert_L; [intros; lia|done]. Qed.
Lemma sumOf_delete k m : sumOf m = countOf m k + sumOf (delete k m).
Proof.
  unfold countOf. destruct (m !! k) as [x|] eqn:E; simpl.
  - rewrite <-(insert_delete_id m k x E) at 1. by apply sumOf_insert, lookup_delete_eq.
  - by rewrite delete_id.
Qed.
Lemma sumOf_bump k m : sumOf (bumpCount k m) = sumOf m + 1.
Proof.
  unfold bumpCount. rewrite (sumOf_delete k m), <-insert_delete_eq.
  rewrite sumOf_insert by apply lookup_delete_eq. lia.
Qed.
Lemma countOf_bump k m j : countOf (bumpCount k m) j = countOf m j + (if bool_decide (k = j) then 1 else 0).
Proof.
  unfold countOf at 1, bumpCount. case_bool_decide as E.
  - subst. by rewrite lookup_insert_eq.
  - rewrite lookup_insert_ne by done. fold (countOf m j). lia.
Qed.

(** ** The record *)
Record vizOk (st : vizState) : Prop := {
  ok_backlog : ∀ id, vizBacklog st id <= target;
  ok_win : ∀ id, 0 <= countOf st.(vs_servedWin) id <= countOf st.(vs_servedAll) id;
  ok_total : st.(vs_total) = sumOf st.(vs_servedAll);
  ok_feed : Z.of_nat (length st.(vs_feed)) = Z.min st.(vs_total) (Z.of_nat feedLen);
  ok_policy : (st.(vs_polIdx) < length vizPolicies)%nat }.
Lemma newVizState_ok isTTY : vizOk (newVizState isTTY).
Proof. constructor; try done. simpl. lia. Qed.
(** The pick is below its target by what was found. *)
Lemma furthest_pick st w p : furthest st = (w, p) → 0 < w → vizBacklog st p = target - w.
Proof.
  unfold furthest, vizGroups. cbn [foldl g_id fst]. intros E Hw.
  repeat match type of E with context [?a <? ?b] => destruct (Z.ltb_spec a b) end;
    cbn [fst] in *; injection E as <- <-; lia.
Qed.
Lemma refill_ok st : vizOk st → vizOk (refill st).1.
Proof.
  intros []. unfold refill. destruct (furthest st) as [w p] eqn:E. destruct (Z.ltb_spec 0 w); [|done].
  pose proof (furthest_pick _ _ _ E ltac:(done)) as Hp. constructor; try done.
  intros id. pose proof (ok_backlog0 id). unfold vizBacklog in *. cbn -[countOf]. rewrite countOf_bump. case_bool_decide; [subst|]; lia.
Qed.
Lemma lastOf_length k l : length (lastOf k l) = Nat.min (length l) k.
Proof. unfold lastOf. destruct (Nat.ltb_spec k (length l)); [rewrite length_drop|]; lia. Qed.
Lemma countServed_ok id st : vizOk st → vizOk (countServed id st).
Proof.
  intros []. constructor; unfold vizBacklog; cbn -[countOf feedLen sumOf]; try done.
  - intros j. pose proof (ok_backlog0 j). unfold vizBacklog in *. rewrite countOf_bump. case_bool_decide; lia.
  - intros j. pose proof (ok_win0 j). rewrite !countOf_bump. case_bool_decide; lia.
  - rewrite sumOf_bump. lia.
  - rewrite lastOf_length, length_app, Nat2Z.inj_min. change (length [id]) with 1%nat. unfold feedLen in *. lia.
Qed.
Lemma nextPolicy_ok st : vizOk st → vizOk (nextPolicy st).
Proof.
  intros []. constructor; try done.
  - intros id. specialize (ok_win0 id). change (countOf (vs_servedWin (nextPolicy st)) id) with 0. change (vs_servedAll (nextPolicy st)) with (vs_servedAll st). lia.
  - by apply Nat.mod_upper_bound.
Qed.

Section viz.
Context {PC : PayloadCodec} {PE : PolicyEngines} {W : World}.

Lemma attempt_then {A B} (m : NM A) (k : result A → NM B) n r n' :
  (attempt m ≫= k) n = Some (Ok r, n') → ∃ x n1, k x n1 = Some (Ok r, n').
Proof. intros (x & n1 & _ & E)%nbind_inv. eauto. Qed.
Lemma vizStep_ok t v n v' n' : vizOk v.(vz_st) → vizStep t v n = Some (Ok v', n') → vizOk v'.(vz_st).
Proof.
  intros H. unfold vizStep. pose proof (refill_ok _ H) as Hr.
  destruct t, v.(vz_pick), v.(vz_served), v.(vz_policy); try (destruct (refill _) as [? ?]); try (by intros [= <- _]);
    try (intros [= <- _]; cbn [vz_st]; by auto using countServed_ok, nextPolicy_ok);
    try (intros (? & ? & [= <- _])%attempt_then; done).
  all: intros ([[lr|]|] & n1 & E)%attempt_then; [|by injection E as <- _..].
  all: by apply attempt_then in E as (? & ? & [= <- _]).
Qed.
Lemma vizSteps_ok ts v n v' n' : vizOk v.(vz_st) → vizSteps ts v n = Some (Ok v', n') → vizOk v'.(vz_st).
Proof.
  revert v n. induction ts as [|t ts IH]; intros v n H; [by intros [= <- _]|].
  intros (v1 & n1 & E & Er)%nbind_inv. by eauto using vizStep_ok.
Qed.

(** Whatever the interleaving of publisher, consumer and cycler, and whatever the
    node answers: no group's backlog, as counted, passes its target; what was served
    under the current policy is at most what was served at all; the total is the sum
    over the groups; and the feed holds the last [feedLen] served, or all of them. *)
Theorem viz_counts isTTY ts n v n' : vizRun isTTY ts n = Some (Ok v, n') →
  (∀ id, vizBacklog v.(vz_st) id <= target) ∧
  (∀ id, 0 <= countOf v.(vz_st).(vs_servedWin) id <= countOf v.(vz_st).(vs_servedAll) id) ∧
  v.(vz_st).(vs_total) = sumOf v.(vz_st).(vs_servedAll) ∧
  Z.of_nat (length v.(vz_st).(vs_feed)) = Z.min v.(vz_st).(vs_total) (Z.of_nat feedLen) ∧
  (v.(vz_st).(vs_polIdx) < length vizPolicies)%nat.
Proof.
  intros ([] & n1 & _ & E)%nbind_inv. apply vizSteps_ok in E as []; [auto|apply newVizState_ok].
Qed.
End viz.

(** ** The text *)
(** Code points: the bytes that do not continue one. *)
Definition runes (x : bytes) : Z :=
  Z.of_nat (length (filter (λ c, N.land (N_of_ascii c) 192 ≠ 128%N) x)).
Lemma runes_app x y : runes (x ++ y) = runes x + runes y.
Proof. unfold runes. rewrite filter_app, length_app. lia. Qed.
Lemma Repeat_runes x n y : Repeat x n = Some y → runes y = n * runes x.
Proof.
  unfold Repeat. destruct (Z.ltb_spec n 0); [done|]. intros [= <-].
  rewrite <-(Z2Nat.id n) at 2 by done. induction (Z.to_nat n) as [|k IH]; [done|].
  change (mjoin (replicate (S k) x)) with (x ++ mjoin (replicate k x)). rewrite runes_app, IH. lia.
Qed.
Lemma Repeat_total x n : 0 <= n → is_Some (Repeat x n).
Proof. intros. unfold Repeat. destruct (Z.ltb_spec n 0); [lia|done]. Qed.
(** A bar never panics on a width that is not negative, and is that wide. *)
Lemma bar_width n width : 0 <= width → ∃ x, bar n width = Some x ∧ runes x = width.
Proof.
  intros Hw. unfold bar. set (k := if width <? _ then width else _).
  assert (0 <= k <= width) as Hk.
  { subst k. destruct (Z.ltb_spec n 0); [destruct (Z.ltb_spec width 0)|destruct (Z.ltb_spec width n)]; lia. }
  destruct (Repeat_total (bs "█") k ltac:(lia)) as [x Ex]. destruct (Repeat_total (bs "░") (width - k) ltac:(lia)) as [y Ey].
  rewrite Ex, Ey. exists (x ++ y). split; [done|]. rewrite runes_app, (Repeat_runes _ _ _ Ex), (Repeat_runes _ _ _ Ey).
  change (runes (bs "█")) with 1. change (runes (bs "░")) with 1. lia.
Qed.
Lemma maxWin_pos st : 1 <= maxWin st.
Proof. unfold maxWin, vizGroups. cbn [foldl]. lia. Qed.
(** Rendering never panics, whatever the record and the clock, and so neither do the
    two loops that print. *)
Theorem render_total st now m : is_Some (render st now m).
Proof.
  unfold render. assert (Hg : ∀ g, is_Some (groupLine st g)).
  { intros g. unfold groupLine. destruct (bar_width (Z.quot (vizBacklog st (g_id g) * 18) target) 18) as (x & Ex & _); [lia|].
    destruct (bar_width (Z.quot (countOf (vs_servedWin st) (g_id g) * 26) (maxWin st)) 26) as (y & Ey & _); [lia|].
    rewrite Ex. cbn [mbind option_bind]. rewrite Ey. by eexists. }
  destruct (Repeat_total (bs "─") 64) as [r Er]; [lia|]. rewrite Er. cbn [mbind option_bind].
  assert (is_Some (mapM (groupLine st) vizGroups)) as [rows ->]; [|by eexists].
  apply mapM_is_Some, Forall_forall. auto.
Qed.
Lemma frames_total wrap ticks m : (∀ x, is_Some (wrap x)) → is_Some (frames wrap ticks m).
Proof.
  intros Hw. revert m. induction ticks as [|[now st] ticks IH]; intros m; [by eexists|]. cbn [frames].
  destruct (render_total st now m) as [[f m'] ->]. cbn [mbind option_bind]. destruct (Hw f) as [o ->]. cbn [mbind option_bind].
  destruct (IH m') as [r ->]. by eexists.
Qed.
Lemma runTTY_total ticks m : is_Some (runTTY ticks m).
Proof. unfold runTTY. edestruct frames_total as [o ->]; [|by eexists]. by eexists. Qed.
Lemma runPlain_total ticks m : is_Some (runPlain ticks m).
Proof. apply frames_total. intros f. by eexists. Qed.
