(* ===== verification/Serve.v ===== *)
(** * Starting a server ([cmd/rota/main.go], [security.go])

    [cmdServe]: the command line, the configuration it makes, and the steps up
    to the moment the listener serves.  Between the steps the node changes in
    the background (Raft applies log entries); a step that polls is given the
    polls: the node each finds and what the clock says then.  [None]: still
    polling.  Files, environment variables, the opening of the store and the TLS
    library are parameters. *)

From S2P Require Import Prelude GoStrings Keys Data Store Float Publish Workflow Broker Control Auth Timers Fsm Commands Fairness Meter Policy Scheduler Hash Node NodeControl NodeOps NodeStats NodeAuth Transport Start.

(** What the process finds around it. *)
Class ServeEnv := {
  ReadFile : bytes → result bytes;
  Getenv : bytes → bytes;
  storage_Open : bytes → result store;
  (** [tls.LoadX509KeyPair] and [NewServerTLSFromFile]; [AppendCertsFromPEM] *)
  LoadX509KeyPair : bytes → bytes → result ();
  AppendCertsFromPEM : bytes → bool;
  net_Listen : bytes → result ();
}.

(** ** The command line *)
Record serveOptions := mkserveOptions {
  so_cfg : Config; so_addr : bytes; so_metricsAddr : bytes; so_webDir : bytes;
  so_peers : bytes; so_grpcPeers : bytes;
  so_token : bytes; so_tokenFile : bytes; so_tokenEnv : bytes; so_principal : bytes;
  so_tlsCert : bytes; so_tlsKey : bytes; so_clientCA : bytes }.
Definition defaultServe : serveOptions :=
  mkserveOptions (mkConfig (bs "./data") (bs "node1") 0 0 0 [] [] false [] ∅)
    (bs "127.0.0.1:7100") (bs "127.0.0.1:7101") (bs "web/dist") [] []
    [] [] [] BootstrapAdminPrincipal [] [] [].
Definition so_set_cfg (c : Config) (o : serveOptions) : serveOptions :=
  mkserveOptions c o.(so_addr) o.(so_metricsAddr) o.(so_webDir) o.(so_peers) o.(so_grpcPeers)
    o.(so_token) o.(so_tokenFile) o.(so_tokenEnv) o.(so_principal) o.(so_tlsCert) o.(so_tlsKey) o.(so_clientCA).
Definition cfg_set (data id bind : bytes) (boot : bool) (vis : N) (c : Config) : Config :=
  mkConfig data id vis c.(cfg_IdleReapMs) c.(cfg_MaxLeaseLifetimeMs) bind c.(cfg_RaftAdvertise) boot
    c.(cfg_InitialPeers) c.(cfg_GRPCAddrs).

(** One flag and its value; an unknown flag is skipped with its value. *)
Definition serveFlag (k v : bytes) (o : serveOptions) : serveOptions :=
  let c := o.(so_cfg) in
  let 'mkserveOptions c' addr metrics web peers grpc tok file env who cert key ca := o in
  if bool_decide (k = bs "--data") then
    so_set_cfg (cfg_set v c.(cfg_NodeID) c.(cfg_RaftBind) c.(cfg_Bootstrap) c.(cfg_VisibilityMs) c) o
  else if bool_decide (k = bs "--grpc") then mkserveOptions c' v metrics web peers grpc tok file env who cert key ca
  else if bool_decide (k = bs "--metrics") then mkserveOptions c' addr v web peers grpc tok file env who cert key ca
  else if bool_decide (k = bs "--web") then mkserveOptions c' addr metrics v peers grpc tok file env who cert key ca
  else if bool_decide (k = bs "--id") then
    so_set_cfg (cfg_set c.(cfg_DataDir) v c.(cfg_RaftBind) c.(cfg_Bootstrap) c.(cfg_VisibilityMs) c) o
  else if bool_decide (k = bs "--raft") then
    so_set_cfg (cfg_set c.(cfg_DataDir) c.(cfg_NodeID) v c.(cfg_Bootstrap) c.(cfg_VisibilityMs) c) o
  else if bool_decide (k = bs "--bootstrap") then
    so_set_cfg (cfg_set c.(cfg_DataDir) c.(cfg_NodeID) c.(cfg_RaftBind) (bool_decide (v = bs "true"))
                  c.(cfg_VisibilityMs) c) o
  else if bool_decide (k = bs "--peers") then mkserveOptions c' addr metrics web v grpc tok file env who cert key ca
  else if bool_decide (k = bs "--grpc-peers") then mkserveOptions c' addr metrics web peers v tok file env who cert key ca
  else if bool_decide (k = bs "--bootstrap-admin-token") then
    mkserveOptions c' addr metrics web peers grpc v file env who cert key ca
  else if bool_decide (k = bs "--bootstrap-admin-token-file") then
    mkserveOptions c' addr metrics web peers grpc tok v env who cert key ca
  else if bool_decide (k = bs "--bootstrap-admin-env") then
    mkserveOptions c' addr metrics web peers grpc tok file v who cert key ca
  else if bool_decide (k = bs "--bootstrap-admin-principal") then
    mkserveOptions c' addr metrics web peers grpc tok file env v cert key ca
  else if bool_decide (k = bs "--tls-cert") then mkserveOptions c' addr metrics web peers grpc tok file env who v key ca
  else if bool_decide (k = bs "--tls-key") then mkserveOptions c' addr metrics web peers grpc tok file env who cert v ca
  else if bool_decide (k = bs "--client-ca") then mkserveOptions c' addr metrics web peers grpc tok file env who cert key v
  else if bool_decide (k = bs "--visibility") then
    match Atoi v with
    | Some secs =>
        so_set_cfg (cfg_set c.(cfg_DataDir) c.(cfg_NodeID) c.(cfg_RaftBind) c.(cfg_Bootstrap)
                      (wrap64 (u64_of_int secs * 1000)) c) o
    | None => o
    end
  else o.
(** [for i := 0; i < len(args)-1; i += 2] *)
Fixpoint serveFlags (args : list bytes) (o : serveOptions) : serveOptions :=
  match args with
  | k :: v :: args' => serveFlags args' (serveFlag k v o)
  | _ => o
  end.

Definition peerOf (part : bytes) : option Peer :=
  match splitN 2 "="%char part with
  | [id; addr] => Some (mkPeer id addr)
  | _ => None
  end.
Definition parsePeers (s : bytes) : list Peer :=
  if nonempty s then omap peerOf (splitOn ","%char s) else [].

(** The configuration: the peers, and every node's gRPC address, its own first. *)
Definition serveConfig (o : serveOptions) : Config :=
  let c := o.(so_cfg) in
  mkConfig c.(cfg_DataDir) c.(cfg_NodeID) c.(cfg_VisibilityMs) c.(cfg_IdleReapMs) c.(cfg_MaxLeaseLifetimeMs)
    c.(cfg_RaftBind) c.(cfg_RaftAdvertise) c.(cfg_Bootstrap) (parsePeers o.(so_peers))
    (foldl (λ m p, <[p.(peer_ID) := p.(peer_Addr)]> m) {[c.(cfg_NodeID) := o.(so_addr)]}
       (parsePeers o.(so_grpcPeers))).

(** ** Waiting, tokens and TLS *)
Section serve.
Context {PC : PayloadCodec} {PE : PolicyEngines} {W : World} {T : Text} {RB : RaftBoot} {SE : ServeEnv}.
Implicit Types (n : Node).

(** A poll: the node, and whether the deadline has not been reached. *)
Fixpoint WaitClusterLeader (polls : list (Node * bool)) : option (result ()) :=
  match polls with
  | [] => None
  | (n, early) :: polls' =>
      if negb early then Some (Err (bs "no cluster leader within 15s"))
      else if nonempty (raft_LeaderWithID n.(n_world)).1 then Some (Ok ()) else WaitClusterLeader polls'
  end.
(** A poll: the node, and whether the deadline has passed after it. *)
Fixpoint waitAuthEnabled (polls : list (Node * bool)) : option (result ()) :=
  match polls with
  | [] => None
  | (n, late) :: polls' =>
      if AuthEnabled n.(n_fsm).(fsm_s) then Some (Ok ())
      else if late then
        Some (Err (bs "auth bootstrap token was supplied, but replicated auth state was not visible within 15s"))
      else waitAuthEnabled polls'
  end.

Definition bootstrapToken (value file env : bytes) : result bytes :=
  if nonempty value then Ok (TrimSpace value)
  else if nonempty file then
    match ReadFile file with Err e => Err e | Ok raw => Ok (TrimSpace raw) end
  else if nonempty env then Ok (TrimSpace (Getenv env))
  else Ok [].

(** The listener's TLS: none, the server's certificate, or with client
    certificates required. *)
Inductive tlsMode := TLS_Off | TLS_Server (cert key : bytes) | TLS_Mutual (cert key ca : bytes).
Definition serverTransportCredentials (cert key ca : bytes) : result tlsMode :=
  if negb (nonempty cert) && negb (nonempty key) && negb (nonempty ca) then Ok TLS_Off
  else if negb (nonempty cert) || negb (nonempty key) then Err (bs "--tls-cert and --tls-key must be set together")
  else
    match LoadX509KeyPair cert key with
    | Err e => Err e
    | Ok _ =>
        if negb (nonempty ca) then Ok (TLS_Server cert key)
        else
          match ReadFile ca with
          | Err e => Err e
          | Ok pem =>
              if AppendCertsFromPEM pem then Ok (TLS_Mutual cert key ca)
              else Err (bs "no client CA certificates found in " ++ ca)
          end
    end.

(** ** The steps of [cmdServe]

    [d], [w]: Raft's data and the world at the start; [lp]: the polls for a leader; [n1]: the node when the bootstrap runs; [ap]:
    the polls for the replicated principal.  The result is the node after the
    bootstrap and the mode of the listener about to serve. *)
Definition cmdServe (args : list bytes) (d : raftDisk) (w : world) (lp : list (Node * bool)) (n1 : Node)
    (ap : list (Node * bool)) : option (result (Node * tlsMode)) :=
  let o := serveFlags args defaultServe in
  match openNode (serveConfig o) (storage_Open o.(so_cfg).(cfg_DataDir)) d w with
  | Err e => Some (Err e)
  | Ok _ =>
      led ← WaitClusterLeader lp;
      match led with
      | Err e => Some (Err e)
      | Ok _ =>
          match bootstrapToken o.(so_token) o.(so_tokenFile) o.(so_tokenEnv) with
          | Err e => Some (Err e)
          | Ok adminToken =>
              '(r, n2) ← BootstrapAuthAdmin o.(so_principal) adminToken n1;
              match r with
              | Err e => Some (Err e)
              | Ok _ =>
                  ready ← (if nonempty adminToken then waitAuthEnabled ap else Some (Ok ()));
                  match ready with
                  | Err e => Some (Err e)
                  | Ok _ =>
                      Some (rbind (net_Listen o.(so_addr)) (λ _,
                            rbind (serverTransportCredentials o.(so_tlsCert) o.(so_tlsKey) o.(so_clientCA)) (λ tls,
                            Ok (n2, tls))))
                  end
              end
          end
      end
  end.

(** The line printed before it serves. *)
Definition servingLine (o : serveOptions) : bytes :=
  let c := (serveConfig o) in
  bs "rota: Broker+Control on " ++ o.(so_addr) ++ bs ", metrics+dashboard on " ++ o.(so_metricsAddr) ++
  bs " (data=" ++ c.(cfg_DataDir) ++ bs ", id=" ++ c.(cfg_NodeID) ++ bs ", web=" ++ o.(so_webDir) ++ bs ")" ++ [ascii_of_N 10].

(** The node [cmdServe] opens. *)
Definition servedNode (args : list bytes) (s : store) (w : world) : Node :=
  Open (serveConfig (serveFlags args defaultServe)) s w.
End serve.
