(* ===== verification/ServeProps.v ===== *)
(** * Theorems on a server's life

    What a started server guarantees whatever happens to it afterwards: remote
    calls, streams, the dashboard, the leader's loops, the workers, the log entries
    of other nodes, snapshots and restarts, in any order. *)

From S2P Require Import Prelude GoStrings Keys Data Store KeysProps Float Publish Workflow Broker Control Auth Timers Fsm FsmProps Reason Quiet Commands Fairness Meter Policy Scheduler Hash Node NodeControl NodeOps NodeStats NodeWorkflow NodeAuth Observatory Transport Work Http Demo NodeProps NodeDemo NodeAuthProps TransportProps Advance HttpProps Start Serve.

Section life.
Context {PC : PayloadCodec} {PE : PolicyEngines} {W : World} {T : Text} {HB : HttpBodies} {RB : RaftBoot} {SE : ServeEnv}.
Implicit Types (n : Node) (db : store) (b : batch).

(** ** What happens to a node *)
Inductive happens n : Node → Prop :=
  | Hp_call md req r n' : unaryCall md req n = Some (r, n') → happens n n'
  | Hp_http q r n' : httpHandler q n = Some (r, n') → happens n n'
  | Hp_stream md ev s r n' : workStep md ev s n = Some (r, n') → happens n n'
  | Hp_chronos r n' : chronosTick n = Some (r, n') → happens n n'
  | Hp_reap r n' : reapTick n = Some (r, n') → happens n n'
  | Hp_decider ty who d r n' : workflowWorkerRound ty who d n = Some (r, n') → happens n n'
  | Hp_activity ty who h r n' : activityWorkerRound ty who h n = Some (r, n') → happens n n'
  | Hp_log logs rs n' : commitLogs logs n = Some (rs, n') → happens n n'
  | Hp_local n' : n'.(n_fsm) = n.(n_fsm) → happens n n'
  (** the leader's snapshot is installed: the state of the same log further on
      ([snapshot_catch_up]) *)
  | Hp_snapshot n' : later n.(n_fsm) n'.(n_fsm) → happens n n'
  (** the process stops and the store is opened again *)
  | Hp_restart cfg w : happens n (Open cfg n.(n_fsm).(fsm_s) w).
Definition life : relation Node := rtc happens.

(** ** Authorization stays on *)
Lemma in_principal_range (k : bytes) :
  in_range AuthPrincipalBounds.1 (Some AuthPrincipalBounds.2) k ↔ tag k = Some tagAuthPrincipal.
Proof.
  split.
  - intros H. apply (PrefixEnd_range [tagAuthPrincipal]) in H as [y ->]. done.
  - destruct k as [|c k]; [done|]. intros [= ->].
    apply (PrefixEnd_range [tagAuthPrincipal]). by exists k.
Qed.
Lemma AuthEnabled_spec db : AuthEnabled db = true ↔ ∃ k, tag k = Some tagAuthPrincipal ∧ is_Some (db !! k).
Proof.
  unfold AuthEnabled. rewrite negb_true_iff, bool_decide_eq_false. split.
  - destruct (NewIter _ _ db) as [|[k v] rows] eqn:E; [done|]. intros _. exists k.
    assert (Hin : (k, v) ∈ NewIter AuthPrincipalBounds.1 (Some AuthPrincipalBounds.2) db) by (rewrite E; left).
    apply elem_of_NewIter in Hin as [Hk Hr]. split; [by apply in_principal_range|eauto].
  - intros (k & Ht & v & Hk) E. eapply (not_elem_of_nil (k, v)). rewrite <-E.
    apply elem_of_NewIter. split; [done|by apply in_principal_range].
Qed.

(** A batch that deletes no principal. *)
Definition keeps_principals (o : bop) : Prop := off tagAuthPrincipal o ∨ sets o.
Lemma AuthEnabled_commit b db : Forall keeps_principals b → AuthEnabled db = true → AuthEnabled (commit b db) = true.
Proof.
  rewrite !AuthEnabled_spec. intros Hb (k & Ht & Hk). exists k. split; [done|].
  revert db Hk. induction Hb as [|o b Ho Hb IH]; intros db Hk; [done|]. rewrite commit_cons. apply IH.
  destruct o as [k' v|k']; cbn [apply_bop].
  - rewrite lookup_insert. by case_decide.
  - rewrite lookup_delete. case_decide as E; [|done]. subst. by destruct Ho as [Ho|[]].
Qed.
Lemma dispatch_keeps_auth cmd db r b : dispatch cmd db = Some (Ok (r, b)) → Forall keeps_principals b.
Proof.
  intros [(c & _ & _ & E)|[[_ E]|H]]%(dispatch_quiet tagAuthPrincipal); [| | |by right].
  - apply singleton_off in E. eapply Forall_impl; [exact E|by left].
  - apply auth_sets in E. eapply Forall_impl; [exact E|by right].
  - eapply Forall_impl; [exact H|by left].
Qed.
Lemma AuthEnabled_later (f f' : FSM) : later f f' → AuthEnabled f.(fsm_s) = true → AuthEnabled f'.(fsm_s) = true.
Proof.
  intros (log & rs & E). revert f rs E. induction log as [|l log IH]; intros f rs; cbn [applyLog].
  { by intros [= _ <-]. }
  destruct (Apply _ f l) as [[r f1]|] eqn:E1; [|done].
  destruct (applyLog _ f1 log) as [[rs' f2]|] eqn:E2; [|done]. intros [= _ <-] Hen.
  apply (IH f1 rs' E2). apply Apply_cases in E1 as [[-> _]|(_ & cmd & res & b & _ & Hd & _ & ->)]; [done|].
  cbn [fsm_s]. apply AuthEnabled_commit; [|done]. apply Forall_app. split; [by eapply dispatch_keeps_auth|].
  apply Forall_singleton. left. by intros [=].
Qed.

(** Whatever happens, authorization stays on: more of the log is applied, or the
    same store is opened. *)
Lemma happens_enabled n n' : happens n n' → AuthEnabled n.(n_fsm).(fsm_s) = true → AuthEnabled n'.(n_fsm).(fsm_s) = true.
Proof.
  destruct 1 as [???? E|??? E|????? E|?? E|?? E|????? E|????? E|??? E|n' E|n' E|cfg w]; [..|by rewrite E| |done];
    apply AuthEnabled_later; [| | | | | | | |done].
  - by eapply advances_unaryCall.
  - by eapply advances_httpHandler.
  - by eapply advances_workStep.
  - by eapply (proj1 advances_ticks).
  - by eapply (proj2 advances_ticks).
  - by eapply (proj1 advances_workers).
  - by eapply (proj2 advances_workers).
  - by eapply advances_commitLogs.
Qed.
Lemma life_enabled n n' : life n n' → AuthEnabled n.(n_fsm).(fsm_s) = true → AuthEnabled n'.(n_fsm).(fsm_s) = true.
Proof. induction 1 as [n|n n1 n2 H _ IH]; [done|]. intros Hn. by apply IH, (happens_enabled n). Qed.

(** ** Who is let through *)
Definition vouched md (checks : list AuthCheck) db : Prop :=
  ∃ p, p ∈ principals db ∧ principalTokenMatches p (authTokenFromContext md) = true ∧
       p.(ap_Disabled) = false ∧ forallb (principalAllows p) (effective checks) = true.
Lemma allowed_vouched md checks db : AuthEnabled db = true →
  (AuthorizeToken (authTokenFromContext md) checks db).(ad_Allowed) = true → vouched md checks db.
Proof.
  intros Hen. unfold AuthorizeToken. rewrite Hen. cbn [negb]. destruct (negb _); [done|].
  destruct (filter _ _) as [|p ps] eqn:E; [done|]. intros Ha. exists p.
  assert (Hin : p ∈ filter (λ p, principalTokenMatches p (authTokenFromContext md) = true)
                       (listAuthPrincipals false db)) by (rewrite E; left).
  apply list_elem_of_filter in Hin as [Hm Hin]. unfold listAuthPrincipals in Hin. cbv zeta in Hin.
  rewrite merge_sort_Permutation in Hin. rewrite decision_allowed in Ha. apply andb_true_iff in Ha as [Hd Ha].
  split_and!; [exact Hin|done|by apply negb_true_iff|done].
Qed.
Lemma waited_enabled (ap : list (Node * bool)) : waitAuthEnabled ap = Some (Ok ()) →
  ∃ p, p ∈ ap ∧ AuthEnabled p.1.(n_fsm).(fsm_s) = true.
Proof.
  induction ap as [|[n late] ap IH]; [done|]. cbn [waitAuthEnabled].
  destruct (AuthEnabled _) eqn:E; [intros _; exists (n, late); split; [by left|done]|].
  destruct late; [done|]. intros (p & Hp & Hen)%IH. exists p. split; [by right|done].
Qed.

(** C14: A server started with an admin token is sealed for life.  If the command
    line yields a token (given, from a file or from the environment) and the
    start reaches the listener, then at every later time, whatever calls,
    streams, background rounds, log entries, snapshots and restarts came in
    between, a remote call is either denied without any effect, or its token is that of an enabled
    principal whose tags and grants allow every check of the call. *)
Theorem serve_sealed args d w lp n1 ap n2 tls tok n md req r n' :
  let o := serveFlags args defaultServe in
  bootstrapToken o.(so_token) o.(so_tokenFile) o.(so_tokenEnv) = Ok tok → nonempty tok = true →
  cmdServe args d w lp n1 ap = Some (Ok (n2, tls)) →
  Forall (λ p, life p.1 n) ap → unaryCall md req n = Some (r, n') →
  (n' = n ∧ r = Err (denial (authDecision md req n))) ∨
  vouched md (checksForUnary req n.(n_fsm).(fsm_s)) n.(n_fsm).(fsm_s).
Proof.
  intros o Htok Hne Hserve Hlife Hcall.
  assert (Hen : AuthEnabled n.(n_fsm).(fsm_s) = true).
  { unfold cmdServe in Hserve. fold o in Hserve. destruct (openNode _ _ _ _); [|done].
    destruct (WaitClusterLeader lp) as [[]|]; [|done..]. cbn [mbind option_bind] in Hserve.
    rewrite Htok in Hserve. destruct (BootstrapAuthAdmin _ _ _) as [[[] n3]|]; [|done..].
    cbn [mbind option_bind] in Hserve. rewrite Hne in Hserve.
    destruct (waitAuthEnabled ap) as [[[]|]|] eqn:Ew; [|done..].
    apply waited_enabled in Ew as (p & Hp & Hen). rewrite Forall_forall in Hlife.
    eapply life_enabled; [by apply Hlife|done]. }
  rewrite unaryCall_eq in Hcall. destruct (admitted md req n) eqn:Ha; cbn [negb] in Hcall.
  - right. apply allowed_vouched; [done|]. unfold admitted, authDecision in Ha. cbv zeta in Ha.
    apply orb_true_iff in Ha as [Ha|Ha]; [|done]. exfalso.
    unfold AuthorizeToken in Ha. rewrite Hen in Ha. cbn [negb] in Ha. destruct (negb (nonempty _)); [done|].
    destruct (filter _ _) as [|p ps]; [done|]. unfold decision_of in Ha. destruct (ap_Disabled p); [done|].
    by destruct (filter _ _).
  - left. by injection Hcall as <- <-.
Qed.
End life.

(** ** Witness: started with a token, a call without one is refused *)
#[export] Instance demo_env : ServeEnv := {|
  ReadFile _ := Ok []; Getenv _ := []; storage_Open _ := Ok ∅;
  LoadX509KeyPair _ _ := Ok (); AppendCertsFromPEM _ := true; net_Listen _ := Ok () |}.
Definition demo_args : list bytes := [bs "--bootstrap-admin-token"; bs " sesame "].
Definition bootstrapped : Node :=
  match BootstrapAuthAdmin (W := demo_world) BootstrapAdminPrincipal (bs "sesame") (demo_node ∅ 5) with
  | Some (_, n) => n
  | None => demo_node ∅ 5
  end.
Lemma demo_serves : let polls := [(demo_node ∅ 5, true)] in
  ∃ n2, cmdServe (W := demo_world) (RB := demo_boot) demo_args [] (mkdemo 5 1000) polls (demo_node ∅ 5) [(bootstrapped, false)] = Some (Ok (n2, TLS_Off)).
Proof.
  assert (H : match cmdServe (W := demo_world) (RB := demo_boot) demo_args [] (mkdemo 5 1000) [(demo_node ∅ 5, true)] (demo_node ∅ 5) [(bootstrapped, false)] with
              | Some (Ok (_, TLS_Off)) => true | _ => false end = true) by (vm_compute; reflexivity).
  cbv zeta. destruct (cmdServe _ _ _ _ _ _) as [[[n2 []]|]|]; [by exists n2|done..].
Qed.
Lemma serve_sealed_witness :
  unaryCall (W := demo_world) None (Req_PauseLane (bs "l") 0) bootstrapped =
    Some (Err (denial (authDecision (W := demo_world) None (Req_PauseLane (bs "l") 0) bootstrapped)), bootstrapped).
Proof.
  destruct demo_serves as [n2 Hs].
  assert (Hc : unaryCall (W := demo_world) None (Req_PauseLane (bs "l") 0) bootstrapped =
    Some (Err (denial (authDecision (W := demo_world) None (Req_PauseLane (bs "l") 0) bootstrapped)), bootstrapped)).
  { rewrite unaryCall_eq. assert (Ha : admitted (W := demo_world) None (Req_PauseLane (bs "l") 0) bootstrapped = false)
      by (vm_compute; reflexivity). by rewrite Ha. }
  assert (Hl : Forall (λ p : Node (W := demo_world) * bool, life p.1 bootstrapped) [(bootstrapped, false)])
    by (apply Forall_singleton, rtc_refl).
  destruct (serve_sealed (W := demo_world) (RB := demo_boot) demo_args [] (mkdemo 5 1000) [(demo_node ∅ 5, true)] (demo_node ∅ 5) [(bootstrapped, false)]
    n2 TLS_Off (bs "sesame") bootstrapped None (Req_PauseLane (bs "l") 0) _ bootstrapped eq_refl eq_refl Hs Hl Hc)
    as [[_ _]|(p & _ & _)]; exact Hc.
Defined.
