(* ===== verification/HistoryProps.v ===== *)
(** * Theorems on workflow runs

    Along a log: histories have no gaps, are append-only, and what the engine
    reads is all of them; an activity ends once; a fenced append is accepted
    only on the version it was computed from. *)

From S2P Require Import Prelude Keys Data Store Backoff Publish Workflow Broker Control Auth Timers Fsm Commands Reason Accounting AccountingOps AccountingLog FsmProps Structure History Float Fairness Meter Policy Scheduler Hash Node NodeControl NodeStats NodeOps NodeWorkflow Demo SchedulerProps NodeProps NodeDemo.

Implicit Types (db V : store) (n r s i : N) (ev : HistoryEvent) (run : WorkflowRun).

Lemma wfq_applyRedrive c : each_M wf_quiet (applyRedrive c).
Proof.
  intros db x b E. unfold applyRedrive in E.
  apply bind_Ok in E as (rows & b1 & b2 & [-> ->]%gets_Ok & E & ->). simpl app.
  destruct (findDead _ _) as [[dk dl]|] eqn:Ef; [|minv E; constructor].
  assert (Hk : tag dk = Some tagDLQ).
  { apply findDead_in in Ef as [Hin _]. apply elem_of_NewIter in Hin as [_ Hr].
    by apply PrefixEnd_range in Hr as [y ->]. }
  apply bind_Ok in E as (gm & b1 & b3 & [-> ->]%gets_Ok & E & ->).
  apply bind_Ok in E as ([id gm'] & b1 & b4 & E1 & E & ->). apply wfq_publishOne in E1.
  apply bind_Ok in E as ([] & b5 & b6 & [_ ->]%putProto_Ok & E & ->).
  apply bind_Ok in E as ([] & b7 & b8 & [_ ->]%bdel_Ok & [_ ->]%ret_Ok & ->).
  simpl app. apply Forall_app. split; [exact E1|]. repeat constructor; cbn [bop_key]; try by intros [=].
  all: try (rewrite Hk; by intros [=]). intros ->. discriminate.
Qed.

(** ** Commands and logs *)
Section log.
Context {PC : PayloadCodec} {Laws : PayloadCodecLaws PC} (um : bytes → option Command).

(** The run ids of a command are [uint64]s, as its fields are. *)
Record wf_cmd_ok (cmd : Command) : Prop := {
  ok_wf_append : on cmd.(c_WFAppend) (λ c, u64 c.(wac_RunID));
  ok_wf_activity : on cmd.(c_WFCompleteActivity) (λ c, u64 c.(wca_RunID) ∧ u64 c.(wca_ScheduledEventID));
  ok_wf_signal : on cmd.(c_WFSignal) (λ c, u64 c.(wsc_RunID));
  ok_wf_cancel : on cmd.(c_WFCancel) (λ c, u64 c.(wcc_RunID));
}.
Definition wf_log_ok (log : list Log) : Prop := Forall (λ l, on (um l.(log_Data)) wf_cmd_ok) log.

(** An upper bound on the run ids and event ids a command assigns. *)
Definition wf_weight (cmd : Command) : N :=
  match cmd.(c_WFAppend) with Some c => 1 + N.of_nat (length c.(wac_Events)) | None => 1 end.
Definition wf_weights (log : list Log) : N :=
  foldr (λ l s, match um l.(log_Data) with Some cmd => wf_weight cmd + s | None => s end) 0 log.

Lemma keeps_dispatch n cmd db (r : ApplyResult) (b : batch) :
  HInv n db → n + wf_weight cmd < two64 → wf_cmd_ok cmd → dispatch cmd db = Some (Ok (r, b)) →
  HInv (n + wf_weight cmd) (commit b db) ∧ extends db (commit b db).
Proof using Laws.
  intros H Hn Hok E. assert (Hw : 1 ≤ wf_weight cmd) by (unfold wf_weight; destruct (c_WFAppend cmd); lia).
  assert (H1 : ∀ (h : M ApplyResult), keeps 1 h → h db = Ok (r, b) →
    HInv (n + wf_weight cmd) (commit b db) ∧ extends db (commit b db)).
  { intros h Hh E'. destruct (Hh n db r b H) as [? ?]; [lia|done|]. split; [|done].
    eapply (HInv_mono (n + 1)); [lia|lia|done]. }
  assert (Hd : ∀ {C} (h : C → M ApplyResult) o, (∀ c, o = Some c → keeps 1 (h c)) →
    deref h o db = Some (Ok (r, b)) → HInv (n + wf_weight cmd) (commit b db) ∧ extends db (commit b db)).
  { intros C h [c|] Hh; [|done]. intros [= E']. eapply H1; [by apply Hh|exact E']. }
  assert (Hq : ∀ {C} (h : C → M ApplyResult) o, (∀ c, each_M wf_quiet (h c)) →
    deref h o db = Some (Ok (r, b)) → HInv (n + wf_weight cmd) (commit b db) ∧ extends db (commit b db)).
  { intros C h o Hh. apply Hd. intros c _. by apply keeps_quiet. }
  destruct wfq_control as (K1 & K2 & K3 & K4 & K5 & K6 & K7 & K8 & K9 & K10 & K11).
  unfold dispatch in E. cbv zeta in E.
  destruct (N.eqb_spec (c_Type cmd) CmdWFAppendEvents) as [Ht|Ht].
  { rewrite Ht in E. apply deref_Ok in E as (c & Ec & E). unfold wf_weight in *. rewrite Ec in *.
    eapply keeps_append; [by apply (ok_wf_append _ Hok)|done|done|exact E]. }
  repeat match type of E with (if ?x then _ else _) _ = _ => destruct x end;
    try first
      [ eapply Hq; [|exact E]; first [exact wfq_applyPublish|exact wfq_applyPublishBatch|
          exact wfq_applyLease|exact wfq_applyAck|exact wfq_applyExtend|exact wfq_applyRedrive|done]
      | eapply Hd; [|exact E]; intros c Ec; first
          [ apply keeps_applyNack | apply keeps_applyFireTimer | apply keeps_applyComplete | apply keeps_start
          | apply keeps_cancel, (ok_wf_cancel _ Hok c Ec) ] ].
  - destruct (c_Teardown cmd) as [c|] eqn:Ec; cbn [deref_teardown] in E.
    + injection E as E. eapply H1; [apply keeps_quiet, K4|exact E].
    + destruct (existsb _ _); [done|]. injection E as <- <-. split; [|apply extends_refl].
      by apply (HInv_mono n); [lia| |].
  - eapply Hd; [|exact E]. intros c Ec. destruct (ok_wf_activity _ Hok c Ec). unfold applyWFCompleteActivity.
    apply keeps_then; [by apply keeps_recordActivityTerminal|intros ?; each].
  - eapply Hd; [|exact E]. intros c Ec. pose proof (ok_wf_signal _ Hok c Ec). unfold applyWFSignal. cbv zeta.
    apply keeps_then; [by apply keeps_appendExternalEvent|intros ?; each].
  - injection E as E. eapply H1; [apply keeps_quiet, K11|exact E].
  - done.
Qed.

Lemma wf_weights_cons l log : wf_weights (l :: log) = wf_weights [l] + wf_weights log.
Proof. unfold wf_weights. simpl. destruct (um _); lia. Qed.

Lemma keeps_Apply n f l (r : response) f' :
  HInv n f.(fsm_s) → n + wf_weights [l] < two64 → on (um l.(log_Data)) wf_cmd_ok →
  Apply um f l = Some (r, f') → HInv (n + wf_weights [l]) f'.(fsm_s) ∧ extends f.(fsm_s) f'.(fsm_s).
Proof using Laws.
  intros H Hn Hok [[-> _]|(_ & cmd & res & b & Eu & Ed & _ & ->)]%Apply_cases; cbn [fsm_s].
  { split; [|apply extends_refl]. by apply (HInv_mono n); [lia| |]. }
  unfold wf_weights in *. cbn [foldr] in *. rewrite Eu, N.add_0_r in *. rewrite commit_app.
  eapply keeps_dispatch in Ed as [H1 X1]; [|done|done|by apply Hok].
  assert (Ha : agree (commit b (fsm_s f)) (commit [BSet appliedIndexKey (VRaw (u64b (log_Index l)))] (commit b (fsm_s f)))).
  { apply agree_quiet. repeat constructor; cbn; discriminate. }
  split; [by eapply HInv_agree|]. eapply extends_trans; [exact X1|by apply agree_extends].
Qed.

Lemma keeps_applyLog n f log rs f' :
  HInv n f.(fsm_s) → n + wf_weights log < two64 → wf_log_ok log → applyLog um f log = Some (rs, f') →
  HInv (n + wf_weights log) f'.(fsm_s) ∧ extends f.(fsm_s) f'.(fsm_s).
Proof using Laws.
  intros H Hn Hok. revert n f rs H Hn. induction Hok as [|l log Hl Hok IH]; intros n f rs H Hn; cbn [applyLog].
  { intros [= _ <-]. unfold wf_weights. simpl. rewrite N.add_0_r. split; [done|apply extends_refl]. }
  destruct (Apply um f l) as [[r f1]|] eqn:E; [|done].
  destruct (applyLog um f1 log) as [[rs' f2]|] eqn:E2; [|done]. intros [= _ <-].
  rewrite wf_weights_cons in *. eapply keeps_Apply in E as [H1 X1]; [|exact H|lia|done].
  rewrite N.add_assoc. eapply IH in E2 as [H2 X2]; [|exact H1|lia].
  split; [exact H2|by eapply extends_trans].
Qed.

Lemma HInv_empty : HInv 1 ∅.
Proof.
  assert (He : ∀ A `{Row A} k, @GetProto A _ k ∅ = None) by (intros; unfold GetProto; by rewrite lookup_empty).
  split.
  - intros k v E. by rewrite lookup_empty in E.
  - done.
  - unfold next_run, GetRaw. by rewrite He.
  - intros r _. unfold run_ok, run_of. rewrite He. intros i _. unfold hist. rewrite He. case_decide; [lia|done].
Qed.
End log.

(** ** Reading a history *)
Section reading.
Context (r s : N) (V : store).
Hypotheses (Hr : u64 r) (Hs : s < two64) (HV : hist_is r s V) (HK : hist_keys V).

(** The [i]-th event. *)
Definition event_at i : HistoryEvent := default (mkHistoryEvent 0 0 0 []) (hist r i V).
Definition ids : list N := N.of_nat <$> seq 1 (N.to_nat s).

Lemma elem_of_ids i : i ∈ ids ↔ 1 ≤ i ≤ s.
Proof using Type.
  clear Hs HV HK Hr. unfold ids. rewrite list_elem_of_fmap. split.
  - intros (k & -> & Hk). apply elem_of_seq in Hk. lia.
  - intros Hi. exists (N.to_nat i). rewrite elem_of_seq. lia.
Qed.
Lemma event_at_hist i : 1 ≤ i ≤ s → hist r i V = Some (event_at i) ∧ (event_at i).(ev_EventId) = i.
Proof using Hr Hs HV HK.
  intros Hi. specialize (HV i ltac:(unfold u64; lia)). rewrite decide_True in HV by done.
  destruct HV as (ev & He & Hid). unfold event_at. by rewrite He.
Qed.

Definition history_rows : list (bytes * value) :=
  (λ i, (WFHistoryKey r i, VEvent (event_at i))) <$> ids.

Lemma history_rows_sorted : StronglySorted row_le history_rows.
Proof using Hr Hs HV HK.
  unfold history_rows, ids. assert (Hb : (N.to_nat s < N.to_nat two64)%nat) by lia.
  assert (Hg : ∀ n a : nat, (a + n <= N.to_nat two64)%nat →
    StronglySorted row_le ((λ i, (WFHistoryKey r i, VEvent (event_at i))) <$> (N.of_nat <$> seq a n))).
  { induction n as [|n IH]; intros a Ha; [constructor|]. cbn [seq fmap list_fmap]. constructor; [apply IH; lia|].
    apply Forall_forall. intros kv Hin. rewrite <-list_fmap_compose in Hin.
    apply list_elem_of_fmap in Hin as (k & -> & Hk). apply elem_of_seq in Hk. unfold row_le. cbn.
    apply bytes_le_lteq. left. apply WFHistoryKey_lt; unfold u64; lia. }
  apply Hg. lia.
Qed.
Lemma history_rows_NoDup : NoDup history_rows.
Proof using Hr Hs HV HK.
  apply NoDup_fmap_2_strong; [|apply NoDup_fmap; [apply _|apply NoDup_seq]].
  intros i j Hi%elem_of_ids Hj%elem_of_ids E. apply (f_equal fst) in E. cbn in E.
  apply WFHistoryKey_inj in E; unfold u64 in *; [tauto|lia..].
Qed.

Lemma history_scan :
  NewIter (WFHistoryPrefix r) (PrefixEnd (WFHistoryPrefix r)) V = history_rows.
Proof using Hr Hs HV HK.
  apply NewIter_unique; [apply history_rows_sorted|apply history_rows_NoDup|]. intros k v.
  unfold history_rows. rewrite list_elem_of_fmap. split.
  - intros (i & [= -> ->] & Hi%elem_of_ids). destruct (event_at_hist i Hi) as [He _].
    split; [by apply GetProto_row in He|]. apply PrefixEnd_range. by exists (u64be i).
  - intros [Hk [x ->]%PrefixEnd_range]. destruct (HK _ _ Hk eq_refl) as (r' & i & ev & Hr' & Hi & E & ->).
    assert (Er : r = r').
    { clear Hk. apply (key_tail tagWFHistory tagWFHistory (u64be r ++ x) (u64be r' ++ u64be i)) in E.
      by apply u64be_app_inj in E as [-> _]. }
    subst r'. rewrite E in *. exists i. rewrite elem_of_ids. specialize (HV i Hi).
    assert (He : hist r i V = Some ev) by (by apply GetProto_row).
    case_decide as Hd; [|congruence]. split; [|done]. unfold event_at. by rewrite He.
Qed.

Lemma history_decode : decodeRows (NewIter (WFHistoryPrefix r) (PrefixEnd (WFHistoryPrefix r)) V) = event_at <$> ids.
Proof using Hr Hs HV HK.
  rewrite history_scan. unfold decodeRows, history_rows. induction ids as [|i l IH]; [done|].
  cbn [fmap list_fmap omap list_omap snd]. by rewrite IH.
Qed.

Lemma historyUpto_events (fuel k : nat) i : (k <= fuel)%nat → 1 ≤ i → i + N.of_nat k = s + 1 → s + 1 < two64 →
  historyUpto fuel r i s V = event_at <$> (N.of_nat <$> seq (N.to_nat i) k).
Proof using Hr Hs HV HK.
  revert k i. induction fuel as [|fuel IH]; intros k i Hk Hi Hik Hs1.
  - destruct k; [done|lia].
  - cbn [historyUpto]. destruct (N.ltb_spec s i) as [Hlt|Hge]; [assert (k = 0%nat) as -> by lia; done|].
    destruct (event_at_hist i) as [He _]; [lia|]. unfold hist in He. rewrite He.
    destruct k as [|k]; [lia|]. cbn [seq fmap list_fmap]. f_equal; [f_equal; lia|].
    rewrite incr64_small by lia. rewrite (IH k (i + 1)) by lia. do 3 f_equal. lia.
Qed.

Lemma history_length : (N.to_nat s <= size V)%nat.
Proof using Hr Hs HV HK.
  replace (N.to_nat s) with (length (NewIter (WFHistoryPrefix r) (PrefixEnd (WFHistoryPrefix r)) V))
    by (rewrite history_scan; unfold history_rows, ids; by rewrite !length_fmap, length_seq).
  rewrite NewIter_Permutation. etrans; [apply length_filter|]. by rewrite length_map_to_list.
Qed.
End reading.

(** C5: the history of a run.  Whatever log of commands a replica has applied,
    a run's history is its events 1 to its sequence number, no gap and nothing
    beyond; this is what the engine reads for a worker, and the prefix checksum
    a worker must present is the digest of exactly these events. *)
Theorem history_gap_free {PC : PayloadCodec} {Laws : PayloadCodecLaws PC} {PE : PolicyEngines} {W : World}
    (um : bytes → option Command) log rs f r run (nd : Node) :
  wf_log_ok um log → wf_weights um log + 2 < two64 → applyLog um (New ∅) log = Some (rs, f) →
  u64 r → run_of r f.(fsm_s) = Some run → nd.(n_fsm) = f →
  let s := run.(run_CurHistorySeq) in
  ∃ h, GetRunHistory r nd = Some (Ok h, nd) ∧ ev_EventId <$> h = N.of_nat <$> seq 1 (N.to_nat s) ∧
       RunPrefixChecksum r s nd = Some (Ok (PrefixChecksumOf h), nd).
Proof.
  intros Hlog Hw E Hr Hrun Hf s. destruct (keeps_applyLog um 1 (New ∅) log rs f) as [HI _];
    [apply HInv_empty|lia|done|done|]. subst f. set (V := fsm_s (n_fsm nd)) in *.
  pose proof (h_run _ _ HI r Hr) as Ho. unfold run_ok in Ho. rewrite Hrun in Ho.
  destruct Ho as (_ & _ & Hs & Hh). fold s in Hs, Hh. pose proof (h_keys _ _ HI) as HK.
  assert (Hs64 : s + 1 < two64) by lia. exists (event_at r V <$> ids s). split; [|split].
  - change (GetRunHistory r nd) with
      (Some (Ok (decodeRows (A:=HistoryEvent) (NewIter (WFHistoryPrefix r) (PrefixEnd (WFHistoryPrefix r)) V)), nd)).
    rewrite (history_decode r s) by (done || lia). done.
  - rewrite <-list_fmap_compose. rewrite <-(list_fmap_id (N.of_nat <$> _)). apply list_fmap_ext.
    intros k i Hi. apply list_elem_of_lookup_2, elem_of_ids in Hi.
    by destruct (event_at_hist r s V Hr ltac:(lia) Hh HK i Hi).
  - change (RunPrefixChecksum r s nd) with
      (Some (Ok (PrefixChecksumOf (historyUpto (size V) r 1 s V)), nd)).
    rewrite (historyUpto_events r s V Hr ltac:(lia) Hh HK (size V) (N.to_nat s) 1); [done|..].
    + by eapply history_length; [exact Hr|lia|..].
    + lia.
    + rewrite N2Nat.id. lia.
    + done.
Qed.

(** C6: histories are append-only.  Between any two points of the log, an event
    of a history is never changed or removed, a run row is never removed and
    keeps its identity, its version never goes back, and a closed run never
    changes again. *)
Theorem history_append_only {PC : PayloadCodec} {Laws : PayloadCodecLaws PC}
    (um : bytes → option Command) log1 log2 rs1 f1 rs2 f2 :
  wf_log_ok um (log1 ++ log2) → wf_weights um log1 + wf_weights um log2 + 1 < two64 →
  applyLog um (New ∅) log1 = Some (rs1, f1) → applyLog um f1 log2 = Some (rs2, f2) →
  (∀ r i ev, u64 r → u64 i → hist r i f1.(fsm_s) = Some ev → hist r i f2.(fsm_s) = Some ev) ∧
  (∀ r run, u64 r → run_of r f1.(fsm_s) = Some run →
     ∃ run', run_of r f2.(fsm_s) = Some run' ∧ run_extends run run').
Proof.
  intros [Hl1 Hl2]%Forall_app Hw E1 E2.
  destruct (keeps_applyLog um 1 (New ∅) log1 rs1 f1) as [H1 _]; [apply HInv_empty|lia|done|done|].
  destruct (keeps_applyLog um _ f1 log2 rs2 f2 H1) as [_ [X1 X2 _]]; [lia|done|done|]. eauto.
Qed.

(** ** Ending an activity *)
Section activity.
Context {PC : PayloadCodec}.

Lemma recordActivityTerminal_marks r e f res now db x b :
  u64 r → u64 e → recordActivityTerminal r e f res now db = Ok (x, b) → x.(war_Applied) = true →
  ∃ run d, run_of r db = Some run ∧ done_of r e (commit b db) = Some d.
Proof.
  intros Hr He E Ha. unfold recordActivityTerminal in E.
  apply bind_Ok in E as (o & b1 & b2 & [-> ->]%gets_Ok & E & ->). simpl app in *.
  change (GetProto _ db) with (run_of r db) in E.
  destruct (run_of _ db) as [run|] eqn:Hrun; [|by apply ret_Ok in E as [-> _]].
  destruct (negb _); [by apply ret_Ok in E as [-> _]|].
  apply bind_Ok in E as (d & b1 & b3 & [-> ->]%gets_Ok & E & ->). simpl app in *.
  destruct (GetRaw _ db); [by apply ret_Ok in E as [-> _]|].
  apply bind_Ok in E as (sc & b1 & b4 & [-> ->]%gets_Ok & E & ->). simpl app in *. cbv zeta in E.
  destruct (negb _); [by apply ret_Ok in E as [-> _]|].
  apply bind_Ok in E as ([] & b5 & b6 & [_ ->]%putProto_Ok & E & ->).
  apply bind_Ok in E as ([] & b7 & b8 & [_ ->]%bset_Ok & E & ->).
  apply bind_Ok in E as (u & b9 & b10 & E & [-> ->]%ret_Ok & ->).
  apply advanceRun_writes in E as (run' & _ & _ & _ & _ & _ & Hag).
  exists run, ["001"%char]. split; [done|]. rewrite app_nil_r, !commit_app.
  erewrite (agree_done r e _ _ (Hag _)). rewrite done_other by done. cbn [commit foldl apply_bop].
  rewrite done_put by done. by rewrite decide_True.
Qed.

Lemma recordActivityTerminal_again r e f res now db run d :
  run_of r db = Some run → done_of r e db = Some d →
  recordActivityTerminal r e f res now db =
    Ok (mkWFAppendResult false
          (if bool_decide (run.(run_Status) = WF_RUNNING) then bs "duplicate_completion" else bs "closed") 0, []).
Proof.
  unfold run_of, done_of. intros Hrun Hd. unfold recordActivityTerminal.
  unfold mbind, M_bind, gets. rewrite Hrun. case_bool_decide; [|done]. cbn [negb]. by rewrite Hd.
Qed.
End activity.

(** C7: an activity ends once.  After a completion of an activity was accepted,
    no completion or dead-lettering of that activity, at any later point of the
    log and whatever its outcome, is recorded: it is answered as closed or
    duplicate, and writes nothing. *)
Theorem activity_ends_once {PC : PayloadCodec} {Laws : PayloadCodecLaws PC}
    (um : bytes → option Command) log1 l log2 rs1 f1 c res f2 rs2 f3 :
  wf_log_ok um (log1 ++ l :: log2) → wf_weights um log1 + wf_weights um (l :: log2) + 1 < two64 →
  applyLog um (New ∅) log1 = Some (rs1, f1) →
  um l.(log_Data) = Some (cmd_WFCompleteActivity c) →
  Apply um f1 l = Some (Applied (RWFAppend res), f2) → res.(war_Applied) = true →
  applyLog um f2 log2 = Some (rs2, f3) →
  ∀ failed result now, ∃ reason,
    (reason = bs "closed" ∨ reason = bs "duplicate_completion") ∧
    recordActivityTerminal c.(wca_RunID) c.(wca_ScheduledEventID) failed result now f3.(fsm_s) =
      Ok (mkWFAppendResult false reason 0, []).
Proof.
  intros [Hl1 [Hl Hl2]%Forall_cons]%Forall_app Hw E1 Eu E Ha E2 failed result now.
  rewrite wf_weights_cons in Hw.
  destruct (ok_wf_activity _ (Hl _ Eu) c eq_refl) as [Hr He].
  destruct (keeps_applyLog um 1 (New ∅) log1 rs1 f1) as [H1 _]; [apply HInv_empty|lia|done|done|].
  destruct (keeps_Apply um _ f1 l (Applied (RWFAppend res)) f2 H1) as [H2 [_ X2 _]]; [lia|exact Hl|exact E|].
  destruct (keeps_applyLog um _ f2 log2 rs2 f3 H2) as [_ [_ X3 Y3]]; [lia|done|done|].
  apply Apply_cases in E as [[_ [[? ?]|?]]|(_ & cmd & res' & b & Eu' & Ed & [= <-] & ->)]; [done|done|].
  rewrite Eu in Eu'. injection Eu' as <-. rewrite dispatch_WFCompleteActivity in Ed. injection Ed as Ed.
  unfold applyWFCompleteActivity in Ed. apply bind_Ok in Ed as (x & b1 & b2 & Ed & [[= ->] ->]%ret_Ok & ->).
  apply recordActivityTerminal_marks in Ed as (run & d & Hrun & Hd); [|done..].
  destruct (X2 _ _ Hr Hrun) as (run2 & Hrun2 & _). destruct (X3 _ _ Hr Hrun2) as (run3 & Hrun3 & _).
  destruct (Y3 (wca_RunID c) (wca_ScheduledEventID c) d Hr He) as [d3 Hd3].
  { cbn [fsm_s]. rewrite app_nil_r, commit_app. cbn [commit foldl apply_bop]. by rewrite done_other. }
  eexists. split; [|by eapply recordActivityTerminal_again]. case_bool_decide; auto.
Qed.

(** ** The fence of an append *)
Section fence.
Context {PC : PayloadCodec}.

Definition accepts (c : WFAppendEventsCmd) run : Prop :=
  run.(run_Status) = WF_RUNNING ∧ c.(wac_RunEpoch) = run.(run_RunEpoch) ∧
  c.(wac_HistorySeq) = run.(run_CurHistorySeq).

Lemma append_stale c db :
  (∀ run, run_of c.(wac_RunID) db = Some run → ¬ accepts c run) →
  ∃ reason, applyWFAppendEvents c db = Ok (append_rejected reason, []).
Proof.
  intros Hno. unfold applyWFAppendEvents. unfold mbind, M_bind, gets.
  change (GetProto _ db) with (run_of c.(wac_RunID) db).
  destruct (run_of _ db) as [run|]; [|by eexists]. specialize (Hno run eq_refl). unfold accepts in Hno.
  destruct (bool_decide_reflect (run_Status run = WF_RUNNING)) as [Hst|]; [|by eexists]. cbn [negb].
  destruct (N.eqb_spec (wac_RunEpoch c) (run_RunEpoch run)); [|by eexists].
  destruct (N.eqb_spec (wac_HistorySeq c) (run_CurHistorySeq run)); [|by eexists]. tauto.
Qed.

Lemma appendEffect_row c next e run db run' b :
  appendEffect c next e run db = Ok (run', b) → ∃ st, run' = run_set_Status st run.
Proof.
  intros E. unfold appendEffect in E. assert (Hsame : run = run_set_Status run.(run_Status) run) by (by destruct run).
  repeat match type of E with (if ?c then _ else _) _ = _ => destruct c end; cbv zeta in E;
    try (apply ret_Ok in E as [-> ->]; by eauto);
    apply bind_Ok in E as (x & b1 & b2 & _ & [-> ->]%ret_Ok & ->); by eauto.
Qed.
Lemma appendEvents_row c evs s run db next run' b :
  appendEvents c evs s run db = Ok ((next, run'), b) → ∃ st, run' = run_set_Status st run.
Proof.
  revert s run b. induction evs as [|e evs IH]; intros s run b E; cbn [appendEvents] in E.
  - apply ret_Ok in E as [[= -> ->] ->]. exists (run_Status run). by destruct run.
  - cbv zeta in E. apply bind_Ok in E as (u & b1 & b2 & _ & E & ->).
    apply bind_Ok in E as (run1 & b3 & b4 & [st ->]%appendEffect_row & E & ->).
    apply IH in E as [st' ->]. by exists st'.
Qed.

Lemma append_accepted c db run :
  run_of c.(wac_RunID) db = Some run → accepts c run →
  ∃ next b run', applyWFAppendEvents c db = Ok (RWFAppend (mkWFAppendResult true [] next), b) ∧
    run_of c.(wac_RunID) (commit b db) = Some run' ∧ run'.(run_RunEpoch) = incr32 run.(run_RunEpoch) ∧
    run'.(run_CurHistorySeq) = next ∧ run'.(run_LastEventMs) = c.(wac_NowMs).
Proof.
  intros Hrun (Hst & He & Hs). destruct (total_applyWFAppendEvents c db) as (x & b & E).
  pose proof E as E'. unfold applyWFAppendEvents in E'.
  apply bind_Ok in E' as (o & b1 & b2 & [-> ->]%gets_Ok & E' & ->). simpl app in *.
  change (GetProto _ db) with (run_of c.(wac_RunID) db) in E'. rewrite Hrun in E'.
  rewrite bool_decide_eq_true_2, He, Hs, !N.eqb_refl in E' by done. cbn [negb orb] in E'.
  apply bind_Ok in E' as ([next run'] & b3 & b4 & Ea & E' & ->). cbv zeta in E'.
  apply bind_Ok in E' as ([] & b5 & b6 & [_ ->]%putProto_Ok & [-> ->]%ret_Ok & ->).
  eexists next, _, _. split; [exact E|]. rewrite !commit_app. cbn [commit foldl apply_bop].
  split; [unfold run_of; apply GetProto_row, lookup_insert_eq|]. cbn.
  apply appendEvents_row in Ea as [st ->]. done.
Qed.

Lemma incr32_differs e : incr32 e ≠ e.
Proof.
  destruct (N.ltb_spec e two32) as [Hl|Hg]; [by apply incr32_ne|].
  unfold incr32, add32, wrap32. pose proof (N.mod_lt (e + 1) two32 ltac:(done)). lia.
Qed.
End fence.

(** C8: optimistic concurrency.  An append is accepted exactly when the run is
    running at the epoch and the history length the worker saw; a rejected
    append writes nothing; an accepted one moves the epoch, so that the same
    append, or any other computed from the same version, is rejected after it. *)
Theorem append_fenced {PC : PayloadCodec} c db :
  ∃ res b, applyWFAppendEvents c db = Ok (RWFAppend res, b) ∧
    (res.(war_Applied) = true ↔ ∃ run, run_of c.(wac_RunID) db = Some run ∧ accepts c run) ∧
    (res.(war_Applied) = false → b = []) ∧
    (res.(war_Applied) = true → ∀ c', c'.(wac_RunID) = c.(wac_RunID) → c'.(wac_RunEpoch) = c.(wac_RunEpoch) →
       ∃ reason, applyWFAppendEvents c' (commit b db) = Ok (append_rejected reason, [])).
Proof.
  assert (Hdec : (∃ run, run_of c.(wac_RunID) db = Some run ∧ accepts c run) ∨
                 ∀ run, run_of c.(wac_RunID) db = Some run → ¬ accepts c run).
  { destruct (run_of _ db) as [run|]; [|by right].
    assert (Hd : Decision (accepts c run)) by (unfold accepts; apply _).
    destruct Hd; [left; eauto|right; by intros ? [= <-]]. }
  destruct Hdec as [(run & Hrun & Hacc)|Hno].
  - destruct (append_accepted c db run Hrun Hacc) as (next & b & run' & E & Hrun' & He & _).
    exists (mkWFAppendResult true [] next), b. split; [done|]. split; [|split; [done|]].
    { split; [eauto|done]. }
    intros _ c' Hid Hep. apply append_stale. rewrite Hid. intros run2 Hrun2 (_ & He2 & _).
    rewrite Hrun' in Hrun2. injection Hrun2 as <-. destruct Hacc as (_ & He3 & _).
    apply (incr32_differs (run_RunEpoch run)). congruence.
  - destruct (append_stale c db Hno) as [reason E].
    exists (mkWFAppendResult false reason 0), []. split; [done|]. split; [|split; done].
    split; [done|]. intros (run & Hrun & Hacc). by destruct (Hno run Hrun).
Qed.

(** ** Witnesses: a run that schedules an activity, which is then completed *)
Definition wf_demo_start : WFStartRunCmd := mkWFStartRunCmd (bs "t") (bs "n") (bs "in") 0 10.
Definition wf_demo_schedule : WFAppendEventsCmd :=
  mkWFAppendEventsCmd 1 0 1
    [mkWFEventIn HET_WORKFLOW_TASK_COMPLETED [];
     mkWFEventIn HET_ACTIVITY_SCHEDULED
       (marshal_ActivityScheduledAttrs (mkActivityScheduledAttrs (bs "a") (bs "n") (bs "x")))] 20.
Definition wf_demo_complete : WFCompleteActivityCmd := mkWFCompleteActivityCmd 1 3 true (bs "ok") 30.
Definition wf_demo_unmarshal (b : bytes) : option Command :=
  if bool_decide (b = bs "s") then Some (cmd_WFStart wf_demo_start)
  else if bool_decide (b = bs "e") then Some (cmd_WFAppend wf_demo_schedule)
  else if bool_decide (b = bs "c") then Some (cmd_WFCompleteActivity wf_demo_complete)
  else None.
Lemma wf_demo_ok log : wf_log_ok wf_demo_unmarshal log.
Proof.
  apply Forall_forall. intros l _ cmd E. unfold wf_demo_unmarshal in E.
  repeat case_bool_decide; try done; injection E as <-; split; intros x [= <-]; by split || done.
Qed.
Definition wf_demo_log : list Log := demo_log [bs "s"; bs "e"; bs "c"].
Definition wf_demo_fsm (k : nat) : FSM := (runs_to wf_demo_unmarshal demo_fsm0 (take k wf_demo_log)).2.

Lemma history_gap_free_witness :
  let nd := n_set_fsm (wf_demo_fsm 3) (demo_node ∅ 0) in
  ∃ run h, run_of 1 (wf_demo_fsm 3).(fsm_s) = Some run ∧ run.(run_CurHistorySeq) = 4 ∧
    GetRunHistory 1 nd = Some (Ok h, nd) ∧ ev_EventId <$> h = [1; 2; 3; 4].
Proof.
  intros nd. destruct (run_of 1 (wf_demo_fsm 3).(fsm_s)) as [run|] eqn:Hrun; [|by vm_compute in Hrun].
  assert (Hs : run_CurHistorySeq run = 4) by (vm_compute in Hrun; by injection Hrun as <-).
  destruct (history_gap_free wf_demo_unmarshal wf_demo_log
              (runs_to wf_demo_unmarshal demo_fsm0 wf_demo_log).1 (wf_demo_fsm 3) 1 run nd) as (h & H1 & H2 & _).
  - apply wf_demo_ok.
  - by vm_compute.
  - apply runs_to_eq. by vm_compute.
  - by vm_compute.
  - exact Hrun.
  - reflexivity.
  - exists run, h. rewrite Hs in H2. auto.
Defined.

Lemma history_append_only_witness :
  let f1 := wf_demo_fsm 2 in let f2 := (runs_to wf_demo_unmarshal f1 (drop 2 wf_demo_log)).2 in
  (∀ i ev, u64 i → hist 1 i f1.(fsm_s) = Some ev → hist 1 i f2.(fsm_s) = Some ev) ∧
  is_Some (hist 1 3 f1.(fsm_s)).
Proof.
  intros f1 f2. split; [|by vm_compute; eauto].
  destruct (history_append_only wf_demo_unmarshal (take 2 wf_demo_log) (drop 2 wf_demo_log)
    (runs_to wf_demo_unmarshal demo_fsm0 (take 2 wf_demo_log)).1 f1
    (runs_to wf_demo_unmarshal f1 (drop 2 wf_demo_log)).1 f2) as [H _].
  - apply wf_demo_ok.
  - by vm_compute.
  - apply runs_to_eq. by vm_compute.
  - apply runs_to_eq. by vm_compute.
  - intros i ev. by apply H.
Defined.

(** One entry whose answer is an append's. *)
Definition wf_step (f : FSM) (l : Log) : WFAppendResult * FSM :=
  match Apply wf_demo_unmarshal f l with
  | Some (Applied (RWFAppend r), f') => (r, f')
  | _ => (mkWFAppendResult false [] 0, f)
  end.
Lemma wf_step_eq f l : war_Applied (wf_step f l).1 = true →
  Apply wf_demo_unmarshal f l = Some (Applied (RWFAppend (wf_step f l).1), (wf_step f l).2).
Proof. unfold wf_step. by destruct (Apply _ f l) as [[[ |e|[]] f']|]. Qed.

Lemma activity_ends_once_witness :
  let l := mkLog true 3 (bs "c") in
  ∃ reason, recordActivityTerminal 1 3 true (bs "late") 99 (wf_step (wf_demo_fsm 2) l).2.(fsm_s) =
    Ok (mkWFAppendResult false reason 0, []).
Proof.
  intros l. assert (Ha : war_Applied (wf_step (wf_demo_fsm 2) l).1 = true) by (by vm_compute).
  destruct (activity_ends_once wf_demo_unmarshal (take 2 wf_demo_log) l []
    (runs_to wf_demo_unmarshal demo_fsm0 (take 2 wf_demo_log)).1 (wf_demo_fsm 2) wf_demo_complete
    (wf_step (wf_demo_fsm 2) l).1 (wf_step (wf_demo_fsm 2) l).2 [] (wf_step (wf_demo_fsm 2) l).2)
    with (failed := true) (result := bs "late") (now := 99) as (reason & _ & H).
  - apply wf_demo_ok.
  - by vm_compute.
  - apply runs_to_eq. by vm_compute.
  - reflexivity.
  - by apply wf_step_eq.
  - exact Ha.
  - reflexivity.
  - by exists reason.
Defined.
