(* ===== verification/Singleton.v ===== *)
(** * Singleton leases are fenced

    A singleton's record is written by [applySingleton] alone.  Along a log its
    fence only grows, every grant gets a fence above all earlier ones, a holder
    whose lease is live excludes the others, and a holder that was superseded can
    neither renew nor release. *)

From S2P Require Import Prelude Keys Data Store Backoff Publish Workflow Broker Control Auth Timers Fsm Commands Demo Reason Structure Accounting AccountingOps AccountingLog FsmProps Quiet.

Implicit Types (db : store) (b : batch) (name : bytes).

(** Only a singleton command writes the table. *)
Lemma dispatch_off {PC : PayloadCodec} cmd db (r : ApplyResult) (b : batch) : dispatch cmd db = Some (Ok (r, b)) →
  (∃ c, cmd.(c_Singleton) = Some c ∧ cmd.(c_Type) = CmdSingleton ∧ applySingleton c db = Ok (r, b)) ∨
  Forall (off tagSingleton) b.
Proof.
  intros [H|[[_ H]|H]]%(dispatch_quiet tagSingleton); [by left|right|by right|by left].
  by eapply auth_off.
Qed.

(** ** The record *)
Definition sing name db : option SingletonRec := GetProto (SingletonKey name) db.
Definition fence name db : N := match sing name db with Some rec => rec.(sr_Fence) | None => 0 end.

Lemma sing_off b name db : Forall (off tagSingleton) b → sing name (commit b db) = sing name db.
Proof.
  intros Hb. unfold sing. revert db. induction Hb as [|o b Ho Hb IH]; intros db; [done|].
  rewrite commit_cons, IH. unfold off in Ho.
  destruct o as [k v|k]; cbn [apply_bop bop_key] in *;
    [apply GetProto_insert_ne|apply GetProto_delete_ne]; intros ->; by apply Ho.
Qed.
Lemma sing_put (rec : SingletonRec) name name' db :
  sing name' (commit [BSet (SingletonKey name) (row_in rec)] db) =
  if decide (name = name') then Some rec else sing name' db.
Proof.
  unfold sing, commit. cbn [foldl apply_bop]. case_decide as Hn.
  - subst. apply GetProto_insert.
  - apply GetProto_insert_ne. intros [= E]. done.
Qed.

(** Someone else holds the singleton and its lease is live. *)
Definition held_by_other (c : SingletonCmd) db : Prop :=
  ∃ rec, sing c.(sg_Name) db = Some rec ∧ rec.(sr_Holder) ≠ [] ∧ c.(sg_NowMs) < rec.(sr_DeadlineMs) ∧
         rec.(sr_Holder) ≠ c.(sg_Holder).
(** The caller is the recorded holder, at the fence it presents. *)
Definition presents_fence (c : SingletonCmd) db : Prop :=
  ∃ rec, sing c.(sg_Name) db = Some rec ∧ rec.(sr_Holder) = c.(sg_Holder) ∧ rec.(sr_Fence) = c.(sg_Fence).

(** What each operation answers and leaves. *)
Definition acquires (c : SingletonCmd) db (r : ApplyResult) db' : Prop :=
  (held_by_other c db → ∃ h, r = RSingleton false (fence c.(sg_Name) db) h ∧ db' = db) ∧
  (¬ held_by_other c db →
     let rec := mkSingletonRec c.(sg_Name) c.(sg_Holder) (add64 c.(sg_NowMs) c.(sg_TTLms))
                  (incr64 (fence c.(sg_Name) db)) in
     r = RSingleton true rec.(sr_Fence) c.(sg_Holder) ∧ sing c.(sg_Name) db' = Some rec).
Definition renews (c : SingletonCmd) db (r : ApplyResult) db' : Prop :=
  (presents_fence c db → r = RSingleton true c.(sg_Fence) c.(sg_Holder) ∧
     sing c.(sg_Name) db' = Some (mkSingletonRec (default [] (sr_Name <$> sing c.(sg_Name) db))
       c.(sg_Holder) (add64 c.(sg_NowMs) c.(sg_TTLms)) c.(sg_Fence))) ∧
  (¬ presents_fence c db → ∃ h, r = RSingleton false (fence c.(sg_Name) db) h ∧ db' = db).
Definition releases (c : SingletonCmd) db (r : ApplyResult) db' : Prop :=
  (presents_fence c db → r = RSingleton true 0 [] ∧
     sing c.(sg_Name) db' = Some (mkSingletonRec (default [] (sr_Name <$> sing c.(sg_Name) db)) [] 0 c.(sg_Fence))) ∧
  (¬ presents_fence c db → r = RSingleton false 0 [] ∧ db' = db).

Lemma applySingleton_acquires c db r b :
  c.(sg_Op) = SingletonAcquire → applySingleton c db = Ok (r, b) → acquires c db r (commit b db).
Proof.
  intros Hop E. unfold applySingleton in E. rewrite Hop in E.
  change (SingletonAcquire =? SingletonAcquire) with true in E. cbv iota in E.
  apply bind_Ok in E as (rec & b1 & b2 & [-> ->]%gets_Ok & E & ->). cbn [app] in *.
  fold (sing (sg_Name c) db) in E. cbv zeta in E. unfold acquires, held_by_other, fence.
  destruct (sing (sg_Name c) db) as [rec|] eqn:Es; cbn in E.
  2:{ minv E. split; [by intros (? & ? & _)|]. intros _. split; [done|]. by rewrite (sing_put _ _ _ db), decide_True. }
  destruct (nonempty (sr_Holder rec) && _ && _) eqn:Eh; minv E.
  - apply andb_true_iff in Eh as [Eh Ho]. apply andb_true_iff in Eh as [Eh Hd]. apply N.ltb_lt in Hd.
    apply negb_true_iff, bool_decide_eq_false in Ho.
    split; [intros _; eauto|]. intros []. exists rec. split_and!; try done. by destruct (sr_Holder rec).
  - split.
    + intros (rec' & [= <-] & Hn & Hd & Ho). exfalso.
      rewrite (proj2 (N.ltb_lt _ _) Hd), bool_decide_eq_false_2, andb_true_r in Eh by done.
      by destruct (sr_Holder rec).
    + intros _. split; [done|]. by rewrite (sing_put _ _ _ db), decide_True.
Qed.

Definition presents (c : SingletonCmd) db : bool :=
  match sing c.(sg_Name) db with
  | Some rec => bool_decide (rec.(sr_Holder) = c.(sg_Holder)) && (rec.(sr_Fence) =? c.(sg_Fence))
  | None => false
  end.
Lemma presents_fence_spec c db : presents_fence c db ↔ presents c db = true.
Proof.
  unfold presents_fence, presents. destruct (sing _ db) as [rec|]; [|naive_solver].
  rewrite andb_true_iff, bool_decide_eq_true, N.eqb_eq. naive_solver.
Qed.
#[export] Instance presents_fence_decision c db : Decision (presents_fence c db).
Proof. destruct (presents c db) eqn:E; [left|right]; rewrite presents_fence_spec, E; done. Defined.

Lemma applySingleton_renews c db r b :
  c.(sg_Op) = SingletonRenew → applySingleton c db = Ok (r, b) → renews c db r (commit b db).
Proof.
  intros Hop E. unfold applySingleton in E. rewrite Hop in E.
  change (SingletonRenew =? SingletonAcquire) with false in E.
  change (SingletonRenew =? SingletonRenew) with true in E. cbv iota in E.
  apply bind_Ok in E as (rec & b1 & b2 & [-> ->]%gets_Ok & E & ->). cbn [app] in *.
  fold (sing (sg_Name c) db) in E. cbv zeta in E. unfold renews, fence. rewrite presents_fence_spec. unfold presents.
  destruct (sing (sg_Name c) db) as [rec|] eqn:Es; cbn in E; [|minv E; split; [done|eauto]].
  destruct (bool_decide_reflect (sr_Holder rec = sg_Holder c)) as [Hh|Hh]; cbn in *;
    [|minv E; split; [done|eauto]].
  destruct (N.eqb_spec (sr_Fence rec) (sg_Fence c)) as [Hf|Hf]; cbn in *; minv E; split; try done; eauto.
  intros _. split; [by rewrite Hf|]. rewrite (sing_put _ _ _ db), decide_True by done.
  unfold sr_set_DeadlineMs. by rewrite Hh, Hf.
Qed.

Lemma applySingleton_releases c db r b :
  c.(sg_Op) = SingletonRelease → applySingleton c db = Ok (r, b) → releases c db r (commit b db).
Proof.
  intros Hop E. unfold applySingleton in E. rewrite Hop in E.
  change (SingletonRelease =? SingletonAcquire) with false in E.
  change (SingletonRelease =? SingletonRenew) with false in E.
  change (SingletonRelease =? SingletonRelease) with true in E. cbv iota in E.
  apply bind_Ok in E as (rec & b1 & b2 & [-> ->]%gets_Ok & E & ->). cbn [app] in *.
  fold (sing (sg_Name c) db) in E. cbv zeta in E. unfold releases. rewrite presents_fence_spec. unfold presents.
  destruct (sing (sg_Name c) db) as [rec|] eqn:Es; cbn in E; [|minv E; split; [done|eauto]].
  destruct (bool_decide_reflect (sr_Holder rec = sg_Holder c)) as [Hh|Hh]; cbn in *;
    [|minv E; split; [done|eauto]].
  destruct (N.eqb_spec (sr_Fence rec) (sg_Fence c)) as [Hf|Hf]; cbn in *; minv E; split; try done; eauto.
  intros _. split; [done|]. rewrite (sing_put _ _ _ db), decide_True by done.
  unfold sr_set_DeadlineMs, sr_set_Holder. cbn. by rewrite Hf.
Qed.

(** Every write keeps the fence or adds one to it. *)
Lemma applySingleton_shape c db r b : applySingleton c db = Ok (r, b) →
  b = [] ∨ ∃ rec, b = [BSet (SingletonKey c.(sg_Name)) (row_in rec)] ∧
    (rec.(sr_Fence) = fence c.(sg_Name) db ∨ rec.(sr_Fence) = incr64 (fence c.(sg_Name) db)).
Proof.
  intros E. unfold applySingleton in E.
  apply bind_Ok in E as (rec & b1 & b2 & [-> ->]%gets_Ok & E & ->). cbn [app] in *.
  fold (sing (sg_Name c) db) in E. cbv zeta in E. unfold fence.
  destruct (sing (sg_Name c) db) as [rec|] eqn:Es; cbn in E; minv E; auto;
    right; eexists; (split; [reflexivity|]); cbn; auto.
Qed.

Section log.
Context {PC : PayloadCodec}.
Variable um : bytes → option Command.
Implicit Types (f : FSM) (l : Log).

Lemma fence_Apply name f l (r : response) f' : fence name f.(fsm_s) + 1 < two64 →
  Apply um f l = Some (r, f') →
  fence name f.(fsm_s) ≤ fence name f'.(fsm_s) ∧ fence name f'.(fsm_s) ≤ fence name f.(fsm_s) + 1.
Proof.
  intros Hn [[-> _]|(_ & cmd & res & b & _ & Hd & _ & ->)]%Apply_cases; [lia|]. cbn [fsm_s].
  assert (Hidx : sing name (commit (b ++ [BSet appliedIndexKey (VRaw (u64b (log_Index l)))]) (fsm_s f)) =
    sing name (commit b (fsm_s f))).
  { rewrite commit_app. apply sing_off. repeat constructor. by intros [=]. }
  unfold fence at 2 3. rewrite Hidx. fold (fence name (commit b (fsm_s f))).
  apply dispatch_off in Hd as [(c & _ & _ & E)|Ho].
  2:{ unfold fence in *. rewrite sing_off by done. lia. }
  apply applySingleton_shape in E as [->|(rec & -> & Hrec)]; [cbn; lia|].
  unfold fence at 2 3. rewrite sing_put. case_decide as Hname; [subst name|unfold fence in *; lia].
  destruct Hrec as [-> | ->]; [lia|]. unfold incr64, add64. rewrite wrap64_small by lia. lia.
Qed.

Lemma fence_applyLog name f log rs f' :
  fence name f.(fsm_s) + N.of_nat (length log) < two64 → applyLog um f log = Some (rs, f') →
  fence name f.(fsm_s) ≤ fence name f'.(fsm_s) ∧
  fence name f'.(fsm_s) ≤ fence name f.(fsm_s) + N.of_nat (length log).
Proof.
  revert f rs. induction log as [|l log IH]; intros f rs Hn; cbn [applyLog length] in *.
  { intros [= _ <-]. lia. }
  destruct (Apply um f l) as [[r f1]|] eqn:E; [|done].
  destruct (applyLog um f1 log) as [[rs' f2]|] eqn:E2; [|done]. intros [= _ <-].
  apply (fence_Apply name) in E; [|lia]. apply IH in E2; lia.
Qed.

(** A singleton command of the log is its handler. *)
Lemma Apply_singleton f l c r f' :
  um l.(log_Data) = Some (cmd_Singleton c) → Apply um f l = Some (Applied r, f') →
  ∃ b, applySingleton c f.(fsm_s) = Ok (r, b) ∧
    ∀ name, sing name f'.(fsm_s) = sing name (commit b f.(fsm_s)).
Proof.
  intros Hu [[_ [[e ?]|?]]|(_ & cmd & res & b & Hu' & Hd & [= ->] & ->)]%Apply_cases; [done|done|].
  rewrite Hu in Hu'. injection Hu' as <-. rewrite dispatch_Singleton in Hd. injection Hd as Hd.
  exists b. split; [done|]. intros name. cbn [fsm_s]. rewrite commit_app. apply sing_off.
  repeat constructor. by intros [=].
Qed.
End log.

(** C15: Singleton leases are fenced.  Let [f1] be reached from [f] by any log of
    commands, and apply one more singleton command there.  Fences only grow.  An
    acquire is granted exactly when nobody else holds a live lease, and its fence
    is above every fence granted up to [f]; a refusal changes nothing.  A renew or
    a release succeeds exactly for the recorded holder at the recorded fence: a
    caller whose fence dates from [f] is refused once any other grant was made
    since. *)
Theorem singleton_fenced {PC : PayloadCodec} um f log rs f1 l c r f2 :
  applyLog um f log = Some (rs, f1) →
  fence c.(sg_Name) f.(fsm_s) + N.of_nat (length log) + 1 < two64 →
  um l.(log_Data) = Some (cmd_Singleton c) → Apply um f1 l = Some (Applied r, f2) →
  let name := c.(sg_Name) in let db := f1.(fsm_s) in
  fence name f.(fsm_s) ≤ fence name db ∧ fence name db ≤ fence name f2.(fsm_s) ∧
  (c.(sg_Op) = SingletonAcquire →
     (held_by_other c db → ∃ h, r = RSingleton false (fence name db) h ∧ sing name f2.(fsm_s) = sing name db) ∧
     (¬ held_by_other c db → fence name f.(fsm_s) < fence name f2.(fsm_s) ∧
        r = RSingleton true (fence name f2.(fsm_s)) c.(sg_Holder) ∧
        sing name f2.(fsm_s) = Some (mkSingletonRec name c.(sg_Holder)
          (add64 c.(sg_NowMs) c.(sg_TTLms)) (fence name db + 1)))) ∧
  (c.(sg_Op) = SingletonRenew ∨ c.(sg_Op) = SingletonRelease →
     (presents_fence c db ↔ ∃ F h, r = RSingleton true F h) ∧
     (¬ presents_fence c db → sing name f2.(fsm_s) = sing name db) ∧
     (c.(sg_Fence) ≤ fence name f.(fsm_s) → fence name f.(fsm_s) < fence name db → ¬ presents_fence c db)).
Proof.
  intros Hlog Hn Hu HA name db.
  destruct (fence_applyLog um name f log rs f1) as [Hle Hup]; [unfold name; lia|done|].
  destruct (fence_Apply um name f1 l (Applied r) f2) as [Hle2 _]; [unfold name in *; lia|done|].
  apply (Apply_singleton um f1 l c) in HA as (b & E & Hs); [|done].
  change (fsm_s f1) with db in Hs. split; [done|]. split; [done|]. split.
  - intros Hop. destruct (applySingleton_acquires c db r b Hop E) as [Hh Hf]. split.
    + intros H. destruct (Hh H) as (h & -> & Hb). exists h. split; [done|]. by rewrite Hs, Hb.
    + intros H. destruct (Hf H) as [Hr Hrec].
      assert (Hinc : incr64 (fence name db) = fence name db + 1).
      { unfold incr64, add64. apply wrap64_small. unfold name, db in *. lia. }
      assert (Hf2 : fence name (fsm_s f2) = fence name db + 1).
      { unfold fence at 1. rewrite Hs. unfold name, db in *. rewrite Hrec. exact Hinc. }
      rewrite Hf2, Hr. split; [unfold db; lia|]. fold name. cbn [sr_Fence]. rewrite Hinc. split; [done|].
      rewrite Hs. unfold name, db in *. by rewrite Hrec, Hinc.
  - intros Hop. assert (Hstale : c.(sg_Fence) ≤ fence name (fsm_s f) → fence name (fsm_s f) < fence name db →
      ¬ presents_fence c db).
    { intros H1 H2 (rec & Hrec & _ & Hf). unfold fence in H2 at 2. unfold name in *. rewrite Hrec in H2. lia. }
    destruct Hop as [Hop|Hop].
    + destruct (applySingleton_renews c db r b Hop E) as [H1 H2]. split_and!; [split| |done].
      * intros H. destruct (H1 H) as [-> _]. eauto.
      * intros (F & h & ->). apply dec_stable. intros H. by destruct (H2 H) as (? & ? & _).
      * intros H. destruct (H2 H) as (h & _ & Hb). by rewrite Hs, Hb.
    + destruct (applySingleton_releases c db r b Hop E) as [H1 H2]. split_and!; [split| |done].
      * intros H. destruct (H1 H) as [-> _]. eauto.
      * intros (F & h & ->). apply dec_stable. intros H. by destruct (H2 H) as [? _].
      * intros H. destruct (H2 H) as [_ Hb]. by rewrite Hs, Hb.
Qed.

(** ** Witness: a's lease runs out, b takes over, a's renewal comes late *)
Definition demo_singleton (op : N) (holder : bytes) (fc now : N) : SingletonCmd :=
  mkSingletonCmd op (bs "job") holder 10 fc now.
Definition demo_singletons (b : bytes) : option Command :=
  match b with
  | "a"%char :: _ => Some (cmd_Singleton (demo_singleton SingletonAcquire (bs "a") 0 1))
  | "b"%char :: _ => Some (cmd_Singleton (demo_singleton SingletonAcquire (bs "b") 0 20))
  | "r"%char :: _ => Some (cmd_Singleton (demo_singleton SingletonRenew (bs "a") 1 21))
  | _ => None
  end.

Lemma singleton_fenced_witness :
  let f := (runs_to demo_singletons demo_fsm0 [mkLog true 1 (bs "a")]).2 in
  let f1 := (runs_to demo_singletons f [mkLog true 2 (bs "b")]).2 in
  fence (bs "job") f1.(fsm_s) = 2 ∧
  ¬ presents_fence (demo_singleton SingletonRenew (bs "a") 1 21) f1.(fsm_s).
Proof.
  intros f f1. split; [by vm_compute|].
  destruct (singleton_fenced demo_singletons f [mkLog true 2 (bs "b")]
    (runs_to demo_singletons f [mkLog true 2 (bs "b")]).1 f1 (mkLog true 3 (bs "r"))
    (demo_singleton SingletonRenew (bs "a") 1 21) (RSingleton false 2 (bs "b"))
    (runs_to demo_singletons f1 [mkLog true 3 (bs "r")]).2) as (_ & _ & _ & Hr).
  - apply runs_to_eq. by vm_compute.
  - by vm_compute.
  - reflexivity.
  - vm_compute. reflexivity.
  - destruct Hr as (_ & _ & Hr); [by left|]. apply Hr; by vm_compute.
Defined.
