(* ===== verification/Counterexamples.v ===== *)
(** * Behaviours a reader would not expect

    Computed runs of the model that show what the code does where a comment, a
    name or the design suggests otherwise. *)

From S2P Require Import Prelude GoStrings Keys Data Store Publish Workflow Broker Control Auth Timers Fsm Commands Float Fairness Meter Policy Scheduler Hash Node NodeControl NodeStats NodeAuth Transport Work Http Demo SchedulerProps BrokerProps NodeProps NodeDemo NodeAuthProps NodeLease WorkProps HttpProps GoNumbers Flags Client Doctor Load Cli CliProps LoadRuns Start Serve ServeProps Paths Backup BackupProps.

(** The store after a sequence of commands, failing ones skipped. *)
Fixpoint exec (cmds : list Command) (db : store) : store :=
  match cmds with
  | [] => db
  | c :: cs =>
      exec cs (match dispatch c db with Some (Ok (_, b)) => commit b db | _ => db end)
  end.
Definition messages (lane group : bytes) (db : store) : list Message :=
  let lo := MessagePrefix lane group in decodeRows (NewIter lo (PrefixEnd lo) db).
Definition payloads (lane group : bytes) (db : store) : list bytes := m_Payload <$> messages lane group db.

(** ** Crons *)
Definition cron_at (next : N) : Command :=
  cmd_Cron (mkCronCmd CronSchedule (bs "job") (bs "l") (bs "g") (bs "tick") ∅ (bs "@hourly") next 0).
Definition fire_cron (at_ next : N) : Command := cmd_FireCron (mkFireCronCmd (bs "job") at_ next).

(** Re-scheduling leaves the previous due row; the sweep finds it due forever
    and publishes the job at every tick. *)
Example cron_reschedule_runs_away :
  let db := exec [cron_at 200; cron_at 100; fire_cron 250 1000; fire_cron 250 1000; fire_cron 250 1000] ∅ in
  is_Some (db !! TimeIndexKey 200 TimerCronDue (CronDueRef (bs "job"))) ∧
  payloads (bs "l") (bs "g") db = [bs "tick"; bs "tick"; bs "tick"].
Proof. split; vm_compute; [eauto|reflexivity]. Qed.

(** The same fire twice publishes twice. *)
Example cron_fire_not_idempotent :
  payloads (bs "l") (bs "g") (exec [cron_at 100; fire_cron 100 200; fire_cron 100 200] ∅) = [bs "tick"; bs "tick"].
Proof. vm_compute. reflexivity. Qed.

(** ** Group ids start over *)
Definition publish_ttl (payload : bytes) (now ttl : N) : Command :=
  cmd_Publish (mkPublishCmd (bs "l") (bs "g") payload ∅ f64_zero false 0 false 3 0 ttl now false [] [] 0).
Definition lease_head : Command := cmd_Lease (demo_lease 100).

(** A reaped group's next message has id 1 again, and the expiry timer of the
    old message 1, which an ack does not remove, dead-letters the new one. *)
Example stale_ttl_kills_new_message :
  let expire := cmd_Fire (mkFireTimerCmd TimerMsgExpiry 60 (ReadyAtRef (bs "l") (bs "g") 1) 60) in
  let db := exec [publish_ttl (bs "old") 10 60; lease_head; cmd_Ack (mkAckCmd 1);
                  cmd_ReapGroup (mkReapGroupCmd (bs "l") (bs "g")); publish_ttl (bs "new") 50 0] ∅ in
  payloads (bs "l") (bs "g") db = [bs "new"] ∧
  payloads (bs "l") (bs "g") (exec [expire] db) = [] ∧ CountDLQ (bs "l") (exec [expire] db) = 1%nat.
Proof. vm_compute. auto. Qed.

(** After a teardown with a leased message the next publish takes its id: the
    late ack of the old message deletes the new one. *)
Example teardown_ack_deletes_new_message :
  let db := exec [publish_ttl (bs "old") 10 0; lease_head; cmd_Teardown (mkTeardownCmd (bs "g"));
                  publish_ttl (bs "new") 50 0] ∅ in
  payloads (bs "l") (bs "g") db = [bs "new"] ∧ payloads (bs "l") (bs "g") (exec [cmd_Ack (mkAckCmd 1)] db) = [].
Proof. vm_compute. auto. Qed.

(** ** Workflow appends read the committed counters *)
Definition start_run : Command := cmd_WFStart (mkWFStartRunCmd (bs "t") (bs "n") (bs "in") 0 10).
Definition append_two (typ : Z) (a b : bytes) : Command :=
  cmd_WFAppend (mkWFAppendEventsCmd 1 0 1 [mkWFEventIn typ a; mkWFEventIn typ b] 20).

(** Two activities of one type scheduled together: one task. *)
Example two_activities_one_task :
  let act x := marshal_ActivityScheduledAttrs (mkActivityScheduledAttrs (bs "a") (bs "n") x) in
  length (messages (ActivityLanePrefix ++ bs "a") (bs "n")
    (exec [start_run; append_two HET_ACTIVITY_SCHEDULED (act (bs "x")) (act (bs "y"))] ∅)) = 1%nat.
Proof. vm_compute. reflexivity. Qed.

(** Two continuations in one append: one run, with the second input. *)
Example two_continuations_one_run :
  let db := exec [start_run; append_two HET_WORKFLOW_CONTINUED_AS_NEW (bs "x") (bs "y")] ∅ in
  run_Input <$> decodeRows (A:=WorkflowRun) (NewIter WFRunBounds.1 (Some WFRunBounds.2) db) = [bs "in"; bs "y"].
Proof. vm_compute. reflexivity. Qed.

(** ** Scheduling and policies *)
Definition view (weight vt : Z) : GroupView :=
  mkGroupView [] (f64_of_Z weight) 1 1 0 f64_zero (f64_of_Z vt) 0.

(** Strict priority is inverted once virtual times differ by more than a
    million per unit of weight. *)
Example strict_priority_inverted : f64_ltb (strictScore (view 2 3000000)) (strictScore (view 1 0)) = true.
Proof. vm_compute. reflexivity. Qed.

(** A WASM policy whose [score] returns nothing panics the validation. *)
Definition silent_engines : PolicyEngines := {|
  celProgram := unit; cel_Program _ _ _ := Ok tt; cel_Eval _ _ := Ok CelOther;
  wasmModule := unit; wasm_Instantiate _ _ _ := Ok tt; wasm_Exported _ _ := true;
  wasm_Call _ _ _ _ := (Ok [], tt); EncodeF64 _ := 0%N; DecodeF64 _ := f64_zero |}.
Example silent_wasm_panics : Validate (PE := silent_engines) (mkBinding KindWASM (bs "code") 1 []) = None.
Proof. vm_compute. reflexivity. Qed.

(** ** Listings and reaping *)

(** A page token below the lane's prefix lists another lane's dead letters,
    under the asked lane's name. *)
Example page_token_crosses_lanes :
  let db := exec [publish_ttl (bs "secret") 10 0; lease_head; cmd_Nack (mkNackCmd 1 NackDeadLetter 0 ∅ 20)] ∅ in
  (λ d, (dli_Lane d, dli_Payload d)) <$> (ListDeadLetters (bs "z") 10 (hex_encode [tagDLQ]) db).1 =
    [(bs "z", bs "secret")].
Proof. vm_compute. reflexivity. Qed.

(** A clock behind the group's last activity wraps: the group is reaped at once. *)
Example reap_clock_behind :
  reapTarget 5 60000 (gm_set_LastActivityMs 6 (gm_default (bs "l") (bs "g"))) = true.
Proof. vm_compute. reflexivity. Qed.

(** A group that was idle keeps its old virtual time: when it returns it is
    served alone until it has caught up. *)
Definition serve_or (lane : bytes) (active : list GroupStat) (times : list Z) (s : gmap bytes laneState) :
    list bytes * gmap bytes laneState :=
  default ([], s) (serve (PE := demo_engines) lane active times s).
Example returning_group_monopolises :
  let a := mkGroupStat (bs "a") 9 0 f64_one in let b := mkGroupStat (bs "b") 9 0 f64_one in
  let s := (serve_or (bs "l") [a] [3; 4; 5; 6]%Z (serve_or (bs "l") [a; b] [1; 2]%Z NewScheduler).2).2 in
  (serve_or (bs "l") [a; b] [7; 8; 9; 10]%Z s).1 = [bs "b"; bs "b"; bs "b"; bs "b"].
Proof. vm_compute. reflexivity. Qed.

(** ** Remote calls *)

(** A publish without a message passes the authorization check and then
    dereferences nil: the node panics. *)
Example empty_publish_crashes : unaryCall (W := demo_world) None (Req_Publish None) (demo_node ∅ 5) = None.
Proof. reflexivity. Qed.

(** A principal that may consume the given lane and groups. *)
Definition consumer (lane group_pattern : bytes) : AuthPrincipal :=
  mkAuthPrincipal (bs "eve") false [] [mkAuthGrant lane group_pattern [AUTH_CONSUME] []]
    (Some (mkAuthTokenInfo (bs "id") demo_salt (saltedTokenHash demo_salt (bs "tok")) 0 0)) 0 0.
Definition with_consumer (lane group_pattern : bytes) (db : store) : store :=
  <[AuthPrincipalKey (bs "eve") := VPrincipal (consumer lane group_pattern)]> db.
Definition ask (lane : bytes) : WorkEvent := Ev_Recv (Ok (Msg_LeaseRequest (demo_lease_request lane 1))).
(** A stream of events, all on the same node. *)
Definition on_node (n : Node (W := demo_world)) (evs : list WorkEvent) : option outcome :=
  workRun demo_md newStream (pair n <$> evs).

(** Settlement frames are not tied to the authorized lane: a consumer of lane "m"
    acks the lease of lane "l", and its message is gone. *)
Example ack_of_another_lane :
  let n := demo_node (with_consumer (bs "m") [] demo_leased) 50 in
  ∃ s, on_node n [ask (bs "m"); Ev_Frame demo_net; Ev_Recv (Ok (Msg_Ack 1))] = Some ([], s, None) ∧
    payloads (bs "l") (bs "g") n.(n_fsm).(fsm_s) = [bs "a"; bs "b"] ∧
    match workStep demo_md (Ev_Frame demo_net) s n with
    | Some (_, n') => payloads (bs "l") (bs "g") n'.(n_fsm).(fsm_s) = [bs "b"]
    | None => False
    end.
Proof. eexists. split; [vm_compute; reflexivity|]. split; vm_compute; reflexivity. Qed.

(** Topping up the credit without naming the lane again keeps the lane in the
    handler, but the frame is authorized for the empty lane and refused. *)
Example top_up_is_refused :
  let n := demo_node (with_consumer (bs "l") [] demo_ready) 50 in
  ∃ s, on_node n [ask (bs "l"); ask []] = Some ([], s, None) ∧
    s.(ws_recvCh) = [Msg_LeaseRequest (demo_lease_request (bs "l") 1)] ∧ is_Some s.(ws_errCh).
Proof. eexists. split; [vm_compute; reflexivity|]. split; [vm_compute; reflexivity|vm_compute; eauto]. Qed.

(** A text engine that also knows the pattern [^a*$]. *)
#[local] Instance star_text : Text := {|
  regexp_ok _ := true;
  regexp_match p s :=
    if bool_decide (p = bs "^a*$") then forallb (λ c, bool_decide (c = "a"%char)) s
    else bool_decide (p = bs ".*") || bool_decide (p = s);
  ToLower s := s; denial_reason _ := bs "denied" |}.

(** A whole-lane subscription is authorized by matching the group pattern
    against the empty string: a consumer of the groups [^a*$] is handed a message
    of group "g". *)
Example whole_lane_by_the_empty_group :
  let db := with_consumer (bs "l") (bs "^a*$") demo_ready in
  let n := demo_node db 50 in
  admits (T := star_text) demo_md db [mkAuthCheck AUTH_CONSUME (bs "l") (bs "g")] = false ∧
  match workRun (T := star_text) demo_md newStream [(n, ask (bs "l")); (n, Ev_Frame demo_net)] with
  | Some ([Srv_Lease lr], _, None) => lr.(lr_GroupID) = bs "g"
  | _ => False
  end.
Proof. split; vm_compute; reflexivity. Qed.

(** ** The gateway *)

(** Peeking a group named "groups": [strings.LastIndex] finds the second "/groups/", the
    slice bounds cross, and the handler panics. *)
Example peek_of_groups_panics :
  httpHandler (W := demo_world) (demo_get (bs "/api/lanes/x/groups/groups/messages")) (demo_node ∅ 5) = None.
Proof. reflexivity. Qed.

(** ** Singletons *)

(** An acquire with an empty holder grants a fence and excludes nobody: within its
    lease the next holder acquires at once. *)
Definition acquire (h : bytes) (now : N) : Command :=
  cmd_Singleton (mkSingletonCmd SingletonAcquire (bs "s") h 1000 0 now).
Definition answer (cmd : Command) (db : store) : option ApplyResult :=
  match dispatch cmd db with Some (Ok (r, _)) => Some r | _ => None end.
Example empty_holder_excludes_nobody :
  answer (acquire [] 10) ∅ = Some (RSingleton true 1 []) ∧
  answer (acquire (bs "h") 11) (exec [acquire [] 10] ∅) = Some (RSingleton true 2 (bs "h")).
Proof. vm_compute. auto. Qed.

(** ** The command line *)

(** Forcing a lease to expire sends the nack and ends the stream; the handler may
    pick the end of the stream before the queued nack.  The client then reports
    the lease as expired, and the message is still leased. *)
Definition force_expire : list WorkEvent := (λ r, Ev_Recv r) <$> forceExpireFrames 1 0.
Example force_expire_reports_too_early :
  let n := demo_node demo_leased 50 in
  match on_node n (force_expire ++ [Ev_Frame demo_net; Ev_Err]) with
  | Some (outs, s, Some e) =>
      forceExpireVerdict 1 0 outs e = Ok (Out_ForceExpired 1 0) ∧ length s.(ws_recvCh) = 1%nat
  | _ => False
  end ∧
  m_State <$> messages (bs "l") (bs "g") n.(n_fsm).(fsm_s) = [LEASED; READY].
Proof. vm_compute. auto. Qed.
(** The nack of an unknown lease is reported as a success as well. *)
Example force_expire_of_nothing :
  match on_node (demo_node ∅ 50) (((λ r, Ev_Recv r) <$> forceExpireFrames 99 0) ++ [Ev_Frame demo_net; Ev_Frame demo_net; Ev_Err]) with
  | Some (outs, _, Some e) => forceExpireVerdict 99 0 outs e = Ok (Out_ForceExpired 99 0)
  | _ => False
  end.
Proof. vm_compute. auto. Qed.

(** A grant specification is split at its first two colons: a colon inside a
    pattern moves the parts. *)
Example grant_spec_splits_patterns :
  parseGrantSpec (bs "(?:a|b):g:read") = Err (bs "unknown auth action g:read") ∧
  parseGrantSpec (bs "a:g:read") = Ok (mkAuthGrant (bs "a") (bs "g") [AUTH_READ] []).
Proof. vm_compute. auto. Qed.

(** A flag without a value shifts every later pair: the token is dropped, and the
    server starts without authorization. *)
Example stray_flag_drops_the_token :
  (serveFlags [bs "--dev"; bs "--bootstrap-admin-token"; bs "sesame"] defaultServe).(so_token) = [] ∧
  (serveFlags [bs "--bootstrap-admin-token"; bs "sesame"] defaultServe).(so_token) = bs "sesame".
Proof. vm_compute. auto. Qed.
(** A negative visibility wraps around. *)
Example negative_visibility_wraps :
  (serveFlags [bs "--visibility"; bs "-1"] defaultServe).(so_cfg).(cfg_VisibilityMs) = two64 - 1000.
Proof. vm_compute. reflexivity. Qed.
(** An unset variable or an empty file gives no token, and with no token the server
    serves at once, open to everybody, also on a node whose replica knows no
    principals yet. *)
Example missing_token_serves_open :
  let n := demo_node ∅ 5 in
  bootstrapToken [] [] (bs "ROTA_BOOTSTRAP_ADMIN_TOKEN") = Ok [] ∧
  match cmdServe (W := demo_world) (RB := demo_boot) [bs "--bootstrap-admin-env"; bs "ROTA_BOOTSTRAP_ADMIN_TOKEN"] [] (mkdemo 5 1000) [(n, true)] n [] with
  | Some (Ok (n2, _)) => AuthEnabled n2.(n_fsm).(fsm_s) = false
  | _ => False
  end.
Proof. vm_compute. auto. Qed.

(** ** Backups *)

(** A forced restore overwrites the files the archive names and keeps the others:
    the directory is a mixture, not the backup. *)
Example forced_restore_mixes :
  let before := <[[bs "data"; bs "old.log"] := F_File (bs "stale")]> demo_created in
  match restoreBackupArchive (bs "/out/b.tgz") (bs "/data") true before with
  | (f, Ok _) => f !! [bs "data"; bs "old.log"] = Some (F_File (bs "stale"))
  | _ => False
  end.
Proof. vm_compute. reflexivity. Qed.
(** Nothing can be restored into the root directory: every entry is refused. *)
Example restore_into_root_refused :
  (restoreBackupArchive (bs "/out/b.tgz") (bs "/") true demo_created).2 = Err (bs "unsafe backup path").
Proof. vm_compute. reflexivity. Qed.

(** ** The command line *)

(** The grant's index is cut to 32 bits: revoking grant 4294967296, which no
    principal has, revokes grant 0, and the line printed names the index typed. *)
Lemma revoke_index_wraps {PC : PayloadCodec} {PE : PolicyEngines} {W : World} {T : Text} {CE : ClientEnv} o name n :
  (cmdAuthRevoke o name two32;; mret ()) n = (cmdAuthRevoke o name 0;; mret ()) n.
Proof.
  unfold cmdAuthRevoke. change (wrap32 two32) with (wrap32 0). set (req := Req_RevokePrincipalGrant name _).
  unfold withClients. destruct (requireFlag _ _), (dialClients _) as [|]; try done.
  unfold lift, mbind, NM_bind. by destruct (rpc _ req n) as [[[]]|].
Qed.
(** The first word that is no flag ends the flags, and nothing looks at the rest: a
    duration after it is lost, and the lane is paused until it is resumed. *)
Example flags_after_a_word_are_lost :
  parseLanePause [bs "--lane"; bs "jobs"; bs "now"; bs "--duration"; bs "60s"] =
    Ok (mkclientOptions defaultGRPCAddr 5000000000 [] [] [], Op_LanePause (bs "jobs") 0) ∧
  parseLanePause [bs "--lane"; bs "jobs"; bs "--duration"; bs "60s"; bs "now"] =
    Ok (mkclientOptions defaultGRPCAddr 5000000000 [] [] [], Op_LanePause (bs "jobs") 60000000000).
Proof. vm_compute. auto. Qed.
(** A rate past a thousand million a second passes the checks, and the interval
    between ticks is then zero: the run panics. *)
Example soak_rate_panics :
  let o := mksoakOptions 1000000000 0 (bs "soak") 1 1 1 1 2000000000 1 0 0 false 1 in
  checkSoak o = Ok () ∧
  runSoak (W := demo_world) demo_options o (mkchaosOptions 0 []) [] false Shell_OK 0 1000000000 (demo_node ∅ 5) = None.
Proof. cbv zeta. split; reflexivity. Qed.
